(* ===== verification/_CoqProject ===== *)
-Q . S2P
Prelude.v
Coalescer.v
GoStrings.v
Sha256.v
GoBase64.v
GoUuid.v
GoTime.v
GoJson.v
GoDecode.v
CanonicalJson.v
JsonRoundTrip.v
ComputerEvent.v
EventDecode.v
EventReceipt.v
ProjectionBatch.v
EventAppender.v
GoSql.v
EventStore.v
EventPlatform.v
EventContract.v
EventSync.v
EventStoreLaws.v
EventPlatformLaws.v
EventReplay.v
EventWorld.v
EventRebuild.v
EventDemo.v
RouteLedger.v
BaseModel.v
BasePlanner.v
BaseTree.v
BaseJournal.v
BlobStore.v
DecisionPolicy.v
DecisionReduce.v
TrustedOutbox.v
Solitaire.v
CircuitBreaker.v
RateLimiter.v
Warmness.v
CapsuleBundle.v
ActorLog.v
ActorRuntime.v
ActorProtocol.v
