(* ===== verification/Prelude.v ===== *)
(** * Verification of the Choir core

    Choir runs one computer per user: agents work on it, their effects leave it
    as signed events, and a host decides which version of it is served, keeps
    it awake and lets effects out. This library models the parts of the Go
    program that carry that logic and proves what they promise. Every file
    opens with what it holds; this header is the map of the whole.

    ** The program and the files

    Language and library. [GoStrings], [GoTime], [GoBase64], [GoJson], [GoDecode]
    are the functions of the packages strings, encoding/hex, time, encoding/base64
    and encoding/json the program uses; [GoSql] is a monad of statements and
    transactions that may fail or lose their answer, with rules for what holds
    whatever fails ([wp]) and for what returns when nothing does ([returns]);
    [Sha256] and [GoUuid] are classes for the digest and the identifiers, with
    [fips180] and concrete instances. A string is its bytes, a
    [time.Time] an instant in nanoseconds, an [int] a [Z] that wraps where the
    code adds ([wrap_i64], [wrap_u64]), a map a [gmap], a slice that may be nil
    an option of a list, [(T, error)] the type [res] below.

    Events. [CanonicalJson] (internal/computerevent/canonical.go)
    gives the bytes that are hashed and signed, [JsonRoundTrip] shows they bind
    the value; [ComputerEvent] (event.go, reducer.go, request.go, artifact_ref.go)
    is the envelope of an event and the reducer of a computer's head, [EventDecode]
    reads an envelope back; [EventReceipt] (receipt.go, event_receipt.go) signs and
    verifies; [ProjectionBatch] (projection_batch.go, payload_resolver.go) is what
    an event carries for the tables of the runtime.

    The event chain. [EventAppender] (internal/computerevent/appender.go) appends
    events, recovers from crashes and replays the chain, over dependencies that are
    a class; [EventStore] (internal/store/computer_events.go) is the embedded
    projection, [EventPlatform] (internal/platform: computer_events.go,
    event_artifacts.go, event_replay.go) the platform that owns the chain.
    [EventContract] says what the appender may expect of them, as a class over what
    an observer sees, and the invariant; [EventSync] proves the appender against
    it; [EventStoreLaws] and [EventPlatformLaws] prove that the two implement their
    parts of it, and [EventWorld], which wires them behind the client of
    http_client.go, a network that loses messages and other writers, that the
    whole does. [EventReplay] shows that the pages the platform serves are complete
    and replay, [EventRebuild] that a lost store is rebuilt from them when nothing
    fails, and [EventDemo] evaluates a small world of these parts.

    Versions. [RouteLedger] (internal/routeledger/ledger.go) decides with
    compare-and-set transitions which version a route serves; [CapsuleBundle]
    (internal/capsule/transaction) classifies the changes of a capsule and
    seals them in the bundle such an event proposes.

    Actors. [ActorLog] (internal/actor/log_sqlite.go and the interface Log) is
    the durable log as a class with laws and its SQLite implementation;
    [ActorRuntime] (actor.go) is the runtime over any log with those laws, a
    step relation over goroutines, mutex and channels; [ActorProtocol] relates
    it to specs/actor_protocol.tla; [Coalescer] (coalesce.go) gathers the
    settlements of children into one wake of their parent.

    Decisions and effects. [DecisionPolicy] and [DecisionReduce]
    (internal/decisionpolicy) are policies, ballots and the reducer that turns
    ballots into a consensus receipt; [TrustedOutbox] (internal/trustedoutbox)
    verifies such a receipt and dispatches the effect it allows, once.

    Files. [BaseModel], [BaseJournal], [BaseTree], [BasePlanner], [BlobStore]
    (internal/base) are the journal of a user's files, the tree derived from it,
    the three-way plan that reconciles a tree with a device, and the store of
    contents.

    Host. [CircuitBreaker] (internal/health), [RateLimiter] (internal/gateway)
    and [Warmness] (internal/vmctl) guard dependencies, meter inference and
    choose the computers to hibernate. [Solitaire] (internal/solitaire) is an
    application with rules of its own.

    A definition has the name of the Go function, method or type it models; a
    method takes its receiver, the clock, random values and fresh identifiers
    as arguments and returns the state it leaves with its result. A method that
    holds a mutex throughout is one function; where a mutex is released, or
    goroutines, timers and system calls interleave (Coalescer, Actor files,
    TrustedOutbox, CircuitBreaker, BlobStore), the pieces are the steps of a
    relation or a run function over lists of events, and theorems are about
    every run. A loop over a Go map takes its order as an argument. An error is
    a constructor of an enumeration per component; its text is not kept.

    ** What is shown

    - Refinement: the reducer implements the transition machine of heads; steps
      of orderly runs of the actor runtime are actions of its TLA+ specification, or
      not seen by it, or sweeps that wake agents without work; the SQLite log
      has the laws of its interface; the platform and the store, over a lossy
      network, satisfy the contract the appender is proved against.
    - Invariants: reachable heads, ledgers, journals, trees and games are well
      formed; an agent has one live activation; a recorded consequence of an
      effect is final; journals only grow; whatever fails and whoever appends, the
      chain stays linked and the embedded head is one of its heads.
    - Safety: events, tapes and bundles are tamper evident (a change is detected
      or two texts the statement names are a SHA-256 collision; the theorems of the
      event chain assume instead that the texts of a named set have distinct
      digests, and say so); a reported append is canonical, a lagging one is
      refused, a retried one changes nothing; a receipt means a quorum; only
      authorized effects are sent; a route changes only by a transition from the
      version it serves; plans lose no data; a blob is whole after a crash; a batch
      of children fires once; no logged update is left behind in orderly runs of
      the actors; an open breaker stays shut.
    - Liveness and termination: the coalescer wakes its parent; an activation
      ends its work, within a stated number of steps, with everything processed;
      a replay needs no more pages than the chain fills; without faults a lost
      store is rebuilt.
    - Equivalence: canonical bytes, plans and receipts do not depend on the order
      of members, maps and ballots; a derived tree is the last-writer-wins reading
      of the journal; a page of a replay is a piece of the chain.
    - Bounds, functional behaviour, round trips and errors: what a limiter lets
      through in an interval, when a breaker opens, which computers are swept,
      which changes fall in which ledger, what canonical JSON accepts and that
      it reads back, and runs of the code that go wrong.

    Lemmas that exhibit such runs carry the findings: among others an update
    that an overflow or a failure during the cold start of an actor abandons,
    a seat whose repeated ballots make a quorum, concurrent dispatches that
    send twice, a committed file root that never reduces.

    ** Bounds and fuel

    Fuel appears in the readers of JSON and text, where the length of the input
    is enough and is what they are given; in [ActorProtocol.work], where the
    theorem gives the number of steps that suffices; and in the replay, where it
    bounds the pages ([replay_pages], [Client_Events]) and
    [reconstruct_pages_suffice] shows that a page more than the chain fills is
    never used up by [replay_pages]. Everything else is structural.

    What fails is an argument: [Faults] says for every statement and message
    whether it is carried out, has no effect, or has its effect and loses its
    answer; theorems hold for every such schedule, or say that nothing fails.
    [pl_log] is a ghost: the platform of the program keeps no list of requests,
    and no operation of the model reads it.

    ** What is not modelled

    - Databases, HTTP, processes, file descriptors and third-party packages: most
      of the store, the proxy, auth, mail, VM manager, updater and the SQL variants
      of the route ledger and of the journal. What a component relies on of them is
      an argument or a class.
    - Agents proper (agentcore, textureowner, providers, tools): their state is
      in the store and their decisions in language models.
    - The ownership registry (internal/vmctl), control records
      (internal/selfdevprotocol), the offline source of a replay
      (internal/projectionbase) and the event bus.
    - Around the event chain: the tables a batch is projected into and how
      ([Projector] is a class), the cipher of private payloads, the history of
      control keys, the widths and the JSON type of columns (a column holds the text
      that was written), URLs, capabilities and body limits of the transport; a
      mutex is the order of the calls, the context is one look per record.
    - Within the modelled files: the texts of errors and of logs; the records of
      a solitaire move share memory with the pile in Go and are copies here;
      case is folded and path patterns are matched for the characters the code
      uses; the goroutines [Stop] and [Drain] wait for, and panics outside a
      handler, are left out of the actor runtime; the database rolls failed
      transactions of the log back. *)

From stdpp Require Export base gmap strings list sorting.
From Stdlib Require Export ZArith Lia.

#[export] Set Default Goal Selector "!".

(** ** Results of fallible Go functions

    A Go function returning [(T, error)] returns [res E T]: [Ok v] stands for
    [(v, nil)] and [Err e] for [(zero, e)]; every component has its own
    enumeration [E] of the errors its code builds. *)
Inductive res (E A : Type) : Type :=
  | Ok (a : A)
  | Err (e : E).
Arguments Ok {E A} a.
Arguments Err {E A} e.

Definition is_ok {E A} (r : res E A) : bool :=
  match r with Ok _ => true | Err _ => false end.

Definition ok_or {E A} (d : A) (r : res E A) : A :=
  match r with Ok a => a | Err _ => d end.

Lemma Ok_inj {E A} (x y : A) : Ok x = Ok y :> res E A -> x = y.
Proof. by intros [= ->]. Qed.

Definition res_map_err {E F A} (f : E -> F) (r : res E A) : res F A :=
  match r with Ok a => Ok a | Err e => Err (f e) end.

Declare Scope go_scope.
Delimit Scope go_scope with go.

(** [let? x := e in k] is [x, err := e; if err != nil { return err }; k]. *)
Notation "'let?' x ':=' e 'in' k" :=
  (match e with Ok x => k | Err er => Err er end)
  (at level 10, x pattern, e at level 100, k at level 200,
   format "'[v' 'let?'  x  ':='  e  'in' '/' k ']'") : go_scope.

(** [refuse b with e ;; k] is [if b { return e }; k]. *)
Notation "'refuse' b 'with' e ';;' k" :=
  (if b then Err e else k)
  (at level 10, b at level 99, e at level 99, k at level 200,
   format "'[v' 'refuse'  b  'with'  e  ';;' '/' k ']'") : go_scope.

(** Go's [==] and [!=] on comparable values. *)
Notation "a == b" := (bool_decide (a = b)) (at level 70, no associativity) : go_scope.
Notation "a != b" := (negb (bool_decide (a = b))) (at level 70, no associativity) : go_scope.
#[global] Open Scope go_scope.

(** ** Tactics *)

(** Split a hypothesis that says how a chain of guards evaluated. *)
Ltac go_inv H :=
  simplify_eq/=;
  repeat match type of H with
  | context [match ?x with _ => _ end] =>
      let E := fresh "Hg" in destruct x eqn:E; simplify_eq/=
  end.

Lemma refuse_inv {E A} (b : bool) (e : E) (k : res E A) a :
  (if b then Err e else k) = Ok a -> b = false /\ k = Ok a.
Proof. by destruct b. Qed.

(** Turn boolean guards into propositions. *)
Ltac to_prop :=
  repeat match goal with
  | H : negb _ = true |- _ => apply negb_true_iff in H
  | H : negb _ = false |- _ => apply negb_false_iff in H
  | H : (_ || _)%bool = false |- _ => apply orb_false_iff in H; destruct H
  | H : (_ && _)%bool = true |- _ => apply andb_true_iff in H; destruct H
  | H : bool_decide _ = true |- _ => apply bool_decide_eq_true_1 in H
  | H : bool_decide _ = false |- _ => apply bool_decide_eq_false_1 in H
  | H : Z.eqb _ _ = true |- _ => apply Z.eqb_eq in H
  | H : Z.eqb _ _ = false |- _ => apply Z.eqb_neq in H
  | H : Z.leb _ _ = true |- _ => apply Z.leb_le in H
  | H : Z.leb _ _ = false |- _ => apply Z.leb_gt in H
  | H : Z.ltb _ _ = true |- _ => apply Z.ltb_lt in H
  | H : Z.ltb _ _ = false |- _ => apply Z.ltb_ge in H
  | H : Nat.eqb _ _ = true |- _ => apply Nat.eqb_eq in H
  | H : Nat.eqb _ _ = false |- _ => apply Nat.eqb_neq in H
  | H : Nat.leb _ _ = true |- _ => apply Nat.leb_le in H
  | H : Nat.leb _ _ = false |- _ => apply Nat.leb_gt in H
  | H : Nat.ltb _ _ = true |- _ => apply Nat.ltb_lt in H
  | H : Nat.ltb _ _ = false |- _ => apply Nat.ltb_ge in H
  end; simplify_eq/=.

(** Decide every [bool_decide] of the goal, using the context. *)
Ltac decide_all :=
  repeat (first [ rewrite bool_decide_eq_true_2 by (done || congruence || lia)
                | rewrite bool_decide_eq_false_2 by (done || congruence || lia) ]);
  simpl.

(** Use the conditions collected in the context to evaluate the goal. *)
Ltac use_conds :=
  repeat (match goal with
          | H : ?b = true |- context [?b] => rewrite H
          | H : ?b = false |- context [?b] => rewrite H
          end; cbn [andb]).

(** Case analysis on the conditions of a nested conditional, innermost last. *)
Ltac split_conds H :=
  repeat (match type of H with
          | context [if ?b then _ else _] =>
              lazymatch b with
              | context [if _ then _ else _] => fail
              | _ => let E := fresh "E" in destruct b eqn:E
              end
          end; cbn [andb] in H).

(** ** Lists *)
Lemma filter_perm {A} (f : A -> bool) l1 l2 : l1 ≡ₚ l2 -> List.filter f l1 ≡ₚ List.filter f l2.
Proof.
  induction 1 as [|x l1 l2 _ IH|x y l|l1 l2 l3 _ IH1 _ IH2]; simpl; [done|..].
  - destruct (f x); [by constructor|done].
  - destruct (f x), (f y); try done. by constructor.
  - by etrans.
Qed.

#[export] Instance list_filter_Permutation {A} (f : A -> bool) : Proper ((≡ₚ) ==> (≡ₚ)) (List.filter f).
Proof. intros l1 l2. apply filter_perm. Qed.

Lemma elem_filter {A} (f : A -> bool) l x : x ∈ List.filter f l <-> x ∈ l /\ f x = true.
Proof. rewrite !list_elem_of_In. apply filter_In. Qed.

Lemma existsb_false {A} (f : A -> bool) l : existsb f l = false -> forall x, x ∈ l -> f x = false.
Proof.
  intros He x Hx%list_elem_of_In. destruct (f x) eqn:Ef; [|done].
  assert (existsb f l = true) by (apply existsb_exists; eauto). congruence.
Qed.

Lemma sublist_list_filter {A} (f : A -> bool) l : List.filter f l `sublist_of` l.
Proof. induction l as [|x l IH]; [constructor|]. cbn [List.filter]. destruct (f x); by constructor. Qed.

Lemma Forall_among {A} (P : A -> Prop) (l l' : list A) : (forall x, x ∈ l' -> x ∈ l) -> Forall P l -> Forall P l'.
Proof. rewrite !Forall_forall. auto. Qed.

(** Find an element of an explicit list. *)
Ltac in_list := repeat first [apply list_elem_of_here | apply list_elem_of_further].

(** Prove a closed decidable proposition by evaluating its decision. *)
Ltac by_deciding :=
  match goal with |- ?P => apply (bool_decide_eq_true_1 P); vm_compute; reflexivity end.

(** ** Machine integers *)
Section Machine_integers.
Local Open Scope Z_scope.

Definition wrap_u64 (z : Z) : Z := z mod 2 ^ 64.
Definition wrap_u32 (z : Z) : Z := z mod 2 ^ 32.
Definition wrap_i64 (z : Z) : Z := (z + 2 ^ 63) mod 2 ^ 64 - 2 ^ 63.

Definition is_u64 (z : Z) : Prop := 0 <= z < 2 ^ 64.
Definition is_i64 (z : Z) : Prop := - 2 ^ 63 <= z < 2 ^ 63.

Lemma wrap_u64_range z : is_u64 (wrap_u64 z).
Proof. apply Z.mod_pos_bound. lia. Qed.

Lemma wrap_u64_small z : is_u64 z -> wrap_u64 z = z.
Proof. apply Z.mod_small. Qed.

Lemma wrap_i64_range z : is_i64 (wrap_i64 z).
Proof.
  unfold is_i64, wrap_i64.
  pose proof (Z.mod_pos_bound (z + 2 ^ 63) (2 ^ 64) ltac:(lia)). lia.
Qed.

Lemma wrap_i64_small z : is_i64 z -> wrap_i64 z = z.
Proof. unfold is_i64, wrap_i64. intros H. rewrite Z.mod_small; lia. Qed.

(** The successor of a [uint64] either is the next number or wraps to zero. *)
Lemma wrap_u64_succ z :
  is_u64 z -> wrap_u64 (z + 1) = z + 1 \/ wrap_u64 (z + 1) = 0.
Proof.
  unfold is_u64, wrap_u64. intros H.
  destruct (decide (z = 2 ^ 64 - 1)) as [->|Hne]; [by right|].
  left. apply Z.mod_small. lia.
Qed.

(** The successor of an [int64] either is the next number or the minimum. *)
Lemma wrap_i64_succ z :
  is_i64 z -> wrap_i64 (z + 1) = z + 1 \/ wrap_i64 (z + 1) = - 2 ^ 63.
Proof.
  unfold is_i64. intros H.
  destruct (decide (z = 2 ^ 63 - 1)) as [->|Hne]; [by right|].
  left. apply wrap_i64_small. unfold is_i64. lia.
Qed.
End Machine_integers.

Create HintDb go.

#[export] Hint Resolve wrap_u64_range wrap_i64_range : go.

(** ** Sorting: [sort.Slice]

    [sort.Slice(l, less)] sorts in place and is not stable. [sort_slice] is the
    executable (stable) insertion sort; [sort_slice_unique] says that when no
    two elements of the list share a key, every sorted permutation of the list
    is this one, so that the choice of the algorithm does not matter. *)
Class StrictOrderB {K : Type} (ltb : K -> K -> bool) : Prop := {
  ltb_irrefl : forall a, ltb a a = false;
  ltb_trans : forall a b c, ltb a b = true -> ltb b c = true -> ltb a c = true;
  ltb_tricho : forall a b, ltb a b = false -> ltb b a = false -> a = b;
}.

#[export] Instance Z_ltb_strict : StrictOrderB Z.ltb.
Proof.
  split.
  - intros a. apply Z.ltb_irrefl.
  - intros a b c. rewrite !Z.ltb_lt. lia.
  - intros a b. rewrite !Z.ltb_ge. lia.
Qed.

Section Ascii_order.
Lemma ascii_compare_trans a b c o :
  Ascii.compare a b = o -> Ascii.compare b c = o -> Ascii.compare a c = o.
Proof.
  unfold Ascii.compare. destruct o; intros H1 H2.
  - apply N.compare_eq_iff in H1, H2. apply N.compare_eq_iff. congruence.
  - apply N.compare_lt_iff in H1, H2. apply N.compare_lt_iff. by etrans.
  - apply N.compare_gt_iff in H1, H2. apply N.compare_gt_iff. by etrans.
Qed.

Lemma ascii_compare_refl a : Ascii.compare a a = Eq.
Proof. apply N.compare_refl. Qed.

Lemma string_compare_refl s : String.compare s s = Eq.
Proof. induction s as [|a s IH]; simpl; [done|]. by rewrite ascii_compare_refl. Qed.

Lemma string_compare_lt_trans s1 s2 s3 :
  String.compare s1 s2 = Lt -> String.compare s2 s3 = Lt ->
  String.compare s1 s3 = Lt.
Proof.
  revert s2 s3. induction s1 as [|a s1 IH]; intros [|b s2] [|c s3]; simpl; try done.
  destruct (Ascii.compare a b) eqn:E1, (Ascii.compare b c) eqn:E2; try done.
  - rewrite (ascii_compare_trans a b c Eq E1 E2). eauto.
  - apply Ascii.compare_eq_iff in E1 as ->. by rewrite E2.
  - apply Ascii.compare_eq_iff in E2 as ->. by rewrite E1.
  - by rewrite (ascii_compare_trans a b c Lt E1 E2).
Qed.
End Ascii_order.

#[export] Instance string_ltb_strict : StrictOrderB String.ltb.
Proof.
  split; unfold String.ltb; intros *.
  - by rewrite string_compare_refl.
  - destruct (String.compare a b) eqn:E1, (String.compare b c) eqn:E2; try done.
    by rewrite (string_compare_lt_trans _ _ _ E1 E2).
  - rewrite (String.compare_antisym b a).
    destruct (String.compare a b) eqn:E; try done.
    intros _ _. by apply String.compare_eq_iff.
Qed.

(** The lexicographic order of pairs. *)
Definition pair_ltb {K L} `{EqDecision K} (kltb : K -> K -> bool) (lltb : L -> L -> bool) (a b : K * L) : bool :=
  if a.1 != b.1 then kltb a.1 b.1 else lltb a.2 b.2.

#[export] Instance pair_ltb_strict {K L} `{EqDecision K} (kltb : K -> K -> bool) (lltb : L -> L -> bool)
  `{!StrictOrderB kltb, !StrictOrderB lltb} : StrictOrderB (pair_ltb kltb lltb).
Proof.
  split; unfold pair_ltb.
  - intros [a1 a2]. simpl. rewrite bool_decide_eq_true_2 by done. simpl. apply ltb_irrefl.
  - intros [a1 a2] [b1 b2] [c1 c2]. simpl.
    repeat case_bool_decide; simplify_eq/=; eauto using ltb_trans.
    intros Hab Hba. pose proof (ltb_trans _ _ _ Hab Hba) as Haa. by rewrite ltb_irrefl in Haa.
  - intros [a1 a2] [b1 b2]. simpl. repeat case_bool_decide; simplify_eq/=; intros Hab Hba.
    + f_equal. by apply ltb_tricho.
    + exfalso. by apply H, ltb_tricho.
Qed.

Section Sort_slice.
Context {A : Type} (less : A -> A -> bool).

Fixpoint insert_sorted (x : A) (l : list A) : list A :=
  match l with
  | [] => [x]
  | y :: l' => if less x y then x :: y :: l' else y :: insert_sorted x l'
  end.

Definition sort_slice (l : list A) : list A :=
  foldl (fun acc x => insert_sorted x acc) [] l.

Lemma insert_sorted_Permutation x l : insert_sorted x l ≡ₚ x :: l.
Proof.
  induction l as [|y l IH]; simpl; [done|].
  destruct (less x y); [done|]. rewrite IH. by constructor.
Qed.

Lemma foldl_insert_Permutation l acc :
  foldl (fun acc x => insert_sorted x acc) acc l ≡ₚ l ++ acc.
Proof.
  revert acc. induction l as [|x l IH]; intros acc; simpl; [done|].
  rewrite IH, insert_sorted_Permutation. by rewrite Permutation_middle.
Qed.

Lemma sort_slice_Permutation l : sort_slice l ≡ₚ l.
Proof. unfold sort_slice. by rewrite foldl_insert_Permutation, app_nil_r. Qed.

Lemma elem_of_sort_slice x l : x ∈ sort_slice l <-> x ∈ l.
Proof. by rewrite sort_slice_Permutation. Qed.

Lemma length_sort_slice l : length (sort_slice l) = length l.
Proof. by rewrite sort_slice_Permutation. Qed.
End Sort_slice.

(** Sorting commutes with a map that the order does not see. *)
Lemma sort_slice_map {A B} (g : A -> B) (less : A -> A -> bool) (less' : B -> B -> bool) l :
  (forall a b, less' (g a) (g b) = less a b) ->
  sort_slice less' (map g l) = map g (sort_slice less l).
Proof.
  intros Hg. unfold sort_slice.
  assert (forall x k, insert_sorted less' (g x) (map g k) = map g (insert_sorted less x k)) as Hins.
  { intros x k. induction k as [|y k IH]; simpl; [done|]. rewrite Hg.
    destruct (less x y); simpl; [done|]. by rewrite IH. }
  assert (forall acc, foldl (fun acc x => insert_sorted less' x acc) (map g acc) (map g l) =
    map g (foldl (fun acc x => insert_sorted less x acc) acc l)) as Hgen.
  { induction l as [|x l IH]; intros acc; simpl; [done|]. by rewrite Hins, IH. }
  apply (Hgen []).
Qed.

Section Sort_by_key.
Context {A K : Type} (key : A -> K) (ltb : K -> K -> bool) `{!StrictOrderB ltb}.

Definition key_less (a b : A) : bool := ltb (key a) (key b).
Definition key_sorted (l : list A) : Prop :=
  StronglySorted (fun a b => key_less a b = true) l.

Lemma insert_key_sorted x l :
  key x ∉ key <$> l -> key_sorted l -> key_sorted (insert_sorted key_less x l).
Proof.
  unfold key_sorted. induction l as [|y l IH]; simpl; intros Hx Hs.
  - repeat constructor.
  - apply not_elem_of_cons in Hx as [Hxy Hxl].
    apply StronglySorted_inv in Hs as [Hs Hall].
    destruct (key_less x y) eqn:E.
    + constructor; [by constructor|]. constructor; [done|].
      eapply Forall_impl; [exact Hall|]. simpl. intros z Hz.
      unfold key_less in *. eapply ltb_trans; eauto.
    + constructor; [by apply IH|].
      rewrite (insert_sorted_Permutation key_less x l). constructor; [|done].
      unfold key_less in *. destruct (ltb (key y) (key x)) eqn:E2; [done|].
      destruct Hxy. by apply ltb_tricho.
Qed.

Lemma sort_slice_key_sorted l :
  NoDup (key <$> l) -> key_sorted (sort_slice key_less l).
Proof.
  unfold sort_slice. intros Hnd.
  assert (forall acc, NoDup (key <$> l ++ acc) -> key_sorted acc ->
    key_sorted (foldl (fun acc x => insert_sorted key_less x acc) acc l)) as Hgen.
  { clear Hnd. induction l as [|x l IH]; intros acc Hnd Hs; simpl; [done|].
    simpl in Hnd. apply NoDup_cons in Hnd as [Hx Hnd].
    rewrite fmap_app in Hx, Hnd. apply not_elem_of_app in Hx as [Hxl Hxa].
    apply IH; [|by apply insert_key_sorted].
    rewrite fmap_app, insert_sorted_Permutation. simpl.
    rewrite <-Permutation_middle. constructor; [|done].
    by apply not_elem_of_app. }
  apply Hgen; [by rewrite app_nil_r | constructor].
Qed.

Lemma key_sorted_unique l1 l2 :
  key_sorted l1 -> key_sorted l2 -> l1 ≡ₚ l2 -> l1 = l2.
Proof.
  apply StronglySorted_unique. intros a b Hab Hba. exfalso.
  unfold key_less in *. pose proof (ltb_trans _ _ _ Hab Hba) as H.
  by rewrite ltb_irrefl in H.
Qed.

Lemma sort_slice_unique l l' :
  NoDup (key <$> l) -> l' ≡ₚ l -> key_sorted l' -> sort_slice key_less l = l'.
Proof.
  intros Hnd Hp Hs. apply key_sorted_unique; [by apply sort_slice_key_sorted|done|].
  by rewrite sort_slice_Permutation, Hp.
Qed.

Lemma sort_slice_perm l1 l2 :
  NoDup (key <$> l1) -> l1 ≡ₚ l2 -> sort_slice key_less l1 = sort_slice key_less l2.
Proof.
  intros Hnd Hp. apply sort_slice_unique; [done| |].
  - by rewrite sort_slice_Permutation.
  - apply sort_slice_key_sorted. by rewrite <-Hp.
Qed.

Lemma sort_slice_id l : key_sorted l -> NoDup (key <$> l) -> sort_slice key_less l = l.
Proof. intros Hs Hnd. by apply sort_slice_unique. Qed.
End Sort_by_key.
