(* ===== verification/Coalescer.v ===== *)
(** * Coalescer: bounded coalescing of child settlements into one parent wake

    Models [internal/actor/coalesce.go]. A [Coalescer] is the struct together
    with the Go timers it started: [armed] timers have not elapsed, [running]
    timers have elapsed and their callback goroutine waits for the mutex
    ([Timer.Stop] does not prevent those). Every critical section of the mutex
    is one [label]; a schedule is any list of labels. *)
From S2P Require Import Prelude.

Module Coalescer.
Local Open Scope Z_scope.

Inductive WakeReason := WakeAllComplete | WakeQuiescence | WakeTimeout | WakeTombstone.

#[export] Instance WakeReason_eq_dec : EqDecision WakeReason.
Proof. solve_decision. Defined.

(** [Completed] is a slice filled in map order: a set, its order unspecified. *)
Record WakeBatch := {
  Completed : gset string;
  Tombstones : gmap string string;
  Reason : WakeReason;
}.

Definition DefaultCoalesceWindow : Z := 500000000.

Record t := {
  want : Z;
  window : Z;
  completed : gset string;
  tombstones : gmap string string;
  fired : bool;
  timer : option nat;
  deadline : option nat;
  out : list WakeBatch;
  armed : gmap nat WakeReason;
  running : gmap nat WakeReason;
  next_timer : nat;
}.

(** [if t != nil { t.Stop() }] *)
Definition stop_timer (tm : option nat) (a : gmap nat WakeReason) : gmap nat WakeReason :=
  match tm with Some i => delete i a | None => a end.

Definition NewCoalescer (want window timeout : Z) : t := {|
  want := want;
  window := if window <=? 0 then DefaultCoalesceWindow else window;
  completed := ∅; tombstones := ∅; fired := false; timer := None;
  deadline := if 0 <? timeout then Some 0%nat else None;
  out := [];
  armed := if 0 <? timeout then {[ 0%nat := WakeTimeout ]} else ∅;
  running := ∅; next_timer := 1;
|}.

Definition settledLocked (c : t) : bool :=
  (0 <? want c) && (want c <=? Z.of_nat (size (completed c))).

Definition debounceLocked (c : t) : t := {|
  want := want c; window := window c;
  completed := completed c; tombstones := tombstones c; fired := fired c;
  timer := Some (next_timer c); deadline := deadline c; out := out c;
  armed := <[next_timer c := WakeQuiescence]> (stop_timer (timer c) (armed c));
  running := running c; next_timer := S (next_timer c);
|}.

Definition fireLocked (reason : WakeReason) (c : t) : t :=
  if fired c then c else
  let reason' := if (reason == WakeAllComplete) && negb (tombstones c == ∅)
                 then WakeTombstone else reason in {|
    want := want c; window := window c;
    completed := completed c; tombstones := tombstones c; fired := true;
    timer := timer c; deadline := deadline c;
    out := out c ++ [{| Completed := completed c ∖ dom (tombstones c);
                        Tombstones := tombstones c; Reason := reason' |}];
    armed := stop_timer (deadline c) (stop_timer (timer c) (armed c));
    running := running c; next_timer := next_timer c;
  |}.

Definition settle (id : string) (ts : gmap string string) (c : t) : t := {|
  want := want c; window := window c;
  completed := {[id]} ∪ completed c; tombstones := ts; fired := fired c;
  timer := timer c; deadline := deadline c; out := out c;
  armed := armed c; running := running c; next_timer := next_timer c;
|}.

Definition Complete (id : string) (c : t) : t :=
  if fired c || bool_decide (id ∈ completed c) then c else
  let c := settle id (tombstones c) c in
  if settledLocked c then fireLocked WakeAllComplete c else debounceLocked c.

Definition Fail (id reason : string) (c : t) : t :=
  if fired c then c else
  let c := settle id (<[id := reason]> (tombstones c)) c in
  if settledLocked c then
    if negb (tombstones c == ∅) then fireLocked WakeTombstone c
    else fireLocked WakeAllComplete c
  else debounceLocked c.

Definition Stop (c : t) : t := {|
  want := want c; window := window c;
  completed := completed c; tombstones := tombstones c; fired := fired c;
  timer := timer c; deadline := deadline c; out := out c;
  armed := stop_timer (deadline c) (stop_timer (timer c) (armed c));
  running := running c; next_timer := next_timer c;
|}.

(** The runtime moves an elapsed timer from [armed] to [running]. *)
Definition elapse (i : nat) (r : WakeReason) (c : t) : t := {|
  want := want c; window := window c;
  completed := completed c; tombstones := tombstones c; fired := fired c;
  timer := timer c; deadline := deadline c; out := out c;
  armed := delete i (armed c); running := <[i := r]> (running c);
  next_timer := next_timer c;
|}.

Definition retire (i : nat) (c : t) : t := {|
  want := want c; window := window c;
  completed := completed c; tombstones := tombstones c; fired := fired c;
  timer := timer c; deadline := deadline c; out := out c;
  armed := armed c; running := delete i (running c); next_timer := next_timer c;
|}.

Inductive label :=
  | LComplete (id : string)
  | LFail (id reason : string)
  | LStop
  | LElapse (i : nat)
  | LFire (i : nat).

Definition step (c : t) (l : label) : option t :=
  match l with
  | LComplete id => Some (Complete id c)
  | LFail id reason => Some (Fail id reason c)
  | LStop => Some (Stop c)
  | LElapse i => match armed c !! i with Some r => Some (elapse i r c) | None => None end
  | LFire i => match running c !! i with
               | Some r => Some (fireLocked r (retire i c))
               | None => None
               end
  end.

Fixpoint run (c : t) (ls : list label) : option t :=
  match ls with
  | [] => Some c
  | l :: ls => match step c l with Some c' => run c' ls | None => None end
  end.

(** ** Invariant *)

Definition batch_ok (c : t) (b : WakeBatch) : Prop :=
  Completed b = completed c ∖ dom (tombstones c) /\
  Tombstones b = tombstones c /\
  match Reason b with
  | WakeAllComplete => settledLocked c = true /\ tombstones c = ∅
  | WakeTombstone => settledLocked c = true /\ tombstones c <> ∅
  | WakeQuiescence | WakeTimeout => settledLocked c = false
  end.

Definition timer_reason (r : WakeReason) : Prop := r = WakeQuiescence \/ r = WakeTimeout.

Record inv (c : t) : Prop := {
  inv_out : length (out c) = if fired c then 1%nat else 0%nat;
  inv_unsettled : fired c = false -> settledLocked c = false;
  inv_dom : dom (tombstones c) ⊆ completed c;
  inv_batch : Forall (batch_ok c) (out c);
  inv_armed : map_Forall (fun _ r => timer_reason r) (armed c);
  inv_running : map_Forall (fun _ r => timer_reason r) (running c);
}.

Lemma stop_timer_Forall P tm a :
  map_Forall P a -> map_Forall P (stop_timer tm a).
Proof. intros H. destruct tm; simpl; [by apply map_Forall_delete | done]. Qed.

Lemma settledLocked_empty c : completed c = ∅ -> settledLocked c = false.
Proof.
  intros H. unfold settledLocked. rewrite H, size_empty.
  destruct (Z.ltb_spec 0 (want c)); simpl; [|done]. apply Z.leb_gt. lia.
Qed.

Lemma inv_NewCoalescer w win timeout : inv (NewCoalescer w win timeout).
Proof.
  split; simpl; try done.
  - intros _. by apply settledLocked_empty.
  - destruct (0 <? timeout); [|apply map_Forall_empty].
    apply map_Forall_singleton. by right.
Qed.

Lemma fireLocked_inv r c :
  (fired c = false -> length (out c) = 0%nat) ->
  (fired c = true -> inv c) ->
  dom (tombstones c) ⊆ completed c ->
  map_Forall (fun _ r => timer_reason r) (armed c) ->
  map_Forall (fun _ r => timer_reason r) (running c) ->
  match r with
  | WakeAllComplete => settledLocked c = true
  | WakeTombstone => settledLocked c = true /\ tombstones c <> ∅
  | _ => settledLocked c = false
  end ->
  inv (fireLocked r c).
Proof.
  intros Hout Hfired Hdom Ha Hr Hreason. unfold fireLocked.
  destruct (fired c) eqn:Hf; [by apply Hfired|].
  specialize (Hout eq_refl). apply nil_length_inv in Hout.
  split; simpl; try done.
  - by rewrite Hout.
  - rewrite Hout. simpl. constructor; [|constructor].
    split; [done|]. split; [done|]. simpl.
    destruct r; simpl; try done.
    case_bool_decide; simpl; [done|]. done.
  - by do 2 apply stop_timer_Forall.
Qed.

Lemma debounceLocked_inv c :
  fired c = false -> length (out c) = 0%nat -> settledLocked c = false ->
  dom (tombstones c) ⊆ completed c ->
  map_Forall (fun _ r => timer_reason r) (armed c) ->
  map_Forall (fun _ r => timer_reason r) (running c) ->
  inv (debounceLocked c).
Proof.
  intros Hf Hout Hs Hdom Ha Hr. apply nil_length_inv in Hout.
  split; simpl; try done.
  - by rewrite Hf, Hout.
  - by rewrite Hout.
  - apply map_Forall_insert_2; [by left|]. by apply stop_timer_Forall.
Qed.

Lemma inv_unfired_out c : inv c -> fired c = false -> length (out c) = 0%nat.
Proof. intros Hi Hf. rewrite (inv_out c Hi). by rewrite Hf. Qed.

Lemma Complete_inv id c : inv c -> inv (Complete id c).
Proof.
  intros Hi. unfold Complete. destruct (fired c) eqn:Hf; simpl; [done|].
  case_bool_decide; [done|].
  pose proof (inv_unfired_out c Hi Hf). pose proof (inv_dom c Hi).
  destruct (settledLocked _) eqn:Hs.
  - apply fireLocked_inv; simpl; try apply Hi; try done; [by rewrite Hf | set_solver].
  - apply debounceLocked_inv; simpl; try apply Hi; try done. set_solver.
Qed.

Lemma Fail_inv id reason c : inv c -> inv (Fail id reason c).
Proof.
  intros Hi. unfold Fail. destruct (fired c) eqn:Hf; simpl; [done|].
  pose proof (inv_unfired_out c Hi Hf). pose proof (inv_dom c Hi).
  pose proof (insert_non_empty (tombstones c) id reason).
  rewrite bool_decide_eq_false_2 by done. simpl.
  destruct (settledLocked _) eqn:Hs.
  - apply fireLocked_inv; simpl; try apply Hi; try done; [by rewrite Hf |].
    rewrite dom_insert_L. set_solver.
  - apply debounceLocked_inv; simpl; try apply Hi; try done.
    rewrite dom_insert_L. set_solver.
Qed.

(** The fields a timer label touches do not matter to the rest of [inv]. *)
Lemma inv_timers c a r :
  inv c -> map_Forall (fun _ r => timer_reason r) a ->
  map_Forall (fun _ r => timer_reason r) r ->
  inv {| want := want c; window := window c; completed := completed c;
         tombstones := tombstones c; fired := fired c; timer := timer c;
         deadline := deadline c; out := out c; armed := a; running := r;
         next_timer := next_timer c |}.
Proof. intros Hi Ha Hr. split; simpl; try apply Hi; done. Qed.

Lemma step_inv c l c' : inv c -> step c l = Some c' -> inv c'.
Proof.
  intros Hi. destruct l as [id|id reason| |i|i]; simpl; intros Hs.
  - simplify_eq. by apply Complete_inv.
  - simplify_eq. by apply Fail_inv.
  - simplify_eq. apply inv_timers; [done| |apply Hi].
    do 2 apply stop_timer_Forall. apply Hi.
  - destruct (armed c !! i) as [r|] eqn:E; simplify_eq/=. apply inv_timers; [done| |].
    + apply map_Forall_delete, Hi.
    + apply map_Forall_insert_2; [|apply Hi]. eapply (inv_armed c Hi); eauto.
  - destruct (running c !! i) as [r|] eqn:E; simplify_eq/=.
    pose proof (inv_running c Hi i r E) as Hr.
    assert (inv (retire i c)) as Hi'.
    { apply inv_timers; [done|apply Hi|]. apply map_Forall_delete, Hi. }
    destruct (fired c) eqn:Hf.
    { unfold fireLocked. simpl. rewrite Hf. done. }
    apply fireLocked_inv; try apply Hi'; try done.
    + intros. by apply inv_unfired_out.
    + destruct Hr as [-> | ->]; by apply (inv_unsettled _ Hi').
Qed.

Lemma run_inv ls c c' : inv c -> run c ls = Some c' -> inv c'.
Proof.
  revert c. induction ls as [|l ls IH]; simpl; intros c Hi Hr; simplify_eq/=; [done|].
  destruct (step c l) eqn:E; [|done]. eapply IH; [|done]. by eapply step_inv.
Qed.

(** ** Liveness: while no [Stop] ran, a bound that has been started is pending *)

Definition pending (c : t) (i : nat) : Prop :=
  is_Some (armed c !! i) \/ is_Some (running c !! i).

Record live (c : t) : Prop := {
  live_fresh : forall i, pending c i -> (i < next_timer c)%nat;
  live_distinct : forall i j, timer c = Some i -> deadline c = Some j -> i <> j;
  live_timer_lt : forall i, timer c = Some i -> (i < next_timer c)%nat;
  live_deadline_lt : forall i, deadline c = Some i -> (i < next_timer c)%nat;
  live_deadline : fired c = false -> forall i, deadline c = Some i -> pending c i;
  live_timer : fired c = false -> completed c <> ∅ -> exists i, pending c i;
}.

Lemma live_fired c c' :
  fired c' = true -> live c ->
  timer c' = timer c -> deadline c' = deadline c -> next_timer c' = next_timer c ->
  (forall i, pending c' i -> pending c i) -> live c'.
Proof.
  intros Hf Hl Ht Hd Hn Hp.
  split; rewrite ?Ht, ?Hd, ?Hn, ?Hf; try done; try apply Hl.
  intros i Hi. by apply (live_fresh c Hl), Hp.
Qed.

Lemma pending_stop c tm a i :
  is_Some (stop_timer tm a !! i) \/ is_Some (running c !! i) ->
  is_Some (a !! i) \/ is_Some (running c !! i).
Proof.
  intros [[x Hx]|?]; [|by right]. left. destruct tm; simpl in *; [|by eexists].
  apply lookup_delete_Some in Hx as [_ Hx]. by eexists.
Qed.

Lemma fireLocked_live r c : live c -> live (fireLocked r c).
Proof.
  intros Hl. unfold fireLocked. destruct (fired c) eqn:Hf; [done|].
  eapply live_fired; [done|exact Hl|done..|].
  intros i Hi. unfold pending in *. simpl in *. by do 2 apply pending_stop in Hi.
Qed.

Lemma settle_live_fire id ts r c :
  live c -> fired c = false -> live (fireLocked r (settle id ts c)).
Proof.
  intros Hl Hf. unfold fireLocked. simpl. rewrite Hf.
  eapply live_fired; [done|exact Hl|done..|].
  intros i Hi. unfold pending in *. simpl in *. by do 2 apply pending_stop in Hi.
Qed.

Lemma settle_live_debounce id ts c : live c -> live (debounceLocked (settle id ts c)).
Proof.
  intros Hl. split; simpl.
  - intros i Hi. unfold pending in Hi. simpl in Hi.
    destruct (decide (i = next_timer c)) as [->|Hne]; [lia|].
    rewrite lookup_insert_ne in Hi by done. apply pending_stop in Hi.
    pose proof (live_fresh c Hl i Hi). lia.
  - intros i j [= <-] Hj. pose proof (live_deadline_lt c Hl j Hj). lia.
  - intros i [= <-]. lia.
  - intros i Hi. pose proof (live_deadline_lt c Hl i Hi). lia.
  - intros Hf i Hi. unfold pending. simpl.
    destruct (decide (i = next_timer c)) as [->|Hne].
    { left. rewrite lookup_insert_eq. by eexists. }
    rewrite lookup_insert_ne by done.
    destruct (live_deadline c Hl Hf i Hi) as [[x Hx]|?]; [|by right].
    left. destruct (timer c) as [j|] eqn:Et; simpl; [|by eexists].
    rewrite lookup_delete_ne; [by eexists|]. by eapply (live_distinct c Hl).
  - intros _ _. exists (next_timer c). left. simpl. rewrite lookup_insert_eq. by eexists.
Qed.

Lemma live_NewCoalescer w win timeout : live (NewCoalescer w win timeout).
Proof.
  split; unfold pending; simpl; try done.
  - intros i [[x Hx]|[x Hx]]; [|done].
    destruct (0 <? timeout); [|done]. apply lookup_singleton_Some in Hx. lia.
  - intros i. destruct (0 <? timeout); intros; simplify_eq. lia.
  - intros _ i. destruct (0 <? timeout); intros; simplify_eq.
    left. rewrite lookup_singleton_eq. by eexists.
Qed.

(** An elapsing timer stays pending. *)
Lemma elapse_pending c i r j :
  armed c !! i = Some r -> pending (elapse i r c) j <-> pending c j.
Proof.
  intros Ha. unfold pending. simpl. destruct (decide (i = j)) as [->|Hne].
  - rewrite lookup_delete_eq, lookup_insert_eq, Ha. split; eauto.
  - by rewrite lookup_delete_ne, lookup_insert_ne.
Qed.

Lemma step_live c l c' : l <> LStop -> live c -> step c l = Some c' -> live c'.
Proof.
  intros Hns Hl. destruct l as [id|id reason| |i|i]; simpl; intros Hs; simplify_eq/=.
  - unfold Complete. destruct (fired c) eqn:Hf; simpl; [done|].
    case_bool_decide; [done|]. destruct (settledLocked _).
    + by apply settle_live_fire.
    + by apply settle_live_debounce.
  - unfold Fail. destruct (fired c) eqn:Hf; simpl; [done|].
    destruct (settledLocked _); [|by apply settle_live_debounce].
    destruct (negb _); by apply settle_live_fire.
  - destruct (armed c !! i) as [r|] eqn:E; simplify_eq/=.
    split; simpl; try setoid_rewrite (elapse_pending c i r _ E).
    + apply (live_fresh c Hl).
    + apply (live_distinct c Hl).
    + apply (live_timer_lt c Hl).
    + apply (live_deadline_lt c Hl).
    + apply (live_deadline c Hl).
    + apply (live_timer c Hl).
  - destruct (running c !! i) as [r|] eqn:E; simplify_eq/=.
    unfold fireLocked. simpl. destruct (fired c) eqn:Hf.
    + eapply live_fired; [done|exact Hl|done..|]. unfold pending. simpl.
      intros j [?|[x Hx]]; [by left|]. apply lookup_delete_Some in Hx as [_ Hx]. eauto.
    + eapply live_fired; [done|exact Hl|done..|]. unfold pending. simpl.
      intros j Hj. do 2 apply (pending_stop (retire i c)) in Hj. simpl in Hj.
      destruct Hj as [?|[x Hx]]; [by left|].
      apply lookup_delete_Some in Hx as [_ Hx]. eauto.
Qed.

Lemma run_live ls c c' : LStop ∉ ls -> live c -> run c ls = Some c' -> live c'.
Proof.
  revert c. induction ls as [|l ls IH]; simpl; intros c Hns Hl Hr; simplify_eq/=; [done|].
  apply not_elem_of_cons in Hns as [? ?].
  destruct (step c l) eqn:E; [|done]. eapply IH; [done| |done]. by eapply step_live.
Qed.

Lemma fireLocked_fired r c : fired (fireLocked r c) = true.
Proof. unfold fireLocked. by destruct (fired c) eqn:E. Qed.

(** A pending timer fires the batch in at most two runtime steps. *)
Lemma pending_fires c i :
  pending c i ->
  exists ls c', Forall (fun l => l = LElapse i \/ l = LFire i) ls /\
    run c ls = Some c' /\ fired c' = true.
Proof.
  intros [[r Hr]|[r Hr]].
  - exists [LElapse i; LFire i], (fireLocked r (retire i (elapse i r c))).
    split; [by auto|]. simpl. rewrite Hr. simpl. rewrite lookup_insert_eq.
    split; [done|]. apply fireLocked_fired.
  - exists [LFire i], (fireLocked r (retire i c)).
    split; [by auto|]. simpl. rewrite Hr. split; [done|]. apply fireLocked_fired.
Qed.

Lemma run_deadline ls c c' : run c ls = Some c' -> deadline c' = deadline c.
Proof.
  revert c. induction ls as [|l ls IH]; simpl; intros c Hr; simplify_eq/=; [done|].
  destruct (step c l) eqn:E; [|done]. rewrite (IH _ Hr).
  destruct l; simpl in E; repeat case_match; simplify_eq/=; try done;
    unfold Complete, Fail, fireLocked; repeat case_match; done.
Qed.

(** A fired coalescer never changes its batch or its settlements again. *)
Lemma step_fired c l c' :
  fired c = true -> step c l = Some c' ->
  fired c' = true /\ out c' = out c /\ completed c' = completed c /\
  tombstones c' = tombstones c /\ want c' = want c.
Proof.
  intros Hf Hs. destruct l; simpl in Hs; repeat case_match; simplify_eq/=; try done;
    unfold Complete, Fail, fireLocked; simpl; by rewrite Hf.
Qed.

Lemma run_fired ls c c' :
  fired c = true -> run c ls = Some c' ->
  fired c' = true /\ out c' = out c /\ completed c' = completed c /\
  tombstones c' = tombstones c /\ want c' = want c.
Proof.
  revert c. induction ls as [|l ls IH]; simpl; intros c Hf Hr; simplify_eq/=; [done|].
  destruct (step c l) eqn:E; [|done].
  apply step_fired in E as (Hf' & Ho & Hc & Ht & Hw); [|done].
  destruct (IH _ Hf' Hr) as (? & ? & ? & ? & ?). repeat split; congruence.
Qed.

(** Labels that do not settle any child. *)
Definition is_settlement (l : label) : bool :=
  match l with LComplete _ | LFail _ _ => true | _ => false end.

Definition idle (c : t) : Prop := out c = [] /\ armed c = ∅ /\ running c = ∅.

Lemma idle_stays ls c c' :
  Forall (fun l => is_settlement l = false) ls -> idle c -> run c ls = Some c' -> idle c'.
Proof.
  revert c. induction ls as [|l ls IH]; simpl; intros c Hls Hi Hr; simplify_eq/=; [done|].
  apply Forall_cons in Hls as [Hl Hls]. destruct (step c l) as [c1|] eqn:E; [|done].
  eapply IH; [done| |done]. destruct Hi as (Ho & Ha & Hrun).
  destruct l; simpl in Hl, E; simplify_eq/=.
  - split; [done|]. split; [|done]. simpl. rewrite Ha.
    destruct (timer c), (deadline c); simpl; rewrite ?delete_empty; done.
  - by rewrite Ha, lookup_empty in E.
  - by rewrite Hrun, lookup_empty in E.
Qed.


(** No waiter is stranded: as long as [Stop] was not called, a coalescer
    that has not fired yet and that has a timeout, or in which some child has
    settled, has a timer pending, and letting that timer elapse and run its
    callback fires the batch, without any further settlement. *)
Theorem coalescer_wakes w win timeout ls c
    (Hstop : LStop ∉ ls)
    (Hrun : run (NewCoalescer w win timeout) ls = Some c)
    (Hfired : fired c = false)
    (Hbound : 0 < timeout \/ completed c <> ∅) :
  exists i ls' c',
    Forall (fun l => l = LElapse i \/ l = LFire i) ls' /\
    run c ls' = Some c' /\ fired c' = true /\ length (out c') = 1%nat.
Proof.
  pose proof (run_live _ _ _ Hstop (live_NewCoalescer w win timeout) Hrun) as Hl.
  assert (exists i, pending c i) as [i Hp].
  { destruct Hbound as [Ht|Hc]; [|by apply (live_timer c Hl)].
    exists 0%nat. apply (live_deadline c Hl Hfired).
    rewrite (run_deadline _ _ _ Hrun). simpl.
    destruct (Z.ltb_spec 0 timeout); [done|lia]. }
  destruct (pending_fires c i Hp) as (ls' & c' & Hls & Hr & Hf).
  exists i, ls', c'. repeat split; try done.
  assert (inv c') as Hi.
  { eapply run_inv; [|exact Hr]. eapply run_inv; [|exact Hrun]. apply inv_NewCoalescer. }
  by rewrite (inv_out c' Hi), Hf.
Qed.

(** The bound that is missing: a coalescer made with no timeout sends
    nothing, whatever timers elapse and callbacks run, until a first child
    settles, although [Wait] is documented to always yield a batch. *)
Theorem coalescer_unbounded_wait w win timeout ls c
    (Htimeout : timeout <= 0)
    (Hsettle : Forall (fun l => is_settlement l = false) ls)
    (Hrun : run (NewCoalescer w win timeout) ls = Some c) :
  out c = [] /\ armed c = ∅ /\ running c = ∅.
Proof.
  eapply idle_stays; [done| |done]. unfold idle. simpl.
  destruct (Z.ltb_spec 0 timeout); [lia|done].
Qed.

(** ** Witnesses *)


Lemma coalescer_wakes_witness :
  exists c, run (NewCoalescer 0 0 0) [LComplete "a"] = Some c /\
    exists i ls' c',
      Forall (fun l => l = LElapse i \/ l = LFire i) ls' /\
      run c ls' = Some c' /\ fired c' = true /\ length (out c') = 1%nat.
Proof.
  eexists. split; [vm_compute; reflexivity|].
  apply (coalescer_wakes 0 0 0 [LComplete "a"]).
  - apply not_elem_of_cons. split; [done | apply not_elem_of_nil].
  - vm_compute; reflexivity.
  - reflexivity.
  - right. done.
Defined.

Lemma coalescer_unbounded_wait_witness :
  exists c, run (NewCoalescer 3 0 0) [LStop] = Some c /\
    out c = [] /\ armed c = ∅ /\ running c = ∅.
Proof.
  eexists. split; [vm_compute; reflexivity|].
  apply (coalescer_unbounded_wait 3 0 0 [LStop]).
  - lia.
  - by repeat constructor.
  - vm_compute; reflexivity.
Defined.
End Coalescer.
