(* ===== verification/GoStrings.v ===== *)
(** * GoStrings: the functions of Go's [strings] and [hex] the program uses

    A Go string is a sequence of bytes: [string] with one [ascii] per byte. *)
From S2P Require Import Prelude.
From Stdlib Require Import Ascii String.
From stdpp Require Import pretty.

Definition chars (s : string) : list ascii := list_ascii_of_string s.
Definition of_chars (l : list ascii) : string := string_of_list_ascii l.

Lemma of_chars_chars s : of_chars (chars s) = s.
Proof. apply string_of_list_ascii_of_string. Qed.
Lemma chars_of_chars l : chars (of_chars l) = l.
Proof. apply list_ascii_of_string_of_list_ascii. Qed.

Lemma chars_inj s1 s2 : chars s1 = chars s2 -> s1 = s2.
Proof. intros H. by rewrite <-(of_chars_chars s1), H, of_chars_chars. Qed.

Lemma chars_app s1 s2 : chars (s1 +:+ s2) = chars s1 ++ chars s2.
Proof. induction s1 as [|a s1 IH]; simpl; [done|]. by rewrite IH. Qed.

Lemma length_chars s : Datatypes.length (chars s) = String.length s.
Proof. induction s as [|a s IH]; simpl; [done|]. by rewrite IH. Qed.

Lemma string_app_nil_r s : s +:+ "" = s.
Proof. apply chars_inj. by rewrite chars_app, app_nil_r. Qed.

Lemma string_app_inj_l s s1 s2 : s +:+ s1 = s +:+ s2 -> s1 = s2.
Proof.
  intros H. apply (f_equal chars) in H. rewrite !chars_app in H.
  by apply app_inv_head, chars_inj in H.
Qed.

Lemma string_app_inj_length s1 s2 t1 t2 :
  String.length s1 = String.length t1 -> s1 +:+ s2 = t1 +:+ t2 -> s1 = t1 /\ s2 = t2.
Proof.
  intros Hl H. apply (f_equal chars) in H. rewrite !chars_app in H.
  apply app_inj_1 in H as [H1 H2]; [|by rewrite !length_chars].
  split; by apply chars_inj.
Qed.

Definition code (a : ascii) : N := N_of_ascii a.
Definition byte_of (n : N) : ascii := ascii_of_N n.
Definition chr (n : N) : string := String (byte_of n) EmptyString.
Definition in_range (lo hi : N) (a : ascii) : bool := ((lo <=? code a) && (code a <=? hi))%N.

(** Go's [len(s)]. *)
Definition len (s : string) : nat := String.length s.

Definition HasPrefix (s p : string) : bool := String.prefix p s.

Definition TrimPrefix (s p : string) : string :=
  if HasPrefix s p then String.substring (len p) (len s - len p) s else s.

Definition drop_string (n : nat) (s : string) : string := of_chars (drop n (chars s)).

Definition itoa (z : Z) : string := pretty z.

(** [strings.ContainsAny(s, cs)] for an ASCII [cs]. *)
Definition ContainsAny (s cs : string) : bool :=
  existsb (fun a => existsb (Ascii.eqb a) (chars cs)) (chars s).

(** [strings.Split(s, sep)] for a one-byte [sep]. *)
Fixpoint split_chars (sep : ascii) (cur l : list ascii) : list string :=
  match l with
  | [] => [of_chars (rev cur)]
  | a :: l => if Ascii.eqb a sep then of_chars (rev cur) :: split_chars sep [] l
              else split_chars sep (a :: cur) l
  end.
Definition Split (s : string) (sep : ascii) : list string := split_chars sep [] (chars s).

(** ** [hex] *)

Definition is_hex_digit (a : ascii) : bool :=
  in_range 48 57 a || in_range 97 102 a || in_range 65 70 a.
Definition is_lower_hex (a : ascii) : bool := in_range 48 57 a || in_range 97 102 a.
Definition is_digit (a : ascii) : bool := in_range 48 57 a.

(** [hex.DecodeString(s)] returns no error. *)
Definition hex_decodes (s : string) : bool :=
  Nat.even (len s) && forallb is_hex_digit (chars s).

(** [strings.ToLower] on the bytes below 0x80. *)
Definition to_lower (s : string) : string :=
  of_chars (map (fun a => if in_range 65 90 a then byte_of (code a + 32) else a) (chars s)).

(** ** [strings.TrimSpace]

    The Unicode white space characters by their UTF-8 encodings: one, two or
    three bytes. *)
Definition space1 (a : ascii) : bool := in_range 9 13 a || (code a =? 32)%N.
Definition space2 (a b : ascii) : bool :=
  (code a =? 194)%N && ((code b =? 133)%N || (code b =? 160)%N).
Definition space3 (a b c : ascii) : bool :=
  ((code a =? 225) && (code b =? 154) && (code c =? 128))%N
  || ((code a =? 226)%N && (code b =? 128)%N &&
      (in_range 128 138 c || (code c =? 168)%N || (code c =? 169)%N || (code c =? 175)%N))
  || ((code a =? 226) && (code b =? 129) && (code c =? 159))%N
  || ((code a =? 227) && (code b =? 128) && (code c =? 128))%N.

Section Trim.
Context (p1 : ascii -> bool) (p2 : ascii -> ascii -> bool)
        (p3 : ascii -> ascii -> ascii -> bool).

Fixpoint trim (l : list ascii) : list ascii :=
  match l with
  | [] => []
  | a :: l1 =>
    if p1 a then trim l1 else
    match l1 with
    | [] => l
    | b :: l2 =>
      if p2 a b then trim l2 else
      match l2 with
      | [] => l
      | c :: l3 => if p3 a b c then trim l3 else l
      end
    end
  end.

Definition lead (l : list ascii) : bool :=
  match l with
  | [] => false
  | a :: l1 => p1 a || match l1 with
    | [] => false
    | b :: l2 => p2 a b || match l2 with [] => false | c :: _ => p3 a b c end
    end
  end.

Lemma trim_id l : lead l = false -> trim l = l.
Proof.
  destruct l as [|a [|b [|c l]]]; simpl; [done|..]; destruct (p1 a); simpl; try done.
  all: destruct (p2 a b); simpl; try done. by intros ->.
Qed.

(** Either nothing is stripped, or a non-empty piece is. *)
Lemma trim_cases l :
  (lead l = false /\ trim l = l) \/
  exists k l', l = k ++ l' /\ k <> [] /\ trim l = trim l'.
Proof.
  destruct (lead l) eqn:Hl; [|left; split; [done|by apply trim_id]]. right.
  destruct l as [|a [|b [|c l]]]; simpl in Hl |- *; [done|..]; destruct (p1 a) eqn:E1.
  - by exists [a], [].
  - done.
  - by exists [a], [b].
  - destruct (p2 a b); [by exists [a; b], []|done].
  - by exists [a], (b :: c :: l).
  - destruct (p2 a b); [by exists [a; b], (c :: l)|]. simpl in Hl.
    rewrite Hl. by exists [a; b; c], l.
Qed.

Lemma trim_spec l : lead (trim l) = false /\ exists k, l = k ++ trim l.
Proof.
  remember (Datatypes.length l) as n eqn:Hn. revert l Hn.
  induction n as [n IH] using lt_wf_ind. intros l ->.
  destruct (trim_cases l) as [[Hl ->]|(k & l' & -> & Hk & ->)].
  - split; [done|]. by exists [].
  - destruct k as [|x k]; [done|].
    destruct (IH (Datatypes.length l')) with (l := l') as [Hl [k' Hk']]; [|done|].
    { simpl. rewrite length_app. lia. }
    split; [done|]. exists ((x :: k) ++ k'). by rewrite <-(assoc_L (++)), <-Hk'.
Qed.

Lemma lead_prefix l k : lead (l ++ k) = false -> lead l = false.
Proof.
  destruct l as [|a [|b [|c l]]]; simpl; [done|..]; destruct (p1 a); simpl; try done.
  all: by destruct (p2 a b).
Qed.
End Trim.

Definition trim_left (l : list ascii) : list ascii := trim space1 space2 space3 l.
Definition trim_right (l : list ascii) : list ascii :=
  rev (trim space1 (fun a b => space2 b a) (fun a b c => space3 c b a) (rev l)).

Definition TrimSpace (s : string) : string := of_chars (trim_right (trim_left (chars s))).

Lemma TrimSpace_idemp s : TrimSpace (TrimSpace s) = TrimSpace s.
Proof.
  unfold TrimSpace. rewrite chars_of_chars. f_equal.
  unfold trim_right, trim_left.
  set (q2 := fun a b => space2 b a). set (q3 := fun a b c => space3 c b a).
  set (u := trim space1 space2 space3 (chars s)).
  destruct (trim_spec space1 space2 space3 (chars s)) as [Hu _]. fold u in Hu.
  destruct (trim_spec space1 q2 q3 (rev u)) as [Hv [k Hk]].
  set (v := trim space1 q2 q3 (rev u)) in *.
  assert (u = rev v ++ rev k) as Huv.
  { by rewrite <-rev_app_distr, <-Hk, rev_involutive. }
  rewrite (trim_id space1 space2 space3 (rev v)).
  - by rewrite rev_involutive, (trim_id space1 q2 q3 v).
  - rewrite Huv in Hu. by eapply lead_prefix.
Qed.

(** A string is trimmed when neither end is white space. *)
Definition rlead (l : list ascii) : bool :=
  lead space1 (fun a b => space2 b a) (fun a b c => space3 c b a) (rev l).

Lemma TrimSpace_fixed s :
  lead space1 space2 space3 (chars s) = false -> rlead (chars s) = false -> TrimSpace s = s.
Proof.
  intros Hl Hr. unfold TrimSpace, trim_left, trim_right. rewrite (trim_id _ _ _ _ Hl).
  rewrite trim_id by exact Hr. rewrite rev_involutive. apply of_chars_chars.
Qed.

Lemma TrimSpace_rlead s : TrimSpace s = s -> rlead (chars s) = false.
Proof.
  intros <-. unfold TrimSpace, trim_right, rlead. rewrite chars_of_chars, rev_involutive.
  apply trim_spec.
Qed.

(** A separator that is no part of a white space character protects what stands
    before it. *)
Lemma rlead_app l k :
  k <> [] -> rlead k = false -> rlead (l ++ ":"%char :: k) = false.
Proof.
  unfold rlead. intros Hne Hk. rewrite rev_app_distr. simpl. rewrite <-(assoc_L (++)).
  destruct (rev k) as [|x [|y [|z k']]] eqn:E; simpl in *.
  - apply (f_equal (@rev _)) in E. by rewrite rev_involutive in E.
  - rewrite orb_false_r in Hk. rewrite Hk. simpl.
    destruct (rev l) as [|z]; [done|]. simpl.
    unfold space3. simpl. by rewrite !andb_false_r.
  - destruct (space1 x), (space2 y x); try done.
  - done.
Qed.

Lemma split_chars_app sep cur l k :
  sep ∉ l -> split_chars sep cur (l ++ sep :: k) = of_chars (rev cur ++ l) :: split_chars sep [] k.
Proof.
  revert cur. induction l as [|a l IH]; intros cur Hs; simpl.
  - by rewrite Ascii.eqb_refl, app_nil_r.
  - destruct (Ascii.eqb_spec a sep); [set_solver|].
    rewrite IH by set_solver. simpl. by rewrite <-(assoc_L (++)).
Qed.

Lemma split_chars_last sep cur l :
  sep ∉ l -> split_chars sep cur l = [of_chars (rev cur ++ l)].
Proof.
  revert cur. induction l as [|a l IH]; intros cur Hs; simpl; [by rewrite app_nil_r|].
  destruct (Ascii.eqb_spec a sep); [set_solver|].
  rewrite IH by set_solver. simpl. by rewrite <-(assoc_L (++)).
Qed.

Definition blank (s : string) : bool := TrimSpace s == "".

(** [computerevent.isSHA256]: 64 lower-case hexadecimal digits. A byte at or
    above 0x80 is left alone by [to_lower], but [hex.DecodeString] refuses it. *)
Definition isSHA256 (value : string) : bool :=
  if negb (Nat.eqb (len value) 64) || (to_lower value != value) then false
  else hex_decodes value.

Lemma isSHA256_length s : isSHA256 s = true -> len s = 64.
Proof. unfold isSHA256. destruct (Nat.eqb_spec (len s) 64); simpl; [done|done]. Qed.

Lemma isSHA256_nonempty s : isSHA256 s = true -> s <> "".
Proof. intros H ->. by apply isSHA256_length in H. Qed.

Lemma to_lower_id l :
  forallb is_lower_hex l = true ->
  map (fun a => if in_range 65 90 a then byte_of (code a + 32) else a) l = l.
Proof.
  induction l as [|a l IH]; simpl; [done|]. intros H.
  apply andb_true_iff in H as [Ha Hl]. rewrite (IH Hl). f_equal.
  replace (in_range 65 90 a) with false; [done|]. symmetry. apply not_true_iff_false.
  unfold is_lower_hex, in_range in *. rewrite orb_true_iff, !andb_true_iff, !N.leb_le in *. lia.
Qed.

(** Any 64 lower-case hexadecimal digits are a SHA-256 in this sense. *)
Lemma isSHA256_intro l :
  Datatypes.length l = 64 -> forallb is_lower_hex l = true -> isSHA256 (of_chars l) = true.
Proof.
  intros Hlen Hl. unfold isSHA256, len, hex_decodes, len, to_lower.
  rewrite <-!length_chars, chars_of_chars, Hlen. simpl.
  rewrite (to_lower_id l Hl), bool_decide_eq_true_2 by done. simpl.
  clear Hlen. induction l as [|a l IH]; simpl in *; [done|].
  apply andb_true_iff in Hl as [Ha Hl]. rewrite (IH Hl), andb_true_r.
  unfold is_hex_digit, is_lower_hex in *. by rewrite Ha.
Qed.
