(* ===== verification/Sha256.v ===== *)
(** * Sha256: the digest the program computes everywhere

    Every digest of the program is the lower-case hexadecimal SHA-256 of some
    bytes ([hex.EncodeToString(sha256.Sum256(b))], [fmt.Sprintf] with [%x]).
    The components are stated against the class [Sha256]: a function to strings
    and the only law the code relies on, the shape of the result. Collision
    freedom is never assumed: theorems that need it conclude with a collision
    among the very texts the program hashed, or take as hypothesis that there is
    none among them. [fips180] is the real function and an instance. *)
From S2P Require Import Prelude GoStrings.
From Stdlib Require Import Ascii String.

Class Sha256 := {
  sha256_hex : string -> string;
  sha256_hex_shape : forall s, isSHA256 (sha256_hex s) = true;
}.

(** Two different texts of a list with one digest. *)
Definition collision_in `{Sha256} (texts : list string) : Prop :=
  exists x y, x ∈ texts /\ y ∈ texts /\ x <> y /\ sha256_hex x = sha256_hex y.

(** No two of these texts have one digest. *)
Definition sha256_distinct `{Sha256} (texts : string -> Prop) : Prop :=
  forall x y, texts x -> texts y -> sha256_hex x = sha256_hex y -> x = y.

Lemma collision_in_subset `{Sha256} l1 l2 : l1 ⊆ l2 -> collision_in l1 -> collision_in l2.
Proof. intros Hl (x & y & Hx & Hy & Hc). exists x, y. auto. Qed.

Lemma sha256_hex_nonempty `{Sha256} s : sha256_hex s <> "".
Proof. apply isSHA256_nonempty, sha256_hex_shape. Qed.

Lemma sha256_hex_length `{Sha256} s : len (sha256_hex s) = 64%nat.
Proof. apply isSHA256_length, sha256_hex_shape. Qed.

(** Equal digests come from equal inputs or exhibit a collision. *)
Lemma sha256_hex_eq `{Sha256} x y l :
  sha256_hex x = sha256_hex y -> x ∈ l -> y ∈ l -> x = y \/ collision_in l.
Proof. intros Heq Hx Hy. destruct (decide (x = y)) as [->|Hne]; [by left|]. right. by exists x, y. Qed.

(** ** FIPS 180-4 *)
Module Fips180.
Local Open Scope N_scope.

Definition w32 (x : N) : N := x mod 2 ^ 32.
Definition add32 (x y : N) : N := w32 (x + y).
Definition rotr (n x : N) : N := N.lor (N.shiftr x n) (w32 (N.shiftl x (32 - n))).
Definition Ch (x y z : N) : N := N.lxor (N.land x y) (N.land (N.lxor x 4294967295) z).
Definition Maj (x y z : N) : N := N.lxor (N.lxor (N.land x y) (N.land x z)) (N.land y z).
Definition Sig0 x := N.lxor (N.lxor (rotr 2 x) (rotr 13 x)) (rotr 22 x).
Definition Sig1 x := N.lxor (N.lxor (rotr 6 x) (rotr 11 x)) (rotr 25 x).
Definition sig0 x := N.lxor (N.lxor (rotr 7 x) (rotr 18 x)) (N.shiftr x 3).
Definition sig1 x := N.lxor (N.lxor (rotr 17 x) (rotr 19 x)) (N.shiftr x 10).

(** The constants are the first 32 bits of the fractional parts of the cube
    roots of the first 64 primes, and of the square roots of the first eight. *)
Definition is_prime (n : N) : bool :=
  (2 <=? n) && forallb (fun d => negb (n mod N.of_nat d =? 0)) (seq 2 (N.to_nat n - 2)).
Definition primes : list N := List.filter is_prime (map N.of_nat (seq 2 310)).

(** The largest [x] with [x ^ e <= n], by its bits from [fuel - 1] down. *)
Fixpoint iroot (fuel : nat) (e n x : N) : N :=
  match fuel with
  | O => x
  | S fuel => let y := x + 2 ^ N.of_nat fuel in iroot fuel e n (if y ^ e <=? n then y else x)
  end.
Definition root_bits (e p : N) : N := w32 (iroot 40 e (p * 2 ^ (32 * e)) 0).

Definition K : list N := Eval vm_compute in map (root_bits 3) primes.
Definition IV : list N := Eval vm_compute in map (root_bits 2) (take 8 primes).

Definition be32 (n : N) : list N :=
  map (fun k => N.land (N.shiftr n k) 255) [24; 16; 8; 0].

Definition pad (m : list N) : list N :=
  let l := N.of_nat (Datatypes.length m) in
  m ++ [128] ++ repeat 0 (N.to_nat ((119 - l mod 64) mod 64))
    ++ be32 (N.shiftr (8 * l) 32) ++ be32 (w32 (8 * l)).

Fixpoint words (l : list N) : list N :=
  match l with
  | a :: b :: c :: d :: l =>
    N.lor (N.lor (N.shiftl a 24) (N.shiftl b 16)) (N.lor (N.shiftl c 8) d) :: words l
  | _ => []
  end.

Definition round (st : list N * list N) (k : N) : list N * list N :=
  match st with
  | ([a; b; c; d; e; f; g; h], w) =>
    let w0 := nth 0 w 0 in
    let t1 := add32 (add32 (add32 h (Sig1 e)) (add32 (Ch e f g) k)) w0 in
    let t2 := add32 (Sig0 a) (Maj a b c) in
    let wn := add32 (add32 (sig1 (nth 14 w 0)) (nth 9 w 0)) (add32 (sig0 (nth 1 w 0)) w0) in
    ([add32 t1 t2; a; b; c; add32 d t1; e; f; g], tl w ++ [wn])
  | _ => st
  end.

Definition compress (h block : list N) : list N :=
  zip_with add32 h (fst (fold_left round K (h, block))).

Fixpoint process (fuel : nat) (h ws : list N) : list N :=
  match fuel, ws with
  | S fuel, _ :: _ => process fuel (compress h (take 16 ws)) (drop 16 ws)
  | _, _ => h
  end.

Definition digest (m : list N) : list N :=
  let ws := words (pad m) in process (Datatypes.length ws) IV ws.

Definition hex_digits : list ascii := chars "0123456789abcdef".
Definition hex_digit (n : N) : ascii := nth (N.to_nat n) hex_digits "0"%char.
Definition hex_word (w : N) : list ascii :=
  map (fun k => hex_digit (N.land (N.shiftr w k) 15)) [28; 24; 20; 16; 12; 8; 4; 0].

(** The eight words of the digest, in hexadecimal. *)
Definition hex_words (h : list N) : list ascii :=
  hex_word (nth 0 h 0) ++ hex_word (nth 1 h 0) ++ hex_word (nth 2 h 0) ++ hex_word (nth 3 h 0) ++
  hex_word (nth 4 h 0) ++ hex_word (nth 5 h 0) ++ hex_word (nth 6 h 0) ++ hex_word (nth 7 h 0).

Definition sum_hex (s : string) : string := of_chars (hex_words (digest (map code (chars s)))).

Lemma hex_digit_lower n : is_lower_hex (hex_digit n) = true.
Proof.
  unfold hex_digit.
  destruct (nth_in_or_default (N.to_nat n) hex_digits "0"%char) as [H| ->]; [|done].
  assert (forallb is_lower_hex hex_digits = true) as Hall by reflexivity.
  rewrite forallb_forall in Hall. by apply Hall.
Qed.

Lemma hex_word_lower w : forallb is_lower_hex (hex_word w) = true.
Proof. unfold hex_word. cbn [map forallb]. by rewrite !hex_digit_lower. Qed.

Lemma length_hex_word w : Datatypes.length (hex_word w) = 8%nat.
Proof. unfold hex_word. by rewrite length_map. Qed.

Lemma sum_hex_shape s : isSHA256 (sum_hex s) = true.
Proof.
  unfold sum_hex, hex_words. generalize (digest (map code (chars s))). intros h.
  apply isSHA256_intro.
  - by rewrite !length_app, !length_hex_word.
  - by rewrite !forallb_app, !hex_word_lower.
Qed.

Example sum_hex_abc :
  sum_hex "abc" = "ba7816bf8f01cfea414140de5dae2223b00361a396177a9cb410ff61f20015ad"%string.
Proof. vm_compute. reflexivity. Qed.
End Fips180.

Definition fips180 : Sha256 :=
  {| sha256_hex := Fips180.sum_hex; sha256_hex_shape := Fips180.sum_hex_shape |}.

(** A cheap instance for evaluating witnesses: a checksum of the length and of
    the bytes weighted by position, printed in 64 hexadecimal digits. *)
Module Checksum.
Local Open Scope N_scope.

Definition value (s : string) : N :=
  fold_left (fun acc a => (acc * 257 + code a + 1) mod 2 ^ 61) (chars s) 7.

Definition hex64 (n : N) : string :=
  of_chars (repeat "0"%char 48 ++ Fips180.hex_word (N.shiftr n 32)
            ++ Fips180.hex_word (N.land n 4294967295)).

Definition sum (s : string) : string := hex64 (value s).

Lemma sum_shape s : isSHA256 (sum s) = true.
Proof.
  unfold sum, hex64. apply isSHA256_intro.
  - by rewrite !length_app, !Fips180.length_hex_word.
  - by rewrite !forallb_app, !Fips180.hex_word_lower.
Qed.
End Checksum.

Definition checksum : Sha256 :=
  {| sha256_hex := Checksum.sum; sha256_hex_shape := Checksum.sum_shape |}.
