(* ===== verification/GoBase64.v ===== *)
(** * GoBase64: [base64.RawStdEncoding] and [base64.RawURLEncoding]

    Byte strings are Go strings. The encoders write no padding; the decoder
    skips line breaks, refuses every other character outside its alphabet and
    ignores the low bits a last group of two or three characters leaves over,
    as Go's decoder does when it is not [Strict]. *)
From S2P Require Import Prelude GoStrings.
From Stdlib Require Import Ascii String.

Record alphabet := {
  letters : list ascii;
  letters_index : forall n, (n < 64)%nat -> list_find (fun a => a = nth n letters "="%char) letters =
                                            Some (n, nth n letters "="%char);
  letters_plain : forall n, (n < 64)%nat -> in_range 43 122 (nth n letters "="%char) = true;
}.

Definition alnum : string := "ABCDEFGHIJKLMNOPQRSTUVWXYZabcdefghijklmnopqrstuvwxyz0123456789".

(** Check a statement about the numbers below 64 by evaluating all of them. *)
Ltac below_64 :=
  let n := fresh "n" in let Hn := fresh "Hn" in
  intros n Hn;
  do 64 (destruct n as [|n]; [vm_compute; reflexivity|]); exfalso; lia.

Program Definition std : alphabet := {| letters := chars (alnum +:+ "+/") |}.
Next Obligation. below_64. Qed.
Next Obligation. below_64. Qed.

Program Definition url : alphabet := {| letters := chars (alnum +:+ "-_") |}.
Next Obligation. below_64. Qed.
Next Obligation. below_64. Qed.

Section Codec.
Variable al : alphabet.

Definition letter (n : N) : ascii := nth (N.to_nat n) (letters al) "="%char.
Definition sextet (a : ascii) : option N := (fun p => N.of_nat p.1) <$> list_find (fun b => b = a) (letters al).

Local Open Scope N_scope.

(** Groups of three bytes as groups of four sextets, the last one shorter. *)
Fixpoint sextets (l : list N) : list N :=
  match l with
  | a :: b :: c :: l => a / 4 :: a mod 4 * 16 + b / 16 :: b mod 16 * 4 + c / 64 :: c mod 64 :: sextets l
  | [a; b] => [a / 4; a mod 4 * 16 + b / 16; b mod 16 * 4]
  | [a] => [a / 4; a mod 4 * 16]
  | [] => []
  end.

Fixpoint bytes_of (l : list N) : option (list N) :=
  match l with
  | w :: x :: y :: z :: l =>
    r ← bytes_of l; Some (w * 4 + x / 16 :: x mod 16 * 16 + y / 4 :: y mod 4 * 64 + z :: r)
  | [w; x; y] => Some [w * 4 + x / 16; x mod 16 * 16 + y / 4]
  | [w; x] => Some [w * 4 + x / 16]
  | [_] => None
  | [] => Some []
  end.

Definition is_break (a : ascii) : bool := (code a =? 10) || (code a =? 13).

Definition EncodeToString (s : string) : string :=
  of_chars (map letter (sextets (map code (chars s)))).

Definition DecodeString (s : string) : option string :=
  ss ← mapM sextet (List.filter (fun a => negb (is_break a)) (chars s));
  bs ← bytes_of ss;
  Some (of_chars (map byte_of bs)).

(** ** The decoder inverts the encoder *)

Definition is_byte (n : N) : Prop := n < 256.

Ltac euclid := zify; Z.to_euclidean_division_equations; lia.

(** Equality of two lists of numbers, element by element. *)
Ltac bytewise := apply (f_equal Some); repeat (apply (f_equal2 cons); [euclid|]); try done.

Lemma three_ind (P : list N -> Prop) :
  P [] -> (forall a, P [a]) -> (forall a b, P [a; b]) ->
  (forall a b c l, P l -> P (a :: b :: c :: l)) -> forall l, P l.
Proof.
  intros H0 H1 H2 H3. fix IH 1. intros [|a [|b [|c l]]]; [done..|]. apply H3, IH.
Qed.

Lemma bytes_of_sextets l : Forall is_byte l -> bytes_of (sextets l) = Some l.
Proof.
  unfold is_byte. induction l as [|a|a b|a b c l IH] using three_ind; intros Hl; [done|..];
    repeat match goal with H : Forall _ (_ :: _) |- _ => apply Forall_cons in H as [? H] end.
  - cbn. bytewise.
  - cbn. bytewise.
  - cbn [sextets bytes_of]. rewrite IH by done. cbn. bytewise.
Qed.

Lemma sextets_small l : Forall is_byte l -> Forall (fun n => n < 64) (sextets l).
Proof.
  unfold is_byte. induction l as [|a|a b|a b c l IH] using three_ind; intros Hl; [done|..];
    repeat match goal with H : Forall _ (_ :: _) |- _ => apply Forall_cons in H as [? H] end;
    cbn [sextets]; repeat first [apply IH; done | apply Forall_nil | apply Forall_cons; split]; euclid.
Qed.

Lemma sextet_letter n : n < 64 -> sextet (letter n) = Some n.
Proof.
  intros Hn. unfold sextet, letter. rewrite letters_index by lia. cbn. by rewrite N2Nat.id.
Qed.

Lemma letter_plain n : n < 64 -> is_break (letter n) = false.
Proof.
  intros Hn. pose proof (letters_plain al (N.to_nat n) ltac:(lia)) as Hp. fold (letter n) in Hp.
  unfold in_range in Hp. unfold is_break. to_prop. apply N.leb_le in H. apply orb_false_iff.
  split; apply N.eqb_neq; lia.
Qed.

Lemma decode_letters ns :
  Forall (fun n => n < 64) ns ->
  mapM sextet (List.filter (fun a => negb (is_break a)) (map letter ns)) = Some ns.
Proof.
  induction 1 as [|n ns Hn _ IH]; [done|]. cbn [map List.filter].
  rewrite letter_plain by done. cbn [negb mapM]. rewrite sextet_letter by done. simpl. by rewrite IH.
Qed.

Lemma bytes_small s : Forall is_byte (map code (chars s)).
Proof.
  apply Forall_forall. intros n (a & -> & _)%list_elem_of_fmap. apply N_ascii_bounded.
Qed.

Lemma DecodeString_EncodeToString s : DecodeString (EncodeToString s) = Some s.
Proof.
  unfold DecodeString, EncodeToString. rewrite chars_of_chars, decode_letters by apply sextets_small, bytes_small.
  simpl. rewrite bytes_of_sextets by apply bytes_small. simpl. f_equal.
  rewrite map_map, (map_ext _ id), map_id by apply ascii_N_embedding. apply of_chars_chars.
Qed.
End Codec.

Example encode_demo :
  map (EncodeToString std) [""; "f"; "fo"; "foo"; "foob"] = [""; "Zg"; "Zm8"; "Zm9v"; "Zm9vYg"] /\
  map (DecodeString std) ["Zg=="; "Z"; "Zh"; "Z-"] = [None; None; Some "f"; None].
Proof. split; vm_compute; reflexivity. Qed.
