(* ===== verification/GoUuid.v ===== *)
(** * GoUuid: what the code relies on of github.com/google/uuid

    The package is third-party code. [Uuid] gives the version of every text that
    [uuid.Parse] accepts ([None] where it returns an error); [UuidSHA1] adds
    [uuid.NewSHA1(uuid.NameSpaceURL, name).String()], whose results parse and are
    of version 5. A random [uuid.NewString] is an argument of the definitions
    that draw one; documented to be of version 4. *)
From S2P Require Import Prelude GoStrings Sha256.
From Stdlib Require Import Ascii.

Class Uuid := { uuid_version : string -> option Z }.

Definition uuid_parses `{Uuid} (s : string) : bool := bool_decide (is_Some (uuid_version s)).

Class UuidSHA1 `{Uuid} := {
  uuid_sha1 : string -> string;
  uuid_sha1_version : forall name, uuid_version (uuid_sha1 name) = Some 5%Z;
}.
Arguments UuidSHA1 : clear implicits.

(** No two of these names have one SHA-1 identifier. *)
Definition sha1_distinct `{UuidSHA1} (names : string -> Prop) : Prop :=
  forall x y, names x -> names y -> uuid_sha1 x = uuid_sha1 y -> x = y.

(** ** Instances for evaluating witnesses: the version is the digit at the place
    where the textual form has it. *)
Module ByDigit.
Definition uuid_by_digit : Uuid := {|
  uuid_version s := match String.get 14 s with
                    | Some a => if is_hex_digit a then Some (Z.of_N (code a) - 48)%Z else None
                    | None => None end |}.

Definition sha1_text (name : string) : string :=
  "00000000-0000-5000-8000-" +:+ Checksum.sum name.

Lemma sha1_text_version name : @uuid_version uuid_by_digit (sha1_text name) = Some 5%Z.
Proof. reflexivity. Qed.

Definition uuid_sha1_by_digit : UuidSHA1 uuid_by_digit := {|
  uuid_sha1 := sha1_text; uuid_sha1_version := sha1_text_version |}.
End ByDigit.
