(* ===== verification/GoTime.v ===== *)
(** * GoTime: instants and the RFC 3339 text of Go's [time] package

    A [time.Time] is the number of nanoseconds since the zero [time.Time]
    (January 1 of year 1, 00:00 UTC), in UTC; [IsZero] is equality with 0.
    [format_rfc3339nano] is [Format(time.RFC3339Nano)] of such an instant, and
    [parse_utc] is [time.Parse(time.RFC3339Nano, s)] restricted to the results
    whose location is UTC (text ending in [Z]). *)
From S2P Require Import Prelude GoStrings.
From Stdlib Require Import Ascii String.
Local Open Scope Z_scope.

Abbreviation Time := Z (only parsing).
Definition IsZero (t : Time) : bool := Z.eqb t 0.

Definition second : Z := 1000000000.
Definition minute : Z := 60 * second.
Definition microsecond : Z := 1000.
Definition ns_per_day : Z := 86400 * second.

(** ** The proleptic Gregorian calendar *)

(** Days from 0001-01-01 to a date; years begin in March for the computation. *)
Definition days_from_civil (y m d : Z) : Z :=
  let y := if m <=? 2 then y - 1 else y in
  let era := y / 400 in
  let yoe := y - era * 400 in
  let doy := (153 * (if 2 <? m then m - 3 else m + 9) + 2) / 5 + d - 1 in
  let doe := yoe * 365 + yoe / 4 - yoe / 100 + doy in
  era * 146097 + doe - 306.

Definition civil_from_days (z : Z) : Z * Z * Z :=
  let z := z + 306 in
  let era := z / 146097 in
  let doe := z - era * 146097 in
  let yoe := (doe - doe / 1460 + doe / 36524 - doe / 146096) / 365 in
  let doy := doe - (365 * yoe + yoe / 4 - yoe / 100) in
  let mp := (5 * doy + 2) / 153 in
  let d := doy - (153 * mp + 2) / 5 + 1 in
  let m := if mp <? 10 then mp + 3 else mp - 9 in
  (yoe + era * 400 + (if m <=? 2 then 1 else 0), m, d).

Definition is_leap (y : Z) : bool :=
  (y mod 4 =? 0) && (negb (y mod 100 =? 0) || (y mod 400 =? 0)).

Definition days_in (m y : Z) : Z :=
  if m =? 2 then (if is_leap y then 29 else 28)
  else if (m =? 4) || (m =? 6) || (m =? 9) || (m =? 11) then 30 else 31.

Record civil := {
  c_year : Z; c_month : Z; c_day : Z; c_hour : Z; c_min : Z; c_sec : Z; c_nsec : Z }.

Definition of_civil (c : civil) : Time :=
  days_from_civil (c_year c) (c_month c) (c_day c) * ns_per_day
  + (c_hour c * 3600 + c_min c * 60 + c_sec c) * second + c_nsec c.

Definition to_civil (t : Time) : civil :=
  let '(y, m, d) := civil_from_days (t / ns_per_day) in
  let r := t mod ns_per_day in
  let s := r / second in
  {| c_year := y; c_month := m; c_day := d; c_hour := s / 3600;
     c_min := s mod 3600 / 60; c_sec := s mod 60; c_nsec := r mod second |}.

Example civil_2026 : to_civil (of_civil (Build_civil 2026 6 28 12 30 1 5)) =
  Build_civil 2026 6 28 12 30 1 5.
Proof. vm_compute. reflexivity. Qed.
Example unix_epoch : of_civil (Build_civil 1970 1 1 0 0 0 0) = 62135596800 * second.
Proof. vm_compute. reflexivity. Qed.

(** ** Formatting *)

Definition digit (n : Z) : ascii := byte_of (48 + Z.to_N n).

(** The [w] low decimal digits of [n]. *)
Fixpoint digits (w : nat) (n : Z) : list ascii :=
  match w with
  | O => []
  | S w => digits w (n / 10) ++ [digit (n mod 10)]
  end.

Fixpoint trim_zeros (l : list ascii) : list ascii :=
  match l with
  | a :: l' => if Ascii.eqb a "0" then trim_zeros l' else l
  | [] => []
  end.

(** [appendInt(year, 4)]: at least four digits, with a sign if negative. *)
Definition format_year (y : Z) : list ascii :=
  (if y <? 0 then ["-"%char] else []) ++
  (if Z.abs y <? 10000 then digits 4 (Z.abs y) else chars (itoa (Z.abs y))).

Definition format_frac (ns : Z) : list ascii :=
  if ns =? 0 then [] else "."%char :: rev (trim_zeros (rev (digits 9 ns))).

Definition format_rfc3339nano (t : Time) : string :=
  let c := to_civil t in
  of_chars (format_year (c_year c) ++ ["-"%char] ++ digits 2 (c_month c) ++ ["-"%char]
    ++ digits 2 (c_day c) ++ ["T"%char] ++ digits 2 (c_hour c) ++ [":"%char]
    ++ digits 2 (c_min c) ++ [":"%char] ++ digits 2 (c_sec c)
    ++ format_frac (c_nsec c) ++ ["Z"%char]).

(** The text [time.Time.MarshalJSON] quotes; it refuses years outside [0,9999]. *)
Definition marshal_time (t : Time) : option string :=
  let y := c_year (to_civil t) in
  if (0 <=? y) && (y <=? 9999) then Some (format_rfc3339nano t) else None.

(** [t.String()] of an instant in UTC. *)
Definition time_String (t : Time) : string :=
  let c := to_civil t in
  of_chars (format_year (c_year c) ++ ["-"%char] ++ digits 2 (c_month c) ++ ["-"%char]
    ++ digits 2 (c_day c) ++ [" "%char] ++ digits 2 (c_hour c) ++ [":"%char]
    ++ digits 2 (c_min c) ++ [":"%char] ++ digits 2 (c_sec c)
    ++ format_frac (c_nsec c) ++ chars " +0000 UTC").

Example format_2026 :
  format_rfc3339nano (of_civil (Build_civil 2026 6 28 12 3 1 50000000))
  = "2026-06-28T12:03:01.05Z"%string.
Proof. vm_compute. reflexivity. Qed.

(** ** Parsing *)

Definition digit_val (a : ascii) : Z := Z.of_N (code a) - 48.

Fixpoint atoi (acc : Z) (l : list ascii) : option Z :=
  match l with
  | [] => Some acc
  | a :: l => if is_digit a then atoi (acc * 10 + digit_val a) l else None
  end.

(** [getnum]: two digits, or one when not [fixed]. *)
Definition getnum (fixed : bool) (l : list ascii) : option (Z * list ascii) :=
  match l with
  | a :: b :: l' =>
    if negb (is_digit a) then None
    else if is_digit b then Some (digit_val a * 10 + digit_val b, l')
    else if fixed then None else Some (digit_val a, b :: l')
  | [a] => if is_digit a && negb fixed then Some (digit_val a, []) else None
  | [] => None
  end.

Definition expect (a : ascii) (l : list ascii) : option (list ascii) :=
  match l with b :: l => if Ascii.eqb a b then Some l else None | [] => None end.

Definition guarded {A} (b : bool) (k : option A) : option A := if b then k else None.

Fixpoint take_digits (l : list ascii) : list ascii :=
  match l with a :: l => if is_digit a then a :: take_digits l else [] | [] => [] end.

(** The optional fraction: a comma or period and any number of digits, of which
    nine count. *)
Definition parse_frac (l : list ascii) : option (Z * list ascii) :=
  match l with
  | a :: b :: _ =>
    if (Ascii.eqb a "." || Ascii.eqb a ",") && is_digit b then
      let ds := take_digits (tail l) in
      let kept := take 9 ds in
      n ← atoi 0 kept;
      Some (n * 10 ^ Z.of_nat (9 - Datatypes.length kept), drop (S (Datatypes.length ds)) l)
    else Some (0, l)
  | _ => Some (0, l)
  end.

(** The zone designator of [time.UTC]. A numeric offset, of zero too, gives a time
    whose [Location] is the local zone or a fixed one; every caller refuses those,
    so they are not parsed here. *)
Definition parse_zone (l : list ascii) : option (list ascii) :=
  match l with
  | "Z"%char :: l => Some l
  | _ => None
  end.

Definition parse_civil (s : string) : option civil :=
  let l := chars s in
  guarded (Nat.leb 4 (Datatypes.length l)) (
  y ← atoi 0 (take 4 l);
  l ← expect "-" (drop 4 l);
  '(mo, l) ← getnum true l;
  guarded ((1 <=? mo) && (mo <=? 12)) (
  l ← expect "-" l;
  '(d, l) ← getnum true l;
  l ← expect "T" l;
  '(h, l) ← getnum false l;
  guarded (h <? 24) (
  l ← expect ":" l;
  '(mi, l) ← getnum true l;
  guarded (mi <? 60) (
  l ← expect ":" l;
  '(sc, l) ← getnum true l;
  guarded (sc <? 60) (
  '(ns, l) ← parse_frac l;
  l ← parse_zone l;
  guarded (Nat.eqb (Datatypes.length l) 0 && (1 <=? d) && (d <=? days_in mo y)) (
  Some (Build_civil y mo d h mi sc ns))))))).

(** [time.Parse] with the test that the [Location] is [time.UTC]. *)
Definition parse_utc (s : string) : option Time := of_civil <$> parse_civil s.

(** The code's test for a canonical UTC timestamp: it parses, in UTC, and prints
    back as itself. *)
Definition canonical_utc (s : string) : bool :=
  match parse_utc s with Some t => format_rfc3339nano t == s | None => false end.

Example canonical_yes : canonical_utc "2026-06-28T12:03:01.05Z" = true.
Proof. vm_compute. reflexivity. Qed.
Example canonical_no :
  map canonical_utc ["2026-06-28T12:03:01.050Z"; "2026-02-29T12:03:01Z";
                     "2026-06-28T12:03:01+00:00"; "2026-06-28T1:03:01Z"] = [false; false; false; false].
Proof. vm_compute. reflexivity. Qed.
Example parse_lenient :
  parse_utc "2026-06-28T1:03:01,5Z" = parse_utc "2026-06-28T01:03:01.500Z".
Proof. vm_compute. reflexivity. Qed.
Example parse_zoned :
  map parse_utc ["2026-06-28T01:03:01+00:00"; "2026-06-28T01:03:01-00:00"; "2026-06-28T01:03:01+02:00"] = [None; None; None].
Proof. vm_compute. reflexivity. Qed.

(** [t.Truncate(d)]: round down to a multiple of [d] since the zero time. *)
Definition Truncate (t d : Z) : Z := t - t mod d.

(** [t.Sub(u)] saturates at the ends of the range of durations. *)
Definition Sub (t u : Time) : Z := Z.min (2 ^ 63 - 1) (Z.max (- 2 ^ 63) (t - u)).
