(* ===== verification/GoJson.v ===== *)
(** * GoJson: JSON values and Go's [encoding/json]

    [json] is what [encoding/json] reads and writes: numbers keep their text
    ([json.Number]), object members keep their order. [marshal] is
    [json.Marshal]; [parse] is the reader behind [json.Unmarshal]. *)
From S2P Require Import Prelude GoStrings.
From Stdlib Require Import Ascii.
From stdpp Require Import pretty.

#[warnings="-automation"]
Inductive json :=
  | JNull
  | JBool (b : bool)
  | JNum (text : string)
  | JStr (s : string)
  | JArr (l : list json)
  | JObj (fields : list (string * json)).

Definition JInt (z : Z) : json := JNum (itoa z).
Definition JStrs (l : list string) : json := JArr (map JStr l).

(** A struct member with [omitempty]. *)
Definition omit_str (k s : string) : list (string * json) :=
  if s == "" then [] else [(k, JStr s)].
Definition omit_int (k : string) (z : Z) : list (string * json) :=
  if Z.eqb z 0 then [] else [(k, JInt z)].
Definition omit_bool (k : string) (b : bool) : list (string * json) :=
  if b then [(k, JBool b)] else [].
Definition omit_strs (k : string) (l : list string) : list (string * json) :=
  match l with [] => [] | _ => [(k, JStrs l)] end.

(** ** UTF-8 *)
Section Utf8.
Local Open Scope N_scope.

Definition is_cont (a : ascii) : bool := in_range 128 191 a.

(** The number of bytes of the valid encoding a byte sequence starts with, or 0. *)
Definition rune_len (l : list ascii) : nat :=
  match l with
  | [] => 0
  | a :: l1 =>
    if code a <? 128 then 1
    else match l1 with
    | [] => 0
    | b :: l2 =>
      if in_range 194 223 a then (if is_cont b then 2 else 0)
      else match l2 with
      | [] => 0
      | c :: l3 =>
        let ok3 := if code a =? 224 then in_range 160 191 b
                   else if code a =? 237 then in_range 128 159 b
                   else in_range 225 239 a && is_cont b in
        if in_range 224 239 a then (if ok3 && is_cont c then 3 else 0)
        else match l3 with
        | [] => 0
        | d :: _ =>
          let ok4 := if code a =? 240 then in_range 144 191 b
                     else if code a =? 244 then in_range 128 143 b
                     else in_range 241 243 a && is_cont b in
          if ok4 && is_cont c && is_cont d then 4 else 0
        end
      end
    end
  end.

Definition rune_value (l : list ascii) : N :=
  let v := fun i => code (nth i l "0"%char) in
  match rune_len l with
  | 1%nat => v 0%nat
  | 2%nat => (v 0%nat - 192) * 64 + (v 1%nat - 128)
  | 3%nat => (v 0%nat - 224) * 4096 + (v 1%nat - 128) * 64 + (v 2%nat - 128)
  | 4%nat => (v 0%nat - 240) * 262144 + (v 1%nat - 128) * 4096 + (v 2%nat - 128) * 64 + (v 3%nat - 128)
  | _ => 65533
  end.

(** The bytes of a string cut into runes; an invalid byte is a piece of its own,
    marked [false]. *)
Fixpoint pieces (fuel : nat) (l : list ascii) : list (bool * list ascii) :=
  match fuel, l with
  | S fuel, a :: l' =>
    match rune_len l with
    | O => (false, [a]) :: pieces fuel l'
    | n => (true, take n l) :: pieces fuel (drop n l)
    end
  | _, _ => []
  end.
Definition runes_of (s : string) : list (bool * list ascii) := pieces (len s) (chars s).

Definition replacement : list ascii := [byte_of 239; byte_of 191; byte_of 189].

Definition ValidString (s : string) : bool := forallb fst (runes_of s).

(** Invalid bytes become U+FFFD, as [json.Marshal] and the decoder do. *)
Definition sanitize (s : string) : string :=
  of_chars (concat (map (fun p : bool * list ascii => if fst p then snd p else replacement) (runes_of s))).

Definition encode_rune (v : N) : list ascii :=
  if v <? 128 then [byte_of v]
  else if v <? 2048 then [byte_of (192 + v / 64); byte_of (128 + v mod 64)]
  else if v <? 65536 then
    [byte_of (224 + v / 4096); byte_of (128 + (v / 64) mod 64); byte_of (128 + v mod 64)]
  else [byte_of (240 + v / 262144); byte_of (128 + (v / 4096) mod 64);
        byte_of (128 + (v / 64) mod 64); byte_of (128 + v mod 64)].
End Utf8.

(** ** Facts about runes *)
Section Utf8_facts.

Definition whole_rune (p : list ascii) : Prop := p <> [] /\ rune_len p = Datatypes.length p.

#[local] Arguments rune_len : simpl never.

Lemma rune_len_le_4 l : rune_len l <= 4.
Proof.
  destruct l as [|a [|b [|c [|d l]]]]; unfold rune_len; cbn zeta;
    repeat (case_match; try lia); lia.
Qed.

Lemma rune_len_take l : rune_len l <> 0 -> whole_rune (take (rune_len l) l).
Proof.
  intros Hn. remember (rune_len l) as n eqn:Hr. symmetry in Hr.
  split; [destruct n, l; done|].
  destruct l as [|a [|b [|c [|d l]]]]; unfold rune_len in Hr; cbn zeta in Hr; try congruence;
    split_conds Hr; subst n; try done; cbn [take]; unfold rune_len; cbn zeta; use_conds; done.
Qed.

Lemma rune_len_app p r : whole_rune p -> rune_len (p ++ r) = Datatypes.length p.
Proof.
  intros [Hne Hp]. pose proof (rune_len_le_4 p) as H4. rewrite Hp in H4.
  destruct p as [|a [|b [|c [|d [|e p]]]]]; simpl in H4; try done; try lia;
    clear H4 Hne; unfold rune_len in *; cbn [app Datatypes.length] in *; cbn zeta in *;
    split_conds Hp; try done; use_conds; done.
Qed.

Lemma pieces_whole fuel l p : (true, p) ∈ pieces fuel l -> whole_rune p.
Proof.
  revert l. induction fuel as [|fuel IH]; intros l; [by intros ?%elem_of_nil|].
  destruct l as [|a l]; [by intros ?%elem_of_nil|]. simpl.
  destruct (rune_len (a :: l)) as [|n] eqn:E; intros [Heq|Hin]%elem_of_cons; simplify_eq; eauto.
  pose proof (rune_len_take (a :: l)) as Hw. rewrite E in Hw. by apply Hw.
Qed.

Lemma pieces_concat ps fuel :
  Forall whole_rune ps -> Datatypes.length (concat ps) <= fuel ->
  pieces fuel (concat ps) = map (pair true) ps.
Proof.
  revert fuel. induction ps as [|p ps IH]; intros fuel Hall Hf; simpl; [by destruct fuel|].
  apply Forall_cons in Hall as [Hp Hall].
  simpl in Hf. rewrite length_app in Hf.
  pose proof (rune_len_app p (concat ps) Hp) as Hr. destruct Hp as [Hne _].
  destruct p as [|a p]; [done|]. destruct fuel as [|fuel]; simpl in Hf; [lia|].
  cbn [concat pieces app]. cbn [app] in Hr. rewrite Hr. cbn [Datatypes.length map].
  change (a :: p ++ concat ps) with ((a :: p) ++ concat ps).
  change (S (Datatypes.length p)) with (Datatypes.length (a :: p)).
  rewrite take_app_length, drop_app_length. f_equal. apply IH; [done|lia].
Qed.

(** The pieces of the sanitized string. *)
Lemma runes_of_sanitize s :
  runes_of (sanitize s) =
  map (pair true) (map (fun p : bool * list ascii => if fst p then snd p else replacement) (runes_of s)).
Proof.
  unfold sanitize, runes_of at 1. rewrite chars_of_chars. apply pieces_concat.
  - apply Forall_forall. intros q Hq. apply list_elem_of_In, in_map_iff in Hq as ([[] p] & <- & Hp).
    + eapply pieces_whole. by apply list_elem_of_In.
    + split; [done|reflexivity].
  - unfold len. rewrite <-length_chars, chars_of_chars. done.
Qed.

Lemma ValidString_sanitize s : ValidString (sanitize s) = true.
Proof.
  unfold ValidString. rewrite runes_of_sanitize. apply forallb_forall.
  intros q Hq. by apply in_map_iff in Hq as (p & <- & _).
Qed.

Lemma concat_pieces fuel l :
  Datatypes.length l <= fuel -> concat (map snd (pieces fuel l)) = l.
Proof.
  revert l. induction fuel as [|fuel IH]; intros l Hl; [by destruct l; simpl in *; [|lia]|].
  destruct l as [|a l]; [done|]. simpl in *.
  destruct (rune_len (a :: l)) as [|n]; simpl.
  - rewrite IH by lia. done.
  - rewrite IH; [by rewrite take_drop|]. rewrite length_drop. lia.
Qed.

(** Valid strings are left alone. *)
Lemma sanitize_valid s : ValidString s = true -> sanitize s = s.
Proof.
  unfold ValidString, sanitize. intros Hv. apply chars_inj. rewrite chars_of_chars.
  transitivity (concat (map snd (runes_of s))).
  - f_equal. apply map_ext_in. intros p Hp. rewrite forallb_forall in Hv. by rewrite (Hv p Hp).
  - apply concat_pieces. unfold len. by rewrite length_chars.
Qed.

Lemma sanitize_idemp s : sanitize (sanitize s) = sanitize s.
Proof. apply sanitize_valid, ValidString_sanitize. Qed.
End Utf8_facts.

(** ** Decimal integers *)
Section Itoa.
Local Open Scope N_scope.

Definition digits_no_lead0 (l : list ascii) : Prop :=
  forallb is_digit l = true /\ exists a l', l = a :: l' /\ a <> "0"%char.

Lemma pretty_N_char_digit n : is_digit (pretty_N_char n) = true.
Proof. unfold pretty_N_char. by repeat case_match. Qed.

Lemma pretty_N_go_digits x s :
  0 < x -> forallb is_digit (chars s) = true -> digits_no_lead0 (chars (pretty_N_go x s)).
Proof.
  revert s. induction (N.lt_wf_0 x) as [x _ IH]; intros s Hx Hs.
  rewrite pretty_N_go_step by done.
  pose proof (pretty_N_char_digit (x mod 10)) as Hd.
  destruct (decide (x < 10)) as [Hlt|Hge].
  - rewrite N.div_small, pretty_N_go_0 by done. rewrite N.mod_small by done.
    split; simpl; [by rewrite pretty_N_char_digit|].
    eexists _, _. split; [done|]. intros E.
    assert (pretty_N_char x = pretty_N_char 0) as E' by done.
    apply pretty_N_char_inj in E'; lia.
  - apply IH; [by apply N.div_lt|by apply N.div_str_pos; lia|]. simpl. by rewrite Hd.
Qed.

Lemma itoa_pos_digits p : digits_no_lead0 (chars (itoa (Z.pos p))).
Proof. apply (pretty_N_go_digits (N.pos p)); done. Qed.

Lemma itoa_neg p : itoa (Z.neg p) = String "-" (itoa (Z.pos p)).
Proof. done. Qed.
End Itoa.

(** ** [json.Marshal] *)

Definition hexd (n : N) : ascii := nth (N.to_nat n) (chars "0123456789abcdef") "0"%char.
Definition u_escape (n : N) : list ascii :=
  ["\"%char; "u"%char; hexd (n / 4096); hexd ((n / 256) mod 16); hexd ((n / 16) mod 16); hexd (n mod 16)].

(** The short escapes both printers share. *)
Definition short_escape (n : N) : option (list ascii) :=
  (if n =? 34 then Some [byte_of 92; byte_of 34]
   else if n =? 92 then Some [byte_of 92; byte_of 92]
   else if n =? 8 then Some ["\"; "b"]%char
   else if n =? 9 then Some ["\"; "t"]%char
   else if n =? 10 then Some ["\"; "n"]%char
   else if n =? 12 then Some ["\"; "f"]%char
   else if n =? 13 then Some ["\"; "r"]%char
   else None)%N.

Definition marshal_rune (p : bool * list ascii) : list ascii :=
  if negb (fst p) then u_escape 65533 else
  match snd p with
  | [a] => match short_escape (code a) with
           | Some e => e
           | None => if (code a <? 32)%N || (code a =? 60)%N || (code a =? 62)%N || (code a =? 38)%N
                     then u_escape (code a) else [a]
           end
  | l => let v := rune_value l in
         if (v =? 8232)%N || (v =? 8233)%N then u_escape v else l
  end.

Definition quote : ascii := byte_of 34.
Definition quote_chars (body : list ascii) : string := of_chars ([quote] ++ body ++ [quote]).
Definition marshal_string (s : string) : string :=
  quote_chars (concat (map marshal_rune (runes_of s))).

Fixpoint join (sep : string) (l : list string) : string :=
  match l with
  | [] => ""
  | [x] => x
  | x :: l => x +:+ sep +:+ join sep l
  end.

Fixpoint marshal (j : json) : string :=
  match j with
  | JNull => "null"
  | JBool b => if b then "true" else "false"
  | JNum t => t
  | JStr s => marshal_string s
  | JArr l => "[" +:+ join "," (map marshal l) +:+ "]"
  | JObj fs => "{" +:+ join "," (map (fun kv => marshal_string kv.1 +:+ ":" +:+ marshal kv.2) fs) +:+ "}"
  end.

(** ** The reader behind [json.Unmarshal] and [json.Decoder] *)
Section Parse.
Local Open Scope N_scope.

Definition is_ws (a : ascii) : bool :=
  (code a =? 32) || (code a =? 9) || (code a =? 10) || (code a =? 13).

Fixpoint skip_ws (l : list ascii) : list ascii :=
  match l with a :: l' => if is_ws a then skip_ws l' else l | [] => [] end.

Definition hex_val (a : ascii) : option N :=
  if in_range 48 57 a then Some (code a - 48)
  else if in_range 97 102 a then Some (code a - 87)
  else if in_range 65 70 a then Some (code a - 55) else None.

Definition hex4 (l : list ascii) : option N :=
  match l with
  | [a; b; c; d] =>
    a ← hex_val a; b ← hex_val b; c ← hex_val c; d ← hex_val d;
    Some (a * 4096 + b * 256 + c * 16 + d)
  | _ => None
  end.

Definition is_surrogate (v : N) : bool := (55296 <=? v) && (v <=? 57343).

(** A [\uXXXX] escape after the backslash-u: a surrogate pair is one rune, a
    lone surrogate is U+FFFD. *)
Definition unescape_u (l : list ascii) : option (list ascii * list ascii) :=
  v ← hex4 (take 4 l);
  let l1 := drop 4 l in
  if is_surrogate v then
    match l1 with
    | b :: u :: l2 =>
      if Ascii.eqb b "\" && Ascii.eqb u "u" then
        match hex4 (take 4 l2) with
        | Some w => if (v <=? 56319) && (56320 <=? w) && (w <=? 57343)
                    then Some (encode_rune (65536 + (v - 55296) * 1024 + (w - 56320)), drop 4 l2)
                    else Some (replacement, l1)
        | None => None
        end
      else Some (replacement, l1)
    | _ => Some (replacement, l1)
    end
  else Some (encode_rune v, l1).

Definition unescape1 (a : ascii) : option ascii :=
  if Ascii.eqb a quote || Ascii.eqb a "\" || Ascii.eqb a "/" then Some a
  else if Ascii.eqb a "b" then Some (byte_of 8) else if Ascii.eqb a "f" then Some (byte_of 12)
  else if Ascii.eqb a "n" then Some (byte_of 10) else if Ascii.eqb a "r" then Some (byte_of 13)
  else if Ascii.eqb a "t" then Some (byte_of 9) else None.

(** The body of a string literal, after the opening quote. *)
Fixpoint parse_string (fuel : nat) (l : list ascii) : option (list ascii * list ascii) :=
  match fuel, l with
  | S fuel, a :: l' =>
    if Ascii.eqb a quote then Some ([], l')
    else if code a <? 32 then None
    else if Ascii.eqb a "\" then
      match l' with
      | e :: l2 =>
        if Ascii.eqb e "u" then
          '(r, l3) ← unescape_u l2; '(s, l4) ← parse_string fuel l3; Some (r ++ s, l4)
        else c ← unescape1 e; '(s, l4) ← parse_string fuel l2; Some (c :: s, l4)
      | [] => None
      end
    else match rune_len l with
    | O => '(s, l4) ← parse_string fuel l'; Some (replacement ++ s, l4)
    | n => '(s, l4) ← parse_string fuel (drop n l); Some (take n l ++ s, l4)
    end
  | _, _ => None
  end.

Fixpoint take_digits (l : list ascii) : list ascii :=
  match l with a :: l => if is_digit a then a :: take_digits l else [] | [] => [] end.

Definition num_int (l : list ascii) : option (list ascii * list ascii) :=
  match l with
  | a :: l' => if Ascii.eqb a "0" then Some ([a], l')
               else match take_digits l with [] => None
                    | ds => Some (ds, drop (Datatypes.length ds) l) end
  | [] => None
  end.

(** A part introduced by [lead] (and a sign, for an exponent) needs digits. *)
Definition num_part (lead : ascii -> bool) (sign : bool) (l : list ascii) : option (list ascii * list ascii) :=
  match l with
  | a :: l' =>
    if lead a then
      let pre := match l' with
                 | s :: _ => if sign && (Ascii.eqb s "+" || Ascii.eqb s "-") then [s] else []
                 | [] => [] end in
      let l2 := drop (Datatypes.length pre) l' in
      match take_digits l2 with
      | [] => None
      | ds => Some (a :: pre ++ ds, drop (Datatypes.length ds) l2)
      end
    else Some ([], l)
  | [] => Some ([], [])
  end.

Definition parse_number (l : list ascii) : option (string * list ascii) :=
  let '(sg, l0) := match l with a :: l' => if Ascii.eqb a "-" then ([a], l') else ([], l) | [] => ([], []) end in
  '(i, l1) ← num_int l0;
  '(f, l2) ← num_part (fun a => Ascii.eqb a ".") false l1;
  '(e, l3) ← num_part (fun a => Ascii.eqb a "e" || Ascii.eqb a "E") true l2;
  Some (of_chars (sg ++ i ++ f ++ e), l3).

Definition expect_word (w : string) (l : list ascii) : option (list ascii) :=
  if HasPrefix (of_chars l) w then Some (drop (len w) l) else None.

Fixpoint parse_value (fuel : nat) (l : list ascii) : option (json * list ascii) :=
  match fuel with
  | O => None
  | S fuel =>
    match skip_ws l with
    | [] => None
    | a :: l' =>
      if Ascii.eqb a quote then '(s, r) ← parse_string (S (Datatypes.length l')) l'; Some (JStr (of_chars s), r)
      else if Ascii.eqb a "{" then
        match skip_ws l' with
        | b :: r => if Ascii.eqb b "}" then Some (JObj [], r)
                    else '(fs, r) ← parse_members fuel (b :: r); Some (JObj fs, r)
        | [] => None
        end
      else if Ascii.eqb a "[" then
        match skip_ws l' with
        | b :: r => if Ascii.eqb b "]" then Some (JArr [], r)
                    else '(vs, r) ← parse_elements fuel (b :: r); Some (JArr vs, r)
        | [] => None
        end
      else if Ascii.eqb a "t" then r ← expect_word "true" (a :: l'); Some (JBool true, r)
      else if Ascii.eqb a "f" then r ← expect_word "false" (a :: l'); Some (JBool false, r)
      else if Ascii.eqb a "n" then r ← expect_word "null" (a :: l'); Some (JNull, r)
      else '(t, r) ← parse_number (a :: l'); Some (JNum t, r)
    end
  end
with parse_members (fuel : nat) (l : list ascii) : option (list (string * json) * list ascii) :=
  match fuel with
  | O => None
  | S fuel =>
    match skip_ws l with
    | a :: l1 =>
      if negb (Ascii.eqb a quote) then None else
      '(k, l2) ← parse_string (S (Datatypes.length l1)) l1;
      match skip_ws l2 with
      | c :: l3 =>
        if negb (Ascii.eqb c ":") then None else
        '(v, l4) ← parse_value fuel l3;
        match skip_ws l4 with
        | d :: l5 =>
          if Ascii.eqb d "," then '(fs, r) ← parse_members fuel l5; Some ((of_chars k, v) :: fs, r)
          else if Ascii.eqb d "}" then Some ([(of_chars k, v)], l5) else None
        | [] => None
        end
      | [] => None
      end
    | [] => None
    end
  end
with parse_elements (fuel : nat) (l : list ascii) : option (list json * list ascii) :=
  match fuel with
  | O => None
  | S fuel =>
    '(v, l1) ← parse_value fuel l;
    match skip_ws l1 with
    | d :: l2 =>
      if Ascii.eqb d "," then '(vs, r) ← parse_elements fuel l2; Some (v :: vs, r)
      else if Ascii.eqb d "]" then Some ([v], l2) else None
    | [] => None
    end
  end.

(** The one value of a document; every byte of the text is at most one level of
    nesting or one member, so the length of the text is fuel enough. *)
Definition parse (s : string) : option json :=
  '(v, r) ← parse_value (S (2 * len s)) (chars s);
  match skip_ws r with [] => Some v | _ => None end.

(** [json.Valid] *)
Definition Valid (s : string) : bool := bool_decide (is_Some (parse s)).
End Parse.

(** A member matches a struct field by name or else by its case-folded name
    (U+017F folds to s and U+212A to k). *)
Fixpoint fold_name (l : list ascii) : list ascii :=
  match l with
  | [] => []
  | a :: l1 =>
    match l1 with
    | b :: l2 =>
      if (code a =? 197)%N && (code b =? 191)%N then "s"%char :: fold_name l2
      else match l2 with
      | c :: l3 => if (code a =? 226)%N && (code b =? 132)%N && (code c =? 170)%N
                   then "k"%char :: fold_name l3
                   else (if in_range 65 90 a then byte_of (code a + 32) else a) :: fold_name l1
      | [] => (if in_range 65 90 a then byte_of (code a + 32) else a) :: fold_name l1
      end
    | [] => [if in_range 65 90 a then byte_of (code a + 32) else a]
    end
  end.

(** The field, among [names], that a member called [k] sets. *)
Definition field_of (names : list string) (k : string) : option string :=
  if bool_decide (k ∈ names) then Some k
  else List.find (fun n => fold_name (chars n) == fold_name (chars k)) names.

Example parse_demo :
  parse (marshal (JObj [("b", JArr [JInt (-3); JNull; JStr "x<y"]); ("a", JStr (chr 9)); ("c", JObj [])]))
  = Some (JObj [("b", JArr [JInt (-3); JNull; JStr "x<y"]); ("a", JStr (chr 9)); ("c", JObj [])]).
Proof. vm_compute. reflexivity. Qed.
