(* ===== verification/GoDecode.v ===== *)
(** * GoDecode: [json.Unmarshal] into structs

    A decoder takes the value a variable holds and a JSON value and gives what
    the variable holds after, or [None] when [json.Unmarshal] reports an error
    (it goes on to the other fields, but the program drops the result then). A
    [null] leaves strings, numbers, booleans and structs alone and clears slices
    and maps. Slices are options of lists, [None] the nil slice; an element of a
    slice is decoded into a zero value. *)
From S2P Require Import Prelude GoStrings GoJson.
From stdpp Require Import pretty.
From Stdlib Require Import Ascii String.

Definition decoder (T : Type) := T -> json -> option T.

Definition dec_string : decoder string := fun old j =>
  match j with JStr s => Some s | JNull => Some old | _ => None end.

Definition dec_bool : decoder bool := fun old j =>
  match j with JBool b => Some b | JNull => Some old | _ => None end.

Fixpoint digits_value (acc : Z) (l : list ascii) : option Z :=
  match l with
  | [] => Some acc
  | a :: l => if is_digit a then digits_value (acc * 10 + (Z.of_N (code a) - 48))%Z l else None
  end.

(** [strconv.ParseInt(text, 10, 64)]. *)
Definition ParseInt (text : string) : option Z :=
  let checked z := if (- 2 ^ 63 <=? z)%Z && (z <? 2 ^ 63)%Z then Some z else None in
  match chars text with
  | [] => None
  | a :: l =>
    if Ascii.eqb a "-" || Ascii.eqb a "+" then
      match l with
      | [] => None
      | _ => z ← digits_value 0 l; checked (if Ascii.eqb a "-" then (- z)%Z else z)
      end
    else z ← digits_value 0 (a :: l); checked z
  end.

Definition dec_int : decoder Z := fun old j =>
  match j with JNum text => ParseInt text | JNull => Some old | _ => None end.

Definition slice (A : Type) := option (list A).
Definition items {A} (s : slice A) : list A := default [] s.

(** [append([]A(nil), l...)] *)
Definition copy_slice {A} (s : slice A) : slice A :=
  match items s with [] => None | l => Some l end.

Definition dec_slice {A} (zero : A) (dec : decoder A) : decoder (slice A) := fun old j =>
  match j with
  | JNull => Some None
  | JArr l => Some <$> mapM (dec zero) l
  | _ => None
  end.

Definition dec_map {A} (zero : A) (dec : decoder A) : decoder (option (gmap string A)) := fun old j =>
  match j with
  | JNull => Some None
  | JObj fs =>
    Some <$> foldl (fun acc kv => m ← acc; v ← dec zero kv.2; Some (<[kv.1 := v]> m)) (Some (default ∅ old)) fs
  | _ => None
  end.

(** The members of an object that set the field [name] of a struct with the
    fields [names], in order. *)
Definition dec_field {T} (names : list string) (fs : list (string * json)) (name : string)
    (dec : decoder T) (old : T) : option T :=
  foldl (fun acc kv => v ← acc; if field_of names kv.1 == Some name then dec v kv.2 else Some v) (Some old) fs.

(** Decode an object into a struct, given what to do with its members. *)
Definition dec_struct {T} (body : list (string * json) -> option T) : decoder T := fun old j =>
  match j with JNull => Some old | JObj fs => body fs | _ => None end.

(** ** Encoding *)
Definition enc_slice {A} (enc : A -> json) (s : slice A) : json :=
  match s with None => JNull | Some l => JArr (map enc l) end.
Definition enc_strs (s : slice string) : json := enc_slice JStr s.
Definition enc_map {A} (enc : A -> json) (m : option (gmap string A)) : json :=
  match m with None => JNull | Some m => JObj (map (fun kv => (kv.1, enc kv.2)) (map_to_list m)) end.
Definition omit_slice (k : string) (s : slice string) : list (string * json) :=
  match items s with [] => [] | l => [(k, JStrs l)] end.

(** ** Decoders read back what encoders write *)

Lemma pretty_N_char_value n : (n < 10)%N -> (Z.of_N (code (pretty_N_char n)) - 48)%Z = Z.of_N n.
Proof.
  intros Hn. assert (n ∈ [0; 1; 2; 3; 4; 5; 6; 7; 8; 9]%N) as Hin.
  { rewrite !elem_of_cons. lia. }
  repeat (apply elem_of_cons in Hin as [->|Hin]; [reflexivity|]). by apply elem_of_nil in Hin.
Qed.

Lemma digits_value_pretty x s :
  (0 < x)%N -> exists k, forall acc : Z,
    digits_value acc (chars (pretty_N_go x s)) = digits_value (acc * 10 ^ Z.of_nat k + Z.of_N x)%Z (chars s).
Proof.
  revert s. induction (N.lt_wf_0 x) as [x _ IH]; intros s Hx. rewrite pretty_N_go_step by done.
  pose proof (pretty_N_char_value (x mod 10) (N.mod_lt x 10 ltac:(lia))) as Hv.
  assert (forall acc, digits_value acc (chars (String (pretty_N_char (x mod 10)) s)) =
    digits_value (acc * 10 + Z.of_N (x mod 10))%Z (chars s)) as Hstep.
  { intros acc. cbn [chars list_ascii_of_string digits_value]. by rewrite pretty_N_char_digit, Hv. }
  destruct (decide (x < 10)%N) as [Hlt|Hge].
  - exists 1%nat. intros acc. rewrite N.div_small, pretty_N_go_0, Hstep, N.mod_small by done. done.
  - destruct (IH (x / 10)%N) with (s := String (pretty_N_char (x mod 10)) s) as [k Hk].
    { by apply N.div_lt. }
    { apply N.div_str_pos. lia. }
    exists (S k). intros acc. rewrite Hk, Hstep. f_equal.
    rewrite Nat2Z.inj_succ, Z.pow_succ_r by lia. pose proof (N.div_mod x 10 ltac:(lia)). lia.
Qed.

Lemma digits_value_itoa p : digits_value 0 (chars (itoa (Z.pos p))) = Some (Z.pos p).
Proof.
  destruct (digits_value_pretty (N.pos p) "" ltac:(lia)) as [k Hk]. exact (Hk 0%Z).
Qed.

Lemma ParseInt_itoa z : is_i64 z -> ParseInt (itoa z) = Some z.
Proof.
  intros Hz. unfold ParseInt. cbv zeta.
  assert ((- 2 ^ 63 <=? z)%Z && (z <? 2 ^ 63)%Z = true) as Hrange.
  { unfold is_i64 in Hz. apply andb_true_iff. lia. }
  destruct z as [|p|p]; [done|..].
  - destruct (itoa_pos_digits p) as (Hd & a & l & Hl & Ha). pose proof (digits_value_itoa p) as Hv.
    rewrite Hl in *. cbn [forallb] in Hd. apply andb_true_iff in Hd as [Hda _].
    destruct (Ascii.eqb_spec a "-") as [->|]; [by vm_compute in Hda|].
    destruct (Ascii.eqb_spec a "+") as [->|]; [by vm_compute in Hda|]. cbn [orb].
    rewrite Hv. cbn [mbind option_bind]. by rewrite Hrange.
  - rewrite itoa_neg. cbn [chars list_ascii_of_string]. change (Ascii.eqb "-" "-") with true. cbn [orb].
    pose proof (digits_value_itoa p) as Hv. unfold chars in Hv.
    destruct (itoa_pos_digits p) as (_ & a & l & Hl & _). unfold chars in Hl. rewrite Hl in *.
    rewrite Hv. cbn [mbind option_bind Ascii.eqb Bool.eqb]. change (- Z.pos p)%Z with (Z.neg p). by rewrite Hrange.
Qed.

Lemma dec_int_JInt old z : is_i64 z -> dec_int old (JInt z) = Some z.
Proof. apply ParseInt_itoa. Qed.

(** A field is set by the one member that has its name. *)
Lemma dec_field_in {T} names fs name j (dec : decoder T) old :
  NoDup fs.*1 -> (forall k, k ∈ fs.*1 -> k ∈ names) -> (name, j) ∈ fs ->
  dec_field names fs name dec old = dec old j.
Proof.
  unfold dec_field. intros Hnd Hn Hin.
  assert (forall l (o : option T), (forall k, k ∈ l.*1 -> k ∈ names) -> name ∉ l.*1 ->
    foldl (fun acc kv => v ← acc; if field_of names kv.1 == Some name then dec v kv.2 else Some v) o l = o) as Hskip.
  { induction l as [|[k v] l IH]; intros o Hk Hnot; [done|]. cbn [foldl fst snd].
    rewrite IH; [|intros k' Hk'; apply Hk; by right|intros Hin'; apply Hnot; by right].
    destruct o as [o|]; [|done]. cbn [mbind option_bind]. unfold field_of.
    rewrite (bool_decide_eq_true_2 (k ∈ names)) by (apply Hk; left).
    rewrite bool_decide_eq_false_2; [done|]. intros [= ->]. apply Hnot. left. }
  apply list_elem_of_split in Hin as (l1 & l2 & ->). rewrite fmap_app in Hnd, Hn.
  cbn [fmap list_fmap fst] in Hnd. apply NoDup_app in Hnd as (_ & Hl1 & [Hl2 _]%NoDup_cons).
  rewrite foldl_app, (Hskip l1).
  - cbn [foldl fst snd mbind option_bind]. unfold field_of.
    rewrite (bool_decide_eq_true_2 (name ∈ names)) by (apply Hn, elem_of_app; right; left).
    rewrite bool_decide_eq_true_2 by done. apply Hskip; [|done].
    intros k Hk. apply Hn, elem_of_app. right. by right.
  - intros k Hk. apply Hn, elem_of_app. by left.
  - intros Hin. apply (Hl1 _ Hin). left.
Qed.

Lemma dec_slice_map {A B} (zero : A) (dec : decoder A) (enc : B -> json) (f : B -> A) old l :
  (forall x, x ∈ l -> dec zero (enc x) = Some (f x)) -> dec_slice zero dec old (JArr (map enc l)) = Some (Some (map f l)).
Proof.
  intros Hd. cbn [dec_slice]. apply fmap_Some. exists (map f l). split; [|done].
  apply mapM_Some. revert Hd. induction l as [|x l IH]; intros Hd; constructor.
  - apply Hd. left.
  - apply IH. intros y Hy. apply Hd. by right.
Qed.

Example decode_demo :
  dec_slice "" dec_string None (JArr [JStr "a"; JNull]) = Some (Some ["a"; ""]) /\
  map ParseInt ["-12"; "9223372036854775808"; "1.0"; "0"] = [Some (-12)%Z; None; None; Some 0%Z].
Proof. split; vm_compute; reflexivity. Qed.
