(* ===== verification/CanonicalJson.v ===== *)
(** * CanonicalJson: the bytes that are signed and hashed

    Models [internal/computerevent/canonical.go]: RFC 8785 JSON of a value that
    [json.Marshal] accepts, with every non-integral number refused. The value is
    marshalled, decoded again with [UseNumber] ([redecode]) and printed with its
    object members in UTF-16 order. *)
From S2P Require Import Prelude GoStrings GoJson.
From Stdlib Require Import Ascii.


Definition utf16_units (s : string) : list N :=
  concat (map (fun p : bool * list ascii =>
    let v := if fst p then rune_value (snd p) else 65533%N in
    if (v <? 65536)%N then [v]
    else [(55296 + (v - 65536) / 1024)%N; (56320 + (v - 65536) mod 1024)%N]) (runes_of s)).

Fixpoint units_less (l r : list N) : bool :=
  match l, r with
  | [], [] => false
  | [], _ :: _ => true
  | _ :: _, [] => false
  | a :: l, b :: r => if negb (a =? b)%N then (a <? b)%N else units_less l r
  end.

Definition utf16Less (a b : string) : bool := units_less (utf16_units a) (utf16_units b).

Definition isCanonicalInteger (value : string) : bool :=
  if value == "0" then true else
  match chars value with
  | [] => false
  | c :: rest =>
    if Ascii.eqb c "-" then
      match rest with
      | [] => false
      | d :: _ => if Ascii.eqb d "0" then false else forallb is_digit rest
      end
    else if Ascii.eqb c "0" then false
    else forallb is_digit (c :: rest)
  end.

Inductive canonical_error := ErrNonIntegral (text : string) | ErrInvalidUtf8.

Definition canonical_char (p : bool * list ascii) : list ascii :=
  match snd p with
  | [a] => match short_escape (code a) with
           | Some e => e
           | None => if (code a <? 32)%N then u_escape (code a) else [a]
           end
  | l => l
  end.

Definition appendCanonicalString (value : string) : res canonical_error string :=
  refuse negb (ValidString value) with ErrInvalidUtf8 ;;
  Ok (quote_chars (concat (map canonical_char (runes_of value)))).

(** Run the items in order and stop at the first error. *)
Fixpoint sequence (l : list (res canonical_error string)) : res canonical_error (list string) :=
  match l with
  | [] => Ok []
  | r :: l => let? x := r in let? xs := sequence l in Ok (x :: xs)
  end.

Definition append_member (kv : string * res canonical_error string) : res canonical_error string :=
  let? k := appendCanonicalString kv.1 in let? v := kv.2 in Ok (k +:+ ":" +:+ v).

Fixpoint appendCanonical (v : json) : res canonical_error string :=
  match v with
  | JNull => Ok "null"
  | JBool b => Ok (if b then "true" else "false")
  | JStr s => appendCanonicalString s
  | JNum text =>
    refuse negb (isCanonicalInteger text) with ErrNonIntegral text ;; Ok text
  | JArr l => let? xs := sequence (map appendCanonical l) in Ok ("[" +:+ join "," xs +:+ "]")
  | JObj fs =>
    let sorted := sort_slice (fun a b => utf16Less a.1 b.1)
                             (map (fun kv => (kv.1, appendCanonical kv.2)) fs) in
    let? xs := sequence (map append_member sorted) in
    Ok ("{" +:+ join "," xs +:+ "}")
  end.

(** [map[string]any]: the last of two members of one name wins. *)
Fixpoint last_wins (fs : list (string * json)) : list (string * json) :=
  match fs with
  | [] => []
  | kv :: fs => if existsb (fun q => q.1 == kv.1) fs then last_wins fs else kv :: last_wins fs
  end.

(** What the decoder makes of what [json.Marshal] wrote for a value. *)
Fixpoint redecode (v : json) : json :=
  match v with
  | JStr s => JStr (sanitize s)
  | JArr l => JArr (map redecode l)
  | JObj fs => JObj (last_wins (map (fun kv => (sanitize kv.1, redecode kv.2)) fs))
  | _ => v
  end.

Definition CanonicalJSON (v : json) : res canonical_error string := appendCanonical (redecode v).

Example canonical_demo :
  CanonicalJSON (JObj [("b", JArr [JInt (-3); JNull]); ("a", JStr (chr 9))]) =
  Ok (of_chars (map byte_of [123;34;97;34;58;34;92;116;34;44;34;98;34;58;91;45;51;44;110;117;108;108;93;125]%N)).
Proof. vm_compute. reflexivity. Qed.

(** ** Induction over nested values *)
Section Json_ind.
Variable P : json -> Prop.
Hypothesis Hnull : P JNull.
Hypothesis Hbool : forall b, P (JBool b).
Hypothesis Hnum : forall t, P (JNum t).
Hypothesis Hstr : forall s, P (JStr s).
Hypothesis Harr : forall l, Forall P l -> P (JArr l).
Hypothesis Hobj : forall fs, Forall (fun kv => P kv.2) fs -> P (JObj fs).

Fixpoint json_nested_ind (j : json) : P j :=
  match j with
  | JNull => Hnull
  | JBool b => Hbool b
  | JNum t => Hnum t
  | JStr s => Hstr s
  | JArr l =>
    Harr l ((fix go l := match l return Forall P l with
                         | [] => Forall_nil_2 _
                         | v :: l => Forall_cons_2 _ _ _ (json_nested_ind v) (go l)
                         end) l)
  | JObj fs =>
    Hobj fs ((fix go fs := match fs return Forall (fun kv => P kv.2) fs with
                           | [] => Forall_nil_2 _
                           | kv :: fs => Forall_cons_2 _ _ _ (json_nested_ind kv.2) (go fs)
                           end) fs)
  end.
End Json_ind.

(** ** When canonicalization succeeds *)

(** Every number of the value is an integer in canonical form. *)
Fixpoint integral (v : json) : bool :=
  match v with
  | JNum t => isCanonicalInteger t
  | JArr l => forallb integral l
  | JObj fs => forallb (fun kv => integral kv.2) fs
  | _ => true
  end.

(** Every string and member name of the value is valid UTF-8. *)
Fixpoint utf8 (v : json) : bool :=
  match v with
  | JStr s => ValidString s
  | JArr l => forallb utf8 l
  | JObj fs => forallb (fun kv => ValidString kv.1 && utf8 kv.2) fs
  | _ => true
  end.

Lemma sequence_is_ok l : is_ok (sequence l) = forallb is_ok l.
Proof.
  induction l as [|[x|e] l IH]; simpl; [done|..|done].
  destruct (sequence l) eqn:E; simpl in *; [done|]. by rewrite <-IH.
Qed.

Lemma appendCanonicalString_is_ok s : is_ok (appendCanonicalString s) = ValidString s.
Proof. unfold appendCanonicalString. by destruct (ValidString s). Qed.

Lemma append_member_is_ok kv : is_ok (append_member kv) = ValidString kv.1 && is_ok kv.2.
Proof.
  unfold append_member. rewrite <-appendCanonicalString_is_ok.
  destruct (appendCanonicalString kv.1); simpl; [|done]. by destruct (kv.2).
Qed.

Lemma forallb_perm {A} (f : A -> bool) l1 l2 : l1 ≡ₚ l2 -> forallb f l1 = forallb f l2.
Proof.
  induction 1; simpl; try congruence. rewrite !andb_assoc. f_equal. apply andb_comm.
Qed.

Lemma forallb_ext_Forall {A} (f g : A -> bool) l :
  Forall (fun x => f x = g x) l -> forallb f l = forallb g l.
Proof. induction 1; simpl; congruence. Qed.

Lemma forallb_map {A B} (f : B -> bool) (g : A -> B) l :
  forallb f (map g l) = forallb (fun x => f (g x)) l.
Proof. induction l; simpl; congruence. Qed.

Lemma appendCanonical_is_ok v : is_ok (appendCanonical v) = integral v && utf8 v.
Proof.
  induction v as [| | | |l IH|fs IH] using json_nested_ind; simpl; try done.
  - by destruct (isCanonicalInteger t).
  - apply appendCanonicalString_is_ok.
  - transitivity (is_ok (sequence (map appendCanonical l))); [by destruct (sequence _)|].
    rewrite sequence_is_ok, forallb_map, (forallb_ext_Forall _ _ _ IH).
    clear IH. induction l as [|v l IHl]; simpl; [done|]. rewrite IHl.
    destruct (integral v), (utf8 v), (forallb integral l); simpl; try done.
  - match goal with |- context [sequence (map append_member ?s)] =>
      transitivity (is_ok (sequence (map append_member s))) end; [by destruct (sequence _)|].
    rewrite sequence_is_ok, forallb_map.
    rewrite (forallb_perm _ _ _ (sort_slice_Permutation _ _)), forallb_map.
    transitivity (forallb (fun kv => ValidString kv.1 && (integral kv.2 && utf8 kv.2)) fs).
    { apply forallb_ext_Forall. eapply Forall_impl; [exact IH|]. simpl. intros kv Hkv.
      rewrite append_member_is_ok. simpl. by rewrite Hkv. }
    clear IH. induction fs as [|kv fs IHfs]; simpl; [done|]. rewrite IHfs.
    destruct (ValidString kv.1), (integral kv.2), (utf8 kv.2),
      (forallb (fun kv => integral kv.2) fs); simpl; done.
Qed.

Lemma last_wins_sub kv fs : In kv (last_wins fs) -> In kv fs.
Proof.
  induction fs as [|q fs IH]; simpl; [done|].
  destruct (existsb _ fs); [tauto|]. simpl. tauto.
Qed.

Lemma utf8_redecode v : utf8 (redecode v) = true.
Proof.
  induction v as [| | | |l IH|fs IH] using json_nested_ind; simpl; try done.
  - apply ValidString_sanitize.
  - rewrite forallb_map. apply forallb_forall. rewrite List.Forall_forall in IH. auto.
  - apply forallb_forall. intros kv Hkv.
    apply last_wins_sub, in_map_iff in Hkv as (q & <- & Hq). simpl.
    rewrite ValidString_sanitize. rewrite List.Forall_forall in IH. by apply IH.
Qed.

Lemma integral_redecode v : integral v = true -> integral (redecode v) = true.
Proof.
  induction v as [| | | |l IH|fs IH] using json_nested_ind; simpl; try done.
  - rewrite forallb_map, !forallb_forall. rewrite List.Forall_forall in IH. auto.
  - rewrite !forallb_forall. intros Hi kv Hkv. rewrite List.Forall_forall in IH.
    apply last_wins_sub, in_map_iff in Hkv as (q & <- & Hq). simpl. auto.
Qed.

(** Integers print as canonical integers, so structs of strings, booleans and
    integers always have canonical bytes. *)
Lemma isCanonicalInteger_itoa z : isCanonicalInteger (itoa z) = true.
Proof.
  destruct z as [|p|p]; [done|..];
    destruct (itoa_pos_digits p) as (Hd & a & l & Hl & Ha).
  - unfold isCanonicalInteger. case_bool_decide; [done|].
    rewrite Hl in *. simpl in Hd. apply andb_true_iff in Hd as [Hda Hd].
    destruct (Ascii.eqb_spec a "-") as [->|]; [by vm_compute in Hda|].
    destruct (Ascii.eqb_spec a "0"); [done|]. simpl. by rewrite Hda.
  - rewrite itoa_neg. unfold isCanonicalInteger. case_bool_decide; [done|].
    change (chars (String "-" (itoa (Z.pos p)))) with ("-"%char :: chars (itoa (Z.pos p))).
    rewrite Hl in *. cbn [Ascii.eqb Bool.eqb].
    destruct (Ascii.eqb_spec a "0"); [done|exact Hd].
Qed.

Lemma integral_JInt z : integral (JInt z) = true.
Proof. apply isCanonicalInteger_itoa. Qed.

Lemma integral_JStrs l : integral (JStrs l) = true.
Proof. simpl. rewrite forallb_map. by apply forallb_forall. Qed.

Lemma CanonicalJSON_total v :
  integral v = true -> exists body, CanonicalJSON v = Ok body.
Proof.
  intros Hi. pose proof (appendCanonical_is_ok (redecode v)) as Hok.
  rewrite utf8_redecode, integral_redecode in Hok by done.
  unfold CanonicalJSON. destruct (appendCanonical _) as [body|]; [by exists body|done].
Qed.

(** No object of the value has two members that decode to one name. *)
Fixpoint distinct_names (v : json) : bool :=
  match v with
  | JArr l => forallb distinct_names l
  | JObj fs => bool_decide (NoDup (map (fun kv => sanitize kv.1) fs))
               && forallb (fun kv => distinct_names kv.2) fs
  | _ => true
  end.

Lemma last_wins_id fs : NoDup fs.*1 -> last_wins fs = fs.
Proof.
  induction fs as [|kv fs IH]; simpl; [done|]. intros [Hn Hnd]%NoDup_cons.
  rewrite IH by done. destruct (existsb _ fs) eqn:E; [exfalso|done].
  apply existsb_exists in E as (q & Hq & Heq). to_prop. apply Hn. rewrite <-Heq.
  apply list_elem_of_fmap. exists q. split; [done|]. by apply list_elem_of_In.
Qed.

Lemma redecode_fields fs :
  NoDup (map (fun kv => sanitize kv.1) fs) ->
  last_wins (map (fun kv => (sanitize kv.1, redecode kv.2)) fs) =
  map (fun kv => (sanitize kv.1, redecode kv.2)) fs.
Proof.
  intros Hnd. apply last_wins_id. by rewrite <-list_fmap_compose.
Qed.

Lemma integral_redecode_distinct v :
  distinct_names v = true -> integral (redecode v) = integral v.
Proof.
  induction v as [| | | |l IH|fs IH] using json_nested_ind; simpl; try done; intros Hd.
  - rewrite forallb_map. apply forallb_ext_Forall, Forall_forall. intros x Hx.
    rewrite Forall_forall in IH. apply IH; [done|].
    rewrite forallb_forall in Hd. by apply Hd, list_elem_of_In.
  - apply andb_true_iff in Hd as [Hnd Hd]. apply bool_decide_eq_true_1 in Hnd.
    rewrite redecode_fields, forallb_map by done. apply forallb_ext_Forall, Forall_forall.
    intros x Hx. rewrite Forall_forall in IH. apply IH; [done|].
    rewrite forallb_forall in Hd. by apply Hd, list_elem_of_In.
Qed.

(** ** The order of members *)

#[export] Instance units_less_strict : StrictOrderB units_less.
Proof.
  split.
  - intros a. induction a as [|x a IH]; simpl; [done|]. by rewrite N.eqb_refl.
  - intros a. induction a as [|x a IH]; intros [|y b] [|z c]; simpl; try done.
    destruct (N.eqb_spec x y) as [->|Hxy]; simpl.
    + destruct (N.eqb_spec y z); simpl; [apply IH|done].
    + intros Hlt. destruct (N.eqb_spec y z) as [->|Hyz]; simpl.
      * intros _. destruct (N.eqb_spec x z); simpl; done.
      * rewrite !N.ltb_lt in *. intros Hlt2.
        destruct (N.eqb_spec x z) as [->|]; simpl; [lia|]. apply N.ltb_lt. lia.
  - intros a. induction a as [|x a IH]; intros [|y b]; simpl; try done.
    destruct (N.eqb_spec x y) as [->|Hxy]; simpl.
    + rewrite N.eqb_refl. simpl. intros. by rewrite (IH b).
    + destruct (N.eqb_spec y x); simpl; [lia|]. rewrite !N.ltb_ge. lia.
Qed.

(** Canonical JSON refuses exactly the non-integral numbers: for a value no
    object of which repeats a member name it returns bytes if and only if every
    number in it is an integer in canonical form, whatever strings it holds. *)
Theorem canonical_json_succeeds_iff v (Hdistinct : distinct_names v = true) :
  is_ok (CanonicalJSON v) = integral v.
Proof.
  unfold CanonicalJSON. rewrite appendCanonical_is_ok, utf8_redecode, andb_true_r.
  by apply integral_redecode_distinct.
Qed.

(** ** Text in ASCII *)
Definition ascii_only (s : string) : bool := forallb (fun a => (code a <? 128)%N) (chars s).

Lemma runes_of_ascii s : ascii_only s = true -> runes_of s = map (fun a => (true, [a])) (chars s).
Proof.
  intros Ha. unfold runes_of. transitivity (pieces (len s) (concat (map (fun a => [a]) (chars s)))).
  { f_equal. induction (chars s) as [|a l IH]; simpl; congruence. }
  rewrite pieces_concat, map_map; [done| |].
  - apply Forall_forall. intros p (a & -> & Hin)%list_elem_of_fmap. split; [done|].
    unfold ascii_only in Ha. rewrite forallb_forall in Ha. unfold rune_len. cbn zeta.
    rewrite (Ha a); [done|]. by apply list_elem_of_In.
  - unfold len. rewrite <-length_chars. induction (chars s) as [|a l IH]; simpl; lia.
Qed.

Lemma ValidString_ascii s : ascii_only s = true -> ValidString s = true.
Proof.
  intros Ha. unfold ValidString. rewrite (runes_of_ascii s Ha). apply forallb_forall.
  intros p Hp. by apply in_map_iff in Hp as (a & <- & _).
Qed.

Lemma utf16_units_ascii s : ascii_only s = true -> utf16_units s = map code (chars s).
Proof.
  intros Ha. unfold utf16_units. rewrite (runes_of_ascii s Ha). unfold ascii_only in Ha.
  induction (chars s) as [|a l IH]; [done|]. cbn [map forallb concat fst snd] in *.
  apply andb_true_iff in Ha as [Ha Hl]. rewrite IH by done. unfold rune_value, rune_len. cbn zeta. rewrite Ha. apply N.ltb_lt in Ha.
  cbn [nth]. by replace (code a <? 65536)%N with true by (symmetry; apply N.ltb_lt; lia).
Qed.

Lemma utf16_units_ascii_inj s1 s2 :
  ascii_only s1 = true -> ascii_only s2 = true -> utf16_units s1 = utf16_units s2 -> s1 = s2.
Proof.
  intros H1 H2. rewrite !utf16_units_ascii by done. intros Heq. apply chars_inj.
  assert (Inj (=) (=) code) as Hcode.
  { intros a b Hab. rewrite <-(ascii_N_embedding a), <-(ascii_N_embedding b). unfold code in Hab. by rewrite Hab. }
  by apply (list_fmap_eq_inj code) in Heq.
Qed.

Lemma isSHA256_ascii s : isSHA256 s = true -> ascii_only s = true.
Proof.
  unfold isSHA256, hex_decodes, ascii_only. intros Hs. case_match; [done|].
  apply andb_true_iff in Hs as [_ Hs]. rewrite forallb_forall in *. intros a Ha.
  specialize (Hs a Ha). unfold is_hex_digit, in_range in Hs.
  rewrite !orb_true_iff, !andb_true_iff, !N.leb_le in Hs. apply N.ltb_lt. lia.
Qed.

(** The members of an object may be visited in any order. *)
Lemma CanonicalJSON_perm fs1 fs2 :
  fs1 ≡ₚ fs2 -> NoDup (map (fun kv => utf16_units (sanitize kv.1)) fs1) ->
  CanonicalJSON (JObj fs1) = CanonicalJSON (JObj fs2).
Proof.
  intros Hperm Hdistinct.
  assert (NoDup (map (fun kv : string * json => sanitize kv.1) fs1)) as Hnd1.
  { apply (NoDup_fmap_1 utf16_units). by rewrite <-list_fmap_compose. }
  assert (NoDup (map (fun kv : string * json => sanitize kv.1) fs2)) as Hnd2.
  { by rewrite <-(Permutation_map _ Hperm). }
  unfold CanonicalJSON. simpl. rewrite !redecode_fields by done.
  rewrite !map_map. simpl.
  set (f := fun kv : string * json => (sanitize kv.1, appendCanonical (redecode kv.2))).
  replace (sort_slice _ (map f fs2)) with
    (sort_slice (fun a b => utf16Less a.1 b.1) (map f fs1)); [done|].
  apply (sort_slice_perm (fun a : string * res canonical_error string => utf16_units a.1) units_less).
  - by rewrite <-list_fmap_compose.
  - by apply Permutation_map.
Qed.

(** Canonical JSON does not depend on the order in which the members of an
    object (the keys of a Go map, the fields of a struct) are visited: any two
    orders of the same members, the names being distinct as UTF-16, give the
    same bytes or the same error. *)
Theorem canonical_json_order_independent fs1 fs2
    (Hperm : fs1 ≡ₚ fs2)
    (Hdistinct : NoDup (map (fun kv => utf16_units (sanitize kv.1)) fs1)) :
  CanonicalJSON (JObj fs1) = CanonicalJSON (JObj fs2).
Proof.
  apply CanonicalJSON_perm; [exact Hperm|exact Hdistinct].
Qed.

Lemma canonical_json_succeeds_iff_witness :
  distinct_names (JObj [("n", JNum "1.5"); ("s", JStr (chr 255))]) = true /\
  is_ok (CanonicalJSON (JObj [("n", JNum "1.5"); ("s", JStr (chr 255))])) =
    integral (JObj [("n", JNum "1.5"); ("s", JStr (chr 255))]) /\
  is_ok (CanonicalJSON (JObj [("n", JInt (-15)); ("s", JStr (chr 255))])) = true.
Proof.
  split; [vm_compute; reflexivity|]. split; [|vm_compute; reflexivity].
  apply (canonical_json_succeeds_iff (JObj [("n", JNum "1.5"); ("s", JStr (chr 255))])).
  vm_compute; reflexivity.
Defined.

Lemma canonical_json_order_independent_witness :
  CanonicalJSON (JObj [("b", JInt 1); ("a", JNull); ("aa", JBool true)]) =
  CanonicalJSON (JObj [("aa", JBool true); ("b", JInt 1); ("a", JNull)]).
Proof.
  apply (canonical_json_order_independent
    [("b", JInt 1); ("a", JNull); ("aa", JBool true)]
    [("aa", JBool true); ("b", JInt 1); ("a", JNull)]).
  - symmetry. apply (Permutation_app_comm [_] [_; _]).
  - by_deciding.
Defined.
