(* ===== verification/JsonRoundTrip.v ===== *)
(** * JsonRoundTrip: what is printed reads back

    Both printers of JSON in the code, [json.Marshal] and [CanonicalJSON], are
    instances of one printer that is given how to write a character. What it
    prints of a value whose numbers are integers is read back by the decoder as
    that value with every invalid byte of a string replaced by U+FFFD. So bytes
    that agree come from values that agree: the encodings that are hashed and
    signed are injective up to that replacement. *)
From S2P Require Import Prelude GoStrings GoJson CanonicalJson.
From Stdlib Require Import Ascii.

#[local] Arguments rune_len : simpl never.

(** ** The shared printer *)
Definition print_string (pr : bool * list ascii -> list ascii) (s : string) : list ascii :=
  quote :: concat (map pr (runes_of s)) ++ [quote].

Fixpoint print_list (sep : ascii) (l : list (list ascii)) : list ascii :=
  match l with
  | [] => []
  | [x] => x
  | x :: l => x ++ sep :: print_list sep l
  end.

Fixpoint print (pr : bool * list ascii -> list ascii) (j : json) : list ascii :=
  match j with
  | JNull => chars "null"
  | JBool b => chars (if b then "true" else "false")
  | JNum t => chars t
  | JStr s => print_string pr s
  | JArr l => "["%char :: print_list "," (map (print pr) l) ++ ["]"%char]
  | JObj fs => "{"%char :: print_list "," (map (fun kv => print_string pr kv.1 ++ ":"%char :: print pr kv.2) fs)
               ++ ["}"%char]
  end.

Lemma chars_join sep l : chars (join (String sep EmptyString) l) = print_list sep (map chars l).
Proof.
  induction l as [|x [|y l] IH]; [done|done|].
  change (join (String sep "") (x :: y :: l)) with (x +:+ (String sep "") +:+ join (String sep "") (y :: l)).
  rewrite !chars_app, IH. done.
Qed.

Lemma print_marshal v : chars (marshal v) = print marshal_rune v.
Proof.
  induction v as [| | | |l IH|fs IH] using json_nested_ind; try done.
  - simpl. unfold marshal_string, quote_chars. by rewrite chars_of_chars.
  - cbn [marshal print]. rewrite !chars_app, chars_join, map_map. simpl. f_equal. f_equal. f_equal.
    apply map_ext_Forall. done.
  - cbn [marshal print]. rewrite !chars_app, chars_join, map_map. simpl. f_equal. f_equal. f_equal.
    apply map_ext_Forall. eapply Forall_impl; [exact IH|]. simpl. intros kv Hkv.
    rewrite !chars_app, Hkv. unfold marshal_string, quote_chars. by rewrite chars_of_chars.
Qed.

(** A value with the invalid bytes of its strings and names replaced. *)
Fixpoint clean (v : json) : json :=
  match v with
  | JStr s => JStr (sanitize s)
  | JArr l => JArr (map clean l)
  | JObj fs => JObj (map (fun kv => (sanitize kv.1, clean kv.2)) fs)
  | _ => v
  end.

(** ** Characters *)
Definition piece_ok (p : bool * list ascii) : Prop :=
  if p.1 then whole_rune p.2 else exists a, p.2 = [a].

Definition clean_piece (p : bool * list ascii) : list ascii := if p.1 then p.2 else replacement.

Lemma runes_of_ok s : Forall piece_ok (runes_of s).
Proof.
  apply Forall_forall. intros [[] p] Hp; unfold piece_ok; simpl.
  - by eapply pieces_whole.
  - revert Hp. unfold runes_of. generalize (chars s). induction (len s) as [|n IH]; intros l;
      [by intros ?%elem_of_nil|].
    destruct l as [|a l]; [by intros ?%elem_of_nil|]. simpl.
    destruct (rune_len (a :: l)); intros [Heq|Hin]%elem_of_cons; simplify_eq; eauto.
Qed.

Lemma chars_sanitize s : chars (sanitize s) = concat (map clean_piece (runes_of s)).
Proof. unfold sanitize. by rewrite chars_of_chars. Qed.

(** A printed piece reads back in one step. *)
Definition reads (pr : bool * list ascii -> list ascii) (p : bool * list ascii) : Prop :=
  forall fuel rest, parse_string (S fuel) (pr p ++ rest) =
    ('(s, l) ← parse_string fuel rest; Some (clean_piece p ++ s, l)).

Lemma plain_ascii_reads (a : ascii) fuel rest :
  (code a <? 128)%N = true -> (code a <? 32)%N = false -> Ascii.eqb a quote = false ->
  Ascii.eqb a "\" = false ->
  parse_string (S fuel) (a :: rest) = ('(s, l) ← parse_string fuel rest; Some (a :: s, l)).
Proof.
  intros H1 H2 H3 H4. cbn [parse_string]. rewrite H3, H2, H4.
  unfold rune_len. by rewrite H1.
Qed.

Lemma whole_rune_cons a p : whole_rune (a :: p) -> p <> [] -> (code a <? 128)%N = false.
Proof.
  intros [_ Hl] Hp. unfold rune_len in Hl. destruct (code a <? 128)%N; [|done].
  destruct p; [done|]. simpl in Hl. lia.
Qed.

Lemma wide_reads p fuel rest :
  whole_rune p -> 2 <= Datatypes.length p ->
  parse_string (S fuel) (p ++ rest) = ('(s, l) ← parse_string fuel rest; Some (p ++ s, l)).
Proof.
  intros Hw Hlen. destruct p as [|a p]; [simpl in Hlen; lia|].
  assert ((code a <? 128)%N = false) as Ha.
  { eapply whole_rune_cons; [done|]. by destruct p; simpl in Hlen; [lia|]. }
  apply N.ltb_ge in Ha.
  cbn [parse_string app].
  destruct (Ascii.eqb_spec a quote) as [->|_]; [by vm_compute in Ha|].
  destruct (N.ltb_spec (code a) 32); [lia|].
  destruct (Ascii.eqb_spec a "\") as [->|_]; [by vm_compute in Ha|].
  change (a :: p ++ rest) with ((a :: p) ++ rest). rewrite (rune_len_app _ rest Hw).
  cbn [Datatypes.length]. change (S (Datatypes.length p)) with (Datatypes.length (a :: p)).
  by rewrite drop_app_length, take_app_length.
Qed.

Lemma whole_rune_1 a : whole_rune [a] -> (code a <? 128)%N = true.
Proof. intros [_ Hl]. unfold rune_len in Hl. by destruct (code a <? 128)%N. Qed.

(** The escapes of [json.Marshal] and of [CanonicalJSON], character by character. *)
Lemma marshal_ascii_reads a : (code a <? 128)%N = true -> reads marshal_rune (true, [a]).
Proof.
  intros Ha fuel rest. destruct a as [[] [] [] [] [] [] [] []]; try discriminate Ha; reflexivity.
Qed.

Lemma canonical_ascii_reads a : (code a <? 128)%N = true -> reads canonical_char (true, [a]).
Proof.
  intros Ha fuel rest. destruct a as [[] [] [] [] [] [] [] []]; try discriminate Ha; reflexivity.
Qed.

Lemma byte_of_code a : byte_of (code a) = a.
Proof. apply ascii_N_embedding. Qed.

Ltac ranges :=
  unfold in_range, is_cont, in_range in *;
  repeat match goal with
  | H : (_ && _)%bool = true |- _ => apply andb_true_iff in H as [? ?]
  | H : (_ <=? _)%N = true |- _ => apply N.leb_le in H
  | H : (_ =? _)%N = true |- _ => apply N.eqb_eq in H
  | H : (_ =? _)%N = false |- _ => apply N.eqb_neq in H
  end.

(** Only the encodings of U+2028 and U+2029 have their values. *)
Lemma line_separators p v :
  whole_rune p -> 2 <= Datatypes.length p -> rune_value p = v -> v = 8232%N \/ v = 8233%N ->
  p = encode_rune v.
Proof.
  intros Hw Hlen Hval Hv. pose proof (rune_len_le_4 p) as H4. destruct Hw as [_ Hl].
  unfold rune_value in Hval. rewrite Hl in *. unfold rune_len in Hl.
  destruct p as [|a [|b [|c [|d [|e p]]]]]; simpl in Hlen, H4; try lia; cbn zeta in Hl;
    cbn [nth Datatypes.length] in Hval, Hl; split_conds Hl; try discriminate Hl; ranges; try lia.
  all: rewrite <-(byte_of_code a), <-(byte_of_code b), <-(byte_of_code c).
  all: assert (code a = 226%N /\ code b = 128%N /\ code c = (v - 8064)%N) as (-> & -> & ->) by lia.
  all: destruct Hv as [-> | ->]; reflexivity.
Qed.

Lemma marshal_reads p : piece_ok p -> reads marshal_rune p.
Proof.
  destruct p as [[] p]; unfold piece_ok; simpl.
  - intros Hw. destruct (decide (Datatypes.length p = 1)) as [H1|H1].
    + destruct p as [|a [|]]; try done. apply marshal_ascii_reads. by apply whole_rune_1.
    + assert (2 <= Datatypes.length p) as H2 by (destruct Hw as [Hne _]; destruct p as [|? [|]]; simpl in *; done || lia).
      intros fuel rest. unfold marshal_rune. cbn [fst snd negb].
      destruct p as [|a [|b p]]; [simpl in H2; lia..|]. set (q := a :: b :: p) in *.
      destruct ((rune_value q =? 8232)%N || (rune_value q =? 8233)%N) eqn:E; [|by apply wide_reads].
      assert (rune_value q = 8232%N \/ rune_value q = 8233%N) as Hv.
      { apply orb_true_iff in E as [E|E]; apply N.eqb_eq in E; auto. }
      unfold clean_piece. cbn [fst snd].
      rewrite (line_separators q (rune_value q) Hw H2 eq_refl Hv).
      destruct Hv as [-> | ->]; reflexivity.
  - intros [a ->] fuel rest. reflexivity.
Qed.

Lemma canonical_reads p : p.1 = true -> piece_ok p -> reads canonical_char p.
Proof.
  destruct p as [[] p]; unfold piece_ok; simpl; [|done].
  intros _ Hw. destruct (decide (Datatypes.length p = 1)) as [H1|H1].
  - destruct p as [|a [|]]; try done. apply canonical_ascii_reads. by apply whole_rune_1.
  - assert (2 <= Datatypes.length p) as H2 by (destruct Hw as [Hne _]; destruct p as [|? [|]]; simpl in *; done || lia).
    intros fuel rest. unfold canonical_char. cbn [fst snd].
    destruct p as [|a [|b p]]; [simpl in H2; lia..|]. by apply wide_reads.
Qed.

(** ** Strings *)
Section Printer.
Context (pr : bool * list ascii -> list ascii).

(** Every character of every string of the value reads back. *)
Definition readable (s : string) : Prop := Forall (reads pr) (runes_of s).

Fixpoint readable_value (v : json) : Prop :=
  match v with
  | JStr s => readable s
  | JNum t => isCanonicalInteger t = true
  | JArr l => foldr (fun v P => readable_value v /\ P) True l
  | JObj fs => foldr (fun kv P => (readable kv.1 /\ readable_value kv.2) /\ P) True fs
  | _ => True
  end.

Lemma foldr_Forall {A} (P : A -> Prop) l : foldr (fun x Q => P x /\ Q) True l <-> Forall P l.
Proof.
  induction l as [|x l IH]; simpl; [split; constructor|]. by rewrite IH, Forall_cons.
Qed.

Lemma parse_pieces ps fuel rest :
  Forall (reads pr) ps -> Datatypes.length ps < fuel ->
  parse_string fuel (concat (map pr ps) ++ quote :: rest) = Some (concat (map clean_piece ps), rest).
Proof.
  revert fuel. induction ps as [|p ps IH]; intros fuel Hps Hf; destruct fuel as [|fuel];
    simpl in Hf; try lia; [done|].
  apply Forall_cons in Hps as [Hp Hps]. cbn [map concat]. rewrite <-(assoc_L (++)), Hp.
  rewrite IH by (done || lia). done.
Qed.

Lemma reads_nonempty p : reads pr p -> pr p <> [].
Proof.
  intros Hr Hnil. specialize (Hr 0 [quote]). rewrite Hnil in Hr. done.
Qed.

Lemma length_concat_pieces ps :
  Forall (reads pr) ps -> Datatypes.length ps <= Datatypes.length (concat (map pr ps)).
Proof.
  induction 1 as [|p ps Hp _ IH]; simpl; [done|]. rewrite length_app.
  apply reads_nonempty in Hp. destruct (pr p); simpl in *; [done|lia].
Qed.

Lemma parse_printed_string s rest :
  readable s ->
  let l := concat (map pr (runes_of s)) ++ quote :: rest in
  parse_string (S (Datatypes.length l)) l = Some (chars (sanitize s), rest).
Proof.
  intros Hs. cbv zeta. rewrite chars_sanitize. apply parse_pieces; [done|].
  rewrite length_app. pose proof (length_concat_pieces _ Hs). simpl. lia.
Qed.

(** ** Numbers *)

(** What may follow a number: no digit, point or exponent. *)
Definition ends_number (l : list ascii) : bool :=
  match l with
  | [] => true
  | a :: _ => negb (is_digit a || Ascii.eqb a "." || Ascii.eqb a "e" || Ascii.eqb a "E")
  end.

Lemma take_digits_app ds l :
  forallb is_digit ds = true -> ends_number l = true -> take_digits (ds ++ l) = ds.
Proof.
  intros Hd Hl. induction ds as [|a ds IH]; simpl in *.
  - destruct l as [|a l]; [done|]. simpl in *. by destruct (is_digit a).
  - apply andb_true_iff in Hd as [-> Hd]. f_equal. auto.
Qed.

Lemma num_part_none lead sign l :
  match l with a :: _ => lead a = false | [] => True end -> num_part lead sign l = Some ([], l).
Proof. destruct l as [|a l]; simpl; [done|]. by intros ->. Qed.

Lemma num_int_digits a ds l :
  is_digit a = true -> a <> "0"%char \/ ds = [] -> forallb is_digit ds = true -> ends_number l = true ->
  num_int (a :: ds ++ l) = Some (a :: ds, l).
Proof.
  intros Ha Hz Hds Hl. unfold num_int.
  destruct (Ascii.eqb_spec a "0") as [->|Hne].
  - destruct Hz as [? | ->]; done.
  - change (a :: ds ++ l) with ((a :: ds) ++ l).
    rewrite take_digits_app by (simpl; by rewrite ?Ha). by rewrite drop_app_length.
Qed.

Lemma parse_number_int t l :
  isCanonicalInteger t = true -> ends_number l = true ->
  parse_number (chars t ++ l) = Some (t, l).
Proof.
  intros Ht Hl. unfold parse_number.
  assert (forall sg a ds, chars t = sg ++ a :: ds -> is_digit a = true -> a <> "0"%char \/ ds = [] ->
    forallb is_digit ds = true ->
    ('(i, l1) ← num_int (a :: ds ++ l);
     '(f, l2) ← num_part (fun a => Ascii.eqb a ".") false l1;
     '(e, l3) ← num_part (fun a => Ascii.eqb a "e" || Ascii.eqb a "E") true l2;
     Some (of_chars (sg ++ i ++ f ++ e), l3)) = Some (t, l)) as Hrest.
  { intros sg a ds Heq Ha Hz Hds. rewrite num_int_digits by done. simpl.
    assert (match l with b :: _ => negb (is_digit b || Ascii.eqb b "." || Ascii.eqb b "e" || Ascii.eqb b "E") = true | [] => True end)
      as Hl' by (destruct l; done).
    rewrite num_part_none.
    2:{ destruct l; [done|]. apply negb_true_iff in Hl'. by repeat apply orb_false_iff in Hl' as [Hl' ?]. }
    simpl. rewrite num_part_none.
    2:{ destruct l; [done|]. apply negb_true_iff in Hl'. apply orb_false_iff in Hl' as [Hl' ->].
        by apply orb_false_iff in Hl' as [_ ->]. }
    simpl. rewrite app_nil_r, <-Heq, of_chars_chars. done. }
  unfold isCanonicalInteger in Ht. case_bool_decide as H0.
  { subst t. apply (Hrest [] "0"%char []); auto. }
  destruct (chars t) as [|c ds] eqn:Et; [done|].
  destruct (Ascii.eqb_spec c "-") as [->|Hc].
  - destruct ds as [|d ds]; [done|]. destruct (Ascii.eqb_spec d "0"); [done|].
    simpl in Ht. apply andb_true_iff in Ht as [Hd Hds].
    cbn [app]. rewrite Ascii.eqb_refl. apply (Hrest ["-"%char] d ds); auto.
  - destruct (Ascii.eqb_spec c "0"); [done|]. simpl in Ht. apply andb_true_iff in Ht as [Hd Hds].
    cbn [app]. destruct (Ascii.eqb_spec c "-"); [done|]. apply (Hrest [] c ds); auto.
Qed.

(** ** Values *)
Lemma digit_neq a b : is_digit a = true -> is_digit b = false -> Ascii.eqb a b = false.
Proof. intros Ha Hb. destruct (Ascii.eqb_spec a b); congruence. Qed.

Lemma canonical_integer_head t :
  isCanonicalInteger t = true -> exists a l, chars t = a :: l /\ (a = "-"%char \/ is_digit a = true).
Proof.
  unfold isCanonicalInteger. case_bool_decide as H0; [subst; eauto|].
  destruct (chars t) as [|a l]; [done|]. intros Hc. exists a, l. split; [done|].
  destruct (Ascii.eqb_spec a "-"); [by left|right].
  destruct (Ascii.eqb a "0"); [done|]. simpl in Hc. by apply andb_true_iff in Hc as [? _].
Qed.

Lemma skip_ws_cons a l : is_ws a = false -> skip_ws (a :: l) = a :: l.
Proof. simpl. by intros ->. Qed.

(** The printed values start with a character that is not white space, and that
    does not close an array. *)
Lemma print_head v : readable_value v ->
  exists a l, print pr v = a :: l /\ is_ws a = false /\ Ascii.eqb a "]" = false.
Proof.
  destruct v as [|[]|t|s|l|fs]; simpl; intros Hv; try (by eexists _, _).
  apply canonical_integer_head in Hv as (a & l & -> & Ha). exists a, l.
  split; [done|]. destruct Ha as [-> |Ha]; [done|].
  split; [|by apply digit_neq].
  unfold is_ws. unfold is_digit, in_range in Ha. apply andb_true_iff in Ha as [Ha _].
  apply N.leb_le in Ha. rewrite !orb_false_iff, !N.eqb_neq. lia.
Qed.

(** What a parse of [v] with enough fuel returns, whatever follows. *)
Definition parses (v : json) : Prop :=
  forall fuel rest, ends_number rest = true ->
    2 * Datatypes.length (print pr v) + 1 <= fuel ->
    parse_value fuel (print pr v ++ rest) = Some (clean v, rest).

Lemma parse_value_number t : isCanonicalInteger t = true -> parses (JNum t).
Proof.
  intros Ht fuel rest Hr Hf. destruct fuel as [|fuel]; [lia|]. cbn [print clean].
  pose proof (parse_number_int t rest Ht Hr) as Hp.
  destruct (print_head (JNum t) Ht) as (a' & l' & Heq' & Hws & _). cbn [print] in Heq'.
  apply canonical_integer_head in Ht as (a & l & Heq & Ha). rewrite Heq in Heq', Hp |- *.
  injection Heq' as <- <-.
  assert (forall b, b <> "-"%char -> is_digit b = false -> Ascii.eqb a b = false) as Hneq.
  { intros b Hb Hd. destruct Ha as [-> |Ha]; [|by apply digit_neq].
    destruct (Ascii.eqb_spec "-" b); congruence. }
  cbn [parse_value app] in *. rewrite skip_ws_cons by done.
  rewrite !Hneq by done. by rewrite Hp.
Qed.

Lemma parse_elements_print l fuel rest :
  l <> [] -> Forall readable_value l -> Forall parses l ->
  2 * Datatypes.length (print_list "," (map (print pr) l)) + 2 <= fuel ->
  parse_elements fuel (print_list "," (map (print pr) l) ++ "]"%char :: rest) = Some (map clean l, rest).
Proof.
  revert fuel. induction l as [|v l IH]; [done|]. intros fuel _ Hrd Hps Hf.
  apply Forall_cons in Hrd as [Hv Hrd]. apply Forall_cons in Hps as [Hpv Hps].
  destruct fuel as [|fuel]; [lia|]. destruct l as [|w l].
  - cbn [map print_list] in *. cbn [parse_elements]. rewrite Hpv by (done || lia). done.
  - change (print_list "," (map (print pr) (v :: w :: l))) with
      (print pr v ++ ","%char :: print_list "," (map (print pr) (w :: l))) in *.
    rewrite length_app in Hf. cbn [Datatypes.length] in Hf.
    rewrite <-(assoc_L (++)). cbn [app parse_elements]. rewrite Hpv by (done || lia).
    cbn [mbind option_bind]. rewrite skip_ws_cons by done. cbn [Ascii.eqb Bool.eqb].
    rewrite IH by (done || lia). done.
Qed.

Definition print_member (kv : string * json) : list ascii :=
  print_string pr kv.1 ++ ":"%char :: print pr kv.2.

Lemma parse_member_step kv fuel rest :
  readable kv.1 -> parses kv.2 -> ends_number rest = true ->
  2 * Datatypes.length (print pr kv.2) + 1 <= fuel ->
  parse_members (S fuel) (print_member kv ++ rest) =
  match skip_ws rest with
  | d :: l5 =>
    if Ascii.eqb d "," then '(fs, r) ← parse_members fuel l5; Some ((sanitize kv.1, clean kv.2) :: fs, r)
    else if Ascii.eqb d "}" then Some ([(sanitize kv.1, clean kv.2)], l5) else None
  | [] => None
  end.
Proof.
  intros Hk Hv Hr Hf. unfold print_member, print_string. rewrite <-(assoc_L (++)). cbn [app].
  rewrite <-(assoc_L (++)). cbn [app parse_members]. rewrite skip_ws_cons by done.
  rewrite Ascii.eqb_refl. cbn [negb]. rewrite parse_printed_string by done.
  cbn [mbind option_bind]. rewrite skip_ws_cons by done. cbn [Ascii.eqb Bool.eqb negb].
  rewrite Hv by done. cbn [mbind option_bind]. by rewrite of_chars_chars.
Qed.

Lemma parse_members_print fs fuel rest :
  fs <> [] -> Forall (fun kv => readable kv.1) fs -> Forall (fun kv => parses kv.2) fs ->
  2 * Datatypes.length (print_list "," (map print_member fs)) + 2 <= fuel ->
  parse_members fuel (print_list "," (map print_member fs) ++ "}"%char :: rest) =
  Some (map (fun kv => (sanitize kv.1, clean kv.2)) fs, rest).
Proof.
  revert fuel. induction fs as [|kv fs IH]; [done|]. intros fuel _ Hrd Hps Hf.
  apply Forall_cons in Hrd as [Hk Hrd]. apply Forall_cons in Hps as [Hpv Hps].
  destruct fuel as [|fuel]; [lia|].
  assert (Datatypes.length (print pr kv.2) <= Datatypes.length (print_member kv)) as Hlen.
  { unfold print_member. rewrite length_app. simpl. lia. }
  destruct fs as [|kv2 fs].
  - cbn [map print_list] in *.
    rewrite parse_member_step by (done || lia). done.
  - change (print_list "," (map print_member (kv :: kv2 :: fs))) with
      (print_member kv ++ ","%char :: print_list "," (map print_member (kv2 :: fs))) in *.
    rewrite length_app in Hf. cbn [Datatypes.length] in Hf. rewrite <-(assoc_L (++)).
    rewrite parse_member_step by (done || lia). cbn [app]. rewrite skip_ws_cons by done. cbn [Ascii.eqb Bool.eqb].
    rewrite IH by (done || lia). done.
Qed.

Lemma expect_word_ok w l : expect_word w (chars w ++ l) = Some l.
Proof.
  unfold expect_word, len. rewrite <-length_chars, drop_app_length.
  assert (HasPrefix (of_chars (chars w ++ l)) w = true) as ->; [|done].
  unfold HasPrefix. induction w as [|a w IH]; simpl; [by destruct (of_chars l)|].
  destruct (Ascii.ascii_dec a a); [|done]. exact IH.
Qed.

Lemma readable_parses v : readable_value v -> parses v.
Proof.
  induction v as [|b|t|s|l IH|fs IH] using json_nested_ind; intros Hrd.
  - intros [|fuel] rest _ Hf; [simpl in Hf; lia|]. cbn [print clean].
    pose proof (expect_word_ok "null" rest) as Hw. cbn [chars String.list_ascii_of_string app] in *.
    cbn [parse_value]. rewrite skip_ws_cons by done. cbn. by rewrite Hw.
  - intros [|fuel] rest _ Hf; [simpl in Hf; lia|]. cbn [print clean].
    pose proof (expect_word_ok (if b then "true" else "false") rest) as Hw.
    destruct b; cbn [chars String.list_ascii_of_string app] in *;
      cbn [parse_value]; rewrite skip_ws_cons by done; cbn; by rewrite Hw.
  - by apply parse_value_number.
  - intros [|fuel] rest _ Hf; [lia|]. cbn [print clean parse_value]. unfold print_string.
    cbn [app]. rewrite skip_ws_cons by done. rewrite Ascii.eqb_refl, <-(assoc_L (++)).
    cbn [app]. rewrite parse_printed_string by done. cbn [mbind option_bind].
    by rewrite of_chars_chars.
  - intros [|fuel] rest _ Hf; [lia|]. cbn [readable_value] in Hrd. rewrite foldr_Forall in Hrd.
    cbn [print clean parse_value] in *. cbn [app]. rewrite skip_ws_cons by done.
    cbn [Ascii.eqb Bool.eqb]. destruct l as [|v l]; [done|].
    assert (Forall parses (v :: l)) as Hps.
    { rewrite Forall_forall in IH, Hrd |- *. auto. }
    destruct (print_head v) as (a & k & Ha & Hws & Hb); [by apply Forall_inv in Hrd|].
    assert (exists k', print_list "," (map (print pr) (v :: l)) = a :: k') as [k' Hk'].
    { destruct l; cbn [map print_list]; rewrite Ha; [by eexists|]. by eexists. }
    rewrite <-(assoc_L (++)). pose proof (parse_elements_print (v :: l) fuel rest) as Hel.
    rewrite Hk' in *. cbn [app] in *. rewrite skip_ws_cons by done. rewrite Hb.
    rewrite Hel; [done..|]. simpl in Hf. rewrite length_app in Hf. simpl in Hf |- *. lia.
  - intros [|fuel] rest _ Hf; [lia|]. cbn [readable_value] in Hrd. rewrite foldr_Forall in Hrd.
    apply Forall_and in Hrd as [Hk Hv].
    cbn [print clean parse_value] in *. cbn [app]. rewrite skip_ws_cons by done.
    cbn [Ascii.eqb Bool.eqb]. destruct fs as [|kv fs]; [done|].
    assert (Forall (fun kv => parses kv.2) (kv :: fs)) as Hps.
    { rewrite Forall_forall in IH, Hv |- *. auto. }
    fold print_member in *. change (fun kv => print_string pr kv.1 ++ ":"%char :: print pr kv.2) with print_member in *.
    assert (exists k', print_list "," (map print_member (kv :: fs)) = quote :: k') as [k' Hk'].
    { destruct fs; by eexists. }
    rewrite <-(assoc_L (++)). pose proof (parse_members_print (kv :: fs) fuel rest) as Hel.
    rewrite Hk' in *. cbn [app] in *. rewrite skip_ws_cons by done. cbn [Ascii.eqb Bool.eqb quote].
    rewrite Hel; [done..|]. simpl in Hf. rewrite length_app in Hf. simpl in Hf |- *. lia.
Qed.

Lemma parse_print v : readable_value v -> parse (of_chars (print pr v)) = Some (clean v).
Proof.
  intros Hv. unfold parse, len. rewrite <-length_chars, chars_of_chars.
  rewrite <-(app_nil_r (print pr v)) at 2. rewrite readable_parses by (done || lia). done.
Qed.
End Printer.

(** ** Round trips *)
Lemma marshal_readable s : readable marshal_rune s.
Proof.
  unfold readable. eapply Forall_impl; [apply runes_of_ok|]. intros p. apply marshal_reads.
Qed.

Lemma marshal_readable_value v : integral v = true -> readable_value marshal_rune v.
Proof.
  induction v as [|b|t|s|l IH|fs IH] using json_nested_ind; simpl; intros Hi; try done.
  - apply marshal_readable.
  - rewrite foldr_Forall. rewrite forallb_forall in Hi. rewrite Forall_forall in IH |- *.
    intros x Hx. apply IH; [done|]. by apply Hi, list_elem_of_In.
  - rewrite foldr_Forall. rewrite forallb_forall in Hi. rewrite Forall_forall in IH |- *.
    intros kv Hkv. split; [apply marshal_readable|]. apply IH; [done|]. by apply Hi, list_elem_of_In.
Qed.

(** [json.Unmarshal] reads back what [json.Marshal] wrote. *)
Lemma parse_marshal v : integral v = true -> parse (marshal v) = Some (clean v).
Proof.
  intros Hi. rewrite <-(of_chars_chars (marshal v)), print_marshal.
  by apply parse_print, marshal_readable_value.
Qed.

Lemma marshal_inj v w :
  integral v = true -> integral w = true -> marshal v = marshal w -> clean v = clean w.
Proof.
  intros Hv Hw Heq. pose proof (parse_marshal v Hv) as H1. rewrite Heq, parse_marshal in H1 by done.
  congruence.
Qed.

(** ** Canonical JSON *)

(** Members sorted by name, at every level. *)
Definition name_less (a b : string * json) : bool := utf16Less a.1 b.1.

Fixpoint sort_members (v : json) : json :=
  match v with
  | JArr l => JArr (map sort_members l)
  | JObj fs => JObj (sort_slice name_less (map (fun kv => (kv.1, sort_members kv.2)) fs))
  | _ => v
  end.

Lemma sequence_Forall2 l xs : sequence l = Ok xs -> Forall2 (fun r x => r = Ok x) l xs.
Proof.
  revert xs. induction l as [|r l IH]; intros xs; simpl; [intros [= <-]; constructor|].
  destruct r as [x|]; [|done]. destruct (sequence l) as [ys|]; [|done]. intros [= <-].
  constructor; auto.
Qed.

Lemma appendCanonicalString_print s out :
  appendCanonicalString s = Ok out -> chars out = print_string canonical_char s /\ ValidString s = true.
Proof.
  unfold appendCanonicalString. destruct (ValidString s); [|done]. intros [= <-].
  unfold quote_chars. by rewrite chars_of_chars.
Qed.

Lemma Forall2_chars {A} (f : A -> res canonical_error string) (g : A -> list ascii) l xs :
  Forall (fun a => forall out, f a = Ok out -> chars out = g a) l ->
  Forall2 (fun r x => r = Ok x) (map f l) xs -> map chars xs = map g l.
Proof.
  intros Hl. revert xs. induction Hl as [|a l Ha _ IH]; intros xs Hxs; inversion Hxs; subst; [done|].
  simpl. rewrite (Ha y) by done. f_equal. auto.
Qed.

Lemma appendCanonical_print v out :
  appendCanonical v = Ok out -> chars out = print canonical_char (sort_members v).
Proof.
  revert out. induction v as [|b|t|s|l IH|fs IH] using json_nested_ind; intros out; cbn [appendCanonical].
  - by intros [= <-].
  - intros [= <-]. by destruct b.
  - destruct (isCanonicalInteger t); [|done]. by intros [= <-].
  - intros Hs. by apply appendCanonicalString_print in Hs as [-> _].
  - destruct (sequence _) as [xs|] eqn:E; [|done]. intros [= <-]. apply sequence_Forall2 in E.
    rewrite !chars_app, chars_join. cbn [sort_members print]. rewrite map_map.
    rewrite (Forall2_chars _ (fun v => print canonical_char (sort_members v)) _ _ IH E). done.
  - rewrite (sort_slice_map (fun kv => (kv.1, appendCanonical kv.2)) name_less) by done.
    rewrite map_map. destruct (sequence _) as [xs|] eqn:E; [|done]. intros [= <-].
    apply sequence_Forall2 in E.
    rewrite !chars_app, chars_join. cbn [sort_members print].
    rewrite (sort_slice_map (fun kv => (kv.1, sort_members kv.2)) name_less) by done. rewrite map_map.
    rewrite (Forall2_chars (fun kv : string * json => append_member (kv.1, appendCanonical kv.2))
      (fun kv => print_string canonical_char kv.1 ++
      ":"%char :: print canonical_char (sort_members kv.2)) (sort_slice name_less fs) xs); [done| |exact E].
    apply Forall_forall. intros kv Hkv%elem_of_sort_slice mem Hm. rewrite Forall_forall in IH.
    unfold append_member in Hm. cbn [fst snd] in Hm.
    destruct (appendCanonicalString kv.1) as [k|] eqn:Ek; [|done].
    destruct (appendCanonical kv.2) as [w|] eqn:Ew; [|done]. injection Hm as <-.
    apply appendCanonicalString_print in Ek as [Ek _].
    rewrite !chars_app, Ek, (IH kv Hkv w Ew). done.
Qed.

Lemma canonical_readable s : ValidString s = true -> readable canonical_char s.
Proof.
  unfold readable, ValidString. intros Hv. rewrite forallb_forall in Hv.
  pose proof (runes_of_ok s) as Hok. rewrite Forall_forall in Hok |- *.
  intros p Hp. apply canonical_reads; [by apply Hv, list_elem_of_In|auto].
Qed.

Lemma sort_members_utf8 v : utf8 (sort_members v) = utf8 v.
Proof.
  induction v as [| | | |l IH|fs IH] using json_nested_ind; cbn [sort_members utf8]; try done.
  - rewrite forallb_map. by apply forallb_ext_Forall.
  - rewrite (forallb_perm _ _ _ (sort_slice_Permutation _ _)), forallb_map. simpl.
    apply forallb_ext_Forall. eapply Forall_impl; [exact IH|]. simpl. by intros kv ->.
Qed.

Lemma sort_members_integral v : integral (sort_members v) = integral v.
Proof.
  induction v as [| | | |l IH|fs IH] using json_nested_ind; cbn [sort_members integral]; try done.
  - rewrite forallb_map. by apply forallb_ext_Forall.
  - rewrite (forallb_perm _ _ _ (sort_slice_Permutation _ _)), forallb_map. simpl.
    by apply forallb_ext_Forall.
Qed.

Lemma canonical_readable_value v :
  utf8 v = true -> integral v = true -> readable_value canonical_char v.
Proof.
  induction v as [|b|t|s|l IH|fs IH] using json_nested_ind; simpl; intros Hu Hi; try done.
  - by apply canonical_readable.
  - rewrite foldr_Forall. rewrite forallb_forall in Hi, Hu. rewrite Forall_forall in IH |- *.
    intros x Hx. apply IH; [done|..]; [apply Hu|apply Hi]; by apply list_elem_of_In.
  - rewrite foldr_Forall. rewrite forallb_forall in Hi, Hu. rewrite Forall_forall in IH |- *.
    intros kv Hkv. apply list_elem_of_In in Hkv as Hin. specialize (Hu _ Hin). specialize (Hi _ Hin).
    apply andb_true_iff in Hu as [Hk Hu]. split; [by apply canonical_readable|auto].
Qed.

Lemma clean_utf8 v : utf8 v = true -> clean v = v.
Proof.
  induction v as [|b|t|s|l IH|fs IH] using json_nested_ind; simpl; intros Hu; try done.
  - by rewrite sanitize_valid.
  - f_equal. rewrite forallb_forall in Hu. rewrite Forall_forall in IH.
    rewrite <-(map_id l) at 2. apply map_ext_in. intros x Hx. apply IH; [by apply list_elem_of_In|auto].
  - f_equal. rewrite forallb_forall in Hu. rewrite Forall_forall in IH.
    rewrite <-(map_id fs) at 2. apply map_ext_in. intros kv Hkv. specialize (Hu _ Hkv).
    apply andb_true_iff in Hu as [Hk Hu]. rewrite sanitize_valid, IH by (done || by apply list_elem_of_In).
    by destruct kv.
Qed.

Lemma CanonicalJSON_parse v body :
  CanonicalJSON v = Ok body -> parse body = Some (sort_members (redecode v)).
Proof.
  intros Hu. unfold CanonicalJSON in Hu. pose proof (appendCanonical_print _ _ Hu) as Hpr.
  pose proof (appendCanonical_is_ok (redecode v)) as Hok. rewrite Hu in Hok. symmetry in Hok.
  apply andb_true_iff in Hok as [Hutf Hint].
  rewrite <-(of_chars_chars body), Hpr, parse_print.
  - rewrite clean_utf8; [done|]. by rewrite sort_members_utf8.
  - apply canonical_readable_value; by rewrite ?sort_members_utf8, ?sort_members_integral.
Qed.

Lemma CanonicalJSON_inj v w body :
  CanonicalJSON v = Ok body -> CanonicalJSON w = Ok body ->
  sort_members (redecode v) = sort_members (redecode w).
Proof. intros Hv%CanonicalJSON_parse Hw%CanonicalJSON_parse. congruence. Qed.

(** [C29] Canonical JSON is lossless: the bytes it returns parse, as JSON, to the
    value it was given with members sorted at every level, invalid UTF-8
    replaced and the last of two equal names kept; so two values with the same
    canonical bytes are the same up to those three. *)
Theorem canonical_json_roundtrip v body (Hc : CanonicalJSON v = Ok body) :
  parse body = Some (sort_members (redecode v)) /\
  forall w, CanonicalJSON w = Ok body -> sort_members (redecode w) = sort_members (redecode v).
Proof.
  split; [by apply CanonicalJSON_parse|]. intros w Hw. by eapply CanonicalJSON_inj.
Qed.

Lemma canonical_json_roundtrip_witness :
  exists body, CanonicalJSON (JObj [("b", JInt 7); ("a", JStr "x<y")]) = Ok body /\
    parse body = Some (JObj [("a", JStr "x<y"); ("b", JInt 7)]).
Proof.
  destruct (CanonicalJSON (JObj [("b", JInt 7); ("a", JStr "x<y")])) as [body|] eqn:E;
    [|vm_compute in E; discriminate].
  exists body. split; [reflexivity|].
  exact (proj1 (canonical_json_roundtrip (JObj [("b", JInt 7); ("a", JStr "x<y")]) body E)).
Defined.

(** Objects without repeated names that have one sorted form have the same members. *)
Lemma sort_members_inj fs1 fs2 :
  fs1.*1 = fs2.*1 -> NoDup fs1.*1 -> sort_members (JObj fs1) = sort_members (JObj fs2) ->
  map (fun kv => (kv.1, sort_members kv.2)) fs1 = map (fun kv => (kv.1, sort_members kv.2)) fs2.
Proof.
  intros Hn Hnd Heq. cbn [sort_members] in Heq. injection Heq as Heq.
  assert (map (fun kv => (kv.1, sort_members kv.2)) fs1 ≡ₚ map (fun kv => (kv.1, sort_members kv.2)) fs2) as Hp.
  { rewrite <-(sort_slice_Permutation name_less (map _ fs1)), Heq. apply sort_slice_Permutation. }
  clear Heq. assert (forall k v, (k, v) ∈ map (fun kv => (kv.1, sort_members kv.2)) fs1 ->
    (k, v) ∈ map (fun kv => (kv.1, sort_members kv.2)) fs2) as Hin by (intros k v; by rewrite Hp).
  clear Hp. revert fs2 Hn Hin. induction fs1 as [|[k v] fs1 IH]; intros [|[k2 v2] fs2] Hn Hin; simplify_eq/=; [done|].
  apply NoDup_cons in Hnd as [Hk Hnd].
  assert (forall w, (k2, w) ∈ map (fun kv : string * json => (kv.1, sort_members kv.2)) fs2 -> False) as Hno.
  { intros w (kv & Hw & Hkv)%list_elem_of_fmap. simplify_eq. apply Hk. rewrite H0.
    apply list_elem_of_fmap. eauto. }
  f_equal.
  - specialize (Hin k2 (sort_members v)). rewrite !elem_of_cons in Hin.
    destruct Hin as [Hin|Hin]; [by left|done|]. by apply Hno in Hin.
  - apply IH; [done..|]. intros k' v' Hkv. specialize (Hin k' v'). rewrite !elem_of_cons in Hin.
    destruct Hin as [Hin|Hin]; [by right| |done]. simplify_eq.
    apply list_elem_of_fmap in Hkv as (kv & Hw & Hkv). simplify_eq. exfalso. apply Hk.
    apply list_elem_of_fmap. eauto.
Qed.

(** A value of valid strings whose objects repeat no name is left alone by the
    decoder. *)
Lemma redecode_id v : utf8 v = true -> distinct_names v = true -> redecode v = v.
Proof.
  induction v as [|b|t|s|l IH|fs IH] using json_nested_ind; simpl; intros Hu Hd; try done.
  - by rewrite sanitize_valid.
  - f_equal. rewrite forallb_forall in Hu, Hd. rewrite Forall_forall in IH.
    rewrite <-(map_id l) at 2. apply map_ext_in. intros x Hx. apply IH; auto. by apply list_elem_of_In.
  - apply andb_true_iff in Hd as [Hnd Hd]. apply bool_decide_eq_true_1 in Hnd.
    rewrite redecode_fields by done. f_equal.
    rewrite forallb_forall in Hu, Hd. rewrite Forall_forall in IH.
    rewrite <-(map_id fs) at 2. apply map_ext_in. intros kv Hkv. specialize (Hu _ Hkv).
    apply andb_true_iff in Hu as [Hk Hu].
    rewrite sanitize_valid, IH by (auto || by apply list_elem_of_In). by destruct kv.
Qed.

Lemma distinct_JStrs l : distinct_names (JStrs l) = true.
Proof. simpl. rewrite forallb_map. by apply forallb_forall. Qed.

Lemma sort_members_JStrs l : sort_members (JStrs l) = JStrs l.
Proof. unfold JStrs. cbn [sort_members]. f_equal. rewrite map_map. by apply map_ext. Qed.

Lemma JStrs_inj l1 l2 : JStrs l1 = JStrs l2 -> l1 = l2.
Proof.
  unfold JStrs. intros [= Heq]. revert l2 Heq. induction l1 as [|x l1 IH]; intros [|y l2]; simpl; try done.
  intros [= -> Heq]. f_equal. auto.
Qed.

Lemma itoa_inj z1 z2 : itoa z1 = itoa z2 -> z1 = z2.
Proof. intros Heq. by apply (inj pretty.pretty) in Heq. Qed.

Lemma JInt_inj z1 z2 : JInt z1 = JInt z2 -> z1 = z2.
Proof. intros [= Heq]. by apply (inj pretty.pretty) in Heq. Qed.

(** The members of two flat structs with one list of names and one canonical
    form are equal. *)
Lemma canonical_struct_inj fs1 fs2 body :
  fs1.*1 = fs2.*1 -> utf8 (JObj fs1) = true -> utf8 (JObj fs2) = true ->
  distinct_names (JObj fs1) = true -> distinct_names (JObj fs2) = true ->
  CanonicalJSON (JObj fs1) = Ok body -> CanonicalJSON (JObj fs2) = Ok body ->
  map (fun kv => (kv.1, sort_members kv.2)) fs1 = map (fun kv => (kv.1, sort_members kv.2)) fs2.
Proof.
  intros Hn U1 U2 D1 D2 H1 H2. pose proof (CanonicalJSON_inj _ _ _ H1 H2) as Heq.
  rewrite !redecode_id in Heq by done. apply sort_members_inj; [done| |done].
  simpl in D1. apply andb_true_iff in D1 as [Hnd _]. apply bool_decide_eq_true_1 in Hnd.
  apply (NoDup_fmap_1 sanitize). by rewrite <-list_fmap_compose.
Qed.

(** The members [sort_members] leaves of an object. *)
Definition sorted_members (fs : list (string * json)) : list (string * json) :=
  sort_slice name_less (map (fun kv => (kv.1, sort_members kv.2)) fs).

Lemma elem_sorted_members fs k v :
  (k, v) ∈ sorted_members fs <-> exists w, (k, w) ∈ fs /\ v = sort_members w.
Proof.
  unfold sorted_members. rewrite elem_of_sort_slice, list_elem_of_fmap. split.
  - intros ([k' w] & [= -> ->] & Hin). eauto.
  - intros (w & Hin & ->). by exists (k, w).
Qed.

Lemma sorted_members_NoDup fs : NoDup fs.*1 -> NoDup (sorted_members fs).*1.
Proof.
  intros Hnd. unfold sorted_members. rewrite sort_slice_Permutation, <-list_fmap_compose.
  by erewrite list_fmap_ext.
Qed.
