(* ===== verification/ComputerEvent.v ===== *)
(** * ComputerEvent: the semantic event envelope and the head reducer

    Models [internal/computerevent/event.go], [artifact_ref.go] (the part that
    validates references) and [reducer.go]: the [Event] record, its validation,
    canonical bytes and digest, and [Reduce], which advances the four-part
    projection ([Head]) of a computer's event chain.

    [uuid.Parse] is third-party code: see [GoUuid]. *)
From S2P Require Import Prelude GoStrings GoTime GoJson CanonicalJson JsonRoundTrip Sha256 GoUuid.

Module ComputerEvent.
Local Open Scope Z_scope.

Definition SchemaVersionV1 : Z := 1.
Definition ReducerVersionV1 : Z := 1.
Definition ZeroHead : string :=
  "0000000000000000000000000000000000000000000000000000000000000000".

(** [EventUnknown s] stands for every string that is not one of the constants. *)
Inductive EventKind :=
  | EventGenesisImported | EventTrajectoryStarted | EventModelResolved
  | EventMessageRecorded | EventToolInvoked | EventToolReturned
  | EventArtifactProduced | EventEffectProposed | EventVerificationRecorded
  | EventEffectAccepted | EventEffectRejected | EventMaterializationStarted
  | EventMaterializationApplied | EventMaterializationFailed
  | EventRollbackRequested | EventRollbackApplied | EventResearcherUpdate
  | EventCheckpointPublished | EventRouteProjectionUpdated
  | EventLifecycleObserved | EventKeyRotated | EventKeyRevoked
  | EventRecoveryRecorded | EventRestoreRequested
  | EventProjectionBatchRecorded | EventFileRootCommitted
  | EventUnknown (s : string).

#[export] Instance EventKind_eq_dec : EqDecision EventKind.
Proof. solve_decision. Defined.

Definition kind_string (k : EventKind) : string :=
  match k with
  | EventGenesisImported => "genesis_imported"
  | EventTrajectoryStarted => "trajectory_started"
  | EventModelResolved => "model_resolved"
  | EventMessageRecorded => "message_recorded"
  | EventToolInvoked => "tool_invoked"
  | EventToolReturned => "tool_returned"
  | EventArtifactProduced => "artifact_produced"
  | EventEffectProposed => "effect_proposed"
  | EventVerificationRecorded => "verification_recorded"
  | EventEffectAccepted => "effect_accepted"
  | EventEffectRejected => "effect_rejected"
  | EventMaterializationStarted => "materialization_started"
  | EventMaterializationApplied => "materialization_applied"
  | EventMaterializationFailed => "materialization_failed"
  | EventRollbackRequested => "rollback_requested"
  | EventRollbackApplied => "rollback_applied"
  | EventResearcherUpdate => "researcher_update"
  | EventCheckpointPublished => "checkpoint_published"
  | EventRouteProjectionUpdated => "route_projection_updated"
  | EventLifecycleObserved => "lifecycle_observed"
  | EventKeyRotated => "key_rotated"
  | EventKeyRevoked => "key_revoked"
  | EventRecoveryRecorded => "recovery_recorded"
  | EventRestoreRequested => "restore_requested"
  | EventProjectionBatchRecorded => "projection_batch_recorded"
  | EventFileRootCommitted => "file_root_committed"
  | EventUnknown s => s
  end.

Definition validEventKinds (k : EventKind) : bool :=
  match k with EventUnknown _ => false | _ => true end.

Record Event := {
  SchemaVersion : Z;
  EventID : string;
  ComputerID : string;
  Sequence : Z;
  PreviousHead : string;
  Kind : EventKind;
  OccurredAt : string;
  IdempotencyKey : string;
  RequestCommitment : string;
  TrajectoryID : string;
  ParentEventID : string;
  CapsuleID : string;
  ActorProfile : string;
  AuthorityRef : string;
  ModelPolicyRefs : list string;
  InputArtifactRefs : list string;
  OutputArtifactRefs : list string;
  PayloadCommitment : string;
  PrivacyClass : string;
  ProposedEffectRef : string;
  DecisionRef : string;
  VerifierRefs : list string;
  EventReducerVersion : Z;
  ExpectedDesiredEventHead : string;
  ExpectedEffectiveEventHead : string;
  ExpectedPendingTransitionRef : string;
  ExpectedDesiredStateCommitment : string;
  ExpectedEffectiveStateCommitment : string;
  RequireExpectedHead : bool;
  ResultingEffectiveCommitment : string;
}.

(** [json.Marshal] of an event whose nil slices were made empty. *)
Definition event_json (e : Event) : json := JObj [
  ("schema_version", JInt (SchemaVersion e));
  ("event_id", JStr (EventID e));
  ("computer_id", JStr (ComputerID e));
  ("sequence", JInt (Sequence e));
  ("previous_head", JStr (PreviousHead e));
  ("event_kind", JStr (kind_string (Kind e)));
  ("occurred_at", JStr (OccurredAt e));
  ("idempotency_key", JStr (IdempotencyKey e));
  ("request_commitment", JStr (RequestCommitment e));
  ("trajectory_id", JStr (TrajectoryID e));
  ("parent_event_id", JStr (ParentEventID e));
  ("capsule_id", JStr (CapsuleID e));
  ("actor_profile", JStr (ActorProfile e));
  ("authority_ref", JStr (AuthorityRef e));
  ("model_policy_refs", JStrs (ModelPolicyRefs e));
  ("input_artifact_refs", JStrs (InputArtifactRefs e));
  ("output_artifact_refs", JStrs (OutputArtifactRefs e));
  ("payload_commitment", JStr (PayloadCommitment e));
  ("privacy_class", JStr (PrivacyClass e));
  ("proposed_effect_ref", JStr (ProposedEffectRef e));
  ("decision_ref", JStr (DecisionRef e));
  ("verifier_refs", JStrs (VerifierRefs e));
  ("reducer_version", JInt (EventReducerVersion e));
  ("expected_desired_event_head", JStr (ExpectedDesiredEventHead e));
  ("expected_effective_event_head", JStr (ExpectedEffectiveEventHead e));
  ("expected_pending_transition_ref", JStr (ExpectedPendingTransitionRef e));
  ("expected_desired_state_commitment", JStr (ExpectedDesiredStateCommitment e));
  ("expected_effective_state_commitment", JStr (ExpectedEffectiveStateCommitment e));
  ("resulting_effective_state_commitment", JStr (ResultingEffectiveCommitment e))].

(** ** [artifact_ref.go] *)

Definition artifactRefPrefix : string := "artifact:sha256:".

(** The digest of a parsed reference, as its hexadecimal text. *)
Definition ParseSHA256Digest (value : string) : option string :=
  if negb (Nat.eqb (len value) 64) || (value != to_lower value) then None
  else if hex_decodes value then Some value else None.

Definition ParseArtifactRef (value : string) : option string :=
  if negb (HasPrefix value artifactRefPrefix) then None
  else ParseSHA256Digest (TrimPrefix value artifactRefPrefix).

(** [NormalizeArtifactRef]: a typed reference, or a legacy raw digest. *)
Definition NormalizeArtifactRef (value : string) : option string :=
  if HasPrefix value artifactRefPrefix then ParseArtifactRef value
  else ParseSHA256Digest value.

Definition ArtifactRef_String (digest : string) : string := artifactRefPrefix +:+ digest.

(** ** Validation *)

Inductive event_error :=
  | ErrSchemaVersion | ErrEventID | ErrComputerID | ErrSequence | ErrPreviousHead
  | ErrEventKind | ErrOccurredAt | ErrIdempotency | ErrActor | ErrReducerVersion
  | ErrCommitmentField | ErrArtifactRef | ErrPendingRef | ErrResultingCommitment
  | ErrCanonical (e : canonical_error).

Section Reducer.
Context `{Uuid, Sha256}.

Definition Validate (e : Event) : res event_error unit :=
  refuse negb (SchemaVersion e =? SchemaVersionV1) with ErrSchemaVersion ;;
  refuse negb (uuid_version (EventID e) == Some 7) with ErrEventID ;;
  refuse blank (ComputerID e) with ErrComputerID ;;
  refuse Sequence e =? 0 with ErrSequence ;;
  refuse negb (isSHA256 (PreviousHead e)) with ErrPreviousHead ;;
  refuse negb (validEventKinds (Kind e)) with ErrEventKind ;;
  refuse negb (canonical_utc (OccurredAt e)) with ErrOccurredAt ;;
  refuse blank (IdempotencyKey e) || negb (isSHA256 (RequestCommitment e)) with ErrIdempotency ;;
  refuse blank (ActorProfile e) || blank (AuthorityRef e) || blank (PrivacyClass e) with ErrActor ;;
  refuse negb (EventReducerVersion e =? ReducerVersionV1) with ErrReducerVersion ;;
  refuse negb (forallb isSHA256 [PayloadCommitment e; ExpectedDesiredEventHead e;
            ExpectedEffectiveEventHead e; ExpectedDesiredStateCommitment e;
            ExpectedEffectiveStateCommitment e]) with ErrCommitmentField ;;
  refuse negb (forallb (fun r => bool_decide (is_Some (ParseArtifactRef r)))
            (InputArtifactRefs e ++ OutputArtifactRefs e)) with ErrArtifactRef ;;
  refuse (ExpectedPendingTransitionRef e != "") && negb (isSHA256 (ExpectedPendingTransitionRef e))
    with ErrPendingRef ;;
  refuse (ResultingEffectiveCommitment e != "") && negb (isSHA256 (ResultingEffectiveCommitment e))
    with ErrResultingCommitment ;;
  Ok tt.

Definition CanonicalBytes (e : Event) : res event_error string :=
  let? _ := Validate e in
  res_map_err ErrCanonical (CanonicalJSON (event_json e)).

Definition Digest (e : Event) : res event_error string :=
  let? body := CanonicalBytes e in Ok (sha256_hex body).

(** ** [reducer.go] *)

Record Head := {
  HeadComputerID : string;
  HeadSequence : Z;
  CanonicalEventHead : string;
  DesiredEventHead : string;
  EffectiveEventHead : string;
  PendingTransitionRef : string;
  DesiredStateCommitment : string;
  EffectiveStateCommitment : string;
  HeadReducerVersion : Z;
  CredentialRevocationEpoch : Z;
}.

Record TransitionInput := {
  TargetStateCommitment : string;
  RestoredPriorEffective : bool;
}.

Inductive reduce_error :=
  | ErrEvent (e : event_error)
  | ErrMismatchHead | ErrMismatchState
  | ErrPendingTransition
  | ErrNotFullyBound | ErrStartedUnbound | ErrAppliedMismatch | ErrFailedNoRecovery
  | ErrRollbackUnbound | ErrRollbackMismatch | ErrResearcherMismatch
  | ErrDuplicateGenesis | ErrUnsupportedKind | ErrInvalidGenesis.

Definition isCausalEvent (k : EventKind) : bool :=
  match k with
  | EventTrajectoryStarted | EventModelResolved | EventMessageRecorded
  | EventToolInvoked | EventToolReturned | EventArtifactProduced
  | EventEffectProposed | EventVerificationRecorded | EventEffectRejected
  | EventCheckpointPublished | EventRouteProjectionUpdated
  | EventLifecycleObserved | EventKeyRotated | EventKeyRevoked
  | EventRecoveryRecorded | EventRestoreRequested | EventProjectionBatchRecorded => true
  | _ => false
  end.

Definition reduceGenesis (event : Event) (digest : string) (input : TransitionInput) : res reduce_error Head :=
  refuse negb (Kind event == EventGenesisImported) || negb (Sequence event =? 1)
         || (PreviousHead event != ZeroHead) || (ExpectedDesiredEventHead event != ZeroHead)
         || (ExpectedEffectiveEventHead event != ZeroHead)
         || (ExpectedPendingTransitionRef event != "")
         || negb (isSHA256 (TargetStateCommitment input))
         || (ResultingEffectiveCommitment event != TargetStateCommitment input)
    with ErrInvalidGenesis ;;
  Ok {| HeadComputerID := ComputerID event; HeadSequence := 1;
        CanonicalEventHead := digest; DesiredEventHead := digest; EffectiveEventHead := digest;
        PendingTransitionRef := "";
        DesiredStateCommitment := TargetStateCommitment input;
        EffectiveStateCommitment := TargetStateCommitment input;
        HeadReducerVersion := EventReducerVersion event;
        CredentialRevocationEpoch := 0 |}.

(** [next := *current; next.Sequence = ...; next.CanonicalEventHead = digest] and
    the assignments of the switch to the projections. *)
Definition advance (current : Head) (event : Event) (digest : string)
    (desired effective pending desiredC effectiveC : string) (epoch : Z) : Head := {|
  HeadComputerID := HeadComputerID current;
  HeadSequence := Sequence event;
  CanonicalEventHead := digest;
  DesiredEventHead := desired;
  EffectiveEventHead := effective;
  PendingTransitionRef := pending;
  DesiredStateCommitment := desiredC;
  EffectiveStateCommitment := effectiveC;
  HeadReducerVersion := HeadReducerVersion current;
  CredentialRevocationEpoch := epoch;
|}.

(** The switch of [Reduce] on the event kind. *)
Definition reduceKind (c : Head) (event : Event) (digest : string) (input : TransitionInput) : res reduce_error Head :=
  let D := DesiredEventHead c in let E := EffectiveEventHead c in
  let P := PendingTransitionRef c in
  let DC := DesiredStateCommitment c in let EC := EffectiveStateCommitment c in
  let ep := CredentialRevocationEpoch c in
  let next := advance c event digest in
  match Kind event with
  | EventEffectAccepted =>
    refuse P != "" with ErrPendingTransition ;;
    refuse negb (isSHA256 (TargetStateCommitment input)) || (ProposedEffectRef event == "")
           || (DecisionRef event == "") || (VerifierRefs event == []) with ErrNotFullyBound ;;
    Ok (next digest E digest (TargetStateCommitment input) EC ep)
  | EventMaterializationStarted =>
    refuse (P == "") || (DecisionRef event != P) with ErrStartedUnbound ;;
    Ok (next D E P DC EC ep)
  | EventMaterializationApplied =>
    refuse (P == "") || (DecisionRef event != P) || (ResultingEffectiveCommitment event != DC)
      with ErrAppliedMismatch ;;
    Ok (next D digest "" DC DC ep)
  | EventMaterializationFailed =>
    refuse (P == "") || (DecisionRef event != P) || negb (RestoredPriorEffective input)
      with ErrFailedNoRecovery ;;
    Ok (next E E "" EC EC ep)
  | EventRollbackRequested =>
    refuse P != "" with ErrPendingTransition ;;
    refuse negb (isSHA256 (TargetStateCommitment input)) || (DecisionRef event == "")
      with ErrRollbackUnbound ;;
    Ok (next digest E digest (TargetStateCommitment input) EC ep)
  | EventRollbackApplied =>
    refuse (P == "") || (DecisionRef event != P) || (ResultingEffectiveCommitment event != DC)
      with ErrRollbackMismatch ;;
    Ok (next D digest "" DC DC ep)
  | EventResearcherUpdate =>
    refuse P != "" with ErrPendingTransition ;;
    refuse negb (isSHA256 (TargetStateCommitment input))
           || (ResultingEffectiveCommitment event != TargetStateCommitment input)
      with ErrResearcherMismatch ;;
    Ok (next digest digest P (TargetStateCommitment input) (TargetStateCommitment input) ep)
  | EventKeyRevoked => Ok (next D E P DC EC (wrap_u64 (ep + 1)))
  | EventGenesisImported => Err ErrDuplicateGenesis
  | k =>
    refuse negb (isCausalEvent k) with ErrUnsupportedKind ;;
    Ok (next D E P DC EC ep)
  end.

Definition Reduce (current : option Head) (event : Event) (input : TransitionInput) : res reduce_error Head :=
  let? _ := res_map_err ErrEvent (Validate event) in
  let? digest := res_map_err ErrEvent (Digest event) in
  match current with
  | None => reduceGenesis event digest input
  | Some c =>
    refuse (HeadComputerID c != ComputerID event)
           || negb (Sequence event =? wrap_u64 (HeadSequence c + 1))
           || (PreviousHead event != CanonicalEventHead c) with ErrMismatchHead ;;
    refuse negb (HeadReducerVersion c =? EventReducerVersion event)
           || (ExpectedDesiredEventHead event != DesiredEventHead c)
           || (ExpectedEffectiveEventHead event != EffectiveEventHead c)
           || (ExpectedPendingTransitionRef event != PendingTransitionRef c)
           || (ExpectedDesiredStateCommitment event != DesiredStateCommitment c)
           || (ExpectedEffectiveStateCommitment event != EffectiveStateCommitment c)
      with ErrMismatchState ;;
    reduceKind c event digest input
  end.
End Reducer.

(** ** Commitments: [StateCommitment] and [request.go] *)

Definition transition_input_json (i : TransitionInput) : json := JObj [
  ("target_state_commitment", JStr (TargetStateCommitment i));
  ("restored_prior_effective", JBool (RestoredPriorEffective i))].

Definition requestIntent (e : Event) (input : TransitionInput) : json := JObj [
  ("schema_version", JInt (SchemaVersion e));
  ("event_id", JStr (EventID e));
  ("computer_id", JStr (ComputerID e));
  ("event_kind", JStr (kind_string (Kind e)));
  ("occurred_at", JStr (OccurredAt e));
  ("idempotency_key", JStr (IdempotencyKey e));
  ("trajectory_id", JStr (TrajectoryID e));
  ("parent_event_id", JStr (ParentEventID e));
  ("capsule_id", JStr (CapsuleID e));
  ("actor_profile", JStr (ActorProfile e));
  ("authority_ref", JStr (AuthorityRef e));
  ("model_policy_refs", JStrs (ModelPolicyRefs e));
  ("input_artifact_refs", JStrs (InputArtifactRefs e));
  ("output_artifact_refs", JStrs (OutputArtifactRefs e));
  ("payload_commitment", JStr (PayloadCommitment e));
  ("privacy_class", JStr (PrivacyClass e));
  ("proposed_effect_ref", JStr (ProposedEffectRef e));
  ("decision_ref", JStr (DecisionRef e));
  ("verifier_refs", JStrs (VerifierRefs e));
  ("reducer_version", JInt (EventReducerVersion e));
  ("expected_desired_event_head", JStr (ExpectedDesiredEventHead e));
  ("expected_effective_event_head", JStr (ExpectedEffectiveEventHead e));
  ("expected_pending_transition_ref", JStr (ExpectedPendingTransitionRef e));
  ("expected_desired_state_commitment", JStr (ExpectedDesiredStateCommitment e));
  ("expected_effective_state_commitment", JStr (ExpectedEffectiveStateCommitment e));
  ("resulting_effective_state_commitment", JStr (ResultingEffectiveCommitment e));
  ("transition_input", transition_input_json input)].

Record EffectiveStateRefs := {
  RefsReducerVersion : Z;
  CodeRef : string;
  ArtifactProgramRef : string;
  EmbeddedDoltRefs : list string;
}.

Inductive commitment_error := ErrStateRefs | ErrCommitmentJSON (e : canonical_error).

Section Commitments.
Context `{Sha256}.

Definition ComputePinIntentCommitment (e : Event) (input : TransitionInput) : res canonical_error string :=
  let? canonical := CanonicalJSON (requestIntent e input) in
  Ok (sha256_hex canonical).

Definition ComputeRequestCommitment (e : Event) (input : TransitionInput)
    (pinIntentCommitment : string) (payloadPinReceiptDigests : list string) : res canonical_error string :=
  let? canonical := CanonicalJSON (JObj [
    ("event_intent", requestIntent e input);
    ("pin_intent_commitment", JStr pinIntentCommitment);
    ("payload_pin_receipt_digests", JStrs payloadPinReceiptDigests)]) in
  Ok (sha256_hex canonical).

Definition StateCommitment (refs : EffectiveStateRefs) : res commitment_error string :=
  refuse negb (RefsReducerVersion refs =? ReducerVersionV1) || (CodeRef refs == "")
         || (ArtifactProgramRef refs == "") with ErrStateRefs ;;
  let? body := res_map_err ErrCommitmentJSON (CanonicalJSON (JObj [
    ("reducer_version", JInt (RefsReducerVersion refs));
    ("code_ref", JStr (CodeRef refs));
    ("artifact_program_ref", JStr (ArtifactProgramRef refs));
    ("embedded_dolt_refs", JStrs (EmbeddedDoltRefs refs))])) in
  Ok (sha256_hex body).
End Commitments.

(** ** [appender.go]: binding a new event to the current head

    The pointer receiver is the value returned. *)
Inductive bind_error := ErrExpectedChanged (name : string).

Definition with_bindings (e : Event) (seq : Z) (prev desired effective pending desiredC effectiveC : string) : Event := {|
  SchemaVersion := SchemaVersion e; EventID := EventID e; ComputerID := ComputerID e;
  Sequence := seq; PreviousHead := prev; Kind := Kind e; OccurredAt := OccurredAt e;
  IdempotencyKey := IdempotencyKey e; RequestCommitment := RequestCommitment e;
  TrajectoryID := TrajectoryID e; ParentEventID := ParentEventID e;
  CapsuleID := CapsuleID e; ActorProfile := ActorProfile e;
  AuthorityRef := AuthorityRef e; ModelPolicyRefs := ModelPolicyRefs e;
  InputArtifactRefs := InputArtifactRefs e; OutputArtifactRefs := OutputArtifactRefs e;
  PayloadCommitment := PayloadCommitment e; PrivacyClass := PrivacyClass e;
  ProposedEffectRef := ProposedEffectRef e; DecisionRef := DecisionRef e;
  VerifierRefs := VerifierRefs e; EventReducerVersion := EventReducerVersion e;
  ExpectedDesiredEventHead := desired; ExpectedEffectiveEventHead := effective;
  ExpectedPendingTransitionRef := pending;
  ExpectedDesiredStateCommitment := desiredC;
  ExpectedEffectiveStateCommitment := effectiveC;
  RequireExpectedHead := RequireExpectedHead e;
  ResultingEffectiveCommitment := ResultingEffectiveCommitment e;
|}.

(** The five bindings an event that requires its expected head names, with the
    value each has now. *)
Definition expected_bindings (head : option Head) (e : Event) : list (string * string * string) :=
  let cur (f : Head -> string) := match head with None => ZeroHead | Some h => f h end in
  [("canonical event head", PreviousHead e, cur CanonicalEventHead);
   ("desired event head", ExpectedDesiredEventHead e, cur DesiredEventHead);
   ("effective event head", ExpectedEffectiveEventHead e, cur EffectiveEventHead);
   ("desired state commitment", ExpectedDesiredStateCommitment e, cur DesiredStateCommitment);
   ("effective state commitment", ExpectedEffectiveStateCommitment e, cur EffectiveStateCommitment)].

Fixpoint check_bindings (bs : list (string * string * string)) : res bind_error unit :=
  match bs with
  | [] => Ok tt
  | (name, supplied, current) :: bs' =>
    refuse supplied != current with ErrExpectedChanged name ;;
    check_bindings bs'
  end.

Definition bindCurrentHead (head : option Head) (e : Event) : res bind_error Event :=
  let? _ := (if RequireExpectedHead e then check_bindings (expected_bindings head e) else Ok tt) in
  match head with
  | None => Ok (with_bindings e 1 ZeroHead ZeroHead ZeroHead "" ZeroHead ZeroHead)
  | Some h =>
    Ok (with_bindings e (wrap_u64 (HeadSequence h + 1)) (CanonicalEventHead h)
          (DesiredEventHead h) (EffectiveEventHead h) (PendingTransitionRef h)
          (DesiredStateCommitment h) (EffectiveStateCommitment h))
  end.

(** ** Basic facts *)
Section Facts.
Context `{Uuid, Sha256}.

Lemma Digest_shape e d : Digest e = Ok d -> isSHA256 d = true.
Proof. unfold Digest. intros Hd. go_inv Hd. apply sha256_hex_shape. Qed.

Lemma Validate_sequence e : Validate e = Ok tt -> Sequence e <> 0.
Proof. unfold Validate. intros Hv. go_inv Hv. by to_prop. Qed.

Lemma res_map_err_Ok {E F A} (f : E -> F) (r : res E A) a :
  res_map_err f r = Ok a <-> r = Ok a.
Proof. destruct r; simpl; split; congruence. Qed.

(** Everything a successful reduction on top of a head established. *)
Lemma Reduce_Some_inv c ev inp h :
  Reduce (Some c) ev inp = Ok h ->
  exists d, Digest ev = Ok d /\ isSHA256 d = true /\ Sequence ev <> 0 /\
    HeadComputerID c = ComputerID ev /\ Sequence ev = wrap_u64 (HeadSequence c + 1) /\
    PreviousHead ev = CanonicalEventHead c /\
    ExpectedPendingTransitionRef ev = PendingTransitionRef c /\
    reduceKind c ev d inp = Ok h.
Proof.
  unfold Reduce. intros Hr. destruct (Validate ev) as [[]|] eqn:Hv; [|done]. simpl in Hr.
  destruct (Digest ev) as [d|] eqn:Hd; [|done]. simpl in Hr.
  exists d. pose proof (Digest_shape _ _ Hd). pose proof (Validate_sequence _ Hv).
  go_inv Hr. by to_prop.
Qed.

Lemma Reduce_None_inv ev inp h :
  Reduce None ev inp = Ok h ->
  exists d, Digest ev = Ok d /\ isSHA256 d = true /\ reduceGenesis ev d inp = Ok h.
Proof.
  unfold Reduce. intros Hr. destruct (Validate ev) as [[]|] eqn:Hv; [|done]. simpl in Hr.
  destruct (Digest ev) as [d|] eqn:Hd; [|done]. simpl in Hr.
  exists d. by pose proof (Digest_shape _ _ Hd).
Qed.

(** The fields every kind of event advances alike. *)
Lemma reduceKind_common c ev d inp h :
  reduceKind c ev d inp = Ok h ->
  HeadSequence h = Sequence ev /\ CanonicalEventHead h = d /\
  HeadComputerID h = HeadComputerID c /\ HeadReducerVersion h = HeadReducerVersion c.
Proof. unfold reduceKind. intros Hr. destruct (Kind ev); go_inv Hr; done. Qed.

(** ** The transition machine behind the projections

    A computer is either settled, its desired state being its effective state,
    or it has one pending transition towards a desired state. *)
Inductive phase :=
  | Settled (effective : string)
  | InTransition (effective desired ref : string).

#[export] Instance phase_eq_dec : EqDecision phase.
Proof. solve_decision. Defined.

Definition phase_of (h : Head) : phase :=
  if PendingTransitionRef h == "" then Settled (EffectiveStateCommitment h)
  else InTransition (EffectiveStateCommitment h) (DesiredStateCommitment h) (PendingTransitionRef h).

Inductive move : phase -> phase -> Prop :=
  | move_request eff target ref :
      isSHA256 target = true -> isSHA256 ref = true ->
      move (Settled eff) (InTransition eff target ref)
  | move_apply eff target ref : move (InTransition eff target ref) (Settled target)
  | move_abandon eff target ref : move (InTransition eff target ref) (Settled eff)
  | move_update eff target :
      isSHA256 target = true -> move (Settled eff) (Settled target)
  | move_stay p : move p p.

Record head_ok (h : Head) : Prop := {
  ok_sequence : 1 <= HeadSequence h < 2 ^ 64;
  ok_heads : isSHA256 (CanonicalEventHead h) = true /\
             isSHA256 (DesiredEventHead h) = true /\ isSHA256 (EffectiveEventHead h) = true;
  ok_commitments : isSHA256 (DesiredStateCommitment h) = true /\
                   isSHA256 (EffectiveStateCommitment h) = true;
  ok_settled : PendingTransitionRef h = "" ->
               DesiredStateCommitment h = EffectiveStateCommitment h;
  ok_pending : PendingTransitionRef h <> "" -> DesiredEventHead h = PendingTransitionRef h;
}.

Lemma genesis_head_ok ev inp h : Reduce None ev inp = Ok h -> head_ok h.
Proof.
  intros Hr. apply Reduce_None_inv in Hr as (d & _ & Hd & Hr).
  unfold reduceGenesis in Hr. go_inv Hr. to_prop. split; simpl; try done.
Qed.

Lemma step_sequence c ev :
  head_ok c -> Sequence ev <> 0 -> Sequence ev = wrap_u64 (HeadSequence c + 1) ->
  Sequence ev = HeadSequence c + 1 /\ 1 <= Sequence ev < 2 ^ 64.
Proof.
  intros Hok Hnz Hs. pose proof (ok_sequence c Hok).
  destruct (wrap_u64_succ (HeadSequence c)) as [E|E]; [unfold is_u64; lia|..];
    pose proof (wrap_u64_range (HeadSequence c + 1)) as Hr; unfold is_u64 in Hr; lia.
Qed.

Lemma reduceKind_head_ok c ev d inp h :
  head_ok c -> isSHA256 d = true -> 1 <= Sequence ev < 2 ^ 64 ->
  reduceKind c ev d inp = Ok h -> head_ok h.
Proof.
  intros Hok Hd Hs Hr. destruct Hok as [_ (Hc & Hdh & Heh) [HDC HEC] Hset Hpend].
  pose proof (isSHA256_nonempty d Hd) as Hne.
  unfold reduceKind in Hr. destruct (Kind ev); go_inv Hr; to_prop; split; simpl; auto; done.
Qed.

Lemma reduce_head_ok c ev inp h : head_ok c -> Reduce (Some c) ev inp = Ok h -> head_ok h.
Proof.
  intros Hok Hr. apply Reduce_Some_inv in Hr as (d & _ & Hd & Hnz & _ & Hs & _ & _ & Hr).
  eapply reduceKind_head_ok; [done..| |done]. by eapply step_sequence.
Qed.

(** Heads that some event chain reaches from its genesis. *)
Inductive reachable : Head -> Prop :=
  | reach_genesis ev inp h : Reduce None ev inp = Ok h -> reachable h
  | reach_event c ev inp h : reachable c -> Reduce (Some c) ev inp = Ok h -> reachable h.

Lemma reachable_head_ok h : reachable h -> head_ok h.
Proof.
  induction 1; [by eapply genesis_head_ok | by eapply reduce_head_ok].
Qed.

(** Later heads of the same chain. *)
Inductive extends : Head -> Head -> Prop :=
  | extends_refl h : extends h h
  | extends_step h c ev inp h' : extends h c -> Reduce (Some c) ev inp = Ok h' -> extends h h'.

Lemma extends_ok h h' : head_ok h -> extends h h' -> head_ok h'.
Proof. intros Hok He. induction He; [done|]. eapply reduce_head_ok; [|done]. by apply IHHe. Qed.

Lemma reduce_sequence c ev inp h :
  head_ok c -> Reduce (Some c) ev inp = Ok h ->
  HeadSequence h = HeadSequence c + 1 /\ Sequence ev = HeadSequence c + 1.
Proof.
  intros Hok Hr. apply Reduce_Some_inv in Hr as (d & _ & _ & Hnz & _ & Hs & _ & _ & Hr).
  apply reduceKind_common in Hr as (Hq & _). rewrite Hq.
  by apply step_sequence in Hs as [-> _].
Qed.

Lemma extends_sequence h h' : head_ok h -> extends h h' -> HeadSequence h <= HeadSequence h'.
Proof.
  intros Hok He. induction He as [|h c ev inp h' He IH Hr]; [lia|].
  pose proof (extends_ok _ _ Hok He) as Hc.
  destruct (reduce_sequence _ _ _ _ Hc Hr). specialize (IH Hok). lia.
Qed.

Definition is_effective_kind (k : EventKind) : bool :=
  match k with
  | EventMaterializationApplied | EventRollbackApplied | EventResearcherUpdate => true
  | _ => false
  end.

(** ** Properties *)

(** [C35] Every head an event chain can reach is well formed: its sequence number
    is positive and has not wrapped, all its heads and commitments are SHA-256
    digests, with no pending transition the desired state is the effective
    state, and a pending transition is named by the desired event head. *)
Theorem reachable_heads_well_formed h (Hr : reachable h) : head_ok h.
Proof. by apply reachable_head_ok. Qed.

(** One reduction is one link: it numbers the new head one above the old
    one without wrapping at the width of [uint64], sets the canonical head to
    the digest of the event, which names the old canonical head as its
    predecessor, and keeps the computer; afterwards no head of the chain that
    extends the new one ever accepts the same event again, under any input. *)
Theorem reduce_links_once c ev inp h h' inp'
    (Hc : reachable c) (Hr : Reduce (Some c) ev inp = Ok h) (He : extends h h') :
  HeadSequence h = HeadSequence c + 1 /\
  Digest ev = Ok (CanonicalEventHead h) /\ PreviousHead ev = CanonicalEventHead c /\
  HeadComputerID h = HeadComputerID c /\
  is_ok (Reduce (Some h') ev inp') = false.
Proof.
  apply reachable_head_ok in Hc as Hok.
  pose proof (reduce_head_ok _ _ _ _ Hok Hr) as Hokh.
  destruct (reduce_sequence _ _ _ _ Hok Hr) as [Hq Hev].
  pose proof Hr as Hr'. apply Reduce_Some_inv in Hr' as (d & Hd & _ & _ & _ & _ & Hp & _ & Hk).
  apply reduceKind_common in Hk as (_ & Hcan & Hid & _).
  repeat split; try congruence.
  destruct (Reduce (Some h') ev inp') as [h2|] eqn:Hr2; [exfalso|done].
  pose proof (extends_sequence _ _ Hokh He).
  destruct (reduce_sequence _ _ _ _ (extends_ok _ _ Hokh He) Hr2). lia.
Qed.

(** [C16] The reducer implements the two-phase transition machine: whatever event
    a reachable head accepts, the phase it denotes (settled on a state, or in
    transition from an effective to a desired state) moves by requesting one
    transition, applying the pending one, abandoning it, updating a settled
    state, or not at all; and the effective state changes only on an applied
    materialization, an applied rollback or a researcher update, each of which
    commits in the event to the state it makes effective. *)
Theorem reduce_refines_transition_machine c ev inp h
    (Hc : reachable c) (Hr : Reduce (Some c) ev inp = Ok h) :
  move (phase_of c) (phase_of h) /\
  (EffectiveStateCommitment h <> EffectiveStateCommitment c ->
   is_effective_kind (Kind ev) = true /\
   EffectiveStateCommitment h = ResultingEffectiveCommitment ev).
Proof.
  apply reachable_head_ok in Hc as [_ _ _ Hset _].
  apply Reduce_Some_inv in Hr as (d & _ & Hd & _ & _ & _ & _ & _ & Hr).
  pose proof (isSHA256_nonempty d Hd) as Hne.
  unfold reduceKind in Hr. unfold phase_of.
  destruct (Kind ev); go_inv Hr; to_prop; simpl;
    repeat case_bool_decide; simplify_eq/=; split; try done; try (by constructor);
    try (intros; split; congruence).
Qed.

(** A failed materialization is only recorded with proof that the previous
    release is back, and it restores the projections exactly: desired head and
    state fall back to the effective ones, nothing is pending any more, and the
    effective head and state are what they were. *)
Theorem failed_materialization_restores c ev inp h
    (Hr : Reduce (Some c) ev inp = Ok h) (Hk : Kind ev = EventMaterializationFailed) :
  RestoredPriorEffective inp = true /\
  PendingTransitionRef c <> "" /\ DecisionRef ev = PendingTransitionRef c /\
  PendingTransitionRef h = "" /\
  DesiredEventHead h = EffectiveEventHead c /\ EffectiveEventHead h = EffectiveEventHead c /\
  DesiredStateCommitment h = EffectiveStateCommitment c /\
  EffectiveStateCommitment h = EffectiveStateCommitment c.
Proof.
  apply Reduce_Some_inv in Hr as (d & _ & _ & _ & _ & _ & _ & _ & Hr).
  unfold reduceKind in Hr. rewrite Hk in Hr. go_inv Hr. by to_prop.
Qed.

(** [file_root_committed] is a valid event kind, and the guest's file sync
    appends events of that kind, but no head at all, not even a fresh chain,
    accepts one. *)
Theorem file_root_committed_never_reduces current ev inp
    (Hk : Kind ev = EventFileRootCommitted) :
  validEventKinds (Kind ev) = true /\ is_ok (Reduce current ev inp) = false.
Proof.
  split; [by rewrite Hk|].
  destruct (Reduce current ev inp) as [h|] eqn:Hr; [exfalso|done].
  destruct current as [c|].
  - apply Reduce_Some_inv in Hr as (d & _ & _ & _ & _ & _ & _ & _ & Hr).
    unfold reduceKind in Hr. by rewrite Hk in Hr.
  - apply Reduce_None_inv in Hr as (d & _ & _ & Hr).
    unfold reduceGenesis in Hr. go_inv Hr. to_prop. congruence.
Qed.

(** ** What a digest commits to *)

(** An event without [RequireExpectedHead], the one field that is not encoded. *)
Definition envelope (e : Event) : Event :=
  match e with
  | Build_Event v id c s p k o i r t pe ca ap au mp ia oa pc pr pf d vr rv x1 x2 x3 x4 x5 _ rc =>
    Build_Event v id c s p k o i r t pe ca ap au mp ia oa pc pr pf d vr rv x1 x2 x3 x4 x5 false rc
  end.

(** Two events equal in all fields but that one. *)
Definition same_envelope (e1 e2 : Event) : Prop := envelope e1 = envelope e2.

Lemma event_json_inj e1 e2 : event_json e1 = event_json e2 -> Kind e1 = Kind e2 -> same_envelope e1 e2.
Proof.
  destruct e1, e2. unfold same_envelope, event_json. cbn. intros Hj Hk. injection Hj. intros.
  f_equal; first [done | by apply itoa_inj | apply JStrs_inj; unfold JStrs; congruence].
Qed.

(** The strings of an event are valid UTF-8. *)
Definition event_utf8 (e : Event) : Prop := utf8 (event_json e) = true.

Definition event_fields (e : Event) : list (string * json) :=
  match event_json e with JObj fs => fs | _ => [] end.

Lemma event_distinct e : distinct_names (event_json e) = true.
Proof.
  cbn [event_json distinct_names]. apply andb_true_iff. split; [vm_compute; reflexivity|].
  cbn [forallb fst snd]. by rewrite !distinct_JStrs.
Qed.

Lemma event_names e1 e2 : (event_fields e1).*1 = (event_fields e2).*1.
Proof. reflexivity. Qed.

Lemma event_sorted_fields e :
  map (fun kv => (kv.1, sort_members kv.2)) (event_fields e) = event_fields e.
Proof. unfold event_fields, event_json. cbn [map fst snd]. by rewrite !sort_members_JStrs. Qed.

Lemma kind_string_inj k1 k2 :
  validEventKinds k1 = true -> validEventKinds k2 = true -> kind_string k1 = kind_string k2 -> k1 = k2.
Proof. destruct k1, k2; simpl; congruence. Qed.

Lemma CanonicalBytes_inv e body :
  CanonicalBytes e = Ok body -> Validate e = Ok tt /\ CanonicalJSON (event_json e) = Ok body.
Proof.
  unfold CanonicalBytes. destruct (Validate e) as [[]|]; [|done]. by rewrite res_map_err_Ok.
Qed.

Lemma Validate_kind e : Validate e = Ok tt -> validEventKinds (Kind e) = true.
Proof. unfold Validate. intros Hv. go_inv Hv. by to_prop. Qed.

(** The text the digest of an event hashes. *)
Definition event_text (e : Event) : string := ok_or "" (CanonicalBytes e).

Lemma digest_binding e1 e2 d :
  Digest e1 = Ok d -> Digest e2 = Ok d -> event_utf8 e1 -> event_utf8 e2 ->
  same_envelope e1 e2 \/ collision_in [event_text e1; event_text e2].
Proof.
  unfold Digest, event_text. intros H1 H2 U1 U2.
  destruct (CanonicalBytes e1) as [b1|] eqn:E1; [|done].
  destruct (CanonicalBytes e2) as [b2|] eqn:E2; [|done]. simplify_eq.
  apply CanonicalBytes_inv in E1 as [V1 C1], E2 as [V2 C2]. cbn [ok_or].
  destruct (sha256_hex_eq b1 b2 [b1; b2]) as [->|]; [congruence|in_list|in_list|left|by right].
  pose proof (canonical_struct_inj (event_fields e1) (event_fields e2) b2 (event_names e1 e2)
    U1 U2 (event_distinct e1) (event_distinct e2) C1 C2) as Heq.
  rewrite !event_sorted_fields in Heq. apply event_json_inj.
  - change (JObj (event_fields e1) = JObj (event_fields e2)). by rewrite Heq.
  - apply kind_string_inj; [by apply Validate_kind..|].
    unfold event_fields, event_json in Heq. by injection Heq.
Qed.

Lemma same_envelope_fields e1 e2 :
  same_envelope e1 e2 -> Sequence e1 = Sequence e2 /\ PreviousHead e1 = PreviousHead e2.
Proof. destruct e1, e2. unfold same_envelope. cbn. intros He. by injection He. Qed.

(** The events that lead from nothing to a head, the latest first. *)
Inductive history : Head -> list Event -> Prop :=
  | history_genesis ev inp h : Reduce None ev inp = Ok h -> history h [ev]
  | history_event c evs ev inp h :
      history c evs -> Reduce (Some c) ev inp = Ok h -> history h (ev :: evs).

Lemma history_head_ok h evs : history h evs -> head_ok h.
Proof. induction 1; [by eapply genesis_head_ok|by eapply reduce_head_ok]. Qed.

Lemma history_cons h evs :
  history h evs -> exists ev rest, evs = ev :: rest /\ Digest ev = Ok (CanonicalEventHead h) /\
    match rest with
    | [] => Sequence ev = 1
    | _ => 1 < Sequence ev /\ exists c, history c rest /\ PreviousHead ev = CanonicalEventHead c
    end.
Proof.
  intros Hh. destruct Hh as [ev inp h Hr|c evs ev inp h Hc Hr]; exists ev; eexists; (split; [done|]).
  - apply Reduce_None_inv in Hr as (d & Hd & _ & Hr). unfold reduceGenesis in Hr. go_inv Hr. to_prop. done.
  - pose proof (history_head_ok _ _ Hc) as Hok. pose proof (ok_sequence c Hok).
    destruct (reduce_sequence _ _ _ _ Hok Hr) as [_ Hs].
    apply Reduce_Some_inv in Hr as (d & Hd & _ & _ & _ & _ & Hp & _ & Hr).
    apply reduceKind_common in Hr as (_ & -> & _). split; [done|].
    destruct evs as [|e' evs']; [by inversion Hc|]. split; [lia|]. by exists c.
Qed.

(** [C17] The canonical head commits to the whole history: two event chains that
    arrive at heads with one canonical head (in whichever computers, under
    whatever transition inputs) went through the same events, one by one, with
    all their fields; or two different ones of their canonical texts have one
    SHA-256. The events' strings are assumed to be valid UTF-8, since encoding replaces what
    is not. *)
Theorem event_chain_tamper_evident h1 evs1 h2 evs2
    (H1 : history h1 evs1) (H2 : history h2 evs2)
    (U1 : Forall event_utf8 evs1) (U2 : Forall event_utf8 evs2)
    (Hhead : CanonicalEventHead h1 = CanonicalEventHead h2) :
  Forall2 same_envelope evs1 evs2 \/ collision_in (event_text <$> evs1 ++ evs2).
Proof.
  revert h1 h2 evs2 H1 H2 U1 U2 Hhead. induction evs1 as [|ev1 evs1 IH]; intros h1 h2 evs2 H1 H2 U1 U2 Hhead;
    [by inversion H1|].
  apply history_cons in H1 as (e1 & r1 & Heq1 & D1 & R1). injection Heq1 as <- <-.
  apply history_cons in H2 as (e2 & r2 & -> & D2 & R2). rewrite Hhead in D1.
  apply Forall_cons in U1 as [Ue1 U1]. apply Forall_cons in U2 as [Ue2 U2].
  destruct (digest_binding _ _ _ D1 D2 Ue1 Ue2) as [Hsame|Hcol];
    [|right; eapply collision_in_subset; [|exact Hcol]; rewrite fmap_app; simpl; set_solver].
  pose proof (same_envelope_fields _ _ Hsame) as [Hs Hp].
  destruct evs1 as [|f1 evs1], r2 as [|f2 r2].
  - left. by constructor.
  - destruct R2 as [R2 _]. lia.
  - destruct R1 as [R1 _]. lia.
  - destruct R1 as (_ & c1 & Hc1 & P1), R2 as (_ & c2 & Hc2 & P2).
    destruct (IH c1 c2 (f2 :: r2) Hc1 Hc2 U1 U2) as [Hall|Hcol]; [congruence|left; by constructor|right].
    eapply collision_in_subset; [|exact Hcol]. rewrite !fmap_app. simpl. set_solver.
Qed.
End Facts.

(** ** A small chain to evaluate *)
Module Demo.
#[local] Existing Instance checksum.
#[local] Existing Instance ByDigit.uuid_by_digit.

Definition target (n : Z) : string := sha256_hex (itoa n).

Definition event (k : EventKind) (decision resulting : string) : Event := {|
  SchemaVersion := 1; EventID := "01900000-0000-7000-8000-000000000001";
  ComputerID := "computer-1"; Sequence := 0; PreviousHead := ""; Kind := k;
  OccurredAt := "2026-01-02T03:04:05.5Z"; IdempotencyKey := "key";
  RequestCommitment := ZeroHead; TrajectoryID := ""; ParentEventID := "";
  CapsuleID := ""; ActorProfile := "actor"; AuthorityRef := "authority";
  ModelPolicyRefs := []; InputArtifactRefs := []; OutputArtifactRefs := [];
  PayloadCommitment := ZeroHead; PrivacyClass := "public";
  ProposedEffectRef := "effect"; DecisionRef := decision; VerifierRefs := ["verifier"];
  EventReducerVersion := 1; ExpectedDesiredEventHead := ""; ExpectedEffectiveEventHead := "";
  ExpectedPendingTransitionRef := ""; ExpectedDesiredStateCommitment := "";
  ExpectedEffectiveStateCommitment := ""; RequireExpectedHead := false;
  ResultingEffectiveCommitment := resulting;
|}.

(** Bind an event to a head and reduce it. *)
Definition bound (h : option Head) (e : Event) : Event :=
  match bindCurrentHead h e with Ok e' => e' | Err _ => e end.

Definition head_or (d : Head) (r : res reduce_error Head) : Head :=
  match r with Ok h => h | Err _ => d end.

Definition no_head : Head := Build_Head "" 0 "" "" "" "" "" "" 0 0.

Definition input (t : Z) : TransitionInput := Build_TransitionInput (target t) true.

Definition genesis : Event := bound None (event EventGenesisImported "" (target 1)).
Definition head1 : Head := head_or no_head (Reduce None genesis (input 1)).
Definition accept : Event := bound (Some head1) (event EventEffectAccepted "decision" "").
Definition head2 : Head := head_or no_head (Reduce (Some head1) accept (input 2)).
Definition fail_event : Event :=
  bound (Some head2) (event EventMaterializationFailed (PendingTransitionRef head2) "").
Definition head3 : Head := head_or no_head (Reduce (Some head2) fail_event (input 2)).

Lemma head1_ok : Reduce None genesis (input 1) = Ok head1.
Proof. vm_compute. reflexivity. Qed.
Lemma head2_ok : Reduce (Some head1) accept (input 2) = Ok head2.
Proof. vm_compute. reflexivity. Qed.
Lemma head3_ok : Reduce (Some head2) fail_event (input 2) = Ok head3.
Proof. vm_compute. reflexivity. Qed.

Lemma reachable_heads_well_formed_witness : reachable head2 /\ head_ok head2.
Proof.
  assert (reachable head2) as Hr.
  { eapply reach_event; [|exact head2_ok]. eapply reach_genesis. exact head1_ok. }
  split; [exact Hr|]. exact (reachable_heads_well_formed head2 Hr).
Defined.

Lemma reduce_links_once_witness :
  HeadSequence head2 = HeadSequence head1 + 1 /\
  is_ok (Reduce (Some head3) accept (input 2)) = false.
Proof.
  assert (reachable head1) as Hr by (eapply reach_genesis; exact head1_ok).
  assert (extends head2 head3) as He.
  { eapply extends_step; [apply extends_refl|exact head3_ok]. }
  pose proof (reduce_links_once head1 accept (input 2) head2 head3 (input 2) Hr head2_ok He)
    as (Hs & _ & _ & _ & Hf).
  split; [exact Hs|exact Hf].
Defined.

Lemma reduce_refines_transition_machine_witness :
  phase_of head1 = Settled (target 1) /\
  phase_of head2 = InTransition (target 1) (target 2) (CanonicalEventHead head2) /\
  move (phase_of head1) (phase_of head2).
Proof.
  assert (reachable head1) as Hr by (eapply reach_genesis; exact head1_ok).
  split; [vm_compute; reflexivity|]. split; [vm_compute; reflexivity|].
  exact (proj1 (reduce_refines_transition_machine head1 accept (input 2) head2 Hr head2_ok)).
Defined.

Lemma failed_materialization_restores_witness :
  phase_of head3 = Settled (target 1) /\
  DesiredStateCommitment head3 = EffectiveStateCommitment head2.
Proof.
  split; [vm_compute; reflexivity|].
  pose proof (failed_materialization_restores head2 fail_event (input 2) head3 head3_ok eq_refl)
    as (_ & _ & _ & _ & _ & _ & Hd & _).
  exact Hd.
Defined.

Lemma file_root_committed_never_reduces_witness :
  Validate (bound (Some head1) (event EventFileRootCommitted "" "")) = Ok tt /\
  is_ok (Reduce (Some head1) (bound (Some head1) (event EventFileRootCommitted "" "")) (input 1)) = false.
Proof.
  split; [vm_compute; reflexivity|].
  exact (proj2 (file_root_committed_never_reduces (Some head1)
    (bound (Some head1) (event EventFileRootCommitted "" "")) (input 1) eq_refl)).
Defined.

Lemma event_chain_tamper_evident_witness :
  Forall2 same_envelope [accept; genesis] [accept; genesis] \/
  collision_in (event_text <$> [accept; genesis] ++ [accept; genesis]).
Proof.
  assert (history head2 [accept; genesis]) as Hh.
  { eapply history_event; [|exact head2_ok]. eapply history_genesis. exact head1_ok. }
  assert (Forall event_utf8 [accept; genesis]) as Hu.
  { repeat constructor; vm_compute; reflexivity. }
  exact (event_chain_tamper_evident head2 [accept; genesis] head2 [accept; genesis] Hh Hh Hu Hu eq_refl).
Defined.
End Demo.
End ComputerEvent.
