(* ===== verification/EventDecode.v ===== *)
(** * EventDecode: reading events and the frozen vocabulary (internal/computerevent/decode.go)

    [DecodeHistoricEvent] reads the envelope of an event from its bytes; every
    replay goes through it. The frozen V1 tables interpret the actor profiles of
    old events. [decode_canonical] is the law the rest relies on: the canonical
    bytes of a valid event read back as that event. *)
From S2P Require Import Prelude GoStrings Sha256 GoUuid GoJson GoDecode CanonicalJson JsonRoundTrip ComputerEvent.
From Stdlib Require Import Ascii String.
Import ComputerEvent.

Module EventDecode.
Local Open Scope Z_scope.

(** ** The frozen V1 vocabulary *)

Definition frozenV1Canonical : list (string * string) := [
  ("super", "super");
  ("cosuper", "co-super"); ("co-super", "co-super"); ("coagent", "co-super"); ("co-agent", "co-super");
  ("researcher", "researcher"); ("researchers", "researcher"); ("research", "researcher");
  ("research-agent", "researcher"); ("web-research", "researcher"); ("web-researcher", "researcher");
  ("texture", "texture"); ("texture-agent", "texture"); ("document-agent", "texture");
  ("conductor", "conductor"); ("processor", "processor"); ("reconciler", "reconciler"); ("email", "email");
  ("verifier", "verifier"); ("owner", "owner"); ("trusted-core", "trusted-core")].

Definition frozenV1Normalize : list (string * string) := [("cosuper-coding", "co-super")].

Definition assoc (k : string) (l : list (string * string)) : option string :=
  snd <$> List.find (fun kv => kv.1 == k) l.

Definition VocabularyV1 : string := "v1".
Definition VocabularyV2 : string := "v2".

Definition ResolveVocabulary (marker : string) : option string :=
  let m := TrimSpace marker in
  if (m == "") || (m == VocabularyV1) then Some VocabularyV1
  else if m == VocabularyV2 then Some VocabularyV2 else None.

(** [strings.ReplaceAll(s, "_", "-")] *)
Definition dashes (s : string) : string :=
  of_chars (map (fun a => if Ascii.eqb a "_" then "-"%char else a) (chars s)).

Definition normalize (token : string) : string := to_lower (dashes (TrimSpace token)).

Definition CanonicalActorProfile (token : string) : option string := assoc (normalize token) frozenV1Canonical.

Definition CanonicalActorProfileAs (table token : string) : option string :=
  if table == "canonical" then assoc (normalize token) frozenV1Canonical
  else if table == "normalize" then
    match assoc (normalize token) frozenV1Normalize with
    | Some canonical => Some canonical
    | None => CanonicalActorProfile token
    end
  else None.

(** ** Events *)

Definition all_kinds : list EventKind := [
  EventGenesisImported; EventTrajectoryStarted; EventModelResolved; EventMessageRecorded; EventToolInvoked;
  EventToolReturned; EventArtifactProduced; EventEffectProposed; EventVerificationRecorded; EventEffectAccepted;
  EventEffectRejected; EventMaterializationStarted; EventMaterializationApplied; EventMaterializationFailed;
  EventRollbackRequested; EventRollbackApplied; EventCheckpointPublished; EventRouteProjectionUpdated;
  EventLifecycleObserved; EventResearcherUpdate; EventKeyRotated; EventKeyRevoked; EventRecoveryRecorded;
  EventRestoreRequested; EventProjectionBatchRecorded; EventFileRootCommitted].

(** [EventKind(s)] *)
Definition kind_of (s : string) : EventKind :=
  default (EventUnknown s) (List.find (fun k => kind_string k == s) all_kinds).

(** [strconv.ParseUint(text, 10, 64)] *)
Definition ParseUint (text : string) : option Z :=
  match chars text with
  | [] => None
  | l => z ← digits_value 0 l; if z <? 2 ^ 64 then Some z else None
  end.
Definition dec_uint : decoder Z := fun old j =>
  match j with JNum text => ParseUint text | JNull => Some old | _ => None end.

Definition event_names_list : list string := [
  "schema_version"; "event_id"; "computer_id"; "sequence"; "previous_head"; "event_kind"; "occurred_at";
  "idempotency_key"; "request_commitment"; "trajectory_id"; "parent_event_id"; "capsule_id"; "actor_profile";
  "authority_ref"; "model_policy_refs"; "input_artifact_refs"; "output_artifact_refs"; "payload_commitment";
  "privacy_class"; "proposed_effect_ref"; "decision_ref"; "verifier_refs"; "reducer_version";
  "expected_desired_event_head"; "expected_effective_event_head"; "expected_pending_transition_ref";
  "expected_desired_state_commitment"; "expected_effective_state_commitment";
  "resulting_effective_state_commitment"].

Definition dec_strs : decoder (list string) := fun old j => items <$> dec_slice "" dec_string (Some old) j.
Definition dec_kind : decoder EventKind := fun old j => kind_of <$> dec_string (kind_string old) j.

Definition zero_event : Event :=
  Build_Event 0 "" "" 0 "" (EventUnknown "") "" "" "" "" "" "" "" "" [] [] [] "" "" "" "" [] 0 "" "" "" "" "" false "".

(** [json] of a struct value into a zero [Event]. *)
Definition dec_event : decoder Event := fun old => dec_struct (fun fs =>
  let str n := dec_field event_names_list fs n dec_string "" in
  let strs n := dec_field event_names_list fs n dec_strs [] in
  version ← dec_field event_names_list fs "schema_version" dec_int 0;
  id ← str "event_id"; computer ← str "computer_id";
  seq ← dec_field event_names_list fs "sequence" dec_uint 0;
  previous ← str "previous_head";
  kind ← dec_field event_names_list fs "event_kind" dec_kind (EventUnknown "");
  occurred ← str "occurred_at"; key ← str "idempotency_key"; request ← str "request_commitment";
  trajectory ← str "trajectory_id"; parent ← str "parent_event_id"; capsule ← str "capsule_id";
  actor ← str "actor_profile"; authority ← str "authority_ref";
  policies ← strs "model_policy_refs"; inputs ← strs "input_artifact_refs"; outputs ← strs "output_artifact_refs";
  payload ← str "payload_commitment"; privacy ← str "privacy_class"; effect ← str "proposed_effect_ref";
  decision ← str "decision_ref"; verifiers ← strs "verifier_refs";
  reducer ← dec_field event_names_list fs "reducer_version" dec_int 0;
  desired ← str "expected_desired_event_head"; effective ← str "expected_effective_event_head";
  pending ← str "expected_pending_transition_ref"; desiredC ← str "expected_desired_state_commitment";
  effectiveC ← str "expected_effective_state_commitment"; resulting ← str "resulting_effective_state_commitment";
  Some (Build_Event version id computer seq previous kind occurred key request trajectory parent capsule actor authority
          policies inputs outputs payload privacy effect decision verifiers reducer desired effective pending desiredC
          effectiveC false resulting)) old.

(** [json.NewDecoder(r).Decode(&v)]: the first value; what follows it is not read. *)
Definition first_value (s : string) : option json := fst <$> parse_value (S (2 * len s)) (chars s).

Definition DecodeHistoricEvent (raw : string) : option Event :=
  j ← clean <$> first_value raw; dec_event zero_event j.

(** ** The canonical bytes of an event read back *)

Lemma kind_of_string k : validEventKinds k = true -> kind_of (kind_string k) = k.
Proof. by destruct k. Qed.

Lemma ParseUint_itoa z : is_u64 z -> ParseUint (itoa z) = Some z.
Proof.
  unfold is_u64, ParseUint. intros Hz. destruct z as [|p|p]; [done| |lia].
  destruct (itoa_pos_digits p) as (_ & a & l & Hl & _). pose proof (digits_value_itoa p) as Hv.
  rewrite Hl in *. rewrite Hv. cbn [mbind option_bind]. by replace (Z.pos p <? 2 ^ 64) with true by lia.
Qed.

Lemma first_value_parse s v : parse s = Some v -> first_value s = Some v.
Proof.
  unfold parse, first_value. destruct (parse_value _ _) as [[w r]|]; [|done]. cbn [mbind option_bind].
  destruct (skip_ws r); [|done]. by intros [= ->].
Qed.

Lemma Validate_versions `{Uuid} e : Validate e = Ok tt -> SchemaVersion e = 1 /\ EventReducerVersion e = 1.
Proof.
  unfold Validate. intros [Hs Hv]%refuse_inv. do 8 apply refuse_inv in Hv as [_ Hv].
  apply refuse_inv in Hv as [Hr _]. by to_prop.
Qed.

Lemma dec_strs_ok old l : dec_strs old (sort_members (JStrs l)) = Some l.
Proof.
  unfold dec_strs. rewrite sort_members_JStrs. unfold JStrs.
  rewrite (dec_slice_map "" dec_string JStr id) by done. cbn. by rewrite map_id.
Qed.

Section Canonical.
Context `{Uuid, Sha256}.

(** The decoder finds in the sorted members the value of each member; [n] is
    the member's place in the envelope. *)
Lemma event_field {T} e n name v (dec : decoder T) old :
  event_fields e !! n = Some (name, v) ->
  dec_field event_names_list (sorted_members (event_fields e)) name dec old = dec old (sort_members v).
Proof.
  intros Hin%list_elem_of_lookup_2. apply dec_field_in.
  - apply sorted_members_NoDup. by_deciding.
  - intros k ([k' w] & -> & Hk)%list_elem_of_fmap. apply elem_sorted_members in Hk as (w' & Hk & _).
    assert (k' ∈ (event_fields e).*1) as Hk'.
    { apply list_elem_of_fmap. by exists (k', w'). }
    exact Hk'.
  - apply elem_sorted_members. eauto.
Qed.

Local Abbreviation field e name dec old := (dec_field event_names_list (sorted_members (event_fields e)) name dec old).

Lemma event_str e n name s : event_fields e !! n = Some (name, JStr s) -> field e name dec_string "" = Some s.
Proof. intros Hn. by rewrite (event_field e n _ _ _ _ Hn). Qed.

Lemma event_strs e n name l : event_fields e !! n = Some (name, JStrs l) -> field e name dec_strs [] = Some l.
Proof. intros Hn. rewrite (event_field e n _ _ _ _ Hn). apply dec_strs_ok. Qed.

Lemma event_int e n name z :
  event_fields e !! n = Some (name, JInt z) -> is_i64 z -> field e name dec_int 0 = Some z.
Proof. intros Hn Hz. rewrite (event_field e n _ _ _ _ Hn). by apply dec_int_JInt. Qed.

Lemma event_uint e n name z :
  event_fields e !! n = Some (name, JInt z) -> is_u64 z -> field e name dec_uint 0 = Some z.
Proof. intros Hn Hz. rewrite (event_field e n _ _ _ _ Hn). by apply ParseUint_itoa. Qed.

Lemma event_kind e n name :
  event_fields e !! n = Some (name, JStr (kind_string (Kind e))) -> validEventKinds (Kind e) = true ->
  field e name dec_kind (EventUnknown "") = Some (Kind e).
Proof. intros Hn Hk. rewrite (event_field e n _ _ _ _ Hn).
  change (kind_of <$> Some (kind_string (Kind e)) = Some (Kind e)). cbn [fmap option_fmap option_map].
  by rewrite kind_of_string.
Qed.

Lemma bind_value {A B} (m : option A) (k : A -> option B) x r : m = Some x -> k x = r -> m ≫= k = r.
Proof. by intros ->. Qed.

Lemma dec_event_ok e :
  SchemaVersion e = 1 -> EventReducerVersion e = 1 -> is_u64 (Sequence e) -> validEventKinds (Kind e) = true ->
  dec_event zero_event (JObj (sorted_members (event_fields e))) = Some (envelope e).
Proof.
  intros Hs Hr Hq Hk. unfold dec_event, dec_struct.
  eapply bind_value; [apply (event_int e 0 _ _ eq_refl); by rewrite Hs|].
  eapply bind_value; [apply (event_str e 1 _ _ eq_refl)|].
  eapply bind_value; [apply (event_str e 2 _ _ eq_refl)|].
  eapply bind_value; [by apply (event_uint e 3 _ _ eq_refl)|].
  eapply bind_value; [apply (event_str e 4 _ _ eq_refl)|].
  eapply bind_value; [by apply (event_kind e 5 _ eq_refl)|].
  let rec go n m := lazymatch m with O => idtac | S ?m' =>
    eapply bind_value; [apply (event_str e n _ _ eq_refl)|]; go (S n) m' end in go 6%nat 8%nat.
  do 3 (eapply bind_value; [first [apply (event_strs e 14 _ _ eq_refl) | apply (event_strs e 15 _ _ eq_refl)
                                 | apply (event_strs e 16 _ _ eq_refl)]|]).
  let rec go n m := lazymatch m with O => idtac | S ?m' =>
    eapply bind_value; [apply (event_str e n _ _ eq_refl)|]; go (S n) m' end in go 17%nat 4%nat.
  eapply bind_value; [apply (event_strs e 21 _ _ eq_refl)|].
  eapply bind_value; [apply (event_int e 22 _ _ eq_refl); by rewrite Hr|].
  let rec go n m := lazymatch m with O => idtac | S ?m' =>
    eapply bind_value; [apply (event_str e n _ _ eq_refl)|]; go (S n) m' end in go 23%nat 6%nat.
  by destruct e.
Qed.

(** [C13] The canonical bytes of an event, which its digest covers and corpusd
    stores, decode to the same event in every field but [RequireExpectedHead],
    which is not part of the envelope. *)
Theorem decode_canonical e body
    (Hb : CanonicalBytes e = Ok body) (Hu : event_utf8 e) (Hseq : is_u64 (Sequence e)) :
  DecodeHistoricEvent body = Some (envelope e).
Proof.
  apply CanonicalBytes_inv in Hb as [Hv Hc]. unfold DecodeHistoricEvent.
  rewrite (first_value_parse body (sort_members (event_json e))).
  2: { rewrite (CanonicalJSON_parse _ _ Hc). by rewrite redecode_id by (apply Hu || apply event_distinct). }
  cbn [fmap option_fmap option_map mbind option_bind].
  rewrite clean_utf8 by (rewrite sort_members_utf8; exact Hu).
  change (sort_members (event_json e)) with (JObj (sorted_members (event_fields e))).
  pose proof (Validate_kind e Hv) as Hk.
  apply Validate_versions in Hv as [Hs Hr].
  apply dec_event_ok; done.
Qed.
End Canonical.

Module Demo.
#[local] Existing Instances ByDigit.uuid_by_digit checksum.

Definition genesis : Event := ComputerEvent.Demo.genesis.
Definition body : string := match CanonicalBytes genesis with Ok b => b | Err _ => "" end.

Lemma genesis_bytes : CanonicalBytes genesis = Ok body.
Proof.
  assert (is_ok (CanonicalBytes genesis) = true) as Ho by (vm_compute; reflexivity).
  unfold body. by destruct (CanonicalBytes genesis).
Qed.

Lemma decode_canonical_witness :
  exists e b, CanonicalBytes e = Ok b /\ DecodeHistoricEvent b = Some (envelope e).
Proof.
  exists genesis, body. split; [exact genesis_bytes|].
  apply (decode_canonical genesis body genesis_bytes); [vm_compute; reflexivity|split; vm_compute; [discriminate|reflexivity]].
Defined.
End Demo.
End EventDecode.
