(* ===== verification/EventReceipt.v ===== *)
(** * EventReceipt: signed receipts (internal/computerevent/receipt.go, event_receipt.go)

    A receipt has common fields, fields of its kind ([KindFields], a Go map to
    [any]), the digest of the canonical JSON of all of these and a signature of
    that digest by every required signer. [NewSignedReceipt] makes one,
    [Receipt_Verify] checks one, [MarshalJSON] and [UnmarshalJSON] write and read
    it, and [VerifyEventHeadReceipt] checks that it attests one append request.

    Ed25519 is the class [Ed25519] with the two laws of its documentation; the
    key history that resolves a signer is an argument. A value of a kind field
    is JSON as it was decoded, or the [uint64] or [int] the code that built the
    receipt put there. *)
From S2P Require Import Prelude GoStrings GoBase64 Sha256 GoUuid GoTime GoJson GoDecode CanonicalJson JsonRoundTrip ComputerEvent.
From Stdlib Require Import Ascii.
Import ComputerEvent.

Class Ed25519 := {
  ed_Public : string -> string;
  ed_Sign : string -> string -> string;
  ed_Verify : string -> string -> string -> bool;
  ed_Sign_size : forall k m, len (ed_Sign k m) = 64%nat;
  ed_Verify_Sign : forall k m, ed_Verify (ed_Public k) m (ed_Sign k m) = true;
}.

Module EventReceipt.
Local Open Scope Z_scope.

Definition ReceiptVersionV1 : Z := 1.
Definition receiptDomain : string := "choir-receipt-v1" +:+ chr 0.

Record SignerRef := { SR_SignerDomain : string; SR_KeyID : string }.
Record Signature := { S_SignerDomain : string; S_KeyID : string; S_Signature : string }.

#[export] Instance SignerRef_eq_dec : EqDecision SignerRef.
Proof. solve_decision. Defined.

(** A value of [map[string]any]. *)
Inductive field := FJson (j : json) | FUint64 (z : Z) | FInt (z : Z).

Definition field_json (f : field) : json :=
  match f with FJson j => j | FUint64 z | FInt z => JInt z end.

(** [value.(string)] of a value that may be missing. *)
Definition field_string (f : option field) : option string :=
  match f with Some (FJson (JStr s)) => Some s | _ => None end.

Record Receipt := {
  ReceiptVersion : Z;
  ReceiptKind : string;
  ReceiptID : string;
  Issuer : string;
  IssuedAt : string;
  RequiredSigners : list SignerRef;
  CanonicalPayloadSHA256 : string;
  SignatureSet : list Signature;
  KindFields : gmap string field;
}.

Record SigningKey := { SK_Ref : SignerRef; SK_PrivateKey : string }.

Inductive receipt_error :=
  | ErrReserved (name : string) | ErrPayloadJSON (e : canonical_error) | ErrSigningKey (i : nat)
  | ErrDecodeObject | ErrMissing (name : string) | ErrDecodeField (name : string)
  | ErrNoResolver | ErrCommonFields | ErrReceiptID | ErrIssuedAt | ErrSignerCount | ErrPayloadDigest
  | ErrSequenceField | ErrSigner (i : nat) | ErrDuplicateSigner (r : SignerRef)
  | ErrSignatureEncoding (r : SignerRef) | ErrResolve (r : SignerRef) | ErrBadSignature (r : SignerRef)
  | ErrKindFieldCount | ErrKindField (name : string)
  | ErrWrongKind | ErrFieldMissing (name : string) | ErrFieldJSON (e : canonical_error) | ErrFieldMismatch (name : string).

(** ** Values and canonical bytes *)

Definition signer_json (s : SignerRef) : json :=
  JObj [("signer_domain", JStr (SR_SignerDomain s)); ("key_id", JStr (SR_KeyID s))].
Definition signature_json (s : Signature) : json :=
  JObj [("signer_domain", JStr (S_SignerDomain s)); ("key_id", JStr (S_KeyID s));
        ("signature", JStr (S_Signature s))].

Definition reserved : list string :=
  ["receipt_version"; "receipt_kind"; "receipt_id"; "issuer"; "issued_at"; "required_signers";
   "canonical_payload_sha256"; "signature_set"].

Definition common_values (r : Receipt) : list (string * json) := [
  ("receipt_version", JInt (ReceiptVersion r));
  ("receipt_kind", JStr (ReceiptKind r));
  ("receipt_id", JStr (ReceiptID r));
  ("issuer", JStr (Issuer r));
  ("issued_at", JStr (IssuedAt r));
  ("required_signers", JArr (map signer_json (RequiredSigners r)))].

Definition attestations (r : Receipt) : list (string * json) := [
  ("canonical_payload_sha256", JStr (CanonicalPayloadSHA256 r));
  ("signature_set", JArr (map signature_json (SignatureSet r)))].

(** [r.values(includeAttestations)] as the members of the map it returns. *)
Definition values (r : Receipt) (includeAttestations : bool) : res receipt_error (list (string * json)) :=
  match List.find (fun n => bool_decide (is_Some (KindFields r !! n))) reserved with
  | Some name => Err (ErrReserved name)
  | None =>
    Ok (common_values r ++ (if includeAttestations then attestations r else [])
        ++ map (fun kv => (kv.1, field_json kv.2)) (map_to_list (KindFields r)))
  end.

Definition canonicalPayload (r : Receipt) : res receipt_error string :=
  let? vs := values r false in res_map_err ErrPayloadJSON (CanonicalJSON (JObj vs)).

Definition MarshalJSON (r : Receipt) : res receipt_error string :=
  let? vs := values r true in res_map_err ErrPayloadJSON (CanonicalJSON (JObj vs)).

Definition CanonicalBytes (r : Receipt) : res receipt_error string := MarshalJSON r.

(** ** Reading *)

Definition dec_signer : decoder SignerRef := fun old => dec_struct (fun fs =>
  let names := ["signer_domain"; "key_id"] in
  d ← dec_field names fs "signer_domain" dec_string (SR_SignerDomain old);
  k ← dec_field names fs "key_id" dec_string (SR_KeyID old);
  Some (Build_SignerRef d k)) old.

Definition dec_signature : decoder Signature := fun old => dec_struct (fun fs =>
  let names := ["signer_domain"; "key_id"; "signature"] in
  d ← dec_field names fs "signer_domain" dec_string (S_SignerDomain old);
  k ← dec_field names fs "key_id" dec_string (S_KeyID old);
  s ← dec_field names fs "signature" dec_string (S_Signature old);
  Some (Build_Signature d k s)) old.

Definition zero_receipt : Receipt := Build_Receipt 0 "" "" "" "" [] "" [] ∅.

(** [decode(name, target)]: the member must be there; the entry leaves the map. *)
Definition take_member {T} (m : gmap string json) (name : string) (dec : decoder T) (zero : T)
    : res receipt_error (T * gmap string json) :=
  match m !! name with
  | None => Err (ErrMissing name)
  | Some j => match dec zero j with
              | None => Err (ErrDecodeField name)
              | Some t => Ok (t, delete name m)
              end
  end.

(** The map a JSON object decodes to: the last of two members of one name. *)
Definition members (fs : list (string * json)) : gmap string json :=
  foldl (fun m kv => <[kv.1 := kv.2]> m) ∅ fs.

(** [json.Unmarshal] of the bytes of a receipt; [clean] because strings are
    decoded to valid UTF-8. *)
Definition UnmarshalJSON (data : string) : res receipt_error Receipt :=
  match clean <$> parse data with
  | Some (JNull as j) | Some (JObj _ as j) =>
    let m := match j with JObj fs => members fs | _ => ∅ end in
    let? (version, m) := take_member m "receipt_version" dec_int 0 in
    let? (kind, m) := take_member m "receipt_kind" dec_string "" in
    let? (id, m) := take_member m "receipt_id" dec_string "" in
    let? (issuer, m) := take_member m "issuer" dec_string "" in
    let? (issued, m) := take_member m "issued_at" dec_string "" in
    let? (signers, m) := take_member m "required_signers" (dec_slice (Build_SignerRef "" "") dec_signer) None in
    let? (digest, m) := take_member m "canonical_payload_sha256" dec_string "" in
    let? (signatures, m) := take_member m "signature_set" (dec_slice (Build_Signature "" "" "") dec_signature) None in
    Ok {| ReceiptVersion := version; ReceiptKind := kind; ReceiptID := id; Issuer := issuer;
          IssuedAt := issued; RequiredSigners := items signers; CanonicalPayloadSHA256 := digest;
          SignatureSet := items signatures; KindFields := (fun j => FJson (redecode j)) <$> m |}
  | _ => Err ErrDecodeObject
  end.

Definition RequireKindFields (r : Receipt) (names : list string) : res receipt_error unit :=
  refuse negb (Nat.eqb (size (KindFields r)) (length names)) with ErrKindFieldCount ;;
  match List.find (fun n => bool_decide (KindFields r !! n = None)) names with
  | Some name => Err (ErrKindField name)
  | None => Ok tt
  end.

(** ** Signing and verifying *)

(** The 32 bytes a hexadecimal digest stands for. *)
Fixpoint unhex (l : list ascii) : list ascii :=
  match l with
  | a :: b :: l => byte_of (default 0%N (hex_val a) * 16 + default 0%N (hex_val b)) :: unhex l
  | _ => []
  end.

Definition receiptSignaturePreimage (digest : string) : string :=
  receiptDomain +:+ of_chars (unhex (chars digest)).

(** [receiptSequence(value)]; a missing key is [nil]. *)
Definition receiptSequence (f : option field) : res receipt_error Z :=
  match f with
  | None | Some (FJson JNull) => Ok 0
  | Some (FUint64 z) => Ok z
  | Some (FInt z) => refuse z <? 0 with ErrSequenceField ;; Ok z
  | Some (FJson (JNum text)) =>
    match ParseInt text with
    | Some z => refuse z <? 0 with ErrSequenceField ;; Ok z
    | None => Err ErrSequenceField
    end
  | Some _ => Err ErrSequenceField
  end.

Section Signatures.
Context `{Uuid, Sha256, Ed25519}.

(** [ResolveReceiptKey(domain, computerID, keyID, sequence, issuedAt)] *)
Definition KeyResolver := string -> string -> string -> Z -> Time -> option string.

Fixpoint check_keys (i : nat) (keys : list SigningKey) : res receipt_error unit :=
  match keys with
  | [] => Ok tt
  | k :: keys =>
    refuse negb (Nat.eqb (len (SK_PrivateKey k)) 64) || (SR_SignerDomain (SK_Ref k) == "") || (SR_KeyID (SK_Ref k) == "")
      with ErrSigningKey i ;;
    check_keys (S i) keys
  end.

Definition sign_with (preimage : string) (k : SigningKey) : Signature :=
  Build_Signature (SR_SignerDomain (SK_Ref k)) (SR_KeyID (SK_Ref k))
    (EncodeToString std (ed_Sign (SK_PrivateKey k) preimage)).

(** [id] is the identifier [uuid.NewV7FromReader] drew. *)
Definition NewSignedReceipt (id kind issuer : string) (fields : gmap string field) (keys : list SigningKey)
    (issuedAt : Time) : res receipt_error Receipt :=
  let? _ := check_keys 0 keys in
  let unsigned digest sigs :=
    Build_Receipt ReceiptVersionV1 kind id issuer (format_rfc3339nano issuedAt) (SK_Ref <$> keys) digest sigs fields in
  let? payload := canonicalPayload (unsigned "" []) in
  let digest := sha256_hex payload in
  Ok (unsigned digest (sign_with (receiptSignaturePreimage digest) <$> keys)).

(** The loop of [Verify] over the required signers and the signature set. *)
Fixpoint verify_signers (resolver : KeyResolver) (computerID : string) (sequence : Z) (issuedAt : Time)
    (preimage : string) (i : nat) (seen : list SignerRef) (required : list SignerRef) (actual : list Signature)
    : res receipt_error unit :=
  match required, actual with
  | r :: required, a :: actual =>
    refuse (SR_SignerDomain r == "") || (SR_KeyID r == "") || (S_SignerDomain a != SR_SignerDomain r)
           || (S_KeyID a != SR_KeyID r) with ErrSigner i ;;
    refuse bool_decide (r ∈ seen) with ErrDuplicateSigner r ;;
    match DecodeString std (S_Signature a) with
    | None => Err (ErrSignatureEncoding r)
    | Some sig =>
      refuse negb (Nat.eqb (len sig) 64) with ErrSignatureEncoding r ;;
      match resolver (SR_SignerDomain r) computerID (SR_KeyID r) sequence issuedAt with
      | None => Err (ErrResolve r)
      | Some publicKey =>
        refuse negb (ed_Verify publicKey preimage sig) with ErrBadSignature r ;;
        verify_signers resolver computerID sequence issuedAt preimage (S i) (r :: seen) required actual
      end
    end
  | _, _ => Ok tt
  end.

Definition Receipt_Verify (resolver : option KeyResolver) (r : Receipt) : res receipt_error unit :=
  match resolver with
  | None => Err ErrNoResolver
  | Some resolver =>
    refuse negb (ReceiptVersion r =? ReceiptVersionV1) || (ReceiptKind r == "") || (Issuer r == "") with ErrCommonFields ;;
    refuse negb (uuid_version (ReceiptID r) == Some 7) with ErrReceiptID ;;
    match parse_utc (IssuedAt r) with
    | None => Err ErrIssuedAt
    | Some issuedAt =>
      refuse format_rfc3339nano issuedAt != IssuedAt r with ErrIssuedAt ;;
      refuse (RequiredSigners r == []) || negb (Nat.eqb (length (RequiredSigners r)) (length (SignatureSet r)))
        with ErrSignerCount ;;
      let? payload := canonicalPayload r in
      let digest := sha256_hex payload in
      refuse digest != CanonicalPayloadSHA256 r with ErrPayloadDigest ;;
      let computerID := default "" (field_string (KindFields r !! "computer_id")) in
      let? sequence := receiptSequence (KindFields r !! "sequence") in
      verify_signers resolver computerID sequence issuedAt (receiptSignaturePreimage digest) 0 []
        (RequiredSigners r) (SignatureSet r)
    end
  end.
End Signatures.

(** ** Receipts of appended events: [CASRequest] (appender.go) and event_receipt.go *)

Record CASRequest := {
  R_Event : Event;
  R_EventDigest : string;
  R_EventArtifactDigest : string;
  R_EventPinReceiptDigest : string;
  R_PayloadPinReceiptDigests : list string;
  R_PinIntentCommitment : string;
  R_Input : TransitionInput;
  R_Next : Head;
}.

(** [expected] of the verifier and [eventHeadReceiptFields] of corpusd
    (internal/platform/computer_events.go): the twelve facts a receipt attests. *)
Definition eventHeadReceiptFields (q : CASRequest) : list (string * field) := [
  ("computer_id", FJson (JStr (ComputerID (R_Event q))));
  ("previous_head", FJson (JStr (PreviousHead (R_Event q))));
  ("event_digest", FJson (JStr (R_EventDigest q)));
  ("sequence", FUint64 (Sequence (R_Event q)));
  ("event_kind", FJson (JStr (kind_string (Kind (R_Event q)))));
  ("request_commitment", FJson (JStr (RequestCommitment (R_Event q))));
  ("pin_receipt_digests", FJson (JStrs (R_EventPinReceiptDigest q :: R_PayloadPinReceiptDigests q)));
  ("desired_event_head", FJson (JStr (DesiredEventHead (R_Next q))));
  ("effective_event_head", FJson (JStr (EffectiveEventHead (R_Next q))));
  ("pending_transition_ref", FJson (JStr (PendingTransitionRef (R_Next q))));
  ("desired_state_commitment", FJson (JStr (DesiredStateCommitment (R_Next q))));
  ("effective_state_commitment", FJson (JStr (EffectiveStateCommitment (R_Next q))))].

Fixpoint match_fields (r : Receipt) (expected : list (string * field)) : res receipt_error unit :=
  match expected with
  | [] => Ok tt
  | (name, value) :: expected =>
    match KindFields r !! name with
    | None => Err (ErrFieldMissing name)
    | Some actual =>
      let? expectedJSON := res_map_err ErrFieldJSON (CanonicalJSON (field_json value)) in
      let? actualJSON := res_map_err ErrFieldJSON (CanonicalJSON (field_json actual)) in
      refuse expectedJSON != actualJSON with ErrFieldMismatch name ;;
      match_fields r expected
    end
  end.

Section EventHead.
Context `{Uuid, Sha256, Ed25519}.

Definition VerifyEventHeadReceipt (keys : option KeyResolver) (r : Receipt) (q : CASRequest) : res receipt_error unit :=
  match keys with
  | None => Err ErrNoResolver
  | Some _ =>
    refuse (ReceiptKind r != "EventHeadReceipt") || (Issuer r != "corpusd") with ErrWrongKind ;;
    let? _ := Receipt_Verify keys r in
    let? _ := RequireKindFields r ((eventHeadReceiptFields q).*1) in
    match_fields r (eventHeadReceiptFields q)
  end.
End EventHead.

(** ** What a receipt is read back as *)

(** A value that the decoder and the sorting of members leave alone. *)
Definition settled (v : json) : Prop := utf8 v = true /\ distinct_names v = true /\ sort_members v = v.

(** The texts of a receipt are UTF-8, the names of its kind fields are ASCII and
    their values settled, as those of every kind of receipt the program makes. *)
Record readable (r : Receipt) : Prop := {
  readable_text : utf8 (JObj (common_values r ++ attestations r)) = true;
  readable_version : is_i64 (ReceiptVersion r);
  readable_fields : map_Forall (fun k f => ascii_only k = true /\ settled (field_json f)) (KindFields r);
}.

(** The receipt after a round trip: numbers have become [json.Number]. *)
Definition normal (r : Receipt) : Receipt :=
  Build_Receipt (ReceiptVersion r) (ReceiptKind r) (ReceiptID r) (Issuer r) (IssuedAt r) (RequiredSigners r)
    (CanonicalPayloadSHA256 r) (SignatureSet r) ((fun f => FJson (field_json f)) <$> KindFields r).

Definition kind_values (r : Receipt) : list (string * json) :=
  map (fun kv => (kv.1, field_json kv.2)) (map_to_list (KindFields r)).

Lemma values_inv r b vs :
  values r b = Ok vs ->
  (forall n, n ∈ reserved -> KindFields r !! n = None) /\
  vs = common_values r ++ (if b then attestations r else []) ++ kind_values r.
Proof.
  unfold values. destruct (List.find _ reserved) as [n|] eqn:E; [done|]. intros [= <-]. split; [|done].
  intros n Hn. pose proof (List.find_none _ _ E n) as Hf.
  rewrite list_elem_of_In in Hn. specialize (Hf Hn). apply bool_decide_eq_false_1 in Hf. by apply eq_None_not_Some.
Qed.

Lemma values_ok r b :
  (forall n, n ∈ reserved -> KindFields r !! n = None) ->
  values r b = Ok (common_values r ++ (if b then attestations r else []) ++ kind_values r).
Proof.
  intros Hn. unfold values. destruct (List.find _ reserved) as [n|] eqn:E; [|done].
  apply List.find_some in E as [Hin E]. apply bool_decide_eq_true_1 in E. rewrite Hn in E by (by apply list_elem_of_In).
  by destruct E.
Qed.

Lemma elem_kind_values r k v :
  (k, v) ∈ kind_values r <-> exists f, KindFields r !! k = Some f /\ v = field_json f.
Proof.
  unfold kind_values. rewrite list_elem_of_fmap. split.
  - intros ([k' f] & [= -> ->] & Hin). apply elem_of_map_to_list in Hin. eauto.
  - intros (f & Hf & ->). exists (k, f). split; [done|]. by apply elem_of_map_to_list.
Qed.

Lemma kind_names r : (kind_values r).*1 = (map_to_list (KindFields r)).*1.
Proof. unfold kind_values. rewrite <-list_fmap_compose. by apply list_fmap_ext. Qed.

Lemma elem_kind_names r k : k ∈ (kind_values r).*1 <-> is_Some (KindFields r !! k).
Proof.
  rewrite kind_names, list_elem_of_fmap. split.
  - intros ([k' f] & -> & Hin). apply elem_of_map_to_list in Hin. eauto.
  - intros [f Hf]. exists (k, f). split; [done|]. by apply elem_of_map_to_list.
Qed.

Lemma common_reserved r (b : bool) k :
  k ∈ (common_values r ++ (if b then attestations r else [])).*1 -> k ∈ reserved.
Proof.
  destruct b; simpl; intros Hk; repeat (apply elem_of_cons in Hk as [->|Hk]; [set_solver|]);
    by apply elem_of_nil in Hk.
Qed.

Lemma values_NoDup r b vs : values r b = Ok vs -> NoDup vs.*1.
Proof.
  intros (Hres & ->)%values_inv. rewrite app_assoc, fmap_app. apply NoDup_app. split_and!.
  - destruct b; by_deciding.
  - intros k Hk Hin. apply elem_kind_names in Hin as [f Hf]. rewrite (Hres k) in Hf; [done|].
    by eapply common_reserved.
  - rewrite kind_names. apply NoDup_fst_map_to_list.
Qed.

Lemma settled_str s : ValidString s = true -> settled (JStr s).
Proof. done. Qed.

Lemma distinct_signers l : distinct_names (JArr (map signer_json l)) = true.
Proof. cbn [distinct_names]. rewrite forallb_map. by apply forallb_forall. Qed.
Lemma distinct_signatures l : distinct_names (JArr (map signature_json l)) = true.
Proof. cbn [distinct_names]. rewrite forallb_map. by apply forallb_forall. Qed.

Lemma readable_values r b vs :
  readable r -> values r b = Ok vs -> utf8 (JObj vs) = true /\ distinct_names (JObj vs) = true.
Proof.
  intros [Ht Hv Hf] Hvs. pose proof (values_NoDup _ _ _ Hvs) as Hnd. apply values_inv in Hvs as [_ ->].
  assert (forall k v, (k, v) ∈ kind_values r -> ascii_only k = true /\ settled v) as Hk.
  { intros k v (f & Hkf & ->)%elem_kind_values. by apply (Hf k f). }
  assert (utf8 (JObj (common_values r ++ (if b then attestations r else []) ++ kind_values r)) = true) as Hu.
  { cbn [utf8] in *. rewrite app_assoc, forallb_app. rewrite forallb_app in Ht. apply andb_true_iff in Ht as [H1 H2].
    apply andb_true_iff. split; [rewrite forallb_app, H1; by destruct b|].
    apply forallb_forall. intros [k v] Hin%list_elem_of_In. destruct (Hk k v Hin) as [Ha (Hu & _)].
    cbn [fst snd]. by rewrite ValidString_ascii. }
  split; [done|]. cbn [utf8] in Hu. rewrite forallb_forall in Hu. cbn [distinct_names]. apply andb_true_iff. split.
  - apply bool_decide_eq_true_2. erewrite map_ext_in; [exact Hnd|].
    intros kv Hin. apply sanitize_valid. specialize (Hu _ Hin). by apply andb_true_iff in Hu as [Hu _].
  - rewrite !forallb_app, !andb_true_iff. split_and!.
    + cbn [common_values forallb fst snd]. by rewrite distinct_signers.
    + destruct b; [|done]. cbn [attestations forallb fst snd]. by rewrite distinct_signatures.
    + apply forallb_forall. intros [k v] Hin%list_elem_of_In. by destruct (Hk k v Hin) as [_ (_ & Hd & _)].
Qed.

(** ** Members of a decoded object *)
Lemma members_lookup_gen fs (m : gmap string json) k :
  NoDup fs.*1 ->
  (forall v, (k, v) ∈ fs -> foldl (fun m kv => <[kv.1 := kv.2]> m) m fs !! k = Some v) /\
  (k ∉ fs.*1 -> foldl (fun m kv => <[kv.1 := kv.2]> m) m fs !! k = m !! k).
Proof.
  revert m. induction fs as [|[k0 v0] fs IH]; intros m Hnd; simpl.
  { split; [by intros v ?%elem_of_nil|done]. }
  apply NoDup_cons in Hnd as [Hk0 Hnd]. destruct (IH (<[k0 := v0]> m) Hnd) as [IH1 IH2]. split.
  - intros v [Heq|Hin]%elem_of_cons; [|by apply IH1]. simplify_eq. rewrite IH2 by done. apply lookup_insert_eq.
  - intros [Hne Hk]%not_elem_of_cons. rewrite IH2 by done. by rewrite lookup_insert_ne.
Qed.

Lemma members_lookup fs k v : NoDup fs.*1 -> (k, v) ∈ fs -> members fs !! k = Some v.
Proof. intros Hnd. exact (proj1 (members_lookup_gen fs ∅ k Hnd) v). Qed.

Lemma members_lookup_None fs k : NoDup fs.*1 -> k ∉ fs.*1 -> members fs !! k = None.
Proof. intros Hnd Hk. unfold members. rewrite (proj2 (members_lookup_gen fs ∅ k Hnd) Hk). apply lookup_empty. Qed.

Lemma MarshalJSON_parse r body :
  readable r -> MarshalJSON r = Ok body ->
  exists vs, values r true = Ok vs /\ clean <$> parse body = Some (JObj (sorted_members vs)).
Proof.
  intros Hr. unfold MarshalJSON. destruct (values r true) as [vs|] eqn:Hvs; [|done].
  rewrite res_map_err_Ok. intros Hc. exists vs. split; [done|].
  destruct (readable_values _ _ _ Hr Hvs) as [Hu Hd].
  rewrite (CanonicalJSON_parse _ _ Hc), redecode_id by done. simpl. f_equal.
  change (clean (sort_members (JObj vs)) = sort_members (JObj vs)). apply clean_utf8. by rewrite sort_members_utf8.
Qed.

Lemma dec_sorted_signer s : dec_signer (Build_SignerRef "" "") (sort_members (signer_json s)) = Some s.
Proof. destruct s. vm_compute. reflexivity. Qed.

Lemma dec_sorted_signature s : dec_signature (Build_Signature "" "" "") (sort_members (signature_json s)) = Some s.
Proof. destruct s. vm_compute. reflexivity. Qed.

Lemma dec_sorted_slice {A} (zero : A) (dec : decoder A) (enc : A -> json) l :
  (forall x, dec zero (sort_members (enc x)) = Some x) ->
  dec_slice zero dec None (sort_members (JArr (map enc l))) = Some (Some l).
Proof.
  intros Hd. cbn [sort_members]. rewrite map_map.
  rewrite (dec_slice_map zero dec (fun x => sort_members (enc x)) id) by auto. by rewrite map_id.
Qed.

Lemma take_member_ok {T} m name (dec : decoder T) zero j t :
  m !! name = Some j -> dec zero j = Some t -> take_member m name dec zero = Ok (t, delete name m).
Proof. unfold take_member. by intros -> ->. Qed.

(** [C12] A receipt survives storage: the canonical bytes of a receipt decode to
    the same receipt, every field of it, except that a number among its kind
    fields comes back as the [json.Number] with its text. *)
Theorem receipt_roundtrip r body (Hr : readable r) (Hb : CanonicalBytes r = Ok body) :
  UnmarshalJSON body = Ok (normal r).
Proof.
  destruct (MarshalJSON_parse r body Hr Hb) as (vs & Hvs & Hp). pose proof (values_NoDup _ _ _ Hvs) as Hnd.
  apply sorted_members_NoDup in Hnd as Hnd'. unfold UnmarshalJSON. rewrite Hp. cbv zeta.
  apply values_inv in Hvs as [Hres Hvs].
  assert (forall k v, (k, v) ∈ vs -> members (sorted_members vs) !! k = Some (sort_members v)) as Hm.
  { intros k v Hin. apply members_lookup; [done|]. apply elem_sorted_members. eauto. }
  assert (forall k v, (k, v) ∈ common_values r ++ attestations r -> (k, v) ∈ vs) as Hc.
  { intros k v Hin. rewrite Hvs, app_assoc. apply elem_of_app. by left. }
  set (m := members (sorted_members vs)) in *.
  do 8 (erewrite take_member_ok; [|repeat rewrite lookup_delete_ne by done; apply Hm, Hc; in_list|]; [|first
    [ apply dec_int_JInt, readable_version, Hr | reflexivity
    | apply (dec_sorted_slice _ _ signer_json), dec_sorted_signer
    | apply (dec_sorted_slice _ _ signature_json), dec_sorted_signature ]]).
  cbn [items default]. unfold normal. f_equal. f_equal. apply map_eq. intros k.
  rewrite !lookup_fmap. destruct (decide (k ∈ reserved)) as [Hin|Hout].
  - rewrite (Hres k Hin). unfold reserved in Hin.
    repeat (apply elem_of_cons in Hin as [->|Hin];
      [repeat first [rewrite lookup_delete_eq; done | rewrite lookup_delete_ne by done]|]). by apply elem_of_nil in Hin.
  - repeat rewrite lookup_delete_ne by (intros <-; apply Hout; set_solver).
    destruct (KindFields r !! k) as [f|] eqn:Hf.
    + destruct (readable_fields r Hr k f Hf) as [_ (Hu & Hd & Hs)].
      rewrite (Hm k (field_json f)); [cbn; by rewrite Hs, redecode_id|].
      rewrite Hvs, app_assoc. apply elem_of_app. right. apply elem_kind_values. eauto.
    + unfold m. rewrite members_lookup_None; [done..|]. intros ([k' v] & -> & Hin)%list_elem_of_fmap.
      apply elem_sorted_members in Hin as (w & Hin & _). rewrite Hvs, app_assoc in Hin. cbn [fst] in *.
      apply elem_of_app in Hin as [Hin|Hin].
      * apply Hout, (common_reserved r true). apply list_elem_of_fmap. by exists (k', w).
      * apply elem_kind_values in Hin as (f & Hf' & _). congruence.
Qed.

(** ** Verification does not see the round trip *)

Lemma find_ext {A} (f g : A -> bool) l : (forall x, f x = g x) -> List.find f l = List.find g l.
Proof. intros Hfg. induction l as [|x l IH]; simpl; [done|]. by rewrite Hfg, IH. Qed.

Lemma kind_values_normal r : kind_values (normal r) ≡ₚ kind_values r.
Proof.
  unfold kind_values, normal. cbn [KindFields].
  rewrite map_to_list_fmap, map_map. by erewrite map_ext; [reflexivity|].
Qed.

Lemma values_ascii r b vs :
  readable r -> values r b = Ok vs -> forall k, k ∈ vs.*1 -> ascii_only k = true.
Proof.
  intros Hr Hvs k Hin. apply values_inv in Hvs as [_ ->]. rewrite app_assoc, fmap_app in Hin.
  apply elem_of_app in Hin as [Hin|Hin].
  - apply common_reserved in Hin. unfold reserved in Hin.
    repeat (apply elem_of_cons in Hin as [->|Hin]; [reflexivity|]). by apply elem_of_nil in Hin.
  - apply elem_kind_names in Hin as [f Hf]. by destruct (readable_fields r Hr k f Hf).
Qed.

Lemma values_json_normal r b : readable r ->
  (let? vs := values (normal r) b in res_map_err ErrPayloadJSON (CanonicalJSON (JObj vs)))
  = (let? vs := values r b in res_map_err ErrPayloadJSON (CanonicalJSON (JObj vs))).
Proof.
  intros Hr. destruct (values r b) as [vs|e] eqn:Hvs.
  - pose proof (values_NoDup _ _ _ Hvs) as Hnd. pose proof (values_ascii r b vs Hr Hvs) as Ha.
    apply values_inv in Hvs as [Hres ->]. rewrite values_ok.
    2: { intros n Hn. cbn [normal KindFields]. by rewrite lookup_fmap, (Hres n Hn). }
    f_equal. symmetry. apply CanonicalJSON_perm; [by rewrite kind_values_normal|].
    rewrite <-map_map. apply (NoDup_fmap_2_strong (fun k => utf16_units (sanitize k))) in Hnd.
    + by rewrite <-list_fmap_compose in Hnd |- *.
    + intros x y Hx Hy. rewrite !sanitize_valid by (apply ValidString_ascii; auto).
      apply utf16_units_ascii_inj; auto.
  - unfold values in Hvs |- *. destruct (List.find _ reserved) as [n|] eqn:E; [|done]. simplify_eq.
    erewrite find_ext; [by rewrite E|]. intros m. cbn [normal KindFields]. rewrite lookup_fmap.
    apply bool_decide_ext. by destruct (KindFields r !! m).
Qed.

Lemma canonicalPayload_normal r : readable r -> canonicalPayload (normal r) = canonicalPayload r.
Proof. apply values_json_normal. Qed.

Lemma CanonicalBytes_normal r : readable r -> CanonicalBytes (normal r) = CanonicalBytes r.
Proof. apply values_json_normal. Qed.

(** The sequence number of a receipt fits what [json.Number.Int64] reads. *)
Definition small_sequence (r : Receipt) : Prop :=
  match KindFields r !! "sequence" with
  | Some (FUint64 z) => 0 <= z < 2 ^ 63
  | Some (FInt z) => is_i64 z
  | _ => True
  end.

Lemma receiptSequence_normal r :
  small_sequence r ->
  receiptSequence (KindFields (normal r) !! "sequence") = receiptSequence (KindFields r !! "sequence").
Proof.
  unfold small_sequence. cbn [normal KindFields]. rewrite lookup_fmap.
  destruct (KindFields r !! "sequence") as [[j|z|z]|]; try done; intros Hz; cbn -[Z.ltb].
  - rewrite ParseInt_itoa by (unfold is_i64; lia). by replace (z <? 0) with false by (symmetry; apply Z.ltb_ge; lia).
  - by rewrite ParseInt_itoa.
Qed.

Section Verification.
Context `{Uuid, Sha256, Ed25519}.

Lemma Receipt_Verify_normal keys r :
  readable r -> small_sequence r -> Receipt_Verify keys (normal r) = Receipt_Verify keys r.
Proof.
  intros Hr Hs. destruct keys as [resolver|]; [|done]. unfold Receipt_Verify.
  rewrite (canonicalPayload_normal r Hr), (receiptSequence_normal r Hs). cbn [normal KindFields].
  rewrite lookup_fmap. cbn [normal ReceiptVersion ReceiptKind ReceiptID Issuer IssuedAt RequiredSigners CanonicalPayloadSHA256 SignatureSet].
  replace (field_string ((fun f => FJson (field_json f)) <$> KindFields r !! "computer_id"))
    with (field_string (KindFields r !! "computer_id")); [done|].
  by destruct (KindFields r !! "computer_id") as [[j|z|z]|].
Qed.

Lemma match_fields_normal r expected : match_fields (normal r) expected = match_fields r expected.
Proof.
  induction expected as [|[name value] expected IH]; [done|]. cbn [match_fields normal KindFields].
  rewrite lookup_fmap. destruct (KindFields r !! name) as [f|]; [|done]. cbn [fmap option_fmap option_map field_json].
  by rewrite <-IH.
Qed.

Lemma RequireKindFields_normal r names : RequireKindFields (normal r) names = RequireKindFields r names.
Proof.
  unfold RequireKindFields. cbn [normal KindFields]. rewrite map_size_fmap.
  erewrite find_ext; [done|]. intros n. cbn. rewrite lookup_fmap.
  apply bool_decide_ext. by destruct (KindFields r !! n).
Qed.

Lemma VerifyEventHeadReceipt_normal keys r q :
  readable r -> small_sequence r -> VerifyEventHeadReceipt keys (normal r) q = VerifyEventHeadReceipt keys r q.
Proof.
  intros Hr Hs. unfold VerifyEventHeadReceipt. destruct keys as [keys|]; [|done].
  by rewrite Receipt_Verify_normal, RequireKindFields_normal, match_fields_normal.
Qed.

(** ** A new receipt verifies *)

Lemma check_keys_ok i keys :
  check_keys i keys = Ok tt ->
  Forall (fun k => len (SK_PrivateKey k) = 64%nat /\ SR_SignerDomain (SK_Ref k) <> "" /\ SR_KeyID (SK_Ref k) <> "") keys.
Proof.
  revert i. induction keys as [|k keys IH]; intros i Hk; [done|]. cbn [check_keys] in Hk. go_inv Hk. to_prop.
  constructor; [split_and!; done|]. by eapply IH.
Qed.

(** The resolver answers for the keys, whatever the computer, sequence and time. *)
Definition resolves (resolver : KeyResolver) (keys : list SigningKey) : Prop :=
  forall k cid seq t, k ∈ keys ->
    resolver (SR_SignerDomain (SK_Ref k)) cid (SR_KeyID (SK_Ref k)) seq t = Some (ed_Public (SK_PrivateKey k)).

Lemma verify_signers_ok resolver cid seq t preimage keys i seen :
  resolves resolver keys ->
  Forall (fun k => len (SK_PrivateKey k) = 64%nat /\ SR_SignerDomain (SK_Ref k) <> "" /\ SR_KeyID (SK_Ref k) <> "") keys ->
  NoDup (SK_Ref <$> keys) -> (forall r, r ∈ SK_Ref <$> keys -> r ∉ seen) ->
  verify_signers resolver cid seq t preimage i seen (SK_Ref <$> keys) (sign_with preimage <$> keys) = Ok tt.
Proof.
  revert i seen. induction keys as [|k keys IH]; intros i seen Hres Hok Hnd Hseen; [done|].
  apply Forall_cons in Hok as [(_ & Hd & Hk) Hok]. cbn [fmap list_fmap] in Hnd, Hseen |- *.
  apply NoDup_cons in Hnd as [Hnotin Hnd]. cbn [verify_signers sign_with S_SignerDomain S_KeyID S_Signature].
  decide_all. rewrite (bool_decide_eq_false_2 (SK_Ref k ∈ seen)) by (apply Hseen; left).
  rewrite DecodeString_EncodeToString, ed_Sign_size, (Hres k cid seq t), ed_Verify_Sign by left.
  cbn [negb Nat.eqb]. apply IH; [|done..|].
  - intros k' cid' seq' t' Hin. apply Hres. by right.
  - intros r Hr [->|Hin]%elem_of_cons; [done|]. by apply (Hseen r); [right|].
Qed.

(** The attestations are not part of the payload. *)
Lemma canonicalPayload_unsigned v k i iss t rs f d d' sigs sigs' :
  canonicalPayload (Build_Receipt v k i iss t rs d sigs f) = canonicalPayload (Build_Receipt v k i iss t rs d' sigs' f).
Proof. unfold canonicalPayload, values, kind_values, common_values. cbn [KindFields]. reflexivity. Qed.

Lemma NewSignedReceipt_inv id kind issuer fields keys t r :
  NewSignedReceipt id kind issuer fields keys t = Ok r ->
  check_keys 0 keys = Ok tt /\ exists payload, canonicalPayload r = Ok payload /\
  r = Build_Receipt ReceiptVersionV1 kind id issuer (format_rfc3339nano t) (SK_Ref <$> keys) (sha256_hex payload)
        (sign_with (receiptSignaturePreimage (sha256_hex payload)) <$> keys) fields.
Proof.
  unfold NewSignedReceipt. destruct (check_keys 0 keys) as [[]|]; [|done]. cbv zeta.
  destruct (canonicalPayload _) as [payload|] eqn:E; [|done]. intros [= <-]. split; [done|].
  exists payload. split; [|reflexivity]. rewrite <-E. apply canonicalPayload_unsigned.
Qed.

Lemma canonical_utc_inv s : canonical_utc s = true -> exists t, parse_utc s = Some t /\ format_rfc3339nano t = s.
Proof.
  unfold canonical_utc. destruct (parse_utc s) as [t|]; [|done]. intros Hs%bool_decide_eq_true_1. by exists t.
Qed.

Lemma Receipt_Verify_intro resolver r t payload seq :
  ReceiptVersion r = ReceiptVersionV1 -> ReceiptKind r <> "" -> Issuer r <> "" ->
  uuid_version (ReceiptID r) = Some 7 -> parse_utc (IssuedAt r) = Some t -> format_rfc3339nano t = IssuedAt r ->
  RequiredSigners r <> [] -> length (RequiredSigners r) = length (SignatureSet r) ->
  canonicalPayload r = Ok payload -> sha256_hex payload = CanonicalPayloadSHA256 r ->
  receiptSequence (KindFields r !! "sequence") = Ok seq ->
  verify_signers resolver (default "" (field_string (KindFields r !! "computer_id"))) seq t
    (receiptSignaturePreimage (sha256_hex payload)) 0 [] (RequiredSigners r) (SignatureSet r) = Ok tt ->
  Receipt_Verify (Some resolver) r = Ok tt.
Proof.
  intros Hv Hk Hi Hid Hp Hf Hne Hlen Hpay Hd Hs Hsig. unfold Receipt_Verify.
  rewrite Hv, Z.eqb_refl, Hid, Hp, Hf, Hlen, Nat.eqb_refl, Hpay, Hd, Hs, <-Hd, Hsig.
  rewrite (bool_decide_eq_false_2 (ReceiptKind r = "")), (bool_decide_eq_false_2 (Issuer r = "")),
    (bool_decide_eq_false_2 (RequiredSigners r = [])) by done.
  by rewrite !bool_decide_eq_true_2.
Qed.

Lemma new_receipt_verifies id kind issuer fields keys t r resolver :
  NewSignedReceipt id kind issuer fields keys t = Ok r ->
  uuid_version id = Some 7 -> kind <> "" -> issuer <> "" -> canonical_utc (format_rfc3339nano t) = true ->
  keys <> [] -> NoDup (SK_Ref <$> keys) -> resolves resolver keys ->
  is_ok (receiptSequence (fields !! "sequence")) = true ->
  Receipt_Verify (Some resolver) r = Ok tt.
Proof.
  intros (Hk & payload & Hp & Hr)%NewSignedReceipt_inv Hid Hkind Hissuer Ht Hne Hnd Hres Hseq.
  destruct (receiptSequence (fields !! "sequence")) as [seq|] eqn:Es; [|done]. clear Hseq.
  apply canonical_utc_inv in Ht as (t' & Et & Ht).
  apply (Receipt_Verify_intro resolver r t' payload seq); try exact Hp; try (rewrite Hr; done).
  - rewrite Hr. by destruct keys.
  - rewrite Hr. cbn [RequiredSigners SignatureSet]. by rewrite !length_fmap.
  - rewrite Hr. apply verify_signers_ok; [done|by eapply check_keys_ok|done|]. intros x _ Hx. by apply elem_of_nil in Hx.
Qed.

(** ** Receipts of appended events *)

(** What an event head receipt attests about a request. *)
Definition facts (q : CASRequest) :=
  (ComputerID (R_Event q), PreviousHead (R_Event q), R_EventDigest q, Sequence (R_Event q),
   kind_string (Kind (R_Event q)), RequestCommitment (R_Event q),
   R_EventPinReceiptDigest q :: R_PayloadPinReceiptDigests q,
   (DesiredEventHead (R_Next q), EffectiveEventHead (R_Next q), PendingTransitionRef (R_Next q),
    DesiredStateCommitment (R_Next q), EffectiveStateCommitment (R_Next q))).

Definition fact_values (q : CASRequest) : list (string * json) :=
  map (fun kv => (kv.1, field_json kv.2)) (eventHeadReceiptFields q).

(** The texts of the attested facts are valid UTF-8. *)
Definition request_utf8 (q : CASRequest) : Prop := utf8 (JObj (fact_values q)) = true.

Lemma match_fields_inv r expected :
  match_fields r expected = Ok tt ->
  forall name f, (name, f) ∈ expected -> exists actual body,
    KindFields r !! name = Some actual /\
    CanonicalJSON (field_json f) = Ok body /\ CanonicalJSON (field_json actual) = Ok body.
Proof.
  induction expected as [|[n v] expected IH]; intros Hm name f Hin; [by apply elem_of_nil in Hin|].
  cbn [match_fields] in Hm. destruct (KindFields r !! n) as [actual|] eqn:Hn; [|done].
  destruct (CanonicalJSON (field_json v)) as [b1|] eqn:E1; [|done].
  destruct (CanonicalJSON (field_json actual)) as [b2|] eqn:E2; [|done]. cbn [res_map_err] in Hm.
  case_bool_decide as Heq; [|done]. cbn [negb] in Hm. subst b2.
  apply elem_of_cons in Hin as [[= -> ->]|Hin]; [by exists actual, b1|by apply IH].
Qed.

Lemma match_fields_ok r expected :
  (forall name f, (name, f) ∈ expected -> KindFields r !! name = Some f /\ integral (field_json f) = true) ->
  match_fields r expected = Ok tt.
Proof.
  induction expected as [|[n v] expected IH]; intros Hall; [done|]. cbn [match_fields].
  destruct (Hall n v) as [-> Hi]; [left|]. destruct (CanonicalJSON_total _ Hi) as [body ->]. cbn [res_map_err].
  rewrite bool_decide_eq_true_2 by done. apply IH. intros name f Hin. apply Hall. by right.
Qed.

Lemma fact_settled q k f :
  request_utf8 q -> (k, f) ∈ eventHeadReceiptFields q -> settled (field_json f) /\ integral (field_json f) = true.
Proof.
  unfold request_utf8. intros Hu Hin. cbn [utf8] in Hu. rewrite forallb_forall in Hu.
  specialize (Hu (k, field_json f)). cbn [fst snd] in Hu.
  assert (In (k, field_json f) (fact_values q)) as Hin'.
  { apply list_elem_of_In, list_elem_of_fmap. by exists (k, f). }
  specialize (Hu Hin'). apply andb_true_iff in Hu as [_ Hu].
  unfold settled. rewrite Hu. unfold eventHeadReceiptFields in Hin.
  repeat (apply elem_of_cons in Hin as [[= -> ->]|Hin];
    [cbn [field_json]; split_and!; first [done | apply integral_JInt | apply integral_JStrs | apply distinct_JStrs | apply sort_members_JStrs]|]).
  by apply elem_of_nil in Hin.
Qed.

(** A receipt that verifies for two requests names one fact in each field. *)
Lemma match_fields_agree r q1 q2 :
  match_fields r (eventHeadReceiptFields q1) = Ok tt -> match_fields r (eventHeadReceiptFields q2) = Ok tt ->
  request_utf8 q1 -> request_utf8 q2 ->
  forall name f1 f2, (name, f1) ∈ eventHeadReceiptFields q1 -> (name, f2) ∈ eventHeadReceiptFields q2 ->
    field_json f1 = field_json f2.
Proof.
  intros M1 M2 U1 U2 name f1 f2 I1 I2.
  destruct (match_fields_inv _ _ M1 _ _ I1) as (a1 & b1 & Ha1 & C1 & D1).
  destruct (match_fields_inv _ _ M2 _ _ I2) as (a2 & b2 & Ha2 & C2 & D2).
  assert (b2 = b1) as -> by congruence.
  pose proof (CanonicalJSON_inj _ _ _ C1 C2) as Heq.
  destruct (fact_settled q1 name f1 U1 I1) as [(Hu1 & Hd1 & Hs1) _].
  destruct (fact_settled q2 name f2 U2 I2) as [(Hu2 & Hd2 & Hs2) _].
  by rewrite !redecode_id, Hs1, Hs2 in Heq.
Qed.

Lemma VerifyEventHeadReceipt_inv keys r q :
  VerifyEventHeadReceipt keys r q = Ok tt ->
  ReceiptKind r = "EventHeadReceipt" /\ Issuer r = "corpusd" /\ Receipt_Verify keys r = Ok tt /\
  match_fields r (eventHeadReceiptFields q) = Ok tt.
Proof.
  unfold VerifyEventHeadReceipt. destruct keys as [resolver|]; [|done]. intros Hv. case_match eqn:Hk; [done|].
  apply orb_false_iff in Hk as [Hkind%negb_false_iff%bool_decide_eq_true_1 Hiss%negb_false_iff%bool_decide_eq_true_1].
  destruct (Receipt_Verify _ _) as [[]|]; [|done]. destruct (RequireKindFields _ _) as [[]|]; [|done]. done.
Qed.

(** One receipt names the facts of one request. *)
Lemma match_fields_facts r q1 q2 :
  match_fields r (eventHeadReceiptFields q1) = Ok tt -> match_fields r (eventHeadReceiptFields q2) = Ok tt ->
  request_utf8 q1 -> request_utf8 q2 -> facts q1 = facts q2.
Proof.
  intros M1 M2 U1 U2. pose proof (match_fields_agree r q1 q2 M1 M2 U1 U2) as Hagree. unfold facts.
  assert (forall name s1 s2, (name, FJson (JStr s1)) ∈ eventHeadReceiptFields q1 ->
    (name, FJson (JStr s2)) ∈ eventHeadReceiptFields q2 -> s1 = s2) as Hstr.
  { intros name s1 s2 Hin1 Hin2. by injection (Hagree name _ _ Hin1 Hin2). }
  repeat apply (f_equal2 pair).
  - apply (Hstr "computer_id"); in_list.
  - apply (Hstr "previous_head"); in_list.
  - apply (Hstr "event_digest"); in_list.
  - apply JInt_inj, (Hagree "sequence" (FUint64 _) (FUint64 _)); in_list.
  - apply (Hstr "event_kind"); in_list.
  - apply (Hstr "request_commitment"); in_list.
  - apply JStrs_inj, (Hagree "pin_receipt_digests" (FJson _) (FJson _)); in_list.
  - apply (Hstr "desired_event_head"); in_list.
  - apply (Hstr "effective_event_head"); in_list.
  - apply (Hstr "pending_transition_ref"); in_list.
  - apply (Hstr "desired_state_commitment"); in_list.
  - apply (Hstr "effective_state_commitment"); in_list.
Qed.

(** [C11] A receipt attests one append: when one receipt verifies for two
    requests, they are for the same computer, the same digest at the same place
    of the chain, the same kind, commitment and pins, and lead to the same
    projections. No property of the signatures is used. *)
Theorem event_receipt_binds keys r q1 q2
    (V1 : VerifyEventHeadReceipt keys r q1 = Ok tt) (V2 : VerifyEventHeadReceipt keys r q2 = Ok tt)
    (U1 : request_utf8 q1) (U2 : request_utf8 q2) : facts q1 = facts q2.
Proof.
  apply VerifyEventHeadReceipt_inv in V1 as (_ & _ & _ & M1), V2 as (_ & _ & _ & M2).
  by eapply match_fields_facts.
Qed.

(** The receipt corpusd issues for a request. *)
Definition issue (id : string) (key : SigningKey) (t : Time) (q : CASRequest) : res receipt_error Receipt :=
  NewSignedReceipt id "EventHeadReceipt" "corpusd" (list_to_map (eventHeadReceiptFields q)) [key] t.

Lemma fields_lookup q k f :
  (k, f) ∈ eventHeadReceiptFields q -> (list_to_map (eventHeadReceiptFields q) : gmap string field) !! k = Some f.
Proof. apply elem_of_list_to_map_1. by_deciding. Qed.

(** A receipt with the fields of a request matches them. *)
Lemma fields_match q r : KindFields r = list_to_map (eventHeadReceiptFields q) -> match_fields r (eventHeadReceiptFields q) = Ok tt.
Proof.
  intros Hf. apply match_fields_ok. intros name f Hin. rewrite Hf. split; [by apply fields_lookup|].
  unfold eventHeadReceiptFields in Hin. repeat (apply elem_of_cons in Hin as [[= -> ->]|Hin];
    [first [done | apply integral_JInt | apply integral_JStrs]|]). by apply elem_of_nil in Hin.
Qed.

Lemma issue_integral id key t q r :
  issue id key t q = Ok r ->
  KindFields r = list_to_map (eventHeadReceiptFields q) /\ ReceiptKind r = "EventHeadReceipt" /\ Issuer r = "corpusd".
Proof. intros (_ & p & _ & ->)%NewSignedReceipt_inv. done. Qed.

Lemma issued_receipt_verifies id key t q r resolver :
  issue id key t q = Ok r -> uuid_version id = Some 7 -> canonical_utc (format_rfc3339nano t) = true ->
  resolves resolver [key] -> VerifyEventHeadReceipt (Some resolver) r q = Ok tt.
Proof.
  intros Hi Hid Ht Hres. destruct (issue_integral _ _ _ _ _ Hi) as (Hf & Hk & Hiss).
  unfold VerifyEventHeadReceipt. rewrite Hk, Hiss, !bool_decide_eq_true_2 by done. cbn [negb orb].
  unfold issue in Hi. rewrite (new_receipt_verifies _ _ _ _ _ _ _ resolver Hi);
    [|done|done|done|done|done|by apply NoDup_singleton|done|].
  2: { by rewrite (fields_lookup q "sequence" (FUint64 (Sequence (R_Event q)))) by in_list. }
  unfold RequireKindFields. rewrite Hf. rewrite map_size_list_to_map by by_deciding. rewrite length_fmap, Nat.eqb_refl.
  cbn [negb]. destruct (List.find _ _) as [n|] eqn:E.
  - exfalso. apply List.find_some in E as [Hin E%bool_decide_eq_true_1].
    apply list_elem_of_In, list_elem_of_fmap in Hin as ([k f] & -> & Hin).
    cbn [fst] in E. rewrite (fields_lookup q k f Hin) in E. discriminate.
  - by apply fields_match.
Qed.

(** ** The texts of an issued receipt *)

Lemma ascii_chars l : Forall (fun a => (code a < 128)%N) l -> ascii_only (of_chars l) = true.
Proof.
  intros Hl. unfold ascii_only. rewrite chars_of_chars. apply forallb_forall. intros a Ha%list_elem_of_In.
  rewrite Forall_forall in Hl. apply N.ltb_lt. by apply Hl.
Qed.

Lemma digit_ascii n : (code (digit (n mod 10)) < 128)%N.
Proof.
  pose proof (Z.mod_pos_bound n 10 ltac:(lia)) as Hn. unfold digit, byte_of, code. rewrite N_ascii_embedding; lia.
Qed.

Lemma digits_ascii w n : Forall (fun a => (code a < 128)%N) (digits w n).
Proof.
  revert n. induction w as [|w IH]; intros n; cbn [digits]; [done|]. apply Forall_app. split; [apply IH|].
  constructor; [apply digit_ascii|done].
Qed.

Lemma trim_zeros_elem a l : a ∈ trim_zeros l -> a ∈ l.
Proof. induction l as [|b l IH]; cbn [trim_zeros]; [done|]. destruct (Ascii.eqb b "0"); [|done]. intros Ha%IH. by right. Qed.

Lemma itoa_ascii z : 0 <= z -> Forall (fun a => (code a < 128)%N) (chars (itoa z)).
Proof.
  intros Hz. destruct z as [|p|p]; [by repeat constructor| |lia].
  destruct (itoa_pos_digits p) as [Hd _]. rewrite forallb_forall in Hd. apply Forall_forall. intros a Ha.
  specialize (Hd a (proj1 (list_elem_of_In _ _) Ha)). unfold is_digit, in_range in Hd.
  apply andb_true_iff in Hd as [_ Hd%N.leb_le]. lia.
Qed.

Lemma format_time_ascii t : ascii_only (format_rfc3339nano t) = true.
Proof.
  unfold format_rfc3339nano. apply ascii_chars. unfold format_year. rewrite !Forall_app. split_and!; try apply digits_ascii;
    try (apply Forall_singleton; reflexivity).
  - case_match; [apply Forall_singleton; reflexivity|done].
  - case_match; [apply digits_ascii|apply itoa_ascii; lia].
  - unfold format_frac. case_match; [done|]. apply Forall_cons. split; [reflexivity|]. apply Forall_forall.
    intros a. rewrite list_elem_of_In, <-in_rev, <-list_elem_of_In. intros Ha%trim_zeros_elem. revert Ha.
    rewrite list_elem_of_In, <-in_rev, <-list_elem_of_In. intros Ha.
    pose proof (digits_ascii 9 (c_nsec (to_civil t))) as Hd. rewrite Forall_forall in Hd. by apply Hd.
Qed.

Lemma base64_ascii s : ascii_only (EncodeToString std s) = true.
Proof.
  unfold EncodeToString. apply ascii_chars, Forall_forall. intros a (n & -> & Hn)%list_elem_of_fmap.
  pose proof (sextets_small _ (bytes_small s)) as Hs. rewrite Forall_forall in Hs. specialize (Hs n Hn).
  pose proof (letters_plain std (N.to_nat n) ltac:(lia)) as Hp. unfold in_range in Hp.
  apply andb_true_iff in Hp as [_ Hp%N.leb_le]. fold (letter std n) in Hp. lia.
Qed.

(** A receipt issued for facts that are UTF-8 survives storage. *)
Lemma issue_readable id key t q r :
  issue id key t q = Ok r -> request_utf8 q -> ValidString id = true ->
  ValidString (SR_SignerDomain (SK_Ref key)) = true -> ValidString (SR_KeyID (SK_Ref key)) = true -> readable r.
Proof.
  intros (_ & payload & _ & ->)%NewSignedReceipt_inv Hu Hid Hd Hk. split.
  - unfold common_values, attestations. cbn [ReceiptVersion ReceiptKind ReceiptID Issuer IssuedAt RequiredSigners
      CanonicalPayloadSHA256 SignatureSet fmap list_fmap map utf8 forallb app fst snd signer_json signature_json sign_with
      S_SignerDomain S_KeyID S_Signature].
    rewrite Hid, Hd, Hk, (ValidString_ascii _ (format_time_ascii t)), (ValidString_ascii _ (base64_ascii _)).
    by rewrite (ValidString_ascii _ (isSHA256_ascii _ (sha256_hex_shape payload))).
  - done.
  - intros k f Hf. cbn [KindFields] in Hf. apply elem_of_list_to_map_2 in Hf. destruct (fact_settled q k f Hu Hf) as [Hs _].
    split; [|done]. unfold eventHeadReceiptFields in Hf.
    repeat (apply elem_of_cons in Hf as [[= -> ->]|Hf]; [reflexivity|]). by apply elem_of_nil in Hf.
Qed.
End Verification.

(** A signature scheme to evaluate witnesses with: the signature of a message is
    the checksum of key and message, and keys are public. *)
Module ByChecksum.
Lemma sum_size s : len (Checksum.sum s) = 64%nat.
Proof. unfold Checksum.sum, Checksum.hex64. rewrite <-length_chars, chars_of_chars. by rewrite !length_app, !Fips180.length_hex_word. Qed.

Lemma sum_verifies k m : bool_decide (Checksum.sum (k +:+ m) = Checksum.sum (k +:+ m)) = true.
Proof. by apply bool_decide_eq_true_2. Qed.

Definition signing_by_checksum : Ed25519 := {|
  ed_Public k := k;
  ed_Sign k m := Checksum.sum (k +:+ m);
  ed_Verify k m s := s == Checksum.sum (k +:+ m);
  ed_Sign_size k m := sum_size (k +:+ m);
  ed_Verify_Sign := sum_verifies |}.
End ByChecksum.

Module Demo.
#[local] Existing Instances ByDigit.uuid_by_digit checksum ByChecksum.signing_by_checksum.

Definition key : SigningKey := Build_SigningKey (Build_SignerRef "platform-control" "k1") (Checksum.sum "secret").
Definition keys : KeyResolver := fun _ _ _ _ _ => Some (ed_Public (SK_PrivateKey key)).
Definition at_noon : Time := of_civil (Build_civil 2026 6 28 12 0 0 0).

(** The genesis of a computer, and the same request under another artifact digest. *)
Definition request : CASRequest := {|
  R_Event := ComputerEvent.Demo.genesis; R_EventDigest := CanonicalEventHead ComputerEvent.Demo.head1;
  R_EventArtifactDigest := "a"; R_EventPinReceiptDigest := ""; R_PayloadPinReceiptDigests := [];
  R_PinIntentCommitment := ZeroHead; R_Input := ComputerEvent.Demo.input 1; R_Next := ComputerEvent.Demo.head1 |}.
Definition moved : CASRequest := {|
  R_Event := R_Event request; R_EventDigest := R_EventDigest request; R_EventArtifactDigest := "b";
  R_EventPinReceiptDigest := R_EventPinReceiptDigest request; R_PayloadPinReceiptDigests := [];
  R_PinIntentCommitment := R_PinIntentCommitment request; R_Input := R_Input request; R_Next := R_Next request |}.

Definition id : string := "00000000-0000-7000-8000-000000000000".
Definition none : Receipt := Build_Receipt 0 "" "" "" "" [] "" [] ∅.
Definition receipt : Receipt := match issue id key at_noon request with Ok r => r | Err _ => none end.

Lemma issued : issue id key at_noon request = Ok receipt.
Proof.
  assert (is_ok (issue id key at_noon request) = true) as Ho by (vm_compute; reflexivity).
  unfold receipt. by destruct (issue id key at_noon request).
Qed.

Lemma receipt_readable : readable receipt.
Proof. by apply (issue_readable _ _ _ _ _ issued); vm_compute; reflexivity. Qed.

Definition body : string := match CanonicalBytes receipt with Ok b => b | Err _ => "" end.

Lemma receipt_bytes : CanonicalBytes receipt = Ok body.
Proof.
  assert (is_ok (CanonicalBytes receipt) = true) as Ho by (vm_compute; reflexivity).
  unfold body. by destruct (CanonicalBytes receipt).
Qed.

Lemma receipt_roundtrip_witness : exists r b, CanonicalBytes r = Ok b /\ UnmarshalJSON b = Ok (normal r).
Proof.
  exists receipt, body. split; [exact receipt_bytes|]. exact (receipt_roundtrip receipt body receipt_readable receipt_bytes).
Defined.

Lemma requests_differ : request <> moved.
Proof. intros Hm%(f_equal R_EventArtifactDigest). cbv [R_EventArtifactDigest request moved] in Hm. discriminate. Qed.

Lemma event_receipt_binds_witness :
  exists q1 q2, q1 <> q2 /\ VerifyEventHeadReceipt (Some keys) receipt q1 = Ok tt /\ facts q1 = facts q2.
Proof.
  assert (VerifyEventHeadReceipt (Some keys) receipt request = Ok tt) as V1 by (vm_compute; reflexivity).
  assert (VerifyEventHeadReceipt (Some keys) receipt moved = Ok tt) as V2 by (vm_compute; reflexivity).
  assert (request_utf8 request) as U1 by (vm_compute; reflexivity).
  assert (request_utf8 moved) as U2 by (vm_compute; reflexivity).
  exists request, moved. split; [exact requests_differ|]. split; [exact V1|].
  exact (event_receipt_binds (Some keys) receipt request moved V1 V2 U1 U2).
Defined.
End Demo.
End EventReceipt.
