(* ===== verification/ProjectionBatch.v ===== *)
(** * ProjectionBatch: the payload of a projection event and its resolution
      (internal/computerevent/projection_batch.go, payload_resolver.go, decode.go)

    A [projection_batch_recorded] event names a payload by digest. The payload
    is JSON: a batch of operations on the tables of the embedded store.
    [DecodeProjectionBatch] reads and validates one, [ResolvePayloads] fetches,
    checks and decrypts the payloads of an event before any transaction opens.

    The body of an operation is a [json.RawMessage]: here the value it holds,
    [None] when the member is absent. The artifact reader and the cipher
    (XChaCha20 of a package outside the repository) are arguments. *)
From S2P Require Import Prelude GoStrings Sha256 GoJson GoDecode CanonicalJson JsonRoundTrip ComputerEvent.
From Stdlib Require Import Ascii.
Import ComputerEvent.

Module ProjectionBatch.
Local Open Scope Z_scope.

Definition ProjectorVersionV1 : Z := 1.
Definition ProjectionBatchV1 : Z := 1.
Definition ProjectorVersionV2 : Z := 2.
Definition ProjectionBatchV2 : Z := 2.
Definition ProjectionBatchMediaType : string := "application/vnd.choir.projection-batch+json".

Definition v1_kinds : list string := ["desktop_state_recorded"; "object_recorded"; "object_edge_recorded"].
Definition v2_only_kinds : list string :=
  ["run_memory_entry_recorded"; "self_development_start_intent_recorded"; "self_development_operation_recorded";
   "texture_agent_mutation_recorded"; "texture_document_alias_recorded"; "texture_document_alias_delete_recorded"].

Definition projectionOpKinds : list string := v1_kinds ++ v2_only_kinds.
Definition isProjectionV2OnlyKind (kind : string) : bool := bool_decide (kind ∈ v2_only_kinds).

Record ProjectionOp := { OpKind : string; OpCanonicalID : string; OpTable : string; OpBody : option json }.

Record Batch := {
  BatchVersion : Z;
  BatchProjectorVersion : Z;
  BatchComputerID : string;
  BatchEventID : string;
  BatchEventDigest : string;
  BatchOps : list ProjectionOp;
}.

(** [ErrProjectionBatchInvalid] with its reasons, [ErrProjectionPresence] with
    the table or the field. *)
Inductive batch_error :=
  | ErrBatchVersion | ErrBatchIdentity | ErrBatchDigest | ErrBatchEmpty | ErrOpMissingKind (i : nat)
  | ErrOpUnknownKind (i : nat) (kind : string) | ErrOpNeedsV2 (i : nat) (kind : string) | ErrBatchDecode
  | ErrPresence (what : string).

Definition presence_fields : list string := ["last_input_at"; "driver_until"; "visibility_state"; "is_driver"].

Definition rejectProjectionPresence (body : option json) : res batch_error unit :=
  match body with
  | Some (JObj fs) =>
    match List.find (fun key => bool_decide (key ∈ fs.*1)) presence_fields with
    | Some key => Err (ErrPresence key)
    | None => Ok tt
    end
  | _ => Ok tt
  end.

Definition validate_op (version : Z) (i : nat) (op : ProjectionOp) : res batch_error unit :=
  let kind := TrimSpace (OpKind op) in
  refuse kind == "" with ErrOpMissingKind i ;;
  refuse negb (bool_decide (kind ∈ projectionOpKinds)) with ErrOpUnknownKind i kind ;;
  refuse (version =? ProjectionBatchV1) && isProjectionV2OnlyKind kind with ErrOpNeedsV2 i kind ;;
  let table := TrimSpace (OpTable op) in
  refuse (table == "desktop_sessions") || (table == "desktop_session_presence") with ErrPresence table ;;
  rejectProjectionPresence (OpBody op).

Fixpoint validate_ops (version : Z) (i : nat) (ops : list ProjectionOp) : res batch_error unit :=
  match ops with
  | [] => Ok tt
  | op :: ops => let? _ := validate_op version i op in validate_ops version (S i) ops
  end.

Definition Batch_Validate (b : Batch) : res batch_error unit :=
  let validVersion :=
    (BatchVersion b =? ProjectionBatchV1) && (BatchProjectorVersion b =? ProjectorVersionV1)
    || (BatchVersion b =? ProjectionBatchV2) && (BatchProjectorVersion b =? ProjectorVersionV2) in
  refuse negb validVersion with ErrBatchVersion ;;
  refuse blank (BatchComputerID b) || blank (BatchEventID b) with ErrBatchIdentity ;;
  let digest := TrimSpace (BatchEventDigest b) in
  refuse (digest != "") && negb (isSHA256 digest) with ErrBatchDigest ;;
  refuse Nat.eqb (length (BatchOps b)) 0 with ErrBatchEmpty ;;
  validate_ops (BatchVersion b) 0 (BatchOps b).

(** ** Decoding *)

Definition op_names : list string := ["kind"; "canonical_id"; "table"; "body"].
Definition dec_raw : decoder (option json) := fun _ j => Some (Some j).

Definition zero_op : ProjectionOp := Build_ProjectionOp "" "" "" None.
Definition dec_op : decoder ProjectionOp := fun old => dec_struct (fun fs =>
  k ← dec_field op_names fs "kind" dec_string (OpKind old);
  c ← dec_field op_names fs "canonical_id" dec_string (OpCanonicalID old);
  t ← dec_field op_names fs "table" dec_string (OpTable old);
  b ← dec_field op_names fs "body" dec_raw (OpBody old);
  Some (Build_ProjectionOp k c t b)) old.

Definition batch_names : list string :=
  ["version"; "projector_version"; "computer_id"; "event_id"; "event_digest"; "ops"].
Definition zero_batch : Batch := Build_Batch 0 0 "" "" "" [].
Definition dec_batch : decoder Batch := fun old => dec_struct (fun fs =>
  v ← dec_field batch_names fs "version" dec_int (BatchVersion old);
  p ← dec_field batch_names fs "projector_version" dec_int (BatchProjectorVersion old);
  c ← dec_field batch_names fs "computer_id" dec_string (BatchComputerID old);
  e ← dec_field batch_names fs "event_id" dec_string (BatchEventID old);
  d ← dec_field batch_names fs "event_digest" dec_string (BatchEventDigest old);
  o ← dec_field batch_names fs "ops" (dec_slice zero_op dec_op) (Some (BatchOps old));
  Some (Build_Batch v p c e d (items o))) old.

Definition DecodeProjectionBatch (plaintext : string) : res batch_error Batch :=
  match clean <$> parse plaintext with
  | None => Err ErrBatchDecode
  | Some j =>
    match dec_batch zero_batch j with
    | None => Err ErrBatchDecode
    | Some batch => let? _ := Batch_Validate batch in Ok batch
    end
  end.

(** [json.Marshal] of a batch, as [projectionTape.appendOps] (internal/store)
    builds the payload. *)
Definition op_json (op : ProjectionOp) : json :=
  JObj (("kind", JStr (OpKind op)) :: omit_str "canonical_id" (OpCanonicalID op) ++
        omit_str "table" (OpTable op) ++ match OpBody op with Some b => [("body", b)] | None => [] end).
Definition batch_json (b : Batch) : json :=
  JObj [("version", JInt (BatchVersion b)); ("projector_version", JInt (BatchProjectorVersion b));
        ("computer_id", JStr (BatchComputerID b)); ("event_id", JStr (BatchEventID b));
        ("event_digest", JStr (BatchEventDigest b)); ("ops", JArr (map op_json (BatchOps b)))].

(** ** [payload_resolver.go] *)

Inductive payload_error :=
  | ErrPayloadIdentity | ErrPayloadResolverRequired | ErrPayloadRef | ErrFetch | ErrPayloadDigestMismatch
  | ErrPayloadPrivacyMismatch | ErrDecrypt | ErrContext.

Record PayloadRef := {
  RefArtifactDigest : string; RefMediaType : string; RefPrivacyClass : string; RefRole : string;
  RefSchemaVersion : Z }.

Record ResolvedPayload := { RPRef : PayloadRef; Plaintext : string; EnvelopeDigest : string }.

Definition trimmed (ref : PayloadRef) : PayloadRef :=
  Build_PayloadRef (TrimSpace (RefArtifactDigest ref)) (TrimSpace (RefMediaType ref))
    (TrimSpace (RefPrivacyClass ref)) (TrimSpace (RefRole ref)) (RefSchemaVersion ref).

Section Resolve.
Context `{Sha256}.

(** [FetchPayload(ctx, computerID, digest)] and [cipher.Decrypt(ctx, raw,
    computerID, eventID)], the latter with the privacy class of the metadata. *)
Variable reader : option (string -> string -> option string).
Variable decrypt : option (string -> string -> string -> option (string * string)).

Definition resolve_one (fetch : string -> string -> option string) (computerID eventID : string) (ref : PayloadRef)
    : res payload_error ResolvedPayload :=
  let ref := trimmed ref in
  refuse negb (isSHA256 (RefArtifactDigest ref)) || (RefMediaType ref == "") || (RefPrivacyClass ref == "")
         || (RefRole ref == "") || (RefSchemaVersion ref <? 1) with ErrPayloadRef ;;
  match fetch computerID (RefArtifactDigest ref) with
  | None => Err ErrFetch
  | Some raw =>
    refuse sha256_hex raw != RefArtifactDigest ref with ErrPayloadDigestMismatch ;;
    if RefPrivacyClass ref == "private" then
      match decrypt with
      | None => Err ErrPayloadPrivacyMismatch
      | Some decrypt =>
        match decrypt raw computerID eventID with
        | None => Err ErrDecrypt
        | Some (plaintext, class) =>
          refuse class != "private" with ErrPayloadPrivacyMismatch ;;
          Ok (Build_ResolvedPayload ref plaintext (RefArtifactDigest ref))
        end
      end
    else Ok (Build_ResolvedPayload ref raw (RefArtifactDigest ref))
  end.

Fixpoint resolve_all (fetch : string -> string -> option string) (computerID eventID : string) (refs : list PayloadRef)
    : res payload_error (list ResolvedPayload) :=
  match refs with
  | [] => Ok []
  | ref :: refs =>
    let? r := resolve_one fetch computerID eventID ref in
    let? rs := resolve_all fetch computerID eventID refs in
    Ok (r :: rs)
  end.

(** [expired] says whether [ctx.Err()] is not nil. *)
Definition ResolvePayloads (expired : bool) (computerID eventID : string) (refs : list PayloadRef)
    : res payload_error (list ResolvedPayload) :=
  refuse expired with ErrContext ;;
  let computerID := TrimSpace computerID in
  let eventID := TrimSpace eventID in
  refuse (computerID == "") || (eventID == "") with ErrPayloadIdentity ;;
  match refs with
  | [] => Ok []
  | _ => match reader with
         | None => Err ErrPayloadResolverRequired
         | Some fetch => resolve_all fetch computerID eventID refs
         end
  end.
End Resolve.

(** [MemoryArtifactReader], the test double. *)
Section Memory.
Context `{Sha256}.
Definition MemoryArtifactReader := gmap string string.
Definition Put (m : MemoryArtifactReader) (payload : string) : MemoryArtifactReader * string :=
  (<[sha256_hex payload := payload]> m, sha256_hex payload).
Definition FetchPayload (m : MemoryArtifactReader) (computerID artifactDigest : string) : option string :=
  m !! artifactDigest.
End Memory.
End ProjectionBatch.
