(* ===== verification/EventAppender.v ===== *)
(** * EventAppender: the sole writer of a computer's events (internal/computerevent/appender.go)

    [ComputerEventAppender] sequences the events of one computer: it binds a new
    event to the head of the platform's chain, pins its payloads and its bytes,
    prepares a row of the embedded projection, asks the platform to swap the
    head, verifies the receipt and finalizes the row. [RecoverPrepared] settles
    rows a crash left behind; [reconstruct] replays the platform's chain into a
    projection.

    The Go interfaces the appender is given ([HeadCAS], [ProjectionStore],
    [ArtifactPinner], ...) are the class [Deps]: operations on a world [W] that
    return a result or an error of type [E]. An interface the code asks for with
    a type assertion is an optional operation. The receiver's fields are the
    record [Appender], threaded together with the world; [mu] is left out because
    every operation is one step here. The clock is read with [dep_now] and
    [ctx.Err()] with [dep_expired]. *)
From S2P Require Import Prelude GoStrings Sha256 GoUuid GoTime GoJson CanonicalJson ComputerEvent EventReceipt ProjectionBatch.
Import ComputerEvent EventReceipt ProjectionBatch.

Module EventAppender.
Local Open Scope Z_scope.

Record PinResult := { PinArtifactDigest : string; PinReceipt : Receipt }.
Record DurableEvent := { D_Request : CASRequest; D_Receipt : Receipt }.

(** ** The appender *)

Record Appender := {
  A_computerID : string;
  A_livePayloads : gmap string string;
  A_replayProjection : bool;
  A_replayActive : bool;
  A_replaySeq : Z;
  A_replayCommittedSeq : Z;
  A_checkpointEvery : Z;
  A_checkpointInterval : Z;
}.

Definition NewComputerEventAppender (computerID : string) : option Appender :=
  if computerID == "" then None
  else Some (Build_Appender computerID ∅ false false 0 0 500 (60 * second)).

Definition with_livePayloads (a : Appender) (m : gmap string string) : Appender :=
  Build_Appender (A_computerID a) m (A_replayProjection a) (A_replayActive a) (A_replaySeq a)
    (A_replayCommittedSeq a) (A_checkpointEvery a) (A_checkpointInterval a).
Definition with_replay (a : Appender) (projection active : bool) (seq committed : Z) : Appender :=
  Build_Appender (A_computerID a) (A_livePayloads a) projection active seq committed
    (A_checkpointEvery a) (A_checkpointInterval a).

Definition SetReplayMode (a : Appender) (enabled : bool) : Appender :=
  with_replay a enabled (A_replayActive a) (A_replaySeq a) (A_replayCommittedSeq a).
Definition setReplayActive (a : Appender) (active : bool) : Appender :=
  with_replay a (A_replayProjection a) active (A_replaySeq a) (A_replayCommittedSeq a).
Definition setReplayProgress (a : Appender) (seq committedSeq : Z) : Appender :=
  with_replay a (A_replayProjection a) (A_replayActive a) seq
    (if A_replayCommittedSeq a <? committedSeq then committedSeq else A_replayCommittedSeq a).

Definition SetReplayCheckpointPolicy (a : Appender) (every interval : Z) : Appender :=
  Build_Appender (A_computerID a) (A_livePayloads a) (A_replayProjection a) (A_replayActive a) (A_replaySeq a)
    (A_replayCommittedSeq a) (if 0 <? every then every else A_checkpointEvery a)
    (if 0 <? interval then interval else A_checkpointInterval a).

Record ReplaySnapshot := { InProgress : bool; SnapshotSequence : Z; CommittedSequence : Z }.
Definition snapshot (a : Appender) : ReplaySnapshot :=
  Build_ReplaySnapshot (A_replayActive a) (A_replaySeq a) (A_replayCommittedSeq a).

(** ** The interfaces *)

Section Deps.
Context {W E : Type}.

Definition dep (A : Type) := W -> W * res E A.

Class Deps := {
  (** [HeadCAS], [ReceiptVerifier] *)
  cas_Head : string -> dep (option Head);
  cas_CompareAndSwap : CASRequest -> dep Receipt;
  verify_receipt : Receipt -> CASRequest -> res receipt_error unit;
  (** [ProjectionStore] and what the store may offer besides *)
  proj_Head : string -> dep (option Head);
  proj_Prepare : CASRequest -> dep unit;
  proj_Prepared : string -> dep (list CASRequest);
  proj_Finalize : string -> string -> Receipt -> dep unit;
  proj_DiscardPrepared : string -> string -> dep unit;
  proj_FinalizeBatch : option (string -> string -> Receipt -> option Batch -> dep unit);
  proj_FinalizeReplayBatch : option (string -> string -> Receipt -> option Batch -> dep unit);
  proj_DryRun : option (string -> Batch -> dep unit);
  proj_CommitReplay : option (dep unit);
  (** [ArtifactPinner] and the payload pinners; the private ones close over the cipher *)
  pin_Event : string -> string -> string -> dep PinResult;
  pin_NonPrivate : option (string -> string -> string -> string -> string -> dep PinResult);
  pin_PreparePrivate : option (string -> string -> string -> string -> dep string);
  pin_Private : string -> string -> string -> string -> dep PinResult;
  (** [SetPayloadResolver]: [ResolvePayloads] with the installed reader and cipher *)
  dep_resolve : option (string -> string -> list PayloadRef -> dep (list ResolvedPayload));
  (** [errors.Is] against the five payload errors of [ClassifyProjectionFailure] *)
  is_payload_error : E -> bool;
  dep_now : W -> W * Time;
  dep_expired : W -> W * bool;
}.
End Deps.
Arguments dep : clear implicits.
Arguments Deps : clear implicits.

(** [EventSource]; a source may offer pages. *)
Record EventSource (W E : Type) := {
  src_Events : string -> Z -> dep W E (list DurableEvent);
  src_EventsPage : option (string -> Z -> Z -> dep W E (list DurableEvent));
}.
Arguments src_Events {W E}.
Arguments src_EventsPage {W E}.

(** What [ClassifyProjectionFailure] wraps an error of a finalization with. *)
Inductive failure_class := PayloadSQLBeforeResolve | ProjectionPoison.

(** ** Errors, by the call that failed; [ErrFuel] is of the model alone: the
    bound on the number of pages of a replay was too small. *)
Inductive append_error (E : Type) :=
  | ErrDep (what : string) (e : E)
  | ErrBind (e : bind_error)
  | ErrCommitment (what : string) (e : canonical_error)
  | ErrWrongComputer | ErrCommitmentMismatch
  | ErrNeedsProjectionRepair
  | ErrReduce (e : reduce_error)
  | ErrBytes (e : event_error)
  | ErrPinDigest | ErrPinReceipt (e : receipt_error)
  | ErrVerify (e : receipt_error)
  | ErrFinalize (c : failure_class) (e : append_error E)
  | ErrNoNonPrivate | ErrNoPrivate | ErrPayloadSet | ErrPayloadMember | ErrPayloadCardinality
  | ErrDryRunDecode (e : batch_error)
  | ErrNoResolver | ErrPayloadCount | ErrBatch (e : batch_error) | ErrBatchIdentityMismatch | ErrBatchDigestMismatch
  | ErrCannotApplyBatches
  | ErrTargetRequired | ErrTargetNotReached | ErrReplayMismatch (seq : Z) | ErrExpired | ErrFuel.
Arguments ErrDep {E}. Arguments ErrBind {E}. Arguments ErrCommitment {E}. Arguments ErrWrongComputer {E}.
Arguments ErrCommitmentMismatch {E}. Arguments ErrNeedsProjectionRepair {E}. Arguments ErrReduce {E}.
Arguments ErrBytes {E}. Arguments ErrPinDigest {E}. Arguments ErrPinReceipt {E}. Arguments ErrVerify {E}.
Arguments ErrFinalize {E}. Arguments ErrNoNonPrivate {E}. Arguments ErrNoPrivate {E}. Arguments ErrPayloadSet {E}.
Arguments ErrPayloadMember {E}. Arguments ErrPayloadCardinality {E}. Arguments ErrDryRunDecode {E}.
Arguments ErrNoResolver {E}. Arguments ErrPayloadCount {E}. Arguments ErrBatch {E}.
Arguments ErrBatchIdentityMismatch {E}. Arguments ErrBatchDigestMismatch {E}. Arguments ErrCannotApplyBatches {E}.
Arguments ErrTargetRequired {E}. Arguments ErrTargetNotReached {E}. Arguments ErrReplayMismatch {E}. Arguments ErrExpired {E}. Arguments ErrFuel {E}.

(** [errors.Is(err, ErrNeedsProjectionRepair)] *)
Definition needs_repair {E} (e : append_error E) : bool :=
  match e with ErrNeedsProjectionRepair | ErrFinalize _ _ => true | _ => false end.

(** ** A state and error monad *)
Section Monad.
Context {W E : Type}.

Definition M (A : Type) := Appender * W -> (Appender * W) * res (append_error E) A.

Definition ret {A} (x : A) : M A := fun s => (s, Ok x).
Definition fail {A} (e : append_error E) : M A := fun s => (s, Err e).
Definition bind {A B} (m : M A) (k : A -> M B) : M B := fun s =>
  match m s with (s', Ok x) => k x s' | (s', Err e) => (s', Err e) end.
(** An external call; [what] is the text its error is wrapped with. *)
Definition call {A} (what : string) (d : dep W E A) : M A := fun s =>
  let '(w, r) := d s.2 in ((s.1, w), res_map_err (ErrDep what) r).
(** A call whose error is dropped. *)
Definition ignore {A} (d : dep W E A) : M unit := fun s => ((s.1, (d s.2).1), Ok tt).
Definition lift {F A} (wrap : F -> append_error E) (r : res F A) : M A := fun s => (s, res_map_err wrap r).
Definition read {A} (f : W -> W * A) : M A := fun s => let '(w, x) := f s.2 in ((s.1, w), Ok x).
Definition get : M Appender := fun s => (s, Ok s.1).
Definition modify (f : Appender -> Appender) : M unit := fun s => ((f s.1, s.2), Ok tt).
(** Run [m] and keep its error as a value. *)
Definition attempt {A} (m : M A) : M (res (append_error E) A) := fun s => let '(s', r) := m s in (s', Ok r).
End Monad.
Arguments M : clear implicits.

Notation "'let!' x ':=' m 'in' k" := (bind m (fun x => k))
  (at level 10, x pattern, m at level 100, k at level 200, format "'[v' 'let!'  x  ':='  m  'in' '/' k ']'") : go_scope.
Notation "'do!' m ';;' k" := (bind m (fun _ => k))
  (at level 10, m at level 99, k at level 200, format "'[v' 'do!'  m  ';;' '/' k ']'") : go_scope.
Notation "'guard!' b 'with' e ';;' k" := (if b then fail e else k)
  (at level 10, b at level 99, e at level 99, k at level 200, format "'[v' 'guard!'  b  'with'  e  ';;' '/' k ']'") : go_scope.

#[export] Instance Head_eq_dec : EqDecision Head.
Proof. solve_decision. Defined.

(** [sameHead]: pointers to heads, compared by what they point at. *)
Definition sameHead (left right : option Head) : bool := left == right.

Definition with_request (e : Event) (commitment : string) : Event := {|
  SchemaVersion := SchemaVersion e; EventID := EventID e; ComputerID := ComputerID e;
  Sequence := Sequence e; PreviousHead := PreviousHead e; Kind := Kind e; OccurredAt := OccurredAt e;
  IdempotencyKey := IdempotencyKey e; RequestCommitment := commitment;
  TrajectoryID := TrajectoryID e; ParentEventID := ParentEventID e;
  CapsuleID := CapsuleID e; ActorProfile := ActorProfile e;
  AuthorityRef := AuthorityRef e; ModelPolicyRefs := ModelPolicyRefs e;
  InputArtifactRefs := InputArtifactRefs e; OutputArtifactRefs := OutputArtifactRefs e;
  PayloadCommitment := PayloadCommitment e; PrivacyClass := PrivacyClass e;
  ProposedEffectRef := ProposedEffectRef e; DecisionRef := DecisionRef e;
  VerifierRefs := VerifierRefs e; EventReducerVersion := EventReducerVersion e;
  ExpectedDesiredEventHead := ExpectedDesiredEventHead e; ExpectedEffectiveEventHead := ExpectedEffectiveEventHead e;
  ExpectedPendingTransitionRef := ExpectedPendingTransitionRef e;
  ExpectedDesiredStateCommitment := ExpectedDesiredStateCommitment e;
  ExpectedEffectiveStateCommitment := ExpectedEffectiveStateCommitment e;
  RequireExpectedHead := RequireExpectedHead e;
  ResultingEffectiveCommitment := ResultingEffectiveCommitment e |}.

(** The event with its artifact references, payload commitment and proposed effect. *)
Definition with_artifacts (e : Event) (inputs outputs : list string) (payload effect : string) : Event := {|
  SchemaVersion := SchemaVersion e; EventID := EventID e; ComputerID := ComputerID e;
  Sequence := Sequence e; PreviousHead := PreviousHead e; Kind := Kind e; OccurredAt := OccurredAt e;
  IdempotencyKey := IdempotencyKey e; RequestCommitment := RequestCommitment e;
  TrajectoryID := TrajectoryID e; ParentEventID := ParentEventID e;
  CapsuleID := CapsuleID e; ActorProfile := ActorProfile e;
  AuthorityRef := AuthorityRef e; ModelPolicyRefs := ModelPolicyRefs e;
  InputArtifactRefs := inputs; OutputArtifactRefs := outputs;
  PayloadCommitment := payload; PrivacyClass := PrivacyClass e;
  ProposedEffectRef := effect; DecisionRef := DecisionRef e;
  VerifierRefs := VerifierRefs e; EventReducerVersion := EventReducerVersion e;
  ExpectedDesiredEventHead := ExpectedDesiredEventHead e; ExpectedEffectiveEventHead := ExpectedEffectiveEventHead e;
  ExpectedPendingTransitionRef := ExpectedPendingTransitionRef e;
  ExpectedDesiredStateCommitment := ExpectedDesiredStateCommitment e;
  ExpectedEffectiveStateCommitment := ExpectedEffectiveStateCommitment e;
  RequireExpectedHead := RequireExpectedHead e;
  ResultingEffectiveCommitment := ResultingEffectiveCommitment e |}.

Section Operations.
Context {W E : Type} `{Uuid, Sha256} {D : Deps W E}.
Abbreviation M := (M W E).

(** ** Finalizing a prepared event *)

Definition batch_refs (event : Event) : list PayloadRef :=
  let privacy := TrimSpace (PrivacyClass event) in
  [Build_PayloadRef (PayloadCommitment event) ProjectionBatchMediaType
     (if (privacy == "") || (privacy == "owner") then "public" else privacy) "projection_batch" 1].

(** The bytes of the batch an event names. *)
Definition batch_plaintext (event : Event) : M string :=
  let! a := get in
  match A_livePayloads a !! PayloadCommitment event with
  | Some plaintext => ret plaintext
  | None =>
    match dep_resolve with
    | None => fail ErrNoResolver
    | Some resolve =>
      let! resolved := call "resolve" (resolve (ComputerID event) (EventID event) (batch_refs event)) in
      match resolved with
      | [p] => ret (Plaintext p)
      | _ => fail ErrPayloadCount
      end
    end
  end.

Definition with_digest (b : Batch) (digest : string) : Batch :=
  Build_Batch (BatchVersion b) (BatchProjectorVersion b) (BatchComputerID b) (BatchEventID b) digest (BatchOps b).

Definition resolveProjectionBatch (event : Event) (digest : string) : M (option Batch) :=
  if Kind event != EventProjectionBatchRecorded then ret None
  else
    let! plaintext := batch_plaintext event in
    let! batch := lift ErrBatch (DecodeProjectionBatch plaintext) in
    guard! (BatchComputerID batch != ComputerID event) || (BatchEventID batch != EventID event)
      with ErrBatchIdentityMismatch ;;
    guard! (BatchEventDigest batch != "") && (BatchEventDigest batch != digest) with ErrBatchDigestMismatch ;;
    ret (Some (with_digest batch digest)).

Definition finalizeProjection (event : Event) (digest : string) (receipt : Receipt) : M unit :=
  let! batch := resolveProjectionBatch event digest in
  let! a := get in
  match (if A_replayProjection a then proj_FinalizeReplayBatch else None), proj_FinalizeBatch, batch with
  | Some apply, _, _ | None, Some apply, _ => call "finalize" (apply (A_computerID a) digest receipt batch)
  | None, None, Some _ => fail ErrCannotApplyBatches
  | None, None, None => call "finalize" (proj_Finalize (A_computerID a) digest receipt)
  end.

Definition ClassifyProjectionFailure (e : append_error E) : failure_class :=
  match e with
  | ErrNoResolver => PayloadSQLBeforeResolve
  | ErrDep _ e => if is_payload_error e then PayloadSQLBeforeResolve else ProjectionPoison
  | _ => ProjectionPoison
  end.

(** The finalization of a live append or of a recovery. *)
Definition finalize_or_repair (event : Event) (digest : string) (receipt : Receipt) : M unit :=
  let! r := attempt (finalizeProjection event digest receipt) in
  match r with
  | Ok _ => ret tt
  | Err e => fail (ErrFinalize (ClassifyProjectionFailure e) e)
  end.

(** ** Appending *)

Definition appendLocked (event : Event) (input : TransitionInput) (pins : list string) : M Receipt :=
  let! a := get in
  let cid := A_computerID a in
  guard! ComputerID event != cid with ErrWrongComputer ;;
  let! pinIntent := lift (ErrCommitment "pin intent") (ComputePinIntentCommitment event input) in
  let! commitment := lift (ErrCommitment "request") (ComputeRequestCommitment event input pinIntent pins) in
  guard! RequestCommitment event != commitment with ErrCommitmentMismatch ;;
  let! platformHead := call "resolve canonical head" (cas_Head cid) in
  let! embeddedHead := call "resolve embedded head" (proj_Head cid) in
  guard! negb (sameHead platformHead embeddedHead) with ErrNeedsProjectionRepair ;;
  let! next := lift ErrReduce (Reduce platformHead event input) in
  let! body := lift ErrBytes (ComputerEvent.CanonicalBytes event) in
  let! digest := lift ErrBytes (Digest event) in
  let! pin := call "pin event" (pin_Event cid body (RequestCommitment event)) in
  guard! PinArtifactDigest pin != digest with ErrPinDigest ;;
  let! pinReceipt := lift ErrPinReceipt (EventReceipt.CanonicalBytes (PinReceipt pin)) in
  let request := Build_CASRequest event digest (PinArtifactDigest pin) (sha256_hex pinReceipt) pins pinIntent input next in
  do! call "prepare" (proj_Prepare request) ;;
  let! swapped := attempt (call "head CAS" (cas_CompareAndSwap request)) in
  match swapped with
  | Err e => do! ignore (proj_DiscardPrepared cid digest) ;; fail e
  | Ok receipt =>
    do! lift ErrVerify (verify_receipt receipt request) ;;
    do! finalize_or_repair event digest receipt ;;
    ret receipt
  end.

Definition Append (event : Event) (input : TransitionInput) (pins : list string) : M Receipt :=
  appendLocked event input pins.

Definition bind_head (event : Event) : M Event :=
  let! a := get in
  let! head := call "resolve head" (cas_Head (A_computerID a)) in
  lift ErrBind (bindCurrentHead head event).

(** Commit to the intent of an event that is complete but for its request. *)
Definition pin_intent (event : Event) (input : TransitionInput) : M (Event * string) :=
  let event := with_request event ZeroHead in
  let! pinIntent := lift (ErrCommitment "new pin intent") (ComputePinIntentCommitment event input) in
  ret (event, pinIntent).

Definition append_with (event : Event) (input : TransitionInput) (pinIntent : string) (pins : list string) : M Receipt :=
  let! commitment := lift (ErrCommitment "new request") (ComputeRequestCommitment event input pinIntent pins) in
  appendLocked (with_request event commitment) input pins.

Definition AppendNew (event : Event) (input : TransitionInput) (pins : list string) : M Receipt :=
  let! event := bind_head event in
  let! (event, pinIntent) := pin_intent event input in
  append_with event input pinIntent pins.

(** The event names a payload as its output, its commitment and, unless it has
    one, its proposed effect. *)
Definition name_payload (event : Event) (digest : string) : Event :=
  with_artifacts event (InputArtifactRefs event) (OutputArtifactRefs event ++ [ArtifactRef_String digest]) digest
    (if ProposedEffectRef event == "" then digest else ProposedEffectRef event).

Definition pinned_receipt_digest (pin : PinResult) (digest : string) : M string :=
  guard! PinArtifactDigest pin != digest with ErrPinDigest ;;
  let! bytes := lift ErrPinReceipt (EventReceipt.CanonicalBytes (PinReceipt pin)) in
  ret (sha256_hex bytes).

Definition dry_run (payload mediaType : string) : M unit :=
  if TrimSpace mediaType == ProjectionBatchMediaType then
    match proj_DryRun with
    | Some runner =>
      let! a := get in
      let! batch := lift ErrDryRunDecode (DecodeProjectionBatch payload) in
      call "projection dry-run" (runner (A_computerID a) batch)
    | None => ret tt
    end
  else ret tt.

Definition AppendNewPayload (event : Event) (input : TransitionInput) (payload mediaType privacyClass : string)
    : M (Receipt * string) :=
  match pin_NonPrivate with
  | None => fail ErrNoNonPrivate
  | Some pinner =>
    let! a := get in
    let! event := bind_head event in
    let digest := sha256_hex payload in
    let! (event, pinIntent) := pin_intent (name_payload event digest) input in
    do! dry_run payload mediaType ;;
    let! pin := call "pin payload" (pinner (A_computerID a) payload mediaType privacyClass pinIntent) in
    let! pinDigest := pinned_receipt_digest pin digest in
    let! commitment := lift (ErrCommitment "payload request")
                         (ComputeRequestCommitment event input pinIntent [pinDigest]) in
    do! modify (fun a => with_livePayloads a (<[digest := payload]> (A_livePayloads a))) ;;
    let! receipt := appendLocked (with_request event commitment) input [pinDigest] in
    ret (receipt, digest)
  end.

(** [hasCipher] says whether the caller passed a cipher. *)
Definition AppendNewPrivatePayload (event : Event) (input : TransitionInput) (plaintext mediaType : string)
    (hasCipher : bool) : M (Receipt * string) :=
  match pin_PreparePrivate, hasCipher with
  | Some prepare, true =>
    let! a := get in
    let! event := bind_head event in
    let! envelope := call "encrypt private payload" (prepare (A_computerID a) (EventID event) mediaType plaintext) in
    let digest := sha256_hex envelope in
    let! (event, pinIntent) := pin_intent (name_payload event digest) input in
    let! pin := call "pin private payload" (pin_Private (A_computerID a) (EventID event) envelope pinIntent) in
    let! pinDigest := pinned_receipt_digest pin digest in
    let! receipt := append_with event input pinIntent [pinDigest] in
    ret (receipt, digest)
  | _, _ => fail ErrNoPrivate
  end.

(** *** Sets of payloads *)

Record EventPayload := {
  EP_Content : string; EP_MediaType : string; EP_PrivacyClass : string; EP_Direction : string; EP_Private : bool }.
Definition EventPayloadInput : string := "input".
Definition EventPayloadOutput : string := "output".

Record preparedPayload := { PP_Payload : EventPayload; PP_stored : string; PP_digest : string }.

Definition store_payload (hasCipher : bool) (event : Event) (payload : EventPayload) : M string :=
  if EP_Private payload then
    match pin_PreparePrivate, hasCipher with
    | Some prepare, true =>
      let! a := get in
      call "encrypt payload set member" (prepare (A_computerID a) (EventID event) (EP_MediaType payload) (EP_Content payload))
    | _, _ => fail ErrNoPrivate
    end
  else ret (EP_Content payload).

Definition name_member (event : Event) (direction digest : string) : Event :=
  if direction == EventPayloadInput then
    with_artifacts event (InputArtifactRefs event ++ [ArtifactRef_String digest]) (OutputArtifactRefs event)
      (PayloadCommitment event) (ProposedEffectRef event)
  else
    with_artifacts event (InputArtifactRefs event) (OutputArtifactRefs event ++ [ArtifactRef_String digest])
      digest (ProposedEffectRef event).

(** One direction of the loop over the set: the members of that direction, in
    order, with the event they are named in and the count of outputs. *)
Fixpoint prepare_direction (hasCipher : bool) (direction : string) (payloads : list EventPayload)
    (acc : Event * list preparedPayload * nat) : M (Event * list preparedPayload * nat) :=
  match payloads with
  | [] => ret acc
  | payload :: payloads =>
    if EP_Direction payload != direction then prepare_direction hasCipher direction payloads acc
    else
      guard! (EP_Content payload == "") || (EP_MediaType payload == "") with ErrPayloadMember ;;
      let '(event, prepared, outputs) := acc in
      let! stored := store_payload hasCipher event payload in
      let digest := sha256_hex stored in
      prepare_direction hasCipher direction payloads
        (name_member event direction digest, prepared ++ [Build_preparedPayload payload stored digest],
         if direction == EventPayloadInput then outputs else S outputs)
  end.

Definition pin_member (event : Event) (pinIntent : string) (p : preparedPayload) : M string :=
  let! a := get in
  let! pin :=
    if EP_Private (PP_Payload p) then
      call "pin payload set member" (pin_Private (A_computerID a) (EventID event) (PP_stored p) pinIntent)
    else match pin_NonPrivate with
         | None => fail ErrNoNonPrivate
         | Some pinner => call "pin payload set member"
             (pinner (A_computerID a) (PP_stored p) (EP_MediaType (PP_Payload p)) (EP_PrivacyClass (PP_Payload p)) pinIntent)
         end in
  pinned_receipt_digest pin (PP_digest p).

Fixpoint pin_members (event : Event) (pinIntent : string) (ps : list preparedPayload) : M (list string) :=
  match ps with
  | [] => ret []
  | p :: ps =>
    let! d := pin_member event pinIntent p in
    let! ds := pin_members event pinIntent ps in
    ret (d :: ds)
  end.

Definition AppendNewPayloadSet (event : Event) (input : TransitionInput) (payloads : list EventPayload)
    (hasCipher : bool) : M (Receipt * list string) :=
  guard! Nat.eqb (length payloads) 0 with ErrPayloadSet ;;
  let! event := bind_head event in
  let! acc := prepare_direction hasCipher EventPayloadInput payloads (event, [], 0%nat) in
  let! (event, prepared, outputs) := prepare_direction hasCipher EventPayloadOutput payloads acc in
  guard! negb (Nat.eqb (length prepared) (length payloads)) || Nat.ltb 1 outputs with ErrPayloadCardinality ;;
  let! (event, pinIntent) := pin_intent event input in
  let! digests := pin_members event pinIntent prepared in
  let! receipt := append_with event input pinIntent digests in
  ret (receipt, PP_digest <$> prepared).
End Operations.

(** ** Recovery and replay *)
Section Replay.
Context {W E : Type} `{Uuid, Sha256} {D : Deps W E}.
Abbreviation M := (M W E).

(** One row of [RecoverPrepared] in live mode. *)
Definition recover_row (request : CASRequest) : M unit :=
  let! a := get in
  let cid := A_computerID a in
  let event := R_Event request in
  let! platformHead := call "recovery head" (cas_Head cid) in
  match platformHead with
  | Some h =>
    if (HeadSequence h =? Sequence event) && (CanonicalEventHead h == R_EventDigest request) then
      let! receipt := call "recover durable receipt" (cas_CompareAndSwap request) in
      do! lift ErrVerify (verify_receipt receipt request) ;;
      finalize_or_repair event (R_EventDigest request) receipt
    else if (wrap_u64 (HeadSequence h + 1) =? Sequence event) && (CanonicalEventHead h == PreviousHead event) then
      call "discard uncommitted projection" (proj_DiscardPrepared cid (R_EventDigest request))
    else fail ErrNeedsProjectionRepair
  | None =>
    if (Sequence event =? 1) && (PreviousHead event == ZeroHead) then
      call "discard uncommitted projection" (proj_DiscardPrepared cid (R_EventDigest request))
    else fail ErrNeedsProjectionRepair
  end.

Fixpoint recover_rows (rows : list CASRequest) : M unit :=
  match rows with
  | [] => ret tt
  | request :: rows =>
    let! a := get in
    do! (if A_replayProjection a
         then call "discard replay prepared projection" (proj_DiscardPrepared (A_computerID a) (R_EventDigest request))
         else recover_row request) ;;
    recover_rows rows
  end.

Definition RecoverPrepared : M unit :=
  let! a := get in
  let! rows := call "list prepared projections" (proj_Prepared (A_computerID a)) in
  recover_rows rows.

Definition commitReplay : M unit :=
  let! a := get in
  match (if A_replayProjection a then proj_CommitReplay else None) with
  | None => ret tt
  | Some commit =>
    do! call "commit" commit ;;
    modify (fun a => with_replay a (A_replayProjection a) (A_replayActive a) (A_replaySeq a)
                       (Z.max (A_replaySeq a) (A_replayCommittedSeq a)))
  end.

(** The variables of [reconstruct] its closures share. *)
Record cursor := {
  c_current : option Head;
  c_after : Z;
  c_sinceCommit : Z;
  c_lastCheckpoint : Time;
}.

(** [apply(record)] *)
Definition apply_record (c : cursor) (record : DurableEvent) : M cursor :=
  let request := D_Request record in
  let! next := lift ErrReduce (Reduce (c_current c) (R_Event request) (R_Input request)) in
  guard! next != R_Next request with ErrReplayMismatch (Sequence (R_Event request)) ;;
  do! lift ErrVerify (verify_receipt (D_Receipt record) request) ;;
  do! call "replay prepare" (proj_Prepare request) ;;
  do! finalizeProjection (R_Event request) (R_EventDigest request) (D_Receipt record) ;;
  do! modify (fun a => setReplayProgress a (Sequence (R_Event request)) (A_replayCommittedSeq a)) ;;
  ret (Build_cursor (Some next) (c_after c) (c_sinceCommit c) (c_lastCheckpoint c)).

(** [checkpoint(seq)] *)
Definition checkpoint (c : cursor) (seq : Z) : M cursor :=
  let! a := get in
  if negb (A_replayProjection a) then
    do! modify (fun a => setReplayProgress a seq seq) ;; ret c
  else
    let since := c_sinceCommit c + 1 in
    let! now := read dep_now in
    let due := (A_checkpointEvery a <=? since) || IsZero (c_lastCheckpoint c)
               || (A_checkpointInterval a <=? GoTime.Sub now (c_lastCheckpoint c)) in
    if due then
      do! commitReplay ;;
      let! now := read dep_now in
      do! modify (fun a => setReplayProgress a seq seq) ;;
      ret (Build_cursor (c_current c) (c_after c) 0 now)
    else
      do! modify (fun a => setReplayProgress a seq (A_replayCommittedSeq a)) ;;
      ret (Build_cursor (c_current c) (c_after c) since (c_lastCheckpoint c)).

(** What a record leads to: go on, the target was reached, or the context ended. *)
Inductive outcome := Continue (c : cursor) | Reached.

Definition reached (target : string) (c : cursor) : bool :=
  (target != "") && match c_current c with Some h => CanonicalEventHead h == target | None => false end.

(** The body of the loop over the records of a page. *)
Definition replay_record (paged : bool) (target : string) (c : cursor) (record : DurableEvent) : M outcome :=
  let seq := Sequence (R_Event (D_Request record)) in
  let! c := apply_record c record in
  let c := if paged then Build_cursor (c_current c) seq (c_sinceCommit c) (c_lastCheckpoint c) else c in
  let! c := checkpoint c seq in
  if reached target c then
    do! commitReplay ;;
    do! (if paged then modify (fun a => setReplayProgress a seq seq) else ret tt) ;;
    ret Reached
  else
    let! expired := read dep_expired in
    if expired then
      do! commitReplay ;;
      do! modify (fun a => setReplayProgress a seq seq) ;;
      fail ErrExpired
    else ret (Continue c).

Fixpoint replay_records (paged : bool) (target : string) (c : cursor) (records : list DurableEvent) : M outcome :=
  match records with
  | [] => ret (Continue c)
  | record :: records =>
    let! o := replay_record paged target c record in
    match o with
    | Reached => ret Reached
    | Continue c => replay_records paged target c records
    end
  end.

Definition EventReplayPageSize : Z := 1024.

(** The loop over pages; [fuel] bounds their number. *)
Fixpoint replay_pages (fuel : nat) (fetch : string -> Z -> Z -> dep W E (list DurableEvent)) (target : string)
    (c : cursor) : M outcome :=
  match fuel with
  | O => fail ErrFuel
  | S fuel =>
    let! a := get in
    let! page := call "fetch durable chain" (fetch (A_computerID a) (c_after c) EventReplayPageSize) in
    match page with
    | [] => ret (Continue c)
    | _ =>
      let! o := replay_records true target c page in
      match o with
      | Reached => ret Reached
      | Continue c =>
        if (Z.of_nat (length page) <? EventReplayPageSize) || (c_after c =? 2 ^ 64 - 1) then ret (Continue c)
        else replay_pages fuel fetch target c
      end
    end
  end.

Definition replay_source (fuel : nat) (source : EventSource W E) (target : string) (c : cursor) : M outcome :=
  match src_EventsPage source with
  | Some fetch => replay_pages fuel fetch target c
  | None =>
    let! a := get in
    let! records := call "fetch durable chain" (src_Events source (A_computerID a) (c_after c)) in
    replay_records false target c records
  end.

(** The end of a replay without a target: the projection has the platform's head. *)
Definition settle_replay : M unit :=
  let! a := get in
  let! platformHead := call "reconstruction canonical head" (cas_Head (A_computerID a)) in
  let! finalLocal := call "reconstruction final local head" (proj_Head (A_computerID a)) in
  guard! negb (sameHead platformHead finalLocal) with ErrNeedsProjectionRepair ;;
  commitReplay.

Definition reconstruct_body (fuel : nat) (source : EventSource W E) (target : string) : M unit :=
  do! RecoverPrepared ;;
  let! a := get in
  let! localHead := call "reconstruction local head" (proj_Head (A_computerID a)) in
  let at_target := match localHead with Some h => CanonicalEventHead h == target | None => false end in
  if (target != "") && at_target then
    match localHead with
    | Some h => if A_replayProjection a
                then modify (fun a => setReplayProgress a (HeadSequence h) (HeadSequence h)) else ret tt
    | None => ret tt
    end
  else
    let after := match localHead with Some h => HeadSequence h | None => 0 end in
    let! o := replay_source fuel source target (Build_cursor localHead after 0 0) in
    match o with
    | Reached => ret tt
    | Continue _ => guard! target != "" with ErrTargetNotReached ;; settle_replay
    end.

(** [reconstruct]: [defer a.setReplayActive(false)] runs on every way out. *)
Definition reconstruct (fuel : nat) (source : EventSource W E) (target : string) : M unit :=
  let! a := get in
  if A_replayProjection a then
    do! modify (fun a => setReplayActive a true) ;;
    let! r := attempt (reconstruct_body fuel source target) in
    do! modify (fun a => setReplayActive a false) ;;
    match r with Ok _ => ret tt | Err e => fail e end
  else reconstruct_body fuel source target.

Definition Reconstruct (fuel : nat) (source : EventSource W E) : M unit := reconstruct fuel source "".

Definition ReconstructThrough (fuel : nat) (source : EventSource W E) (targetHead : string) : M unit :=
  let target := TrimSpace targetHead in
  guard! negb (isSHA256 target) with ErrTargetRequired ;;
  reconstruct fuel source target.

(** The appender [replayInto] makes: the cadence of the checkpoints is left zero. *)
Definition dryRun (a : Appender) : Appender := Build_Appender (A_computerID a) ∅ true false 0 0 0 0.

(** [replayInto], with [D] the dependencies in which the given projection stands
    for the appender's; the appender itself is not touched. *)
Definition replayInto (fuel : nat) (source : EventSource W E) (target : string) : M unit := fun s =>
  let '((_, w), r) := (if target == "" then Reconstruct fuel source else ReconstructThrough fuel source target)
                        (dryRun s.1, s.2) in
  ((s.1, w), r).

Definition ReconstructInto (fuel : nat) (source : EventSource W E) : M unit := replayInto fuel source "".

Definition ReconstructThroughTarget (fuel : nat) (source : EventSource W E) (targetHead : string) : M unit :=
  let target := TrimSpace targetHead in
  guard! negb (isSHA256 target) with ErrTargetRequired ;;
  replayInto fuel source target.
End Replay.
End EventAppender.
