(* ===== verification/GoSql.v ===== *)
(** * GoSql: statements and transactions of database/sql

    A statement is a step on the tables [T] that the database may refuse. Which
    statements fail is a schedule over a counter of statements: a statement is
    carried out, or fails without effect, or takes effect and its answer is lost.
    A transaction runs on a copy of the tables; what it did is there when its
    commit took effect, and nothing of it is there otherwise. [E] is the error
    type of the component, [sql] the error of a statement that failed. *)
From S2P Require Import Prelude.

(** What becomes of one statement. *)
Inductive fault := Sound | NoEffect | AnswerLost.

(** The fate of the n-th statement or message of a run. *)
Class Faults := fate : nat -> fault.

Section Statements.
Context {T E : Type} `{Faults} (sql : E).

Definition Db (A : Type) := T * nat -> (T * nat) * res E A.

Definition db_ret {A} (x : A) : Db A := fun s => (s, Ok x).
Definition db_fail {A} (e : E) : Db A := fun s => (s, Err e).
Definition db_bind {A B} (m : Db A) (k : A -> Db B) : Db B := fun s =>
  match m s with (s', Ok x) => k x s' | (s', Err e) => (s', Err e) end.
(** A computation of the program itself. *)
Definition db_lift {F A} (wrap : F -> E) (r : res F A) : Db A := fun s => (s, res_map_err wrap r).

(** A query; [f] reads the tables. *)
Definition query {A} (f : T -> A) : Db A := fun '(t, n) =>
  ((t, S n), match fate n with Sound => Ok (f t) | _ => Err sql end).

(** A statement that writes; [None] when a constraint refuses it. *)
Definition exec {A} (f : T -> option (T * A)) : Db A := fun '(t, n) =>
  match f t, fate n with
  | Some (t', x), Sound => ((t', S n), Ok x)
  | Some (t', x), AnswerLost => ((t', S n), Err sql)
  | _, _ => ((t, S n), Err sql)
  end.

(** How the body of a transaction ends: it returns, and the deferred rollback
    undoes what it did, or it commits and goes on. *)
Inductive ending (A : Type) := Rollback (x : A) | Commit (x : A).
Arguments Rollback {A}. Arguments Commit {A}.

Definition transaction {A} (body : Db (ending A)) : Db A := fun '(t, n) =>
  match fate n with
  | Sound =>
    match body (t, S n) with
    | ((_, n'), Err e) => ((t, n'), Err e)
    | ((_, n'), Ok (Rollback x)) => ((t, n'), Ok x)
    | ((t', n'), Ok (Commit x)) =>
      match fate n' with
      | Sound => ((t', S n'), Ok x)
      | NoEffect => ((t, S n'), Err sql)
      | AnswerLost => ((t', S n'), Err sql)
      end
    end
  | _ => ((t, S n), Err sql)
  end.
End Statements.
Arguments Rollback {A}. Arguments Commit {A}.
Arguments Db : clear implicits.

Notation "'let$' x ':=' m 'in' k" := (db_bind m (fun x => k))
  (at level 10, x pattern, m at level 100, k at level 200, format "'[v' 'let$'  x  ':='  m  'in' '/' k ']'") : go_scope.
Notation "'do$' m ';;' k" := (db_bind m (fun _ => k))
  (at level 10, m at level 99, k at level 200, format "'[v' 'do$'  m  ';;' '/' k ']'") : go_scope.
Notation "'guard$' b 'with' e ';;' k" := (if b then db_fail e else k)
  (at level 10, b at level 99, e at level 99, k at level 200, format "'[v' 'guard$'  b  'with'  e  ';;' '/' k ']'") : go_scope.

(** [nullableString]: an empty text is stored as NULL; [COALESCE(column, '')]. *)
Definition nullable (s : string) : option string := if s == "" then None else Some s.
Definition coalesce (c : option string) : string := default "" c.

Lemma coalesce_nullable s : coalesce (nullable s) = s.
Proof. unfold nullable. by case_bool_decide. Qed.

(** ** Weakest preconditions

    [wp m t Q X]: from tables [t], whatever statements fail, [m] returns with [Q]
    of the value and the tables, or fails with [X] of the tables. *)
Section Wp.
Context {T E : Type} `{Faults} (sql : E).

Definition wp {A} (m : Db T E A) (t : T) (Q : A -> T -> Prop) (X : T -> Prop) : Prop :=
  forall n, match m (t, n) with ((t', _), Ok x) => Q x t' | ((t', _), Err _) => X t' end.

Lemma wp_ret {A} (x : A) t (Q : A -> T -> Prop) X : Q x t -> wp (db_ret x) t Q X.
Proof. by intros HQ n. Qed.

Lemma wp_fail {A} e t (Q : A -> T -> Prop) X : X t -> wp (db_fail e) t Q X.
Proof. by intros HX n. Qed.

Lemma wp_bind {A B} (m : Db T E A) (k : A -> Db T E B) t Q X :
  wp m t (fun x t' => wp (k x) t' Q X) X -> wp (db_bind m k) t Q X.
Proof.
  intros Hm n. unfold db_bind. specialize (Hm n). destruct (m (t, n)) as [[t' n'] [x|e]]; [apply Hm|exact Hm].
Qed.

Lemma wp_conseq {A} (m : Db T E A) t (Q Q' : A -> T -> Prop) (X X' : T -> Prop) :
  wp m t Q X -> (forall x t', Q x t' -> Q' x t') -> (forall t', X t' -> X' t') -> wp m t Q' X'.
Proof. intros Hm HQ HX n. specialize (Hm n). destruct (m (t, n)) as [[t' n'] [x|e]]; auto. Qed.

Lemma wp_lift {F A} (wrap : F -> E) (r : res F A) t (Q : A -> T -> Prop) X :
  (forall x, r = Ok x -> Q x t) -> X t -> wp (db_lift wrap r) t Q X.
Proof. intros HQ HX n. unfold db_lift. destruct r as [x|e]; cbn; [by apply HQ|done]. Qed.

Lemma wp_query {A} (f : T -> A) t (Q : A -> T -> Prop) X : Q (f t) t -> X t -> wp (query sql f) t Q X.
Proof. intros HQ HX n. unfold query. by destruct (fate n). Qed.

Lemma wp_exec {A} (f : T -> option (T * A)) t (Q : A -> T -> Prop) X :
  (forall t' x, f t = Some (t', x) -> Q x t' /\ X t') -> X t -> wp (exec sql f) t Q X.
Proof.
  intros HQ HX n. unfold exec. destruct (f t) as [[t' x]|]; [|by destruct (fate n)].
  destruct (HQ t' x eq_refl). by destruct (fate n).
Qed.

Lemma wp_transaction {A} (body : Db T E (ending A)) t (Q : A -> T -> Prop) X :
  wp body t (fun e t' => match e with Rollback x => Q x t | Commit x => Q x t' /\ X t' end) (fun _ => True) ->
  X t -> wp (transaction sql body) t Q X.
Proof.
  intros Hb HX n. unfold transaction. destruct (fate n); [|done..]. specialize (Hb (S n)).
  destruct (body (t, S n)) as [[t' n'] [[x|x]|e]]; [done| |done]. destruct Hb. by destruct (fate n').
Qed.

Lemma wp_if {A} (b : bool) (m1 m2 : Db T E A) t Q X :
  (b = true -> wp m1 t Q X) -> (b = false -> wp m2 t Q X) -> wp (if b then m1 else m2) t Q X.
Proof. destruct b; auto. Qed.

(** A run, seen from its end. *)
Lemma wp_run {A} (m : Db T E A) t n t' n' r Q X :
  wp m t Q X -> m (t, n) = ((t', n'), r) -> match r with Ok x => Q x t' | Err _ => X t' end.
Proof. intros Hm Hr. specialize (Hm n). rewrite Hr in Hm. by destruct r. Qed.
End Wp.

(** ** Runs without faults

    [returns m t Q]: from tables [t], when every statement from here on is carried
    out, [m] returns with [Q] of the value and the tables. *)
Section Returns.
Context {T E : Type} `{Faults} (sql : E).

Definition sound_from (n : nat) : Prop := forall m, (n <= m)%nat -> fate m = Sound.

Lemma sound_later n n' : sound_from n -> (n <= n')%nat -> sound_from n'.
Proof. intros Hs Hn m Hm. apply Hs. lia. Qed.

Definition returns {A} (m : Db T E A) (t : T) (Q : A -> T -> Prop) : Prop :=
  forall n, sound_from n -> exists t' n' x, (n <= n')%nat /\ m (t, n) = ((t', n'), Ok x) /\ Q x t'.

Lemma returns_ret {A} (x : A) t (Q : A -> T -> Prop) : Q x t -> returns (db_ret x) t Q.
Proof. intros HQ n _. by exists t, n, x. Qed.

Lemma returns_bind {A B} (m : Db T E A) (k : A -> Db T E B) t Q :
  returns m t (fun x t' => returns (k x) t' Q) -> returns (db_bind m k) t Q.
Proof.
  intros Hm n Hn. destruct (Hm n Hn) as (t1 & n1 & x & Hn1 & E1 & Hk).
  destruct (Hk n1 (sound_later _ _ Hn Hn1)) as (t2 & n2 & y & Hn2 & E2 & HQ). exists t2, n2, y.
  unfold db_bind. rewrite E1. split_and!; [lia|done|done].
Qed.

Lemma returns_conseq {A} (m : Db T E A) t (Q Q' : A -> T -> Prop) :
  returns m t Q -> (forall x t', Q x t' -> Q' x t') -> returns m t Q'.
Proof. intros Hm HQ n Hn. destruct (Hm n Hn) as (t' & n' & x & Hn' & Er & Hx). exists t', n', x. auto. Qed.

Lemma returns_lift {F A} (wrap : F -> E) (r : res F A) x t (Q : A -> T -> Prop) :
  r = Ok x -> Q x t -> returns (db_lift wrap r) t Q.
Proof. intros -> HQ n _. by exists t, n, x. Qed.

Lemma returns_query {A} (f : T -> A) t (Q : A -> T -> Prop) : Q (f t) t -> returns (query sql f) t Q.
Proof. intros HQ n Hn. exists t, (S n), (f t). unfold query. rewrite Hn by done. auto. Qed.

Lemma returns_exec {A} (f : T -> option (T * A)) t t' x (Q : A -> T -> Prop) :
  f t = Some (t', x) -> Q x t' -> returns (exec sql f) t Q.
Proof. intros Hf HQ n Hn. exists t', (S n), x. unfold exec. rewrite Hf, Hn by done. auto. Qed.

Lemma returns_transaction {A} (body : Db T E (ending A)) t (Q : A -> T -> Prop) :
  returns body t (fun e t' => match e with Rollback x => Q x t | Commit x => Q x t' end) ->
  returns (transaction sql body) t Q.
Proof.
  intros Hb n Hn. destruct (Hb (S n)) as (t1 & n1 & e & Hn1 & E1 & HQ); [by apply (sound_later n); [|lia]|].
  unfold transaction. rewrite Hn, E1 by done. destruct e as [x|x].
  - exists t, n1, x. split_and!; [lia|done|done].
  - exists t1, (S n1), x. rewrite Hn by lia. split_and!; [lia|done|done].
Qed.

(** What holds of every run holds of the one that returns. *)
Lemma returns_wp {A} (m : Db T E A) t Q Q' X : returns m t Q -> wp m t Q' X -> returns m t (fun x t' => Q x t' /\ Q' x t').
Proof.
  intros Hr Hw n Hn. destruct (Hr n Hn) as (t' & n' & x & Hn' & Er & HQ). exists t', n', x.
  specialize (Hw n). rewrite Er in Hw. auto.
Qed.
End Returns.
