(* ===== verification/EventStore.v ===== *)
(** * EventStore: the event projection embedded in a computer (internal/store/computer_events.go)

    The store keeps an index of events and one head per computer. A row of the
    index is prepared before the platform is asked to append, and finalized once
    the platform's receipt is there; finalizing moves the head, in the same
    transaction as the projection of the event's batch. [projectBatch], which
    writes the tables of the runtime (projection_*.go), is a parameter: a function
    of the tables [P] it writes. Times of rows are left out; no statement reads
    them. *)
From S2P Require Import Prelude GoStrings Sha256 GoUuid GoSql GoJson GoDecode CanonicalJson JsonRoundTrip ComputerEvent EventReceipt EventDecode ProjectionBatch.
Import ComputerEvent EventReceipt EventDecode ProjectionBatch.

Module EventStore.
Local Open Scope Z_scope.

(** A row of [computer_event_index]. *)
Record IndexRow := {
  ix_digest : string;
  ix_computer : string;
  ix_sequence : Z;
  ix_previous : string;
  ix_kind : string;
  ix_event : string;
  ix_artifact : string;
  ix_pin : string;
  ix_pins : string;
  ix_commitment : string;
  ix_key : string;
  ix_status : string;
  ix_desired : string;
  ix_effective : string;
  ix_pending : option string;
  ix_desiredCommitment : string;
  ix_effectiveCommitment : string;
  ix_reducer : Z;
  ix_epoch : Z;
  ix_target : option string;
  ix_restored : bool;
  ix_receipt : option (string * string);
}.

Inductive store_error (X : Type) :=
  | ErrSql | ErrDigest | ErrEventBytes (e : event_error) | ErrIdempotency | ErrStatus (status : string)
  | ErrReceiptBinds | ErrReceiptBytes (e : receipt_error) | ErrNotPrepared | ErrBatchRequired | ErrBatchUnexpected
  | ErrBatchInvalid (e : batch_error) | ErrBatchIdentity | ErrProjectionMismatch | ErrFinalizeLost
  | ErrProject (e : X) | ErrDecodeEvent | ErrDecodePins | ErrPinIntent (e : canonical_error)
  | ErrNotFinalized (status : string) | ErrReceiptUnavailable | ErrDecodeReceipt (e : receipt_error).
Arguments ErrSql {X}. Arguments ErrDigest {X}. Arguments ErrEventBytes {X}. Arguments ErrIdempotency {X}.
Arguments ErrStatus {X}. Arguments ErrReceiptBinds {X}. Arguments ErrReceiptBytes {X}. Arguments ErrNotPrepared {X}.
Arguments ErrBatchRequired {X}. Arguments ErrBatchUnexpected {X}. Arguments ErrBatchInvalid {X}.
Arguments ErrBatchIdentity {X}. Arguments ErrProjectionMismatch {X}. Arguments ErrFinalizeLost {X}. Arguments ErrProject {X}.
Arguments ErrDecodeEvent {X}. Arguments ErrDecodePins {X}. Arguments ErrPinIntent {X}. Arguments ErrNotFinalized {X}.
Arguments ErrReceiptUnavailable {X}. Arguments ErrDecodeReceipt {X}.

(** The projections of the runtime: [projectBatch] and [projectBatchForReplay]. *)
Class Projector (P X : Type) := {
  projectBatch : Batch -> P -> res X P;
  projectBatchForReplay : Batch -> P -> res X P;
}.

Record Store (P : Type) := {
  st_index : list IndexRow;
  st_heads : gmap string Head;
  st_projection : P;
  doltHistoryDirty : bool;
  finalizeSinceCheckpoint : Z;
  doltCheckpointEvery : Z;
}.
Arguments st_index {P}. Arguments st_heads {P}. Arguments st_projection {P}. Arguments doltHistoryDirty {P}.
Arguments finalizeSinceCheckpoint {P}. Arguments doltCheckpointEvery {P}.

Definition defaultFinalizeCheckpointEvery : Z := 100.

Section Operations.
Context {P X : Type} `{Uuid, Sha256, Projector P X, Faults}.
Abbreviation error := (store_error X).
Abbreviation Db := (Db (Store P) error).
Abbreviation query := (query (ErrSql : error)).
Abbreviation exec := (exec (ErrSql : error)).

Definition with_index (s : Store P) (l : list IndexRow) : Store P :=
  Build_Store P l (st_heads s) (st_projection s) (doltHistoryDirty s) (finalizeSinceCheckpoint s) (doltCheckpointEvery s).
Definition with_heads (s : Store P) (m : gmap string Head) : Store P :=
  Build_Store P (st_index s) m (st_projection s) (doltHistoryDirty s) (finalizeSinceCheckpoint s) (doltCheckpointEvery s).
Definition with_projection (s : Store P) (p : P) : Store P :=
  Build_Store P (st_index s) (st_heads s) p (doltHistoryDirty s) (finalizeSinceCheckpoint s) (doltCheckpointEvery s).
Definition with_memory (s : Store P) (dirty : bool) (since : Z) : Store P :=
  Build_Store P (st_index s) (st_heads s) (st_projection s) dirty since (doltCheckpointEvery s).

(** Fields of the store in memory. *)
Definition update (f : Store P -> Store P) : Db unit := fun '(s, n) => ((f s, n), Ok tt).
Definition peek {A} (f : Store P -> A) : Db A := fun '(s, n) => ((s, n), Ok (f s)).

Definition markDoltHistoryDirty : Db unit := update (fun s => with_memory s true (finalizeSinceCheckpoint s)).

(** The error "nothing to commit" counts as a commit. *)
Definition commitDoltCheckpoint : Db unit :=
  let$ dirty := peek doltHistoryDirty in
  if negb dirty then db_ret tt
  else do$ query (fun _ => tt) ;; update (fun s => with_memory s false (finalizeSinceCheckpoint s)).

(** *** Rows *)

Definition of_key (computerID key : string) (r : IndexRow) : bool :=
  (ix_computer r == computerID) && (ix_key r == key).
Definition of_digest (computerID digest : string) (r : IndexRow) : bool :=
  (ix_computer r == computerID) && (ix_digest r == digest).
Definition has_status (status : string) (r : IndexRow) : bool := ix_status r == status.

(** The primary key and the two unique keys of the index. *)
Definition clashes (r r' : IndexRow) : bool :=
  (ix_digest r == ix_digest r')
  || (ix_computer r == ix_computer r') && ((ix_sequence r =? ix_sequence r') || (ix_key r == ix_key r')).

Definition insert_row (r : IndexRow) (s : Store P) : option (Store P * unit) :=
  if existsb (clashes r) (st_index s) then None else Some (with_index s (r :: st_index s), tt).

(** The number of rows an UPDATE or DELETE affects comes with it. *)
Definition update_rows (where_ : IndexRow -> bool) (f : IndexRow -> IndexRow) (s : Store P) : option (Store P * nat) :=
  Some (with_index s (map (fun r => if where_ r then f r else r) (st_index s)),
        length (List.filter where_ (st_index s))).
Definition delete_rows (where_ : IndexRow -> bool) (s : Store P) : option (Store P * nat) :=
  Some (with_index s (List.filter (fun r => negb (where_ r)) (st_index s)),
        length (List.filter where_ (st_index s))).

(** *** Operations *)

Definition Store_Head (computerID : string) : Db (option Head) := query (fun s => st_heads s !! computerID).

(** [json.Marshal] of the pins; a nil slice is written as an empty one. *)
Definition pins_json (pins : list string) : string := marshal (JStrs pins).
Definition read_pins (raw : string) : option (list string) := j ← clean <$> parse raw; dec_strs [] j.

Definition index_row (q : CASRequest) (body : string) : IndexRow := {|
  ix_digest := R_EventDigest q; ix_computer := ComputerID (R_Event q); ix_sequence := Sequence (R_Event q);
  ix_previous := PreviousHead (R_Event q); ix_kind := kind_string (Kind (R_Event q)); ix_event := body;
  ix_artifact := R_EventArtifactDigest q; ix_pin := R_EventPinReceiptDigest q;
  ix_pins := pins_json (R_PayloadPinReceiptDigests q); ix_commitment := RequestCommitment (R_Event q);
  ix_key := IdempotencyKey (R_Event q); ix_status := "prepared";
  ix_desired := DesiredEventHead (R_Next q); ix_effective := EffectiveEventHead (R_Next q);
  ix_pending := nullable (PendingTransitionRef (R_Next q));
  ix_desiredCommitment := DesiredStateCommitment (R_Next q);
  ix_effectiveCommitment := EffectiveStateCommitment (R_Next q);
  ix_reducer := HeadReducerVersion (R_Next q); ix_epoch := CredentialRevocationEpoch (R_Next q);
  ix_target := nullable (TargetStateCommitment (R_Input q)); ix_restored := RestoredPriorEffective (R_Input q);
  ix_receipt := None |}.

Definition Prepare (q : CASRequest) : Db unit :=
  let event := R_Event q in
  guard$ match Digest event with Ok d => d != R_EventDigest q | Err _ => true end
         || (R_EventArtifactDigest q != R_EventDigest q) with ErrDigest ;;
  let$ body := db_lift ErrEventBytes (ComputerEvent.CanonicalBytes event) in
  let$ existing := query (fun s => List.find (of_key (ComputerID event) (IdempotencyKey event)) (st_index s)) in
  match existing with
  | Some r =>
    guard$ (ix_digest r != R_EventDigest q) || (ix_commitment r != RequestCommitment event) with ErrIdempotency ;;
    if has_status "prepared" r || has_status "finalized" r then db_ret tt else db_fail (ErrStatus (ix_status r))
  | None =>
    do$ exec (insert_row (index_row q body)) ;;
    markDoltHistoryDirty
  end.

Definition finalized_row (receiptJSON : string) (r : IndexRow) : IndexRow := {|
  ix_digest := ix_digest r; ix_computer := ix_computer r; ix_sequence := ix_sequence r; ix_previous := ix_previous r;
  ix_kind := ix_kind r; ix_event := ix_event r; ix_artifact := ix_artifact r; ix_pin := ix_pin r; ix_pins := ix_pins r;
  ix_commitment := ix_commitment r; ix_key := ix_key r; ix_status := "finalized"; ix_desired := ix_desired r;
  ix_effective := ix_effective r; ix_pending := ix_pending r; ix_desiredCommitment := ix_desiredCommitment r;
  ix_effectiveCommitment := ix_effectiveCommitment r; ix_reducer := ix_reducer r; ix_epoch := ix_epoch r;
  ix_target := ix_target r; ix_restored := ix_restored r;
  ix_receipt := Some (receiptJSON, sha256_hex receiptJSON) |}.

(** The head the next columns of a row describe. *)
Definition row_head (computerID digest : string) (r : IndexRow) : Head := {|
  HeadComputerID := computerID; HeadSequence := ix_sequence r; CanonicalEventHead := digest;
  DesiredEventHead := ix_desired r; EffectiveEventHead := ix_effective r;
  PendingTransitionRef := coalesce (ix_pending r); DesiredStateCommitment := ix_desiredCommitment r;
  EffectiveStateCommitment := ix_effectiveCommitment r; HeadReducerVersion := ix_reducer r;
  CredentialRevocationEpoch := ix_epoch r |}.

(** Insert the first head of a computer, or update the one that is there. *)
Definition write_head (h : Head) (s : Store P) : option (Store P * unit) :=
  Some (with_heads s (<[HeadComputerID h := h]> (st_heads s)), tt).

(** The checks of a batch against the event it is for. *)
Definition check_batch (computerID digest kind : string) (batch : option Batch) : res error unit :=
  let is_batch := kind == kind_string EventProjectionBatchRecorded in
  match batch with
  | None => if is_batch then Err ErrBatchRequired else Ok tt
  | Some b =>
    refuse negb is_batch with ErrBatchUnexpected ;;
    let? _ := res_map_err ErrBatchInvalid (Batch_Validate b) in
    refuse (BatchComputerID b != computerID) || (BatchEventDigest b != digest) with ErrBatchIdentity ;;
    Ok tt
  end.

Definition finalize_head (computerID digest : string) (r : IndexRow) : Db unit :=
  let$ current := query (fun s => st_heads s !! computerID) in
  let follows :=
    match current with
    | None => (ix_sequence r =? 1) && (ix_previous r == ZeroHead)
    | Some h => (wrap_u64 (HeadSequence h + 1) =? ix_sequence r) && (CanonicalEventHead h == ix_previous r)
    end in
  guard$ negb follows with ErrProjectionMismatch ;;
  exec (write_head (row_head computerID digest r)).

Definition project (legacy : bool) (batch : option Batch) : Db unit :=
  match batch with
  | None => db_ret tt
  | Some b =>
    let$ p := query st_projection in
    let$ p := db_lift ErrProject ((if legacy then projectBatchForReplay else projectBatch) b p) in
    exec (fun s => Some (with_projection s p, tt))
  end.

(** The transaction of [finalizeBatch]; whether it moved the head. *)
Definition finalize_transaction (computerID digest receiptJSON : string) (batch : option Batch) (legacy : bool) : Db bool :=
  transaction ErrSql (
    let$ found := query (fun s => List.find (of_digest computerID digest) (st_index s)) in
    match found with
    | None => db_fail ErrNotPrepared
    | Some r =>
      if has_status "finalized" r then db_ret (Rollback false)
      else
        guard$ negb (has_status "prepared" r) with ErrStatus (ix_status r) ;;
        do$ db_lift id (check_batch computerID digest (ix_kind r) batch) ;;
        do$ finalize_head computerID digest r ;;
        let$ affected := exec (update_rows (fun r => of_digest computerID digest r && has_status "prepared" r)
                                           (finalized_row receiptJSON)) in
        guard$ negb (Nat.eqb affected 1) with ErrFinalizeLost ;;
        do$ project legacy batch ;;
        db_ret (Commit true)
    end).

Definition finalizeBatch (computerID digest : string) (receipt : Receipt) (batch : option Batch) (legacy : bool) : Db unit :=
  let receiptEventDigest := default "" (field_string (KindFields receipt !! "event_digest")) in
  guard$ (ReceiptKind receipt != "EventHeadReceipt") || (receiptEventDigest != digest) with ErrReceiptBinds ;;
  let$ receiptJSON := db_lift ErrReceiptBytes (EventReceipt.CanonicalBytes receipt) in
  let$ moved := finalize_transaction computerID digest receiptJSON batch legacy in
  if negb moved then db_ret tt
  else
    do$ markDoltHistoryDirty ;;
    if legacy then db_ret tt
    else
      let$ every := peek doltCheckpointEvery in
      let every := if every =? 0 then defaultFinalizeCheckpointEvery else every in
      do$ update (fun s => with_memory s (doltHistoryDirty s) (wrap_u64 (finalizeSinceCheckpoint s + 1))) ;;
      let$ since := peek finalizeSinceCheckpoint in
      if since <? every then db_ret tt
      else
        do$ update (fun s => with_memory s (doltHistoryDirty s) 0) ;;
        commitDoltCheckpoint.

Definition Finalize (computerID digest : string) (receipt : Receipt) : Db unit :=
  finalizeBatch computerID digest receipt None false.
Definition FinalizeBatch (computerID digest : string) (receipt : Receipt) (batch : option Batch) : Db unit :=
  finalizeBatch computerID digest receipt batch false.
Definition FinalizeReplayBatch (computerID digest : string) (receipt : Receipt) (batch : option Batch) : Db unit :=
  finalizeBatch computerID digest receipt batch true.

Definition DryRunProjectionBatch (computerID : string) (batch : Batch) : Db unit :=
  transaction ErrSql (
    let$ p := query st_projection in
    do$ db_lift ErrProject (projectBatch batch p) ;;
    db_ret (Rollback tt)).

Definition CommitReplay : Db unit := commitDoltCheckpoint.

Definition DiscardPrepared (computerID digest : string) : Db unit :=
  do$ exec (delete_rows (fun r => of_digest computerID digest r && has_status "prepared" r)) ;;
  do$ markDoltHistoryDirty ;;
  commitDoltCheckpoint.

(** The body of the loop of [Prepared]. *)
Definition read_row (r : IndexRow) : res error CASRequest :=
  match DecodeHistoricEvent (ix_event r) with
  | None => Err ErrDecodeEvent
  | Some event =>
    match read_pins (ix_pins r) with
    | None => Err ErrDecodePins
    | Some pins =>
      let input := Build_TransitionInput (coalesce (ix_target r)) (ix_restored r) in
      let? intent := res_map_err ErrPinIntent (ComputePinIntentCommitment event input) in
      Ok {| R_Event := event; R_EventDigest := ix_digest r; R_EventArtifactDigest := ix_artifact r;
            R_EventPinReceiptDigest := ix_pin r; R_PayloadPinReceiptDigests := pins; R_PinIntentCommitment := intent;
            R_Input := input;
            R_Next := {| HeadComputerID := ComputerID event; HeadSequence := Sequence event;
                         CanonicalEventHead := ix_digest r; DesiredEventHead := ix_desired r;
                         EffectiveEventHead := ix_effective r; PendingTransitionRef := coalesce (ix_pending r);
                         DesiredStateCommitment := ix_desiredCommitment r;
                         EffectiveStateCommitment := ix_effectiveCommitment r; HeadReducerVersion := ix_reducer r;
                         CredentialRevocationEpoch := ix_epoch r |} |}
    end
  end.

Fixpoint read_rows (l : list IndexRow) : res error (list CASRequest) :=
  match l with
  | [] => Ok []
  | r :: l => let? q := read_row r in let? qs := read_rows l in Ok (q :: qs)
  end.

Definition earlier (r r' : IndexRow) : Prop := ix_sequence r <= ix_sequence r'.
#[export] Instance earlier_dec r r' : Decision (earlier r r') := Z_le_dec _ _.

Definition Prepared (computerID : string) : Db (list CASRequest) :=
  let$ rows := query (fun s => merge_sort earlier
    (List.filter (fun r => (ix_computer r == computerID) && has_status "prepared" r) (st_index s))) in
  db_lift id (read_rows rows).

(** *** What recovery of a controller reads *)

Definition EventByIdempotency (computerID key : string) : Db (option Event) :=
  let$ found := query (fun s => List.find (of_key computerID key) (st_index s)) in
  match found with
  | None => db_ret None
  | Some r =>
    guard$ negb (has_status "finalized" r) with ErrNotFinalized (ix_status r) ;;
    match DecodeHistoricEvent (ix_event r) with None => db_fail ErrDecodeEvent | Some e => db_ret (Some e) end
  end.

Definition EventByDigest (computerID digest : string) : Db (option Event) :=
  let$ found := query (fun s => List.find
    (fun r => of_digest (TrimSpace computerID) (TrimSpace digest) r && has_status "finalized" r) (st_index s)) in
  match found with
  | None => db_ret None
  | Some r => match DecodeHistoricEvent (ix_event r) with None => db_fail ErrDecodeEvent | Some e => db_ret (Some e) end
  end.

Definition EventReceiptByIdempotency (computerID key : string) : Db (option Receipt) :=
  let$ found := query (fun s => List.find (of_key computerID key) (st_index s)) in
  match found with
  | None => db_ret None
  | Some r =>
    match ix_receipt r with
    | Some (raw, _) =>
      guard$ negb (has_status "finalized" r) || (raw == "") with ErrReceiptUnavailable ;;
      let$ receipt := db_lift ErrDecodeReceipt (UnmarshalJSON raw) in db_ret (Some receipt)
    | None => db_fail ErrReceiptUnavailable
    end
  end.
End Operations.
End EventStore.
