(* ===== verification/EventPlatform.v ===== *)
(** * EventPlatform: the platform's side of a computer's events (internal/platform)

    corpusd keeps one head per computer and one row per appended event with the
    receipt it issued ([ComputerEventCAS], computer_events.go), the pinned
    artifacts and pin receipts as write-once files ([EventArtifactService],
    event_artifacts.go), and serves the appended events to replays
    (event_replay.go). A file is named by its namespace and its name below it;
    [artifactPath] accepts every name the code builds. A file is written by a
    rename, so it is there with its content or not at all.

    [pl_log] is no part of the database: it records the requests behind the rows,
    for the statements about it. The envelope of private payloads (privacy.go) is
    a parameter. The mutex of a computer makes [CompareAndSwap] one step. *)
From S2P Require Import Prelude GoStrings Sha256 GoUuid GoTime GoSql GoJson GoDecode CanonicalJson JsonRoundTrip ComputerEvent EventReceipt EventDecode EventAppender EventStore.
Import ComputerEvent EventReceipt EventDecode EventAppender.

Module EventPlatform.
Local Open Scope Z_scope.

(** A row of [computer_event_append_receipts]. *)
Record ReceiptRow := {
  rr_computer : string;
  rr_key : string;
  rr_commitment : string;
  rr_sequence : Z;
  rr_previous : string;
  rr_kind : string;
  rr_digest : string;
  rr_artifact : string;
  rr_pin : string;
  rr_pins : string;
  rr_receipt_id : string;
  rr_receipt : string;
  rr_receipt_digest : string;
  rr_desired : string;
  rr_effective : string;
  rr_desiredCommitment : string;
  rr_effectiveCommitment : string;
  rr_pending : option string;
}.

(** A row of [computer_lifecycle_receipts], as far as events are concerned. *)
Record LifecycleRow := {
  lr_computer : string;
  lr_receipt_digest : string;
  lr_action : string;
  lr_joined : option string;
}.

Record Platform := {
  pl_heads : gmap string Head;
  pl_receipts : list ReceiptRow;
  pl_lifecycle : list LifecycleRow;
  pl_files : gmap (string * string) string;
  pl_log : list CASRequest;
}.

Definition with_head (p : Platform) (h : Head) : Platform :=
  Build_Platform (<[HeadComputerID h := h]> (pl_heads p)) (pl_receipts p) (pl_lifecycle p) (pl_files p) (pl_log p).
Definition with_lifecycle (p : Platform) (l : list LifecycleRow) : Platform :=
  Build_Platform (pl_heads p) (pl_receipts p) l (pl_files p) (pl_log p).
Definition with_file (p : Platform) (path : string * string) (content : string) : Platform :=
  Build_Platform (pl_heads p) (pl_receipts p) (pl_lifecycle p) (<[path := content]> (pl_files p)) (pl_log p).

Inductive platform_error :=
  | ErrSql
  | ErrInvalidEvent | ErrNotCanonical | ErrEventScope | ErrMediaType | ErrPrivateMediaType | ErrPrivateEnvelope
  | ErrPinArguments | ErrImmutable | ErrReceipt (e : receipt_error)
  | ErrRefForm (ref : string) | ErrPinCount | ErrPinDigestForm | ErrPinUnread | ErrPinReceiptDigest
  | ErrPinScope | ErrEventPin | ErrPayloadPin | ErrPinnedArtifact | ErrPinLength
  | ErrPayloadArguments | ErrPayloadDigest | ErrPayloadNotFound
  | ErrIncomplete | ErrPinIntent | ErrCommitment | ErrIdempotency | ErrReduce (e : reduce_error)
  | ErrGuestMismatch | ErrEventDigest | ErrConflict | ErrJoin
  | ErrReplayArguments | ErrReplayArtifact | ErrReplayUnread | ErrReplayDigest | ErrReplayDecode | ErrReplayIndex
  | ErrReplayPins | ErrReplayReceiptDigest.

(** [InspectPrivateArtifactEnvelope]: the computer and the event of an envelope. *)
Class PrivateEnvelopes := inspect_envelope : string -> option (string * string).
(** The wall clock and the version 7 identifiers drawn, by step. *)
Class Drawn := { clock : nat -> Time; drawn_uuid : nat -> string }.
(** [computerEventSigningKey] and the key history. *)
Class Signer := { signing_key : SigningKey; key_history : KeyResolver }.

Definition event_media_type : string := "application/vnd.choir.computer-event+json".
Definition PrivateArtifactMediaType : string := "application/vnd.choir.private-artifact+json".
Definition EventReplayMaxPageSize : Z := 2048.

Section Operations.
Context `{Uuid, Sha256, Ed25519, PrivateEnvelopes, Drawn, Signer, Faults}.
Abbreviation Db := (Db Platform platform_error).
Abbreviation query := (query ErrSql).
Abbreviation exec := (exec ErrSql).

(** The number of the step, which the clock and the identifiers are read at. *)
Definition step : Db nat := fun '(p, n) => ((p, S n), Ok n).

Definition db_option {A} (e : platform_error) (o : option A) : Db A :=
  match o with Some x => db_ret x | None => db_fail e end.

(** ** Artifacts *)

Definition ReadFile (path : string * string) : Db (option string) := query (fun p => pl_files p !! path).

Definition writeImmutable (path : string * string) (payload : string) : Db unit :=
  let$ existing := ReadFile path in
  match existing with
  | Some content => guard$ content != payload with ErrImmutable ;; db_ret tt
  | None => exec (fun p => Some (with_file p path payload, tt))
  end.

(** The fields of a pin receipt. *)
Definition pin_fields (computerID digest mediaType privacyClass namespace field commitment : string) (length : Z)
    : list (string * EventReceipt.field) := [
  ("computer_id", FJson (JStr computerID)); ("artifact_digest", FJson (JStr digest));
  ("media_type", FJson (JStr mediaType)); ("length", FInt length);
  ("privacy_class", FJson (JStr privacyClass)); ("pin_namespace", FJson (JStr namespace));
  (field, FJson (JStr commitment))].

Definition pin (computerID payload mediaType namespace privacyClass field commitment : string) : Db PinResult :=
  guard$ (computerID == "") || (field == "") || negb (isSHA256 commitment) with ErrPinArguments ;;
  let digest := sha256_hex payload in
  do$ writeImmutable (namespace, digest) payload ;;
  let fields := pin_fields computerID digest mediaType privacyClass namespace field commitment (Z.of_nat (len payload)) in
  let$ n := step in
  let$ receipt := db_lift ErrReceipt
    (NewSignedReceipt (drawn_uuid n) "PinReceipt" "corpusd" (list_to_map fields) [signing_key] (clock n)) in
  let$ body := db_lift ErrReceipt (EventReceipt.CanonicalBytes receipt) in
  do$ writeImmutable ("pin-receipts", sha256_hex body +:+ ".json") body ;;
  db_ret (Build_PinResult digest receipt).

Definition PinEvent (computerID canonicalEvent requestCommitment : string) : Db PinResult :=
  let$ event := db_option ErrInvalidEvent (DecodeHistoricEvent canonicalEvent) in
  guard$ match ComputerEvent.CanonicalBytes event with Ok body => body != canonicalEvent | Err _ => true end
    with ErrNotCanonical ;;
  guard$ (ComputerID event != computerID) || (RequestCommitment event != requestCommitment) with ErrEventScope ;;
  pin computerID canonicalEvent event_media_type "computer-event" "private" "request_commitment" requestCommitment.

Definition pinPayload (computerID payload mediaType privacyClass pinIntentCommitment : string) : Db PinResult :=
  guard$ (mediaType == "") || (privacyClass == "") with ErrMediaType ;;
  guard$ (privacyClass == "private") && (mediaType != PrivateArtifactMediaType) with ErrPrivateMediaType ;;
  guard$ (privacyClass == "private") &&
         match inspect_envelope payload with Some (computer, _) => computer != computerID | None => true end
    with ErrPrivateEnvelope ;;
  pin computerID payload mediaType "computer-event-payload" privacyClass "pin_intent_commitment" pinIntentCommitment.

(** [fmt.Sprint] of a decoded member; the text of the other kinds of value is
    never a decimal number. *)
Definition sprint (f : option field) : string :=
  match f with Some (FJson (JNum t)) | Some (FJson (JStr t)) => t | _ => "" end.

(** One pin of [ValidateEventPins]; [expected] is the digest of the payload, and
    absent for the pin of the event itself. *)
Definition validate_pin (q : CASRequest) (expected : option string) (digest : string) : Db unit :=
  let event := R_Event q in
  guard$ negb (isSHA256 digest) with ErrPinDigestForm ;;
  let$ raw := ReadFile ("pin-receipts", digest +:+ ".json") in
  let$ raw := db_option ErrPinUnread raw in
  guard$ sha256_hex raw != digest with ErrPinReceiptDigest ;;
  let$ receipt := db_lift ErrReceipt (UnmarshalJSON raw) in
  let '(field, commitment) :=
    match expected with
    | None => ("request_commitment", RequestCommitment event)
    | Some _ => ("pin_intent_commitment", R_PinIntentCommitment q)
    end in
  do$ db_lift ErrReceipt (RequireKindFields receipt
        ["computer_id"; "artifact_digest"; "media_type"; "length"; "privacy_class"; "pin_namespace"; field]) ;;
  let member name := field_string (KindFields receipt !! name) in
  guard$ (ReceiptKind receipt != "PinReceipt") || (Issuer receipt != "corpusd")
         || (member "computer_id" != Some (ComputerID event)) || (member field != Some commitment) with ErrPinScope ;;
  do$ db_lift ErrReceipt (Receipt_Verify (Some key_history) receipt) ;;
  let artifactDigest := default "" (member "artifact_digest") in
  let namespace := default "" (member "pin_namespace") in
  do$ match expected with
      | None =>
        guard$ (artifactDigest != R_EventDigest q) || (namespace != "computer-event")
               || (member "media_type" != Some event_media_type) || (member "privacy_class" != Some "private")
          with ErrEventPin ;; db_ret tt
      | Some payload =>
        guard$ (artifactDigest != payload) || (namespace != "computer-event-payload")
               || (default "" (member "media_type") == "") || (member "privacy_class" != Some (PrivacyClass event))
          with ErrPayloadPin ;; db_ret tt
      end ;;
  let$ artifact := ReadFile (namespace, artifactDigest) in
  let$ artifact := db_option ErrPinnedArtifact artifact in
  guard$ sha256_hex artifact != artifactDigest with ErrPinnedArtifact ;;
  guard$ bool_decide (is_Some expected) && (PrivacyClass event == "private") &&
         (inspect_envelope artifact != Some (ComputerID event, EventID event)) with ErrPrivateEnvelope ;;
  guard$ sprint (KindFields receipt !! "length") != itoa (Z.of_nat (len artifact)) with ErrPinLength ;;
  db_ret tt.

Fixpoint validate_payload_pins (q : CASRequest) (expected digests : list string) : Db unit :=
  match expected, digests with
  | payload :: expected, digest :: digests =>
    do$ validate_pin q (Some payload) digest ;; validate_payload_pins q expected digests
  | _, _ => db_ret tt
  end.

Fixpoint expected_payloads (refs : list string) : res platform_error (list string) :=
  match refs with
  | [] => Ok []
  | ref :: refs =>
    match ParseArtifactRef ref with
    | None => Err (ErrRefForm ref)
    | Some digest => let? digests := expected_payloads refs in Ok (digest :: digests)
    end
  end.

Definition ValidateEventPins (q : CASRequest) : Db unit :=
  let$ expected := db_lift id (expected_payloads (InputArtifactRefs (R_Event q) ++ OutputArtifactRefs (R_Event q))) in
  guard$ negb (Nat.eqb (length expected) (length (R_PayloadPinReceiptDigests q))) with ErrPinCount ;;
  do$ validate_pin q None (R_EventPinReceiptDigest q) ;;
  validate_payload_pins q expected (R_PayloadPinReceiptDigests q).

(** The namespaces a payload is looked for in, in order. *)
Fixpoint fetch_from (digest : string) (namespaces : list string) : Db string :=
  match namespaces with
  | [] => db_fail ErrPayloadNotFound
  | namespace :: namespaces =>
    let$ raw := ReadFile (namespace, digest) in
    match raw with
    | None => fetch_from digest namespaces
    | Some raw => guard$ sha256_hex raw != digest with ErrPayloadDigest ;; db_ret raw
    end
  end.

Definition FetchPayload (computerID artifactDigest : string) : Db string :=
  let computerID := TrimSpace computerID in
  let artifactDigest := TrimSpace artifactDigest in
  guard$ (computerID == "") || negb (isSHA256 artifactDigest) with ErrPayloadArguments ;;
  fetch_from artifactDigest ["computer-event-payload"; "computer-event"; "projection-base"].

(** ** Appending *)

Definition readComputerEventHead (computerID : string) : Db (option Head) := query (fun p => pl_heads p !! computerID).
Definition CAS_Head (computerID : string) : Db (option Head) := readComputerEventHead computerID.

Definition row_of_key (computerID key : string) (r : ReceiptRow) : bool :=
  (rr_computer r == computerID) && (rr_key r == key).

Definition existingComputerEventReceipt (computerID key commitment : string) : Db (option Receipt) :=
  let$ found := query (fun p => List.find (row_of_key computerID key) (pl_receipts p)) in
  match found with
  | None => db_ret None
  | Some r =>
    guard$ rr_commitment r != commitment with ErrIdempotency ;;
    let$ receipt := db_lift ErrReceipt (UnmarshalJSON (rr_receipt r)) in
    db_ret (Some receipt)
  end.

(** INSERT of the first head of a computer, or UPDATE of the row that is still at
    [current]; the number of rows affected. *)
Definition swap_head (current : option Head) (next : Head) (p : Platform) : option (Platform * nat) :=
  match current, pl_heads p !! HeadComputerID next with
  | None, None => Some (with_head p next, 1%nat)
  | None, Some _ => None
  | Some c, Some h =>
    if (HeadSequence h =? HeadSequence c) && (CanonicalEventHead h == CanonicalEventHead c)
    then Some (with_head p next, 1%nat) else Some (p, 0%nat)
  | Some _, None => Some (p, 0%nat)
  end.

Definition receipt_row (q : CASRequest) (receipt : Receipt) (body : string) : ReceiptRow := {|
  rr_computer := ComputerID (R_Event q); rr_key := IdempotencyKey (R_Event q);
  rr_commitment := RequestCommitment (R_Event q); rr_sequence := Sequence (R_Event q);
  rr_previous := PreviousHead (R_Event q); rr_kind := kind_string (Kind (R_Event q));
  rr_digest := R_EventDigest q; rr_artifact := R_EventArtifactDigest q; rr_pin := R_EventPinReceiptDigest q;
  rr_pins := EventStore.pins_json (R_PayloadPinReceiptDigests q);
  rr_receipt_id := ReceiptID receipt; rr_receipt := body; rr_receipt_digest := sha256_hex body;
  rr_desired := DesiredEventHead (R_Next q); rr_effective := EffectiveEventHead (R_Next q);
  rr_desiredCommitment := DesiredStateCommitment (R_Next q);
  rr_effectiveCommitment := EffectiveStateCommitment (R_Next q);
  rr_pending := nullable (PendingTransitionRef (R_Next q)) |}.

(** The primary key and the two unique keys of the table of receipts. *)
Definition clashes (r r' : ReceiptRow) : bool :=
  (rr_computer r == rr_computer r')
  && ((rr_key r == rr_key r') || (rr_sequence r =? rr_sequence r') || (rr_digest r == rr_digest r')).

Definition insert_receipt (q : CASRequest) (r : ReceiptRow) (p : Platform) : option (Platform * unit) :=
  if existsb (clashes r) (pl_receipts p) then None
  else Some (Build_Platform (pl_heads p) (r :: pl_receipts p) (pl_lifecycle p) (pl_files p) (q :: pl_log p), tt).

(** The actions of the lifecycle receipts an event of this kind joins. *)
Definition joined_actions (kind : EventKind) : option (list string) :=
  match kind with
  | EventLifecycleObserved => Some ["start"; "stop"; "restart"; "refresh"]
  | EventKeyRevoked => Some ["credential_envelope_consumed"]
  | _ => None
  end.

Definition joinable (q : CASRequest) (actions : list string) (r : LifecycleRow) : bool :=
  (lr_computer r == ComputerID (R_Event q)) && (lr_receipt_digest r == ProposedEffectRef (R_Event q))
  && bool_decide (lr_action r ∈ actions) && bool_decide (lr_joined r = None).

Definition join_row (digest : string) (r : LifecycleRow) : LifecycleRow :=
  Build_LifecycleRow (lr_computer r) (lr_receipt_digest r) (lr_action r) (Some digest).

Definition join_lifecycle (q : CASRequest) (actions : list string) (p : Platform) : option (Platform * nat) :=
  Some (with_lifecycle p (map (fun r => if joinable q actions r then join_row (R_EventDigest q) r else r) (pl_lifecycle p)),
        length (List.filter (joinable q actions) (pl_lifecycle p))).

Definition join_receipt (q : CASRequest) : Db unit :=
  match joined_actions (Kind (R_Event q)) with
  | None => db_ret tt
  | Some actions =>
    let$ affected := exec (join_lifecycle q actions) in
    guard$ negb (Nat.eqb affected 1) with ErrJoin ;;
    db_ret tt
  end.

(** The transaction of [CompareAndSwap]; the flag says whether it appended. *)
Definition append_transaction (q : CASRequest) : Db (Receipt * bool) :=
  let event := R_Event q in
  transaction ErrSql (
    let$ existing := existingComputerEventReceipt (ComputerID event) (IdempotencyKey event) (RequestCommitment event) in
    match existing with
    | Some receipt => db_ret (Rollback (receipt, false))
    | None =>
      let$ current := readComputerEventHead (ComputerID event) in
      let$ next := db_lift ErrReduce (Reduce current event (R_Input q)) in
      guard$ next != R_Next q with ErrGuestMismatch ;;
      guard$ match Digest event with Ok d => d != R_EventDigest q | Err _ => true end with ErrEventDigest ;;
      let$ n := step in
      let$ receipt := db_lift ErrReceipt (issue (drawn_uuid n) signing_key (clock n) q) in
      let$ body := db_lift ErrReceipt (EventReceipt.CanonicalBytes receipt) in
      let$ affected := exec (swap_head current next) in
      guard$ negb (Nat.eqb affected 1) with ErrConflict ;;
      do$ exec (insert_receipt q (receipt_row q receipt body)) ;;
      do$ join_receipt q ;;
      db_ret (Commit (receipt, true))
    end).

(** The commit of Dolt's own history. *)
Definition commitDolt : Db unit := query (fun _ => tt).

Definition CompareAndSwap (q : CASRequest) : Db Receipt :=
  let event := R_Event q in
  guard$ (ComputerID event == "") || (R_EventDigest q == "") || (R_EventArtifactDigest q != R_EventDigest q)
         || (R_EventPinReceiptDigest q == "") with ErrIncomplete ;;
  let$ intent := db_lift (fun _ => ErrPinIntent) (ComputePinIntentCommitment event (R_Input q)) in
  guard$ R_PinIntentCommitment q != intent with ErrPinIntent ;;
  let$ commitment := db_lift (fun _ => ErrCommitment)
    (ComputeRequestCommitment event (R_Input q) intent (R_PayloadPinReceiptDigests q)) in
  guard$ RequestCommitment event != commitment with ErrCommitment ;;
  do$ ValidateEventPins q ;;
  let$ existing := existingComputerEventReceipt (ComputerID event) (IdempotencyKey event) (RequestCommitment event) in
  match existing with
  | Some receipt => db_ret receipt
  | None =>
    let$ (receipt, appended) := append_transaction q in
    do$ (if (appended : bool) then commitDolt else db_ret tt) ;;
    db_ret receipt
  end.

(** ** Replay *)

Definition replayTransitionInput (kind : EventKind) (next : Head) : TransitionInput :=
  match kind with
  | EventGenesisImported | EventEffectAccepted | EventRollbackRequested | EventResearcherUpdate =>
    Build_TransitionInput (DesiredStateCommitment next) false
  | EventMaterializationFailed => Build_TransitionInput "" true
  | _ => Build_TransitionInput "" false
  end.

(** The body of the loop over the rows of a page; [epoch] counts the revoked keys. *)
Definition read_record (computerID : string) (epoch : Z) (r : ReceiptRow) : Db (DurableEvent * Z) :=
  guard$ rr_artifact r != rr_digest r with ErrReplayArtifact ;;
  let$ raw := ReadFile ("computer-event", rr_artifact r) in
  let$ eventJSON := db_option ErrReplayUnread raw in
  guard$ sha256_hex eventJSON != rr_digest r with ErrReplayDigest ;;
  let$ event := db_option ErrReplayDecode (DecodeHistoricEvent eventJSON) in
  guard$ negb (Sequence event =? rr_sequence r) || (ComputerID event != computerID) with ErrReplayIndex ;;
  let$ pins := db_option ErrReplayPins (EventStore.read_pins (rr_pins r)) in
  let$ receipt := db_lift ErrReceipt (UnmarshalJSON (rr_receipt r)) in
  guard$ match EventReceipt.CanonicalBytes receipt with Ok body => sha256_hex body != rr_receipt_digest r | Err _ => true end
    with ErrReplayReceiptDigest ;;
  let epoch := match Kind event with EventKeyRevoked => wrap_u64 (epoch + 1) | _ => epoch end in
  let next := {| HeadComputerID := computerID; HeadSequence := rr_sequence r; CanonicalEventHead := rr_digest r;
                 DesiredEventHead := rr_desired r; EffectiveEventHead := rr_effective r;
                 PendingTransitionRef := coalesce (rr_pending r); DesiredStateCommitment := rr_desiredCommitment r;
                 EffectiveStateCommitment := rr_effectiveCommitment r;
                 HeadReducerVersion := EventReducerVersion event; CredentialRevocationEpoch := epoch |} in
  let input := replayTransitionInput (Kind event) next in
  let$ intent := db_lift (fun _ => ErrPinIntent) (ComputePinIntentCommitment event input) in
  db_ret ({| D_Request := {| R_Event := event; R_EventDigest := rr_digest r; R_EventArtifactDigest := rr_artifact r;
                             R_EventPinReceiptDigest := rr_pin r; R_PayloadPinReceiptDigests := pins;
                             R_PinIntentCommitment := intent; R_Input := input; R_Next := next |};
             D_Receipt := receipt |}, epoch).

Fixpoint read_records (computerID : string) (epoch : Z) (rows : list ReceiptRow) : Db (list DurableEvent) :=
  match rows with
  | [] => db_ret []
  | r :: rows =>
    let$ (record, epoch) := read_record computerID epoch r in
    let$ records := read_records computerID epoch rows in
    db_ret (record :: records)
  end.

Definition earlier (r r' : ReceiptRow) : Prop := rr_sequence r <= rr_sequence r'.
#[export] Instance earlier_dec r r' : Decision (earlier r r') := Z_le_dec _ _.

Definition key_revoked_before (computerID : string) (after : Z) (r : ReceiptRow) : bool :=
  (rr_computer r == computerID) && (rr_sequence r <=? after) && (rr_kind r == kind_string EventKeyRevoked).

Definition EventsPage (computerID : string) (after pageSize : Z) : Db (list DurableEvent) :=
  guard$ (computerID == "") || (pageSize <=? 0) || (EventReplayMaxPageSize <? pageSize) with ErrReplayArguments ;;
  let$ epoch :=
    if 0 <? after then query (fun p => Z.of_nat (length (List.filter (key_revoked_before computerID after) (pl_receipts p))))
    else db_ret 0 in
  let$ rows := query (fun p => take (Z.to_nat pageSize) (merge_sort earlier
    (List.filter (fun r => (rr_computer r == computerID) && (after <? rr_sequence r)) (pl_receipts p)))) in
  read_records computerID epoch rows.
End Operations.
End EventPlatform.
