(* ===== verification/EventContract.v ===== *)
(** * EventContract: what the appender's dependencies promise

    [EventSync] proves the appender against what the platform and the embedded
    projection promise, not against one implementation of them. A [View] is what
    an observer sees of a world: the platform's chain, the head of the local
    projection, its prepared rows and the digests it has finalized. The class
    [Laws] says how each dependency may move the view, whether it succeeds or
    fails: in particular any call may fail, and a call that failed may have taken
    effect. The chain may grow at any call, as it does when another realization
    of the computer appends.

    [Inv] is the invariant: the chain is linked by the reducer, the local head is
    one of the chain's heads, and every prepared row reduces from one of them. *)
From S2P Require Import Prelude GoStrings Sha256 GoUuid GoTime GoJson CanonicalJson JsonRoundTrip ComputerEvent EventReceipt ProjectionBatch EventAppender.
Import ComputerEvent EventReceipt ProjectionBatch EventAppender.

Module EventContract.
Local Open Scope Z_scope.

(** ** What the reducer and the commitments determine *)
Section Determined.
Context `{Uuid, Sha256}.

(** [RequireExpectedHead] plays no part once an event is bound. *)
Local Ltac by_envelope :=
  match goal with e1 : Event, e2 : Event |- _ =>
    destruct e1, e2; let He := fresh in unfold same_envelope; cbn [envelope]; intros He; injection He; intros; by subst end.

Lemma Digest_envelope e1 e2 : same_envelope e1 e2 -> Digest e1 = Digest e2.
Proof. by_envelope. Qed.
Lemma Reduce_envelope h e1 e2 i : same_envelope e1 e2 -> Reduce h e1 i = Reduce h e2 i.
Proof. by_envelope. Qed.
Lemma event_json_envelope e1 e2 : same_envelope e1 e2 -> event_json e1 = event_json e2.
Proof. by_envelope. Qed.
Lemma event_text_envelope e1 e2 : same_envelope e1 e2 -> event_text e1 = event_text e2.
Proof. by_envelope. Qed.
Lemma requestIntent_envelope e1 e2 i : same_envelope e1 e2 -> requestIntent e1 i = requestIntent e2 i.
Proof. by_envelope. Qed.
Lemma same_envelope_commitment e1 e2 : same_envelope e1 e2 -> RequestCommitment e1 = RequestCommitment e2.
Proof. by_envelope. Qed.
Lemma same_envelope_facts e1 e2 : same_envelope e1 e2 ->
  ComputerID e1 = ComputerID e2 /\ Kind e1 = Kind e2 /\ Sequence e1 = Sequence e2 /\ PreviousHead e1 = PreviousHead e2.
Proof. by_envelope. Qed.

(** Pass the refused guards of a definition that returned. *)
Local Ltac drop_guards H :=
  repeat match type of H with (if ?b then Err _ else _) = Ok _ => destruct b; [discriminate H|] end.

(** The input enters the new head only as the desired state. *)
Lemma Reduce_determined h e i1 i2 n1 n2 :
  Reduce h e i1 = Ok n1 -> Reduce h e i2 = Ok n2 ->
  DesiredStateCommitment n1 = DesiredStateCommitment n2 -> n1 = n2.
Proof.
  unfold Reduce. destruct (Validate e) as [[]|]; [|done]. cbn [res_map_err].
  destruct (Digest e) as [d|]; [|done]. cbn [res_map_err]. destruct h as [c|].
  - destruct (_ || _ || _); [done|]. destruct (_ || _ || _ || _ || _ || _); [done|].
    unfold reduceKind. destruct (Kind e); intros H1 H2 Hd; drop_guards H1; drop_guards H2;
      try discriminate; injection H1 as <-; injection H2 as <-; cbn in Hd; congruence.
  - unfold reduceGenesis. intros H1 H2 Hd. drop_guards H1. drop_guards H2.
    injection H1 as <-. injection H2 as <-. cbn in Hd. congruence.
Qed.

(** The text of a request commitment. *)
Definition commit_fields (e : Event) (i : TransitionInput) (pin : string) (pins : list string) := [
  ("event_intent", requestIntent e i); ("pin_intent_commitment", JStr pin);
  ("payload_pin_receipt_digests", JStrs pins)].
Definition commit_json (e : Event) (i : TransitionInput) (pin : string) (pins : list string) : json :=
  JObj (commit_fields e i pin pins).
Definition commit_text (e : Event) (i : TransitionInput) (pin : string) (pins : list string) : string :=
  ok_or "" (CanonicalJSON (commit_json e i pin pins)).

Lemma commit_json_envelope e1 e2 i pin pins : same_envelope e1 e2 -> commit_json e1 i pin pins = commit_json e2 i pin pins.
Proof. intros He. unfold commit_json, commit_fields. by rewrite (requestIntent_envelope _ _ _ He). Qed.
Lemma commit_text_envelope e1 e2 i pin pins : same_envelope e1 e2 -> commit_text e1 i pin pins = commit_text e2 i pin pins.
Proof. intros He. unfold commit_text. by rewrite (commit_json_envelope _ _ _ _ _ He). Qed.
Lemma ComputeRequestCommitment_envelope e1 e2 i pin pins : same_envelope e1 e2 ->
  ComputeRequestCommitment e1 i pin pins = ComputeRequestCommitment e2 i pin pins.
Proof. intros He. unfold ComputeRequestCommitment. by rewrite (requestIntent_envelope _ _ _ He). Qed.

Lemma ComputeRequestCommitment_inv e i pin pins c :
  ComputeRequestCommitment e i pin pins = Ok c ->
  CanonicalJSON (commit_json e i pin pins) = Ok (commit_text e i pin pins) /\ c = sha256_hex (commit_text e i pin pins).
Proof.
  unfold ComputeRequestCommitment, commit_text, commit_json, commit_fields. destruct (CanonicalJSON _) as [b|]; [|done]. by intros [= <-].
Qed.

Lemma intent_distinct e i : distinct_names (requestIntent e i) = true.
Proof.
  unfold requestIntent. cbn [distinct_names]. apply andb_true_iff. split; [vm_compute; reflexivity|].
  cbn [forallb fst snd]. rewrite !distinct_JStrs. by vm_compute.
Qed.

Lemma commit_distinct e i pin pins : distinct_names (commit_json e i pin pins) = true.
Proof.
  unfold commit_json, commit_fields. cbn [distinct_names]. apply andb_true_iff. split; [vm_compute; reflexivity|].
  cbn [forallb fst snd]. by rewrite intent_distinct, distinct_JStrs.
Qed.

Lemma intent_input_inj e1 i1 e2 i2 :
  sort_members (requestIntent e1 i1) = sort_members (requestIntent e2 i2) -> i1 = i2.
Proof.
  intros Hs. apply sort_members_inj in Hs; [|done|cbn [fmap list_fmap fst]; by_deciding].
  apply (f_equal (fun l => (nth 26 l ("", JNull)).2)) in Hs. cbn [map nth fst snd] in Hs.
  destruct i1 as [t1 r1], i2 as [t2 r2]. vm_compute in Hs. injection Hs. by intros -> ->.
Qed.

Lemma commit_input_inj e1 i1 p1 l1 e2 i2 p2 l2 :
  is_ok (CanonicalJSON (commit_json e1 i1 p1 l1)) = true -> is_ok (CanonicalJSON (commit_json e2 i2 p2 l2)) = true ->
  utf8 (commit_json e1 i1 p1 l1) = true -> utf8 (commit_json e2 i2 p2 l2) = true ->
  commit_text e1 i1 p1 l1 = commit_text e2 i2 p2 l2 -> i1 = i2.
Proof.
  unfold commit_text. pose proof (commit_distinct e1 i1 p1 l1) as D1. pose proof (commit_distinct e2 i2 p2 l2) as D2.
  remember (CanonicalJSON (commit_json e1 i1 p1 l1)) as r1 eqn:C1. remember (CanonicalJSON (commit_json e2 i2 p2 l2)) as r2 eqn:C2.
  destruct r1 as [b1|]; [|discriminate 1]. destruct r2 as [b2|]; [|discriminate 2]. cbn [ok_or]. intros _ _ U1 U2 ->.
  symmetry in C1, C2.
  pose proof (canonical_struct_inj (commit_fields e1 i1 p1 l1) (commit_fields e2 i2 p2 l2) _ eq_refl U1 U2 D1 D2 C1 C2) as Heq.
  apply (f_equal (fun l => (nth 0 l ("", JNull)).2)) in Heq. cbn [commit_fields map nth fst snd] in Heq.
  exact (intent_input_inj e1 i1 e2 i2 Heq).
Qed.
End Determined.

(** ** Chains *)

Definition chain_head (c : list CASRequest) : option Head :=
  match c with [] => None | q :: _ => Some (R_Next q) end.
Definition head_seq (h : option Head) : Z := match h with Some h => HeadSequence h | None => 0 end.
Definition head_digest (h : option Head) : string :=
  match h with Some h => CanonicalEventHead h | None => ZeroHead end.

Section Chains.
Context `{Uuid, Sha256}.

(** The texts hashed in the runs considered: the canonical events and the request
    commitments of what is appended. The theorems take them to be collision free. *)
Variable texts : string -> Prop.

Definition known_event (e : Event) : Prop := event_utf8 e /\ texts (event_text e).

Lemma known_body e body : known_event e -> ComputerEvent.CanonicalBytes e = Ok body -> texts body.
Proof. intros [_ Ht] Hb. unfold event_text in Ht. by rewrite Hb in Ht. Qed.

(** The request commitment of the event is that of the request. *)
Definition committed (q : CASRequest) : Prop :=
  exists pin, let e := R_Event q in let i := R_Input q in let pins := R_PayloadPinReceiptDigests q in
    ComputeRequestCommitment e i pin pins = Ok (RequestCommitment e) /\
    utf8 (commit_json e i pin pins) = true /\ texts (commit_text e i pin pins).

Lemma committed_envelope row q :
  same_envelope (R_Event q) (R_Event row) -> R_Input q = R_Input row ->
  R_PayloadPinReceiptDigests q = R_PayloadPinReceiptDigests row -> committed row -> committed q.
Proof.
  intros He Ei Ep (pin & Hc & Hu & Ht). exists pin. cbv zeta. rewrite Ei, Ep, (same_envelope_commitment _ _ He).
  rewrite (commit_json_envelope _ _ _ pin _ He), (commit_text_envelope _ _ _ pin _ He).
  split; [|split; assumption]. rewrite <-Hc. apply ComputeRequestCommitment_envelope, He.
Qed.

(** A chain of accepted requests, the newest first. *)
Inductive linked : list CASRequest -> Prop :=
  | linked_nil : linked []
  | linked_cons q c :
      linked c -> Reduce (chain_head c) (R_Event q) (R_Input q) = Ok (R_Next q) ->
      Digest (R_Event q) = Ok (R_EventDigest q) -> known_event (R_Event q) -> committed q -> linked (q :: c).

Lemma linked_suffix c l : linked c -> l `suffix_of` c -> linked l.
Proof.
  intros Hc [p ->]. induction p as [|q p IH]; [done|]. apply IH. by inversion Hc.
Qed.

(** One step of the reducer on a head that is well formed. *)
Lemma Reduce_step h e i n :
  (forall h', h = Some h' -> head_ok h') -> Reduce h e i = Ok n ->
  head_ok n /\ HeadSequence n = head_seq h + 1 /\ Sequence e = head_seq h + 1 /\
  PreviousHead e = head_digest h /\ Digest e = Ok (CanonicalEventHead n).
Proof.
  destruct h as [c|]; cbn [head_seq head_digest]; intros Hok Hr.
  - specialize (Hok c eq_refl). destruct (reduce_sequence _ _ _ _ Hok Hr) as [Hn He].
    pose proof (reduce_head_ok _ _ _ _ Hok Hr) as Hno.
    apply Reduce_Some_inv in Hr as (d & Hd & _ & _ & _ & _ & Hp & _ & Hk).
    apply reduceKind_common in Hk as (_ & -> & _). done.
  - pose proof (genesis_head_ok _ _ _ Hr) as Hno. apply Reduce_None_inv in Hr as (d & Hd & _ & Hr).
    unfold reduceGenesis in Hr. go_inv Hr. to_prop. done.
Qed.

Lemma linked_head c : linked c -> (forall h, chain_head c = Some h -> head_ok h) /\ head_seq (chain_head c) = Z.of_nat (length c).
Proof.
  induction 1 as [|q c Hc [IH1 IH2] Hr Hd Hk Hcom]; [done|].
  destruct (Reduce_step _ _ _ _ IH1 Hr) as (Hok & Hn & _). cbn [chain_head head_seq length] in *. split; [|lia].
  by intros ? [= <-].
Qed.

Lemma linked_cons_inv q c :
  linked (q :: c) ->
  linked c /\ Reduce (chain_head c) (R_Event q) (R_Input q) = Ok (R_Next q) /\
  Digest (R_Event q) = Ok (R_EventDigest q) /\ known_event (R_Event q) /\ committed q /\
  Sequence (R_Event q) = Z.of_nat (length c) + 1 /\ HeadSequence (R_Next q) = Z.of_nat (length c) + 1 /\
  CanonicalEventHead (R_Next q) = R_EventDigest q.
Proof.
  intros Hl. inversion Hl as [|? ? Hc Hr Hd Hk Hcom]; subst. destruct (linked_head c Hc) as [Hok Hs].
  destruct (Reduce_step _ _ _ _ Hok Hr) as (_ & Hn & He & _ & Hd'). rewrite Hs in *. split_and!; try done. congruence.
Qed.

(** Two suffixes of one chain with one length are the same. *)
Lemma suffix_unique {A} (l1 l2 c : list A) : l1 `suffix_of` c -> l2 `suffix_of` c -> length l1 = length l2 -> l1 = l2.
Proof. intros [p1 H1] [p2 H2] Hlen. rewrite H1 in H2. by apply app_inj_2 in H2 as [_ ->]. Qed.

Lemma suffix_of_elem (q : CASRequest) c : q ∈ c -> exists l, (q :: l) `suffix_of` c.
Proof. intros (p & l & ->)%list_elem_of_split. exists l. by exists p. Qed.

Lemma linked_elem c q :
  linked c -> q ∈ c -> exists l, (q :: l) `suffix_of` c /\ linked (q :: l).
Proof. intros Hc [l Hl]%suffix_of_elem. exists l. split; [done|]. by eapply linked_suffix. Qed.

(** The head of a chain at some moment of its past. *)
Definition at_head (c : list CASRequest) (h : option Head) : Prop :=
  exists l, l `suffix_of` c /\ h = chain_head l.

Lemma at_head_ok c h : linked c -> at_head c h ->
  (forall h', h = Some h' -> head_ok h') /\ 0 <= head_seq h <= Z.of_nat (length c).
Proof.
  intros Hc (l & Hl & ->). destruct (linked_head l) as [Hok ->]; [by eapply linked_suffix|]. split; [done|].
  apply suffix_length in Hl. lia.
Qed.

(** Heads of a chain are told apart by their number. *)
Lemma at_head_unique c h1 h2 : linked c -> at_head c h1 -> at_head c h2 -> head_seq h1 = head_seq h2 -> h1 = h2.
Proof.
  intros Hc (l1 & H1 & ->) (l2 & H2 & ->) Hs.
  destruct (linked_head l1) as [_ E1]; [by eapply linked_suffix|].
  destruct (linked_head l2) as [_ E2]; [by eapply linked_suffix|].
  rewrite (suffix_unique l1 l2 c); [done..|lia].
Qed.

(** What a verified receipt says about the chain: some entry has these facts. *)
Definition attested (c : list CASRequest) (q : CASRequest) : Prop := exists q', q' ∈ c /\ facts q = facts q'.

(** A prepared row: it reduces from a head of the chain, and either the chain has
    its facts or it commits to its own input. *)
Record row_ok (c : list CASRequest) (q : CASRequest) : Prop := {
  row_digest : Digest (R_Event q) = Ok (R_EventDigest q);
  row_known : known_event (R_Event q);
  row_reduces : exists h, at_head c h /\ Reduce h (R_Event q) (R_Input q) = Ok (R_Next q);
  row_binds : attested c q \/ committed q;
  row_pins : forallb ValidString (R_EventPinReceiptDigest q :: R_PayloadPinReceiptDigests q) = true;
}.

(** The texts of a row are UTF-8. *)
Lemma isSHA256_valid s : isSHA256 s = true -> ValidString s = true.
Proof. intros Hs. apply ValidString_ascii. by apply isSHA256_ascii. Qed.

Lemma head_ok_pending h : head_ok h -> ValidString (PendingTransitionRef h) = true.
Proof.
  intros Hok. destruct (decide (PendingTransitionRef h = "")) as [->|Hne]; [done|].
  rewrite <-(ok_pending h Hok Hne). apply isSHA256_valid, (ok_heads h Hok).
Qed.

Lemma utf8_member fs k v : utf8 (JObj fs) = true -> (k, v) ∈ fs -> utf8 v = true.
Proof.
  cbn [utf8]. rewrite forallb_forall. intros Hall Hin%list_elem_of_In. specialize (Hall _ Hin).
  by apply andb_true_iff in Hall as [_ Hv].
Qed.

(** The text of the member of an event at a place. *)
Lemma event_member_utf8 e n k s : event_utf8 e -> event_fields e !! n = Some (k, JStr s) -> ValidString s = true.
Proof. intros Hu Hn%list_elem_of_lookup_2. exact (utf8_member _ _ _ Hu Hn). Qed.

Lemma row_request_utf8 c q : linked c -> row_ok c q -> request_utf8 q.
Proof.
  intros Hc [Hd [Hu _] (h & Hh & Hr) _ Hp]. destruct (at_head_ok c h Hc Hh) as [Hok _].
  destruct (Reduce_step _ _ _ _ Hok Hr) as ([_ (_ & H1 & H2) [H3 H4] _ _] & _).
  pose proof (head_ok_pending _ (proj1 (Reduce_step _ _ _ _ Hok Hr))) as H5.
  pose proof (event_member_utf8 _ 2 _ _ Hu eq_refl) as U1. pose proof (event_member_utf8 _ 4 _ _ Hu eq_refl) as U2.
  pose proof (event_member_utf8 _ 5 _ _ Hu eq_refl) as U3. pose proof (event_member_utf8 _ 8 _ _ Hu eq_refl) as U4.
  apply Digest_shape in Hd.
  assert (utf8 (JStrs (R_EventPinReceiptDigest q :: R_PayloadPinReceiptDigests q)) = true) as U5.
  { unfold JStrs. cbn [utf8]. rewrite forallb_map. exact Hp. }
  unfold request_utf8, fact_values, eventHeadReceiptFields. cbn [map fst snd field_json utf8 forallb].
  by rewrite U1, U2, U3, U4, U5, H5, (isSHA256_valid _ Hd), (isSHA256_valid _ H1), (isSHA256_valid _ H2),
    (isSHA256_valid _ H3), (isSHA256_valid _ H4).
Qed.

Hypothesis texts_distinct : sha256_distinct texts.

Lemma digest_envelope e1 e2 d :
  known_event e1 -> known_event e2 -> Digest e1 = Ok d -> Digest e2 = Ok d -> same_envelope e1 e2.
Proof.
  intros [U1 T1] [U2 T2] D1 D2. destruct (digest_binding _ _ _ D1 D2 U1 U2) as [|(x & y & Hx & Hy & Hne & Heq)]; [done|].
  destruct Hne. assert (forall z, z ∈ [event_text e1; event_text e2] -> texts z) as Ht.
  { intros z [->|[->|[]%elem_of_nil]%elem_of_cons]%elem_of_cons; done. }
  apply texts_distinct; auto.
Qed.

Lemma committed_input q1 q2 : committed q1 -> committed q2 ->
  RequestCommitment (R_Event q1) = RequestCommitment (R_Event q2) -> R_Input q1 = R_Input q2.
Proof.
  intros (p1 & C1 & U1 & T1) (p2 & C2 & U2 & T2) Hc.
  apply ComputeRequestCommitment_inv in C1 as [B1 E1], C2 as [B2 E2].
  assert (commit_text (R_Event q1) (R_Input q1) p1 (R_PayloadPinReceiptDigests q1) =
          commit_text (R_Event q2) (R_Input q2) p2 (R_PayloadPinReceiptDigests q2)) as Ht.
  { apply texts_distinct; congruence. }
  eapply commit_input_inj; [| |exact U1|exact U2|exact Ht]; by rewrite ?B1, ?B2.
Qed.

(** A row with the digest of an entry of the chain leads to that entry's head. *)
Lemma row_matches_entry c q q' :
  linked c -> row_ok c q -> q' ∈ c -> R_EventDigest q = R_EventDigest q' -> R_Next q = R_Next q'.
Proof.
  intros Hc [Hd Hk (h & Hh & Hr) Hb _] Hin Heq. destruct (linked_elem c q' Hc Hin) as (l & Hl & Hql).
  apply linked_cons_inv in Hql as (Hll & Hr' & Hd' & Hk' & Hcom' & Hs' & Hn' & _). rewrite Heq in Hd.
  pose proof (digest_envelope _ _ _ Hk Hk' Hd Hd') as Henv.
  pose proof (same_envelope_fields _ _ Henv) as [Hseq _].
  destruct (at_head_ok c h Hc Hh) as [Hok _]. destruct (Reduce_step _ _ _ _ Hok Hr) as (_ & _ & Hs & _).
  assert (h = chain_head l) as ->.
  { apply (at_head_unique c); [done|done| |].
    - exists l. split; [|done]. etrans; [|exact Hl]. by exists [q'].
    - destruct (linked_head l Hll) as [_ ->]. lia. }
  rewrite (Reduce_envelope _ _ _ _ Henv) in Hr. destruct Hb as [(q2 & Hin2 & Hf)|Hcom].
  - destruct (linked_elem c q2 Hc Hin2) as (l2 & Hl2 & Hql2).
    apply linked_cons_inv in Hql2 as (_ & _ & _ & _ & _ & Hs2 & _). unfold facts in Hf. injection Hf as _ _ _ Hfs _ _ _ _ _ _ _ Hdes _.
    assert (q' :: l = q2 :: l2) as [= <- <-] by (apply (suffix_unique _ _ c); [done..|]; cbn; lia).
    eapply Reduce_determined; [exact Hr|exact Hr'|congruence].
  - rewrite (committed_input q q') in Hr; [congruence|done|done|]. by apply same_envelope_commitment.
Qed.
End Chains.

(** ** What an observer sees of a world *)

Record View := {
  chain : list CASRequest;
  local : option Head;
  rows : list CASRequest;
  finalized : list string;
}.

(** The row is the next one of the local projection. *)
Definition follows (h : option Head) (q : CASRequest) : Prop :=
  Sequence (R_Event q) = wrap_u64 (head_seq h + 1) /\ PreviousHead (R_Event q) = head_digest h.

(** A row as the store reads it back: the fields no table keeps are rebuilt. *)
Definition read_back (row q : CASRequest) : Prop :=
  R_EventDigest q = R_EventDigest row /\ same_envelope (R_Event q) (R_Event row) /\ R_Input q = R_Input row /\
  R_Next q = R_Next row /\ R_EventPinReceiptDigest q = R_EventPinReceiptDigest row /\
  R_PayloadPinReceiptDigests q = R_PayloadPinReceiptDigests row.

Section Views.
Context `{Uuid, Sha256} (texts : string -> Prop).

(** A finalized event is an entry of the chain the local head has reached. *)
Definition finalized_ok (v : View) (d : string) : Prop :=
  exists q, q ∈ chain v /\ R_EventDigest q = d /\ Sequence (R_Event q) <= head_seq (local v).

Record Inv (v : View) : Prop := {
  inv_linked : linked texts (chain v);
  inv_local : at_head (chain v) (local v);
  inv_rows : Forall (row_ok texts (chain v)) (rows v);
  inv_finalized : Forall (finalized_ok v) (finalized v);
}.

(** The moves of a view. The platform's chain may grow at any call. *)
Definition grows (v v' : View) : Prop := chain v `suffix_of` chain v' /\ linked texts (chain v').

Definition same (v v' : View) : Prop :=
  grows v v' /\ local v' = local v /\ rows v' = rows v /\ finalized v' = finalized v.

Definition prepared (q : CASRequest) (v v' : View) : Prop :=
  grows v v' /\ local v' = local v /\ (forall d, d ∈ finalized v' -> d ∈ finalized v) /\
  (forall x, x ∈ rows v' -> x ∈ rows v \/ read_back q x) /\ Digest (R_Event q) = Ok (R_EventDigest q).

Definition discarded (v v' : View) : Prop :=
  grows v v' /\ local v' = local v /\ (forall d, d ∈ finalized v' -> d ∈ finalized v) /\
  forall q, q ∈ rows v' -> q ∈ rows v.

Definition advanced (d : string) (v v' : View) : Prop :=
  grows v v' /\ (forall d', d' ∈ finalized v' -> d' = d \/ d' ∈ finalized v) /\
  (forall q, q ∈ rows v' -> q ∈ rows v) /\
  exists row, row ∈ rows v /\ R_EventDigest row = d /\ follows (local v) row /\ local v' = Some (R_Next row).

Lemma same_view_refl v : linked texts (chain v) -> same v v.
Proof. intros Hl. by repeat split. Qed.

(** ** Facts that the growth of the chain keeps *)

Lemma at_head_suffix c c' h : c `suffix_of` c' -> at_head c h -> at_head c' h.
Proof. intros Hc (l & Hl & ->). exists l. split; [by etrans|done]. Qed.

Lemma elem_suffix (c c' : list CASRequest) q : c `suffix_of` c' -> q ∈ c -> q ∈ c'.
Proof. intros [p ->] Hq. apply elem_of_app. by right. Qed.

Lemma attested_suffix c c' q : c `suffix_of` c' -> attested c q -> attested c' q.
Proof. intros Hc (q' & Hq & Hf). exists q'. split; [by eapply elem_suffix|done]. Qed.

Lemma row_ok_suffix c c' q : c `suffix_of` c' -> row_ok texts c q -> row_ok texts c' q.
Proof.
  intros Hc [H1 H2 (h & Hh & Hr) H4 H5]. split; [done|done| | |done].
  - exists h. split; [by eapply at_head_suffix|done].
  - destruct H4 as [Ha|]; [left; by eapply attested_suffix|by right].
Qed.

(** A row as the store reads it back stands for its row. *)
Lemma read_back_row c row q : read_back row q -> row_ok texts c row -> row_ok texts c q.
Proof.
  intros (Ed & He & Ei & En & Ep & Epp) [Hd [Hu Ht] (h & Hh & Hr) Hb Hp]. split.
  - by rewrite (Digest_envelope _ _ He), Ed.
  - split; [|by rewrite (event_text_envelope _ _ He)]. unfold event_utf8. by rewrite (event_json_envelope _ _ He).
  - exists h. split; [done|]. by rewrite (Reduce_envelope _ _ _ _ He), Ei, En.
  - destruct Hb as [(q' & Hq' & Hf)|(pin & Hc & Hcu & Hct)]; [left|right].
    + exists q'. split; [done|]. rewrite <-Hf. destruct (same_envelope_facts _ _ He) as (E1 & E2 & E3 & E4).
      unfold facts. by rewrite E1, E2, E3, E4, (same_envelope_commitment _ _ He), Ed, En, Ep, Epp.
    + apply (committed_envelope texts row q); [done..|]. exists pin. by split_and!.
  - by rewrite Ep, Epp.
Qed.

Lemma rows_suffix c c' l : c `suffix_of` c' -> Forall (row_ok texts c) l -> Forall (row_ok texts c') l.
Proof. intros Hc Hl. eapply Forall_impl; [exact Hl|]. intros q. by apply row_ok_suffix. Qed.

Lemma finalized_grows v v' l :
  chain v `suffix_of` chain v' -> head_seq (local v) <= head_seq (local v') ->
  Forall (finalized_ok v) l -> Forall (finalized_ok v') l.
Proof.
  intros Hc Hs Hl. eapply Forall_impl; [exact Hl|]. intros d (q & Hq & Hd & Hle). exists q.
  split; [by eapply elem_suffix|]. split; [done|lia].
Qed.

Lemma chain_head_at c : at_head c (chain_head c).
Proof. by exists c. Qed.

(** ** Every move keeps the invariant *)

Lemma Inv_discarded v v' : Inv v -> discarded v v' -> Inv v'.
Proof.
  intros [H1 H2 H3 H4] ([Hc Hl] & El & Ef & Er). split; [done|..].
  - rewrite El. by eapply at_head_suffix.
  - apply Forall_forall. intros q Hq%Er. rewrite Forall_forall in H3. eapply row_ok_suffix; [done|by apply H3].
  - eapply finalized_grows; [done|by rewrite El|]. eapply Forall_among; [exact Ef|done].
Qed.

Lemma Inv_same v v' : Inv v -> same v v' -> Inv v'.
Proof.
  intros Hi (Hg & El & Er & Ef). eapply Inv_discarded; [exact Hi|]. split_and!; [done|done| |]; intros q.
  - by rewrite Ef.
  - by rewrite Er.
Qed.

Lemma Inv_prepared q v v' : Inv v -> prepared q v v' -> row_ok texts (chain v) q -> Inv v'.
Proof.
  intros [H1 H2 H3 H4] ([Hc Hl] & El & Ef & Er & _) Hq. split; [done|..].
  - rewrite El. by eapply at_head_suffix.
  - apply Forall_forall. intros x [Hx|Hx]%Er; [|by eapply row_ok_suffix, read_back_row].
    rewrite Forall_forall in H3. eapply row_ok_suffix; [done|by apply H3].
  - eapply finalized_grows; [done|by rewrite El|]. eapply Forall_among; [exact Ef|done].
Qed.

Hypothesis texts_distinct : sha256_distinct texts.

(** A row whose digest the chain has reached is an entry of the chain. *)
Lemma row_entry v row q :
  Inv v -> row ∈ rows v -> attested (chain v) q -> R_EventDigest row = R_EventDigest q ->
  exists q', q' ∈ chain v /\ R_EventDigest q' = R_EventDigest row /\ Sequence (R_Event q') = Sequence (R_Event row) /\
    R_Next q' = R_Next row.
Proof.
  intros [Hl _ Hrows _] Hrow (q' & Hq' & Hf) Hd. rewrite Forall_forall in Hrows. specialize (Hrows _ Hrow).
  assert (R_EventDigest row = R_EventDigest q') as Hd' by (unfold facts in Hf; congruence).
  exists q'. split_and!; [done|done| |symmetry; by eapply row_matches_entry].
  destruct Hrows as [Hrd Hrk _ _ _]. destruct (linked_elem _ _ _ Hl Hq') as (l & _ & Hql).
  apply linked_cons_inv in Hql as (_ & _ & Hqd & Hqk & _). rewrite Hd' in Hrd.
  apply (same_envelope_fields (R_Event q') (R_Event row)). by eapply digest_envelope.
Qed.

Lemma Inv_advanced q v v' : Inv v -> attested (chain v) q -> advanced (R_EventDigest q) v v' -> Inv v'.
Proof.
  intros Hi Ha ([Hc Hl] & Ef & Er & row & Hrow & Hd & [Hseq _] & El).
  destruct (row_entry v row q Hi Hrow Ha Hd) as (q' & Hq' & Hdq & Hs & Hn). destruct Hi as [H1 H2 H3 H4].
  destruct (linked_elem _ _ _ H1 Hq') as (l & Hsuf & Hql). pose proof Hql as Hql'.
  apply linked_cons_inv in Hql as (_ & _ & _ & _ & _ & Hsl & Hnl & _).
  assert (at_head (chain v) (Some (R_Next row))) as Hat.
  { exists (q' :: l). split; [done|]. cbn [chain_head]. by rewrite Hn. }
  destruct (at_head_ok _ _ _ H1 H2) as [Hok Hrange].
  assert (head_seq (local v) <= head_seq (local v')) as Hle.
  { rewrite El. cbn [head_seq]. rewrite <-Hn, Hnl, <-Hsl, Hs, Hseq.
    destruct (local v) as [h|]; cbn [head_seq] in *; [|by compute].
    destruct (ok_sequence h (Hok h eq_refl)) as [_ Hlt].
    destruct (wrap_u64_succ (HeadSequence h)) as [E|E]; [unfold is_u64; lia|lia|].
    assert (Sequence (R_Event row) = 0) by congruence. lia. }
  split; [done|..].
  - rewrite El. by eapply at_head_suffix.
  - apply Forall_forall. intros x Hx%Er. rewrite Forall_forall in H3. eapply row_ok_suffix; [done|by apply H3].
  - apply Forall_forall. intros x [->|Hx]%Ef.
    2: { revert x Hx. rewrite <-Forall_forall. by eapply finalized_grows. }
    exists q'. rewrite El. cbn [head_seq]. split_and!; [by eapply elem_suffix|congruence|]. rewrite <-Hn, Hnl. lia.
Qed.
End Views.

(** ** The contract *)
Section Contract.
Context {W E : Type} `{Uuid, Sha256} {D : Deps W E}.
Variable texts : string -> Prop.
Variable cid : string.
Variable view : W -> View.
(** What an implementation keeps of its own. *)
Variable ok : W -> Prop.

Abbreviation Inv v := (Inv texts v).
Notation same v v' := (same texts v v').

Definition Good (w : W) : Prop := Inv (view w) /\ ok w.

(** A call that leaves the view as it is, but for the growth of the chain. *)
Class Quiet {A} (d : dep W E A) : Prop :=
  quiet : forall w w' r, Good w -> d w = (w', r) -> ok w' /\ same (view w) (view w').

(** A finalization with a receipt of an entry of the chain moves the local head to
    the row with the digest, or nothing; it succeeds without a move only when the
    event was finalized before. *)
Definition finalizes (f : string -> string -> Receipt -> option Batch -> dep W E unit) : Prop :=
  forall q receipt batch w w' r, Good w -> attested (chain (view w)) q ->
    f cid (R_EventDigest q) receipt batch w = (w', r) ->
    ok w' /\ (advanced texts (R_EventDigest q) (view w) (view w') \/
             same (view w) (view w') /\ (r = Ok tt -> R_EventDigest q ∈ finalized (view w'))).

Class Laws := {
  law_Head w w' r : Good w -> cas_Head cid w = (w', r) ->
    ok w' /\ same (view w) (view w') /\ forall h, r = Ok h -> h = chain_head (chain (view w'));
  (** The receipt of a swap, once it verifies for a request, means that the chain
      has the facts of the request. *)
  law_CompareAndSwap q w w' r : Good w -> ComputerID (R_Event q) = cid -> known_event texts (R_Event q) ->
    committed texts q \/ attested (chain (view w)) q -> cas_CompareAndSwap q w = (w', r) ->
    ok w' /\ same (view w) (view w') /\
    forall receipt q', r = Ok receipt -> request_utf8 q' -> verify_receipt receipt q' = Ok tt ->
      attested (chain (view w')) q';
  law_local w w' r : Good w -> proj_Head cid w = (w', r) ->
    ok w' /\ same (view w) (view w') /\ forall h, r = Ok h -> h = local (view w');
  law_Prepare q w w' r : Good w ->
    (Digest (R_Event q) = Ok (R_EventDigest q) -> row_ok texts (chain (view w)) q) -> proj_Prepare q w = (w', r) ->
    ok w' /\ (same (view w) (view w') \/ prepared texts q (view w) (view w')) /\
    (r = Ok tt -> Digest (R_Event q) = Ok (R_EventDigest q));
  law_Prepared w w' r : Good w -> proj_Prepared cid w = (w', r) ->
    ok w' /\ same (view w) (view w') /\
    forall qs q, r = Ok qs -> q ∈ qs ->
      ComputerID (R_Event q) = cid /\ exists row, row ∈ rows (view w') /\ read_back row q;
  law_Discard d w w' r : Good w -> proj_DiscardPrepared cid d w = (w', r) ->
    ok w' /\ discarded texts (view w) (view w');
  law_Finalize : finalizes (fun c d r _ => proj_Finalize c d r);
  law_FinalizeBatch f : proj_FinalizeBatch = Some f -> finalizes f;
  law_FinalizeReplay f : proj_FinalizeReplayBatch = Some f -> finalizes f;
  law_DryRun f b : proj_DryRun = Some f -> Quiet (f cid b);
  law_CommitReplay f : proj_CommitReplay = Some f -> Quiet f;
  law_pin_Event b c : texts b -> Quiet (pin_Event cid b c);
  law_pin_NonPrivate f p m c i : pin_NonPrivate = Some f -> Quiet (f cid p m c i);
  law_pin_PreparePrivate f e m p : pin_PreparePrivate = Some f -> Quiet (f cid e m p);
  law_pin_Private e v i :: Quiet (pin_Private cid e v i);
  law_resolve f e refs : dep_resolve = Some f -> forall c, Quiet (f c e refs);
  law_now w : Good w -> ok (dep_now w).1 /\ same (view w) (view (dep_now w).1);
  law_expired w : Good w -> ok (dep_expired w).1 /\ same (view w) (view (dep_expired w).1);
}.

(** A record of the event source whose receipt verifies is an entry of the chain. *)
Definition good_record (c : list CASRequest) (record : DurableEvent) : Prop :=
  verify_receipt (D_Receipt record) (D_Request record) = Ok tt ->
  let q := D_Request record in
  attested c q /\ known_event texts (R_Event q) /\
  forallb ValidString (R_EventPinReceiptDigest q :: R_PayloadPinReceiptDigests q) = true.

Definition serves (d : dep W E (list DurableEvent)) : Prop :=
  forall w w' r, Good w -> d w = (w', r) ->
    ok w' /\ same (view w) (view w') /\ forall records, r = Ok records -> Forall (good_record (chain (view w'))) records.

Class SourceLaws (source : EventSource W E) := {
  law_Events after : serves (src_Events source cid after);
  law_EventsPage f after n : src_EventsPage source = Some f -> serves (f cid after n);
}.

(** ** A program logic for the appender's operations *)

(** Started where the invariant and [F] hold, [m] keeps the invariant and the
    computer, the chain only grows, and [G] holds of what [m] returns. *)
Definition spec {A} (F : View -> Prop) (m : M W E A) (G : A -> View -> Prop) : Prop :=
  forall a w, A_computerID a = cid -> Good w -> F (view w) ->
    let '((a', w'), r) := m (a, w) in
    A_computerID a' = cid /\ Good w' /\ chain (view w) `suffix_of` chain (view w') /\
    match r with Ok x => G x (view w') | Err _ => True end.

(** What a quiet call preserves. *)
Class Stable (F : View -> Prop) : Prop := stable : forall v v', same v v' -> F v -> F v'.

#[export] Instance stable_pure P : Stable (fun _ => P).
Proof. by intros v v' _. Qed.
#[export] Instance stable_and F G : Stable F -> Stable G -> Stable (fun v => F v /\ G v).
Proof. intros HF HG v v' Hs [Hf Hg]. split; [by eapply HF|by eapply HG]. Qed.
#[export] Instance stable_local h : Stable (fun v => local v = h).
Proof. intros v v' (_ & -> & _). done. Qed.
#[export] Instance stable_at_head h : Stable (fun v => at_head (chain v) h).
Proof. intros v v' ([Hc _] & _). by apply at_head_suffix. Qed.
#[export] Instance stable_attested q : Stable (fun v => attested (chain v) q).
Proof. intros v v' ([Hc _] & _). by apply attested_suffix. Qed.
#[export] Instance stable_row_ok q : Stable (fun v => row_ok texts (chain v) q).
Proof. intros v v' ([Hc _] & _). by apply row_ok_suffix. Qed.
#[export] Instance stable_rows qs : Stable (fun v => Forall (row_ok texts (chain v)) qs).
Proof. intros v v' ([Hc _] & _). by apply rows_suffix. Qed.
#[export] Instance stable_records l : Stable (fun v => Forall (good_record (chain v)) l).
Proof.
  intros v v' ([Hc _] & _) Hl. eapply Forall_impl; [exact Hl|]. intros x Hx Hv. destruct (Hx Hv) as (Ha & Hk).
  split; [by eapply attested_suffix|done].
Qed.
#[export] Instance stable_extends c : Stable (fun v => c `suffix_of` chain v).
Proof. intros v v' ([Hc _] & _) Hs. by etrans. Qed.

(** What also outlives a preparation and a discard. *)
Class Lasting (F : View -> Prop) : Prop :=
  lasting : forall v v', grows texts v v' -> local v' = local v -> F v -> F v'.

#[export] Instance lasting_pure P : Lasting (fun _ => P).
Proof. by intros v v' _ _. Qed.
#[export] Instance lasting_and F G : Lasting F -> Lasting G -> Lasting (fun v => F v /\ G v).
Proof. intros HF HG v v' Hg Hl [Hf Hg']. split; [by eapply HF|by eapply HG]. Qed.
#[export] Instance lasting_local h : Lasting (fun v => local v = h).
Proof. intros v v' _ ->. done. Qed.
#[export] Instance lasting_at_head h : Lasting (fun v => at_head (chain v) h).
Proof. intros v v' [Hc _] _. by apply at_head_suffix. Qed.
#[export] Instance lasting_attested q : Lasting (fun v => attested (chain v) q).
Proof. intros v v' [Hc _] _. by apply attested_suffix. Qed.
#[export] Instance lasting_row_ok q : Lasting (fun v => row_ok texts (chain v) q).
Proof. intros v v' [Hc _] _. by apply row_ok_suffix. Qed.
#[export] Instance lasting_rows qs : Lasting (fun v => Forall (row_ok texts (chain v)) qs).
Proof. intros v v' [Hc _] _. by apply rows_suffix. Qed.
#[export] Instance lasting_records l : Lasting (fun v => Forall (good_record (chain v)) l).
Proof.
  intros v v' [Hc _] _ Hl. eapply Forall_impl; [exact Hl|]. intros x Hx Hv. destruct (Hx Hv) as (Ha & Hk).
  split; [by eapply attested_suffix|done].
Qed.
#[export] Instance lasting_extends c : Lasting (fun v => c `suffix_of` chain v).
Proof. intros v v' [Hc _] _ Hs. by etrans. Qed.

Lemma spec_conseq {A} (F F' : View -> Prop) (m : M W E A) (G G' : A -> View -> Prop) :
  spec F m G -> (forall v, Inv v -> F' v -> F v) -> (forall x v, Inv v -> G x v -> G' x v) -> spec F' m G'.
Proof.
  intros Hm HF HG a w Ha Hi Hf. specialize (Hm a w Ha Hi (HF _ (proj1 Hi) Hf)). destruct (m (a, w)) as [[a' w'] r].
  destruct Hm as (H1 & H2 & H3 & H4). split_and!; try done. destruct r; [|done]. apply HG; [apply H2|done].
Qed.

Lemma spec_ret {A} (F : View -> Prop) (x : A) (G : A -> View -> Prop) :
  (forall v, Inv v -> F v -> G x v) -> spec F (ret x) G.
Proof. intros HG a w Ha Hi Hf. cbn. split_and!; [done..|]. apply HG; [apply Hi|done]. Qed.

Lemma spec_fail {A} F e (G : A -> View -> Prop) : spec F (fail e) G.
Proof. intros a w Ha Hi Hf. by cbn. Qed.

Lemma spec_bind {A B} F (m : M W E A) (k : A -> M W E B) Q G :
  spec F m Q -> (forall x, spec (Q x) (k x) G) -> spec F (bind m k) G.
Proof.
  intros Hm Hk a w Ha Hi Hf. specialize (Hm a w Ha Hi Hf). unfold bind. destruct (m (a, w)) as [[a1 w1] r].
  destruct Hm as (H1 & H2 & H3 & H4). destruct r as [x|e]; [|done].
  specialize (Hk x a1 w1 H1 H2 H4). destruct (k x (a1, w1)) as [[a2 w2] r2]. destruct Hk as (K1 & K2 & K3 & K4).
  split_and!; try done. by etrans.
Qed.

(** What the chain was stays part of it. *)
Lemma spec_frame {A} c F (m : M W E A) G :
  spec F m G -> spec (fun v => c `suffix_of` chain v /\ F v) m (fun x v => c `suffix_of` chain v /\ G x v).
Proof.
  intros Hm a w Ha Hi [Hc Hf]. specialize (Hm a w Ha Hi Hf). destruct (m (a, w)) as [[a' w'] r].
  destruct Hm as (H1 & H2 & H3 & H4). split_and!; try done. destruct r; [|done]. split; [by etrans|done].
Qed.

Lemma spec_pure {A} P F (m : M W E A) G : (P -> spec F m G) -> spec (fun v => P /\ F v) m G.
Proof. intros Hm a w Ha Hi [HP Hf]. by apply Hm. Qed.

Lemma spec_get F G : (forall a v, A_computerID a = cid -> Inv v -> F v -> G a v) -> spec F get G.
Proof. intros HG a w Ha Hi Hf. cbn. split_and!; [done..|]. apply HG; [done|apply Hi|done]. Qed.

Lemma spec_modify F f : (forall a, A_computerID (f a) = A_computerID a) -> spec F (modify f) (fun _ => F).
Proof. intros Hfa a w Ha Hi Hf. cbn. by rewrite Hfa. Qed.

Lemma spec_lift {X A} F (wrap : X -> append_error E) (r : res X A) :
  spec F (lift wrap r) (fun x v => r = Ok x /\ F v).
Proof. intros a w Ha Hi Hf. cbn. destruct r; by cbn. Qed.

Lemma spec_attempt {A} F (m : M W E A) G :
  spec F m G -> spec F (attempt m) (fun r v => match r with Ok x => G x v | Err _ => True end).
Proof.
  intros Hm a w Ha Hi Hf. specialize (Hm a w Ha Hi Hf). unfold attempt. destruct (m (a, w)) as [[a' w'] r].
  by cbn.
Qed.

Lemma spec_if {A} F (b : bool) (m1 m2 : M W E A) G :
  (b = true -> spec F m1 G) -> (b = false -> spec F m2 G) -> spec F (if b then m1 else m2) G.
Proof. destruct b; auto. Qed.

Lemma Good_same w w' : Good w -> ok w' -> same (view w) (view w') -> Good w'.
Proof. intros [Hi _] Hok Hs. split; [by eapply Inv_same|done]. Qed.

Lemma same_suffix v v' : same v v' -> chain v `suffix_of` chain v'.
Proof. by intros ([Hc _] & _). Qed.

Lemma spec_call {A} F what (d : dep W E A) :
  Quiet d -> Stable F -> spec F (call what d) (fun _ => F).
Proof.
  intros Hq HF a w Ha Hi Hf. unfold call. cbn [fst snd]. destruct (d w) as [w' r] eqn:Ed. cbn.
  destruct (Hq w w' r Hi Ed) as [Hok Hs]. split_and!; [done|by eapply Good_same|by apply same_suffix|].
  destruct r; [|done]. by eapply HF.
Qed.

Lemma spec_read {A} F (f : W -> W * A) :
  (forall w, Good w -> ok (f w).1 /\ same (view w) (view (f w).1)) -> Stable F -> spec F (read f) (fun _ => F).
Proof.
  intros Hq HF a w Ha Hi Hf. unfold read. cbn [fst snd]. destruct (Hq w Hi) as [Hok Hs]. destruct (f w) as [w' r]. cbn in *.
  split_and!; [done|by eapply Good_same|by apply same_suffix|]. by eapply HF.
Qed.
End Contract.

Arguments Laws {W E _ _ D} texts cid view ok.
Arguments Quiet {W E _ _} texts view ok {A} d.
Arguments SourceLaws {W E _ _ D} texts cid view ok source.
Arguments good_record {W E _ D} texts c record.
Arguments serves {W E _ _ D} texts view ok d.
Arguments Good {W _ _} texts view ok w.
Arguments law_Events {W E _ _ D texts cid view ok source SourceLaws}.
Arguments law_EventsPage {W E _ _ D texts cid view ok source SourceLaws}.
Arguments law_Head {W E _ _ D texts cid view ok Laws}.
Arguments law_CompareAndSwap {W E _ _ D texts cid view ok Laws}.
Arguments law_local {W E _ _ D texts cid view ok Laws}.
Arguments law_Prepare {W E _ _ D texts cid view ok Laws}.
Arguments law_Prepared {W E _ _ D texts cid view ok Laws}.
Arguments law_Discard {W E _ _ D texts cid view ok Laws}.
Arguments law_Finalize {W E _ _ D texts cid view ok Laws}.
Arguments law_FinalizeBatch {W E _ _ D texts cid view ok Laws}.
Arguments law_FinalizeReplay {W E _ _ D texts cid view ok Laws}.
Arguments law_DryRun {W E _ _ D texts cid view ok Laws}.
Arguments law_CommitReplay {W E _ _ D texts cid view ok Laws}.
Arguments law_pin_Event {W E _ _ D texts cid view ok Laws}.
Arguments law_pin_NonPrivate {W E _ _ D texts cid view ok Laws}.
Arguments law_pin_PreparePrivate {W E _ _ D texts cid view ok Laws}.
Arguments law_pin_Private {W E _ _ D texts cid view ok Laws}.
Arguments law_resolve {W E _ _ D texts cid view ok Laws}.
Arguments law_now {W E _ _ D texts cid view ok Laws}.
Arguments law_expired {W E _ _ D texts cid view ok Laws}.
End EventContract.
