(* ===== verification/EventSync.v ===== *)
(** * EventSync: the appender against the contract of its dependencies

    Whatever calls fail and whatever other realizations append meanwhile, the
    operations of [EventAppender] keep the invariant of [EventContract]: the local
    projection is at a head of the platform's chain. An append that succeeds is
    in the chain and is the local head; a reconstruction that succeeds has caught
    up with the chain; replaying takes a bounded number of pages. *)
From S2P Require Import Prelude GoStrings Sha256 GoUuid GoTime GoJson CanonicalJson JsonRoundTrip ComputerEvent EventReceipt ProjectionBatch EventAppender EventContract.
Import ComputerEvent EventReceipt ProjectionBatch EventAppender EventContract.

Module EventSync.
Local Open Scope Z_scope.
(** Keep the texts of events folded: they are large. *)
#[local] Opaque event_utf8 commit_json Reduce Digest Validate ComputePinIntentCommitment ComputeRequestCommitment CanonicalJSON
  ComputerEvent.CanonicalBytes EventReceipt.CanonicalBytes requestIntent event_text commit_text sha256_distinct request_utf8.

Section Operations.
Context {W E : Type} `{Uuid, Sha256} {D : Deps W E}.
Context {texts : string -> Prop} {cid : string} {view : W -> View} {ok : W -> Prop} {L : Laws texts cid view ok}.
Hypothesis texts_distinct : sha256_distinct texts.

Abbreviation Inv v := (Inv texts v).
Abbreviation Good := (Good texts view ok).
Abbreviation spec := (spec (E := E) texts cid view ok).
Abbreviation Stable := (Stable texts).
Abbreviation Lasting := (Lasting texts).

(** A comparison that did not make the operation fail. *)
Lemma passed {A} `{EqDecision A} (x y : A) : (x != y) = false -> x = y.
Proof. by intros Hb%negb_false_iff%bool_decide_eq_true_1. Qed.

(** *** The dependencies *)

Lemma spec_cas_Head F what : Stable F ->
  spec F (call what (cas_Head cid)) (fun h v => at_head (chain v) h /\ F v).
Proof.
  intros HF a w Ha Hi Hf. unfold call. cbn [fst snd]. destruct (cas_Head cid w) as [w' r] eqn:Ed.
  destruct (law_Head w w' r Hi Ed) as (Hok & Hs & Hh). cbn. split_and!; [done|by eapply Good_same|by eapply same_suffix|].
  destruct r as [h|]; cbn; [|done]. split; [rewrite (Hh h eq_refl); apply chain_head_at|by eapply HF].
Qed.

Lemma spec_proj_Head F what : Stable F ->
  spec F (call what (proj_Head cid)) (fun h v => local v = h /\ F v).
Proof.
  intros HF a w Ha Hi Hf. unfold call. cbn [fst snd]. destruct (proj_Head cid w) as [w' r] eqn:Ed.
  destruct (law_local w w' r Hi Ed) as (Hok & Hs & Hh). cbn. split_and!; [done|by eapply Good_same|by eapply same_suffix|].
  destruct r as [h|]; cbn; [|done]. split; [by rewrite (Hh h eq_refl)|by eapply HF].
Qed.

Lemma spec_swap F what q : ComputerID (R_Event q) = cid -> Stable F ->
  (forall v, Inv v -> F v -> known_event texts (R_Event q) /\ (committed texts q \/ attested (chain v) q)) ->
  spec F (call what (cas_CompareAndSwap q))
    (fun receipt v => (forall q', request_utf8 q' -> verify_receipt receipt q' = Ok tt -> attested (chain v) q') /\ F v).
Proof.
  intros Hcid HF Hpre a w Ha Hi Hf. unfold call. cbn [fst snd]. destruct (cas_CompareAndSwap q w) as [w' r] eqn:Ed.
  destruct (Hpre _ (proj1 Hi) Hf) as [Hk Hc]. destruct (law_CompareAndSwap q w w' r Hi Hcid Hk Hc Ed) as (Hok & Hs & Hr). cbn.
  split_and!; [done|by eapply Good_same|by eapply same_suffix|]. destruct r as [receipt|]; cbn; [|done].
  split; [|by eapply HF]. intros q'. by apply Hr.
Qed.

Lemma spec_prepare F what q : Lasting F ->
  (forall v, Inv v -> F v -> Digest (R_Event q) = Ok (R_EventDigest q) -> row_ok texts (chain v) q) ->
  spec F (call what (proj_Prepare q))
    (fun _ v => Digest (R_Event q) = Ok (R_EventDigest q) /\ F v).
Proof.
  intros HF Hpre a w Ha Hi Hf. unfold call. cbn [fst snd]. destruct (proj_Prepare q w) as [w' r] eqn:Ed.
  destruct (law_Prepare q w w' r Hi (Hpre _ (proj1 Hi) Hf) Ed) as (Hok & Hm & Hr). cbn.
  assert (Good w' /\ grows texts (view w) (view w') /\ local (view w') = local (view w)) as (Hi' & Hg & El).
  { destruct Hm as [Hs|Hp].
    - split; [by eapply Good_same|]. by destruct Hs as (Hg & El & _).
    - pose proof Hp as (Hg & El & _ & _ & Hd). split; [|done]. split; [|done].
      eapply Inv_prepared; [apply Hi|done|apply Hpre; [apply Hi|done|done]]. }
  split_and!; [done|done|by destruct Hg|]. destruct r as [[]|]; cbn; [|done]. split; [by apply Hr|by eapply HF].
Qed.

Lemma spec_discard F what d : Lasting F -> spec F (call what (proj_DiscardPrepared cid d)) (fun _ => F).
Proof.
  intros HF a w Ha Hi Hf. unfold call. cbn [fst snd]. destruct (proj_DiscardPrepared cid d w) as [w' r] eqn:Ed.
  destruct (law_Discard d w w' r Hi Ed) as [Hok Hd]. cbn. pose proof Hd as (Hg & El & _).
  split_and!; [done|split; [by eapply Inv_discarded; [apply Hi|]|done]|by destruct Hg|]. destruct r; [|done]. by eapply HF.
Qed.

Lemma spec_ignore_discard F d : Lasting F -> spec F (ignore (proj_DiscardPrepared cid d)) (fun _ => F).
Proof.
  intros HF a w Ha Hi Hf. unfold ignore. cbn [fst snd]. destruct (proj_DiscardPrepared cid d w) as [w' r] eqn:Ed.
  destruct (law_Discard d w w' r Hi Ed) as [Hok Hd]. cbn. pose proof Hd as (Hg & El & _).
  split_and!; [done|split; [by eapply Inv_discarded; [apply Hi|]|done]|by destruct Hg|]. by eapply HF.
Qed.

(** What a finalization that succeeded left behind. *)
Definition settles (d : string) (F G : View -> Prop) : Prop :=
  forall v v', Inv v -> Inv v' -> F v ->
    advanced texts d v v' \/ same texts v v' /\ d ∈ finalized v' -> G v'.

Lemma spec_finalize F G what f q receipt batch :
  finalizes texts cid view ok f -> settles (R_EventDigest q) (fun v => attested (chain v) q /\ F v) G ->
  spec (fun v => attested (chain v) q /\ F v) (call what (f cid (R_EventDigest q) receipt batch)) (fun _ => G).
Proof.
  intros Hlaw HG a w Ha Hi [Hat Hf]. unfold call. cbn [fst snd].
  destruct (f cid (R_EventDigest q) receipt batch w) as [w' r] eqn:Ed.
  destruct (Hlaw q receipt batch w w' r Hi Hat Ed) as [Hok Hm]. cbn.
  assert (Good w' /\ chain (view w) `suffix_of` chain (view w')) as [Hi' Hc].
  { destruct Hm as [Hadv|[Hs _]].
    - split; [split; [by eapply Inv_advanced; [|apply Hi|..]|done]|]. by destruct Hadv as [[Hc _] _].
    - split; [by eapply Good_same|by eapply same_suffix]. }
  split_and!; [done..|]. destruct r as [[]|]; cbn; [|done]. apply (HG (view w)); [apply Hi|apply Hi'|done|].
  destruct Hm as [Hadv|[Hs Hfin]]; [by left|right]. split; [done|by apply Hfin].
Qed.

(** *** Finalization *)

#[local] Hint Resolve spec_fail : core.

Lemma spec_plaintext F event : Stable F -> spec F (batch_plaintext event) (fun _ => F).
Proof.
  intros HF. unfold batch_plaintext. eapply spec_bind; [by apply (spec_get _ _ _ _ _ (fun _ => F))|]. intros a. cbv beta.
  destruct (A_livePayloads a !! PayloadCommitment event); [by apply spec_ret|].
  destruct dep_resolve as [resolve|] eqn:Er; [|done].
  eapply spec_bind; [apply spec_call; [by apply law_resolve|done]|]. intros l. cbv beta.
  destruct l as [|p [|]]; [done|by apply spec_ret|done].
Qed.

Lemma spec_resolveProjectionBatch F event digest : Stable F ->
  spec F (resolveProjectionBatch event digest) (fun _ => F).
Proof.
  intros HF. unfold resolveProjectionBatch. apply spec_if; intros _; [by apply spec_ret|].
  eapply spec_bind; [by apply spec_plaintext|]. intros plaintext. cbv beta.
  eapply spec_bind; [apply spec_lift|]. intros batch. apply spec_pure. intros _.
  apply spec_if; intros _; [done|]. apply spec_if; intros _; [done|]. by apply spec_ret.
Qed.

Lemma spec_finalizeProjection F G event q receipt :
  Stable F -> settles (R_EventDigest q) (fun v => attested (chain v) q /\ F v) G ->
  spec (fun v => attested (chain v) q /\ F v) (finalizeProjection event (R_EventDigest q) receipt) (fun _ => G).
Proof.
  intros HF HG. unfold finalizeProjection.
  eapply spec_bind; [apply spec_resolveProjectionBatch; apply _|]. intros batch. cbv beta.
  eapply spec_bind; [apply (spec_get _ _ _ _ _ (fun a v => A_computerID a = cid /\ attested (chain v) q /\ F v)); done|].
  intros a. apply spec_pure. intros ->.
  assert (forall f, finalizes texts cid view ok f ->
    spec (fun v => attested (chain v) q /\ F v) (call "finalize" (f cid (R_EventDigest q) receipt batch)) (fun _ => G)) as Hfin.
  { intros f Hf. by apply spec_finalize. }
  destruct (if A_replayProjection a then proj_FinalizeReplayBatch else None) as [f|] eqn:Ef.
  - apply Hfin, law_FinalizeReplay. by destruct (A_replayProjection a).
  - destruct proj_FinalizeBatch as [f|] eqn:Efb; [apply Hfin; by apply law_FinalizeBatch|].
    destruct batch; [done|]. apply (Hfin (fun c d r _ => proj_Finalize c d r)), law_Finalize.
Qed.

Lemma spec_finalize_or_repair F G event q receipt :
  Stable F -> settles (R_EventDigest q) (fun v => attested (chain v) q /\ F v) G ->
  spec (fun v => attested (chain v) q /\ F v) (finalize_or_repair event (R_EventDigest q) receipt) (fun _ => G).
Proof.
  intros HF HG. unfold finalize_or_repair.
  eapply spec_bind; [eapply spec_attempt; by apply spec_finalizeProjection|]. intros [[]|e]; cbv beta iota; [by apply spec_ret|done].
Qed.

(** The row that is finalized is the request's, and it was not finalized before. *)
Lemma settles_next q :
  settles (R_EventDigest q)
    (fun v => attested (chain v) q /\ row_ok texts (chain v) q /\ Sequence (R_Event q) = head_seq (local v) + 1)
    (fun v => attested (chain v) q /\ local v = Some (R_Next q)).
Proof.
  intros v v' Hi Hi' (Ha & Hq & Hs) [([Hc _] & _ & _ & row & Hrow & Hd & _ & El)|[(Hg & El & Er & Ef) Hin]].
  - split; [by eapply attested_suffix|]. destruct (row_entry texts texts_distinct v row q Hi Hrow Ha Hd) as (q' & Hq' & Hd' & _ & Hn).
    rewrite El, <-Hn. f_equal. symmetry. eapply row_matches_entry; [done|apply Hi|done|done|congruence].
  - exfalso. rewrite Ef in Hin. pose proof (inv_finalized _ _ Hi) as Hfin. rewrite Forall_forall in Hfin.
    destruct (Hfin _ Hin) as (q' & Hq' & Hd & Hle). destruct (linked_elem _ _ _ (inv_linked _ _ Hi) Hq') as (l & _ & Hl).
    apply linked_cons_inv in Hl as (_ & _ & Hqd & Hqk & _).
    assert (same_envelope (R_Event q') (R_Event q)) as Henv.
    { eapply digest_envelope; [done|done|apply Hq|exact Hqd|]. rewrite Hd. apply Hq. }
    apply same_envelope_fields in Henv as [Hse _]. lia.
Qed.

(** *** Appending *)

(** What an append hashes is among the texts considered. *)
Definition known_args (event : Event) (input : TransitionInput) (pins : list string) : Prop :=
  known_event texts event /\
  forall pin, ComputePinIntentCommitment event input = Ok pin ->
    utf8 (commit_json event input pin pins) = true /\ texts (commit_text event input pin pins).

(** The request an append makes of its arguments. *)
Definition request_of (event : Event) (input : TransitionInput) (pins : list string) (q : CASRequest) : Prop :=
  R_Event q = event /\ R_Input q = input /\ R_PayloadPinReceiptDigests q = pins.

Lemma commit_pins_utf8 e i pin pins : utf8 (commit_json e i pin pins) = true -> forallb ValidString pins = true.
Proof.
  intros Hu. assert (utf8 (JStrs pins) = true) as Hp.
  { eapply (utf8_member _ _ _ Hu). unfold commit_fields. do 2 right. by left. }
  unfold JStrs in Hp. cbn [utf8] in Hp. by rewrite forallb_map in Hp.
Qed.

(** An appended event was bound to the head the projection had, is in the chain
    under a verified receipt, and the projection has its head. *)
Definition appended (h : option Head) (event : Event) (input : TransitionInput) (pins : list string)
    (receipt : Receipt) (v : View) : Prop :=
  exists q, request_of event input pins q /\ ComputerID event = cid /\ Digest event = Ok (R_EventDigest q) /\
    Reduce h event input = Ok (R_Next q) /\ verify_receipt receipt q = Ok tt /\
    attested (chain v) q /\ local v = Some (R_Next q).

Lemma spec_appendLocked h event input pins : known_args event input pins ->
  spec (fun v => local v = h) (appendLocked event input pins) (appended h event input pins).
Proof.
  intros [Hke Hkc]. unfold appendLocked.
  eapply spec_bind; [apply (spec_get _ _ _ _ _ (fun a v => A_computerID a = cid /\ local v = h)); done|].
  intros a. apply spec_pure. intros ->. apply spec_if; intros Hcid; [apply spec_fail|]. apply passed in Hcid.
  eapply spec_bind; [apply spec_lift|]. intros pin. apply spec_pure. intros Hpin.
  destruct (Hkc pin Hpin) as [Hcu Hct]. clear Hkc Hpin.
  eapply spec_bind; [apply spec_lift|]. intros c. apply spec_pure. intros Hcom.
  apply spec_if; intros Hc; [apply spec_fail|]. apply passed in Hc. rewrite <-Hc in Hcom. clear c Hc.
  eapply spec_bind; [apply spec_cas_Head; apply _|]. intros platform. cbv beta.
  eapply spec_bind; [apply spec_proj_Head; apply _|]. intros embedded. cbv beta.
  apply spec_if; intros Hsame; [apply spec_fail|]. apply passed in Hsame as <-.
  eapply (spec_conseq _ _ _ _ (fun v => platform = h /\ local v = h /\ at_head (chain v) h));
    [|intros v _ (<- & ? & <-); split_and!; trivial|intros ? ? _ Hx; exact Hx].
  apply spec_pure. intros ->.
  eapply spec_bind; [apply spec_lift|]. intros next. apply spec_pure. intros Hr.
  eapply spec_bind; [apply spec_lift|]. intros body. apply spec_pure. intros Hbody.
  eapply spec_bind; [apply spec_lift|]. intros digest. apply spec_pure. intros Hd.
  eapply spec_bind; [apply spec_call; [apply law_pin_Event|apply _]|].
  { exact (known_body texts _ _ Hke Hbody). }
  intros p. cbv beta. apply spec_if; intros Hp; [apply spec_fail|]. clear Hp.
  eapply spec_bind; [apply spec_lift|]. intros pinReceipt. apply spec_pure. intros _.
  set (q := Build_CASRequest event digest (PinArtifactDigest p) (sha256_hex pinReceipt) pins pin input next).
  assert (committed texts q) as Hq by exact (ex_intro _ pin (conj Hcom (conj Hcu Hct))).
  assert (forall c, at_head c h -> row_ok texts c q) as Hrow.
  { intros c Hh. split; [exact Hd|exact Hke|exact (ex_intro _ h (conj Hh Hr))|right; exact Hq|].
    cbn [forallb q R_EventPinReceiptDigest R_PayloadPinReceiptDigests].
    by rewrite (isSHA256_valid _ (sha256_hex_shape _)), (commit_pins_utf8 _ _ _ _ Hcu). }
  clear Hcom Hcu Hct.
  eapply spec_bind; [apply (spec_prepare (fun v => local v = h /\ at_head (chain v) h)); [apply _|]|].
  { intros v _ [_ Hh] _. by apply Hrow. }
  intros []. apply spec_pure. intros _.
  eapply spec_bind.
  { eapply spec_attempt, (spec_swap (fun v => local v = h /\ at_head (chain v) h)); [exact Hcid|apply _|].
    intros v _ _. split; [exact Hke|left; exact Hq]. }
  intros [receipt|e]; cbv beta iota.
  2: { eapply spec_bind; [apply (spec_ignore_discard (fun _ => True)); apply _|]. intros []. apply spec_fail. }
  eapply spec_bind; [apply spec_lift|]. intros []. apply spec_pure. intros Hver.
  eapply (spec_conseq _ _ _ _ (fun v => attested (chain v) q /\ row_ok texts (chain v) q /\
    Sequence (R_Event q) = head_seq (local v) + 1)); [| |intros ? ? _ Hx; exact Hx].
  - eapply spec_bind.
    + apply (spec_finalize_or_repair (fun v => row_ok texts (chain v) q /\ Sequence (R_Event q) = head_seq (local v) + 1)
               (fun v => attested (chain v) q /\ local v = Some (R_Next q)) event q receipt).
      * apply stable_and; [apply _|]. by intros v v' (_ & -> & _).
      * apply settles_next.
    + intros []. apply spec_ret. intros v _ [Ha Hl]. exists q. split_and!; first [assumption|split_and!; reflexivity].
  - intros v Hi (Hat & Hl & Hh). pose proof (Hrow _ Hh) as Hok. split_and!; [|exact Hok|].
    + apply Hat; [|exact Hver]. eapply row_request_utf8; [apply Hi|exact Hok].
    + destruct (at_head_ok _ _ _ (inv_linked _ _ Hi) Hh) as [Hhok _]. rewrite Hl.
      change (Sequence (R_Event q)) with (Sequence event).
      destruct (Reduce_step _ _ _ _ Hhok Hr) as (_ & _ & Hs & _). exact Hs.
Qed.
(** *** Building the event

    Every operation that makes an event builds it from what it reads and pins,
    without moving the view, and appends it. *)

Lemma bind_assoc {A B C} (m : M W E A) (k : A -> M W E B) (l : B -> M W E C) s :
  bind (bind m k) l s = bind m (fun x => bind (k x) l) s.
Proof. unfold bind. by destruct (m s) as [s' [x|e]]. Qed.

Lemma bind_ext {A B} (m : M W E A) (k1 k2 : A -> M W E B) s :
  (forall x s', k1 x s' = k2 x s') -> bind m k1 s = bind m k2 s.
Proof. intros Hk. unfold bind. destruct (m s) as [s' [x|e]]; [apply Hk|done]. Qed.

(** A quiet computation: it succeeds or fails without moving the view. *)
Definition reads {A} (m : M W E A) : Prop := forall F, Stable F -> spec F m (fun _ => F).

Lemma reads_ret {A} (x : A) : reads (ret x).
Proof. intros F HF. by apply spec_ret. Qed.
Lemma reads_fail {A} e : reads (fail e : M W E A).
Proof. intros F HF. apply spec_fail. Qed.
Lemma reads_lift {X A} (wrap : X -> append_error E) (r : res X A) : reads (lift wrap r).
Proof. intros F HF. eapply spec_conseq; [apply spec_lift| |by intros x v _ [_ Hx]]. done. Qed.
Lemma reads_call {A} what (d : dep W E A) : Quiet texts view ok d -> reads (call what d).
Proof. intros Hq F HF. by apply spec_call. Qed.
Lemma reads_bind {A B} (m : M W E A) (k : A -> M W E B) : reads m -> (forall x, reads (k x)) -> reads (bind m k).
Proof. intros Hm Hk F HF. eapply spec_bind; [by apply Hm|]. intros x. by apply Hk. Qed.
Lemma reads_get {A} (k : Appender -> M W E A) : (forall a, A_computerID a = cid -> reads (k a)) -> reads (bind get k).
Proof.
  intros Hk F HF. eapply spec_bind; [apply (spec_get _ _ _ _ _ (fun a v => A_computerID a = cid /\ F v)); done|].
  intros a. apply spec_pure. intros Ha. by apply Hk.
Qed.
Lemma reads_if {A} (b : bool) (m1 m2 : M W E A) : reads m1 -> reads m2 -> reads (if b then m1 else m2).
Proof. by destruct b. Qed.
Lemma reads_modify f : (forall a, A_computerID (f a) = A_computerID a) -> reads (modify f).
Proof. intros Hf F HF. by apply spec_modify. Qed.
Lemma reads_head what : reads (call what (cas_Head cid)).
Proof. apply reads_call. intros w w' r Hi Ed. by destruct (law_Head w w' r Hi Ed) as (Hok & Hs & _). Qed.

Ltac reads_step := first
  [ apply reads_ret | apply reads_fail | apply reads_lift
  | apply reads_get; intros ? -> | apply reads_head | apply reads_if
  | apply reads_call; first [apply law_pin_Private | by apply law_DryRun
      | by apply law_pin_NonPrivate | by apply law_pin_PreparePrivate]
  | by apply reads_modify
  | apply reads_bind; [|intros ?]
  | match goal with |- reads (match ?x with _ => _ end) => destruct x eqn:?  end ].
Ltac reads_all := repeat reads_step.

Lemma reads_bind_head event : reads (bind_head event).
Proof. unfold bind_head. reads_all. Qed.
Lemma reads_pin_intent event input : reads (pin_intent event input).
Proof. unfold pin_intent. reads_all. Qed.
Lemma reads_pinned pin digest : reads (pinned_receipt_digest pin digest).
Proof. unfold pinned_receipt_digest. reads_all. Qed.
Lemma reads_dry_run payload mediaType : reads (dry_run payload mediaType).
Proof. unfold dry_run. reads_all. Qed.
Lemma reads_store c event payload : reads (store_payload c event payload).
Proof. unfold store_payload. reads_all. Qed.
Lemma reads_prepare_direction c d ps acc : reads (prepare_direction c d ps acc).
Proof.
  revert acc. induction ps as [|p ps IH]; intros [[event l] n]; cbn [prepare_direction]; [reads_all|].
  apply reads_if; [apply IH|]. apply reads_if; [apply reads_fail|]. apply reads_bind; [apply reads_store|].
  intros stored. apply IH.
Qed.
Lemma reads_pin_member event i p : reads (pin_member event i p).
Proof.
  unfold pin_member. apply reads_get. intros a ->. apply reads_bind; [|intros pin; apply reads_pinned]. reads_all.
Qed.
Lemma reads_pin_members event i ps : reads (pin_members event i ps).
Proof.
  induction ps as [|p ps IH]; cbn [pin_members]; [apply reads_ret|]. apply reads_bind; [apply reads_pin_member|].
  intros d. apply reads_bind; [apply IH|]. intros ds. apply reads_ret.
Qed.
(** *** Building, then appending *)

(** What holds after [m] started in [s]. *)
Definition from {A} (s : Appender * W) (m : M W E A) (G : A -> View -> Prop) : Prop :=
  let '((a', w'), r) := m s in
  A_computerID a' = cid /\ Good w' /\ chain (view s.2) `suffix_of` chain (view w') /\
  match r with Ok x => G x (view w') | Err _ => True end.

Lemma from_spec {A} a w F (m : M W E A) G :
  spec F m G -> A_computerID a = cid -> Good w -> F (view w) -> from (a, w) m G.
Proof. intros Hm. apply Hm. Qed.

(** [build] gives the event to append, its payload pins and the result to make of
    the receipt. *)
Definition splits {B} (op : M W E B) (input : TransitionInput)
    (build : M W E (Event * list string * (Receipt -> B))) : Prop :=
  reads build /\
  forall s, op s = bind build (fun '(event, pins, f) => let! receipt := appendLocked event input pins in ret (f receipt)) s.

(** What is hashed for the event an operation builds is among the texts. *)
Definition builds_known {B} (build : M W E (Event * list string * (Receipt -> B))) (input : TransitionInput) s : Prop :=
  forall s' event pins f, build s = (s', Ok (event, pins, f)) -> known_args event input pins.

Lemma splits_from {B} (op : M W E B) input build a w :
  splits op input build -> A_computerID a = cid -> Good w -> builds_known build input (a, w) ->
  from (a, w) op (fun y v => exists s' event pins f receipt,
    build (a, w) = (s', Ok (event, pins, f)) /\ y = f receipt /\
    appended (local (view w)) event input pins receipt v).
Proof.
  intros [Hr Hop] Ha Hi Hk. unfold from. rewrite Hop. unfold bind at 1.
  pose proof (Hr _ (stable_local _ (local (view w))) a w Ha Hi eq_refl) as Hb.
  destruct (build (a, w)) as [[a1 w1] [[[event pins] f]|e]] eqn:Eb; [|exact Hb].
  destruct Hb as (Ha1 & Hi1 & Hc1 & Hl1). specialize (Hk _ _ _ _ Eb).
  pose proof (spec_appendLocked _ _ _ _ Hk a1 w1 Ha1 Hi1 Hl1) as Happ. unfold bind.
  destruct (appendLocked event input pins (a1, w1)) as [[a2 w2] [receipt|e]].
  - destruct Happ as (Ha2 & Hi2 & Hc2 & Hp). cbn [fst snd ret]. split_and!; [exact Ha2|exact Hi2|by etrans|].
    exists (a1, w1), event, pins, f, receipt. split_and!; [reflexivity|reflexivity|exact Hp].
  - destruct Happ as (Ha2 & Hi2 & Hc2 & _). cbn [fst snd]. split_and!; [exact Ha2|exact Hi2|by etrans|done].
Qed.

Definition commit_with {B} (event : Event) (input : TransitionInput) (pinIntent : string) (pins : list string)
    (f : Receipt -> B) : M W E (Event * list string * (Receipt -> B)) :=
  let! commitment := lift (ErrCommitment "new request") (ComputeRequestCommitment event input pinIntent pins) in
  ret (with_request event commitment, pins, f).

Definition AppendNew_build (event : Event) (input : TransitionInput) (pins : list string)
    : M W E (Event * list string * (Receipt -> Receipt)) :=
  let! event := bind_head event in
  let! (event, pinIntent) := pin_intent event input in
  commit_with event input pinIntent pins id.

Definition AppendNewPayload_build (event : Event) (input : TransitionInput) (payload mediaType privacyClass : string)
    : M W E (Event * list string * (Receipt -> Receipt * string)) :=
  match pin_NonPrivate with
  | None => fail ErrNoNonPrivate
  | Some pinner =>
    let! a := get in
    let! event := bind_head event in
    let digest := sha256_hex payload in
    let! (event, pinIntent) := pin_intent (name_payload event digest) input in
    do! dry_run payload mediaType ;;
    let! pin := call "pin payload" (pinner (A_computerID a) payload mediaType privacyClass pinIntent) in
    let! pinDigest := pinned_receipt_digest pin digest in
    let! commitment := lift (ErrCommitment "payload request")
                         (ComputeRequestCommitment event input pinIntent [pinDigest]) in
    do! modify (fun a => with_livePayloads a (<[digest := payload]> (A_livePayloads a))) ;;
    ret (with_request event commitment, [pinDigest], fun receipt => (receipt, digest))
  end.

Definition AppendNewPrivatePayload_build (event : Event) (input : TransitionInput) (plaintext mediaType : string)
    (hasCipher : bool) : M W E (Event * list string * (Receipt -> Receipt * string)) :=
  match pin_PreparePrivate, hasCipher with
  | Some prepare, true =>
    let! a := get in
    let! event := bind_head event in
    let! envelope := call "encrypt private payload" (prepare (A_computerID a) (EventID event) mediaType plaintext) in
    let digest := sha256_hex envelope in
    let! (event, pinIntent) := pin_intent (name_payload event digest) input in
    let! pin := call "pin private payload" (pin_Private (A_computerID a) (EventID event) envelope pinIntent) in
    let! pinDigest := pinned_receipt_digest pin digest in
    commit_with event input pinIntent [pinDigest] (fun receipt => (receipt, digest))
  | _, _ => fail ErrNoPrivate
  end.

Definition AppendNewPayloadSet_build (event : Event) (input : TransitionInput) (payloads : list EventPayload)
    (hasCipher : bool) : M W E (Event * list string * (Receipt -> Receipt * list string)) :=
  guard! Nat.eqb (length payloads) 0 with ErrPayloadSet ;;
  let! event := bind_head event in
  let! acc := prepare_direction hasCipher EventPayloadInput payloads (event, [], 0%nat) in
  let! (event, prepared, outputs) := prepare_direction hasCipher EventPayloadOutput payloads acc in
  guard! negb (Nat.eqb (length prepared) (length payloads)) || Nat.ltb 1 outputs with ErrPayloadCardinality ;;
  let! (event, pinIntent) := pin_intent event input in
  let! digests := pin_members event pinIntent prepared in
  commit_with event input pinIntent digests (fun receipt => (receipt, PP_digest <$> prepared)).

Lemma reads_commit {B} event input pinIntent pins (f : Receipt -> B) : reads (commit_with event input pinIntent pins f).
Proof. unfold commit_with. reads_all. Qed.

#[local] Hint Resolve reads_bind_head reads_pin_intent reads_pinned reads_dry_run reads_prepare_direction
  reads_pin_members reads_commit : core.

(** One step of the equality of an operation and its build followed by the append. *)
Ltac split_step := first
  [ reflexivity
  | rewrite bind_assoc; apply bind_ext; let x := fresh "x" in intros x ?; try (destruct x as [[? ?] ?] || destruct x as [? ?]);
    cbv beta iota
  | match goal with |- context [if ?b then _ else _] => destruct b end ].

Lemma append_with_split {B} event input pinIntent pins (f : Receipt -> B) s :
  (let! receipt := append_with event input pinIntent pins in ret (f receipt)) s =
  (let! x := commit_with event input pinIntent pins f in
   let '(event, pins, f) := x in let! receipt := appendLocked event input pins in ret (f receipt)) s.
Proof. unfold append_with, commit_with. by rewrite !bind_assoc. Qed.

Lemma AppendNew_splits event input pins : splits (AppendNew event input pins) input (AppendNew_build event input pins).
Proof.
  split.
  - unfold AppendNew_build. apply reads_bind; [done|]. intros e. apply reads_bind; [done|]. by intros [e' p].
  - intros s. unfold AppendNew, AppendNew_build. repeat split_step.
    rewrite <-append_with_split. unfold bind. by destruct (append_with _ _ _ _ _) as [? [?|?]].
Qed.

Lemma AppendNewPayload_splits event input payload mediaType privacyClass :
  splits (AppendNewPayload event input payload mediaType privacyClass) input
    (AppendNewPayload_build event input payload mediaType privacyClass).
Proof.
  split.
  - unfold AppendNewPayload_build. destruct pin_NonPrivate as [f|] eqn:Ef; [|apply reads_fail].
    apply reads_get. intros a ->. apply reads_bind; [done|]. intros e. apply reads_bind; [done|]. intros [e' p].
    apply reads_bind; [done|]. intros _. apply reads_bind; [apply reads_call; by apply law_pin_NonPrivate|]. intros pin.
    apply reads_bind; [done|]. intros d. reads_all.
  - intros s. unfold AppendNewPayload, AppendNewPayload_build. destruct pin_NonPrivate as [f|]; repeat split_step.
Qed.
Lemma AppendNewPrivatePayload_splits event input plaintext mediaType c :
  splits (AppendNewPrivatePayload event input plaintext mediaType c) input
    (AppendNewPrivatePayload_build event input plaintext mediaType c).
Proof.
  split.
  - unfold AppendNewPrivatePayload_build. destruct pin_PreparePrivate as [f|] eqn:Ef; [|apply reads_fail].
    destruct c; [|apply reads_fail]. apply reads_get. intros a ->. apply reads_bind; [done|]. intros e.
    apply reads_bind; [apply reads_call; by apply law_pin_PreparePrivate|]. intros v.
    apply reads_bind; [done|]. intros [e' p].
    apply reads_bind; [apply reads_call, law_pin_Private|]. intros pin. by apply reads_bind.
  - intros s. unfold AppendNewPrivatePayload, AppendNewPrivatePayload_build.
    destruct pin_PreparePrivate as [f|]; [|reflexivity]. destruct c; [|reflexivity].
    repeat split_step. apply append_with_split.
Qed.

Lemma AppendNewPayloadSet_splits event input payloads c :
  splits (AppendNewPayloadSet event input payloads c) input (AppendNewPayloadSet_build event input payloads c).
Proof.
  split.
  - unfold AppendNewPayloadSet_build. apply reads_if; [apply reads_fail|]. apply reads_bind; [done|]. intros e.
    apply reads_bind; [done|]. intros acc. apply reads_bind; [done|]. intros [[e' ps] n].
    apply reads_if; [apply reads_fail|]. apply reads_bind; [done|]. intros [e2 p]. by apply reads_bind.
  - intros s. unfold AppendNewPayloadSet, AppendNewPayloadSet_build. repeat split_step. apply append_with_split.
Qed.

(** *** Recovery *)

Lemma spec_prepared F what : Stable F ->
  spec F (call what (proj_Prepared cid))
    (fun qs v => Forall (fun q => ComputerID (R_Event q) = cid) qs /\ Forall (row_ok texts (chain v)) qs /\ F v).
Proof.
  intros HF a w Ha Hi Hf. unfold call. cbn [fst snd]. destruct (proj_Prepared cid w) as [w' r] eqn:Ed.
  destruct (law_Prepared w w' r Hi Ed) as (Hok & Hs & Hq). cbn. pose proof (Good_same _ _ _ _ _ Hi Hok Hs) as Hi'.
  split_and!; [done|done|by eapply same_suffix|]. destruct r as [qs|]; cbn; [|done].
  split; [|split; [|by eapply HF]]; apply Forall_forall; intros q Hin; destruct (Hq qs q eq_refl Hin) as (Hcid & row & Hrow & Hb);
    [done|].
  eapply read_back_row; [done|]. pose proof (inv_rows _ _ (proj1 Hi')) as Hr. rewrite Forall_forall in Hr. by apply Hr.
Qed.

(** A row that stays prepared is at the head, before it, or not of the chain's end. *)
Lemma spec_recover_row request qs : ComputerID (R_Event request) = cid ->
  spec (fun v => row_ok texts (chain v) request /\ Forall (row_ok texts (chain v)) qs) (recover_row request)
    (fun _ v => Forall (row_ok texts (chain v)) qs).
Proof.
  intros Hcid. unfold recover_row. set (F := fun v => row_ok texts (chain v) request /\ Forall (row_ok texts (chain v)) qs).
  assert (Lasting F) as HL by apply _. assert (Stable F) as HS by apply _.
  assert (forall what, spec F (call what (proj_DiscardPrepared cid (R_EventDigest request)))
    (fun _ v => Forall (row_ok texts (chain v)) qs)) as Hdis.
  { intros what. eapply spec_conseq; [by apply spec_discard|done|]. by intros _ v _ [_ Hq]. }
  eapply spec_bind; [apply (spec_get _ _ _ _ _ (fun a v => A_computerID a = cid /\ F v)); done|].
  intros a. apply spec_pure. intros ->.
  eapply spec_bind; [apply spec_cas_Head; apply _|]. intros platform.
  eapply (spec_conseq _ _ _ _ F); [|by intros v _ [_ Hf]|intros ? ? _ Hx; exact Hx].
  destruct platform as [h|].
  2: { apply spec_if; intros _; [apply Hdis|apply spec_fail]. }
  apply spec_if; intros _; [|apply spec_if; intros _; [apply Hdis|apply spec_fail]].
  eapply spec_bind.
  { apply (spec_swap F); [done|apply _|]. intros v Hi [Hq _]. split; [apply Hq|]. destruct (row_binds _ _ _ Hq); auto. }
  intros receipt. cbv beta. eapply spec_bind; [apply spec_lift|]. intros []. apply spec_pure. intros Hver.
  eapply (spec_conseq _ _ _ _ (fun v => attested (chain v) request /\ F v)); [| |intros ? ? _ Hx; exact Hx].
  - apply (spec_finalize_or_repair F); [apply _|].
    intros v v' Hi Hi' (_ & _ & Hq) Hm. destruct Hm as [([Hc _] & _)|[([Hc _] & _) _]]; by eapply rows_suffix.
  - intros v Hi [Hat Hf]. split; [|exact Hf]. apply Hat; [|exact Hver].
    eapply row_request_utf8; [apply Hi|apply Hf].
Qed.

Lemma spec_recover_rows qs : Forall (fun q => ComputerID (R_Event q) = cid) qs ->
  spec (fun v => Forall (row_ok texts (chain v)) qs) (recover_rows qs) (fun _ _ => True).
Proof.
  induction 1 as [|q qs Hcid _ IH]; cbn [recover_rows]; [by apply spec_ret|].
  eapply (spec_conseq _ _ _ _ (fun v => row_ok texts (chain v) q /\ Forall (row_ok texts (chain v)) qs));
    [|by intros v _ [Hq Hqs]%Forall_cons|intros ? ? _ Hx; exact Hx].
  eapply spec_bind; [apply (spec_get _ _ _ _ _ (fun a v => A_computerID a = cid /\ row_ok texts (chain v) q /\
    Forall (row_ok texts (chain v)) qs)); done|].
  intros a. apply spec_pure. intros Ha.
  apply (spec_bind _ _ _ _ _ _ _ (fun _ v => Forall (row_ok texts (chain v)) qs)); [|intros []; exact IH].
  apply spec_if; intros _; [|by apply spec_recover_row]. rewrite Ha.
  eapply spec_conseq; [apply (spec_discard (fun v => Forall (row_ok texts (chain v)) qs)); apply _|by intros v _ [_ Hq]|done].
Qed.

Lemma spec_RecoverPrepared : spec (fun _ => True) RecoverPrepared (fun _ _ => True).
Proof.
  unfold RecoverPrepared.
  eapply spec_bind; [apply (spec_get _ _ _ _ _ (fun a v => A_computerID a = cid /\ True)); done|].
  intros a. apply spec_pure. intros ->. eapply spec_bind; [apply spec_prepared; apply _|]. intros qs.
  apply spec_pure. intros Hcid. eapply spec_conseq; [by apply spec_recover_rows|by intros v _ [Hq _]|done].
Qed.

(** *** Replay *)

Context {source : EventSource W E} {SL : SourceLaws texts cid view ok source}.

Lemma reads_commitReplay : reads commitReplay.
Proof.
  unfold commitReplay. apply reads_get. intros a _.
  destruct (if A_replayProjection a then proj_CommitReplay else None) as [commit|] eqn:Ec; [|apply reads_ret].
  apply reads_bind; [apply reads_call, law_CommitReplay; by destruct (A_replayProjection a)|]. intros _. by apply reads_modify.
Qed.

Lemma reads_now : reads (read dep_now).
Proof. intros F HF. apply spec_read; [intros w; apply law_now|done]. Qed.
Lemma reads_expired : reads (read dep_expired).
Proof. intros F HF. apply spec_read; [intros w; apply law_expired|done]. Qed.

(** [m] reads, and what it returns satisfies [P]. *)
Definition returns {A} (m : M W E A) (P : A -> Prop) : Prop :=
  forall F, Stable F -> spec F m (fun x v => P x /\ F v).

Lemma returns_of_ret {A} (x : A) (P : A -> Prop) : P x -> returns (ret x) P.
Proof. intros HP F HF. by apply spec_ret. Qed.
Lemma returns_of_bind {A B} (m : M W E A) (k : A -> M W E B) P : reads m -> (forall x, returns (k x) P) -> returns (bind m k) P.
Proof. intros Hm Hk F HF. eapply spec_bind; [by apply Hm|]. intros x. by apply Hk. Qed.

(** A checkpoint changes only when the next one is due. *)
Lemma checkpoint_returns c seq :
  returns (checkpoint c seq) (fun c' => c_current c' = c_current c /\ c_after c' = c_after c).
Proof.
  unfold checkpoint. intros F HF.
  eapply spec_bind; [apply (spec_get _ _ _ _ _ (fun _ => F)); done|]. intros a. cbv beta.
  apply spec_if; intros _.
  - eapply spec_bind; [by apply spec_modify|]. intros []. by apply spec_ret.
  - eapply spec_bind; [by apply reads_now|]. intros now. cbv beta. apply spec_if; intros _.
    + eapply spec_bind; [by apply reads_commitReplay|]. intros []. cbv beta.
      eapply spec_bind; [by apply reads_now|]. intros now'. cbv beta.
      eapply spec_bind; [by apply spec_modify|]. intros []. by apply spec_ret.
    + eapply spec_bind; [by apply spec_modify|]. intros []. by apply spec_ret.
Qed.

(** A record that is applied is the next entry of the chain, and the local head is
    its head. *)
Lemma spec_apply_record c record l :
  spec (fun v => local v = c_current c /\ Forall (good_record texts (chain v)) (record :: l)) (apply_record c record)
    (fun c' v => (Sequence (R_Event (D_Request record)) = head_seq (c_current c) + 1 /\
        head_seq (c_current c') = head_seq (c_current c) + 1 /\ c_after c' = c_after c) /\
      local v = c_current c' /\ Forall (good_record texts (chain v)) l).
Proof.
  unfold apply_record. set (q := D_Request record).
  eapply spec_bind; [apply spec_lift|]. intros next. apply spec_pure. intros Hr.
  apply spec_if; intros Hn; [apply spec_fail|]. apply passed in Hn as ->.
  eapply spec_bind; [apply spec_lift|]. intros []. apply spec_pure. intros Hver.
  pose (F := fun v => local v = c_current c /\ Forall (good_record texts (chain v)) (record :: l)).
  assert (forall v, Inv v -> F v -> attested (chain v) q /\ known_event texts (R_Event q) /\
    at_head (chain v) (c_current c) /\ (forall h, c_current c = Some h -> head_ok h) /\
    forallb ValidString (R_EventPinReceiptDigest q :: R_PayloadPinReceiptDigests q) = true) as HF.
  { intros v Hi [Hl [Hg _]%Forall_cons]. destruct (Hg Hver) as (Hat & Hk & Hp). rewrite <-Hl.
    destruct (at_head_ok _ _ _ (inv_linked _ _ Hi) (inv_local _ _ Hi)) as [Hok _].
    split_and!; [exact Hat|exact Hk|apply (inv_local _ _ Hi)|exact Hok|exact Hp]. }
  assert (forall v, Inv v -> F v -> Digest (R_Event q) = Ok (R_EventDigest q) -> row_ok texts (chain v) q) as Hrow.
  { intros v Hi Hf Hd. destruct (HF v Hi Hf) as (Hat & Hk & Hh & _ & Hp).
    split; [exact Hd|exact Hk|by exists (c_current c)|by left|exact Hp]. }
  eapply spec_bind; [apply (spec_prepare F); [apply _|exact Hrow]|]. intros []. apply spec_pure. intros Hd.
  pose (G := fun v => row_ok texts (chain v) q /\ Sequence (R_Event q) = head_seq (local v) + 1).
  apply (spec_conseq _ _ _ _ (fun v => attested (chain v) q /\ (G v /\ F v)) _ _
    (fun c' v => (Sequence (R_Event q) = head_seq (c_current c) + 1 /\
        head_seq (c_current c') = head_seq (c_current c) + 1 /\ c_after c' = c_after c) /\
      local v = c_current c' /\ Forall (good_record texts (chain v)) l)); [| |intros ? ? _ Hx; exact Hx].
  - eapply spec_bind.
    + apply (spec_finalizeProjection (fun v => G v /\ F v) (fun v => Sequence (R_Event q) = head_seq (c_current c) + 1 /\
        (HeadSequence (R_Next q) = head_seq (c_current c) + 1 /\
         local v = Some (R_Next q) /\ Forall (good_record texts (chain v)) l))); [|].
      * apply stable_and; [|apply _]. apply stable_and; [apply _|]. by intros v v' (_ & -> & _).
      * intros v v' Hi Hi' (Hat & [Hok Hs] & Hf) Hm. destruct (HF v Hi Hf) as (_ & _ & _ & Hho & _).
        destruct (Reduce_step _ _ _ _ Hho Hr) as (_ & E1 & E2 & _). split; [exact E2|]. split; [exact E1|].
        split; [apply (settles_next q v v' Hi Hi' (conj Hat (conj Hok Hs)) Hm)|].
        destruct Hf as [_ [_ Hl]%Forall_cons].
        assert (grows texts v v') as Hg by (destruct Hm as [(Hg & _)|[(Hg & _) _]]; exact Hg).
        eapply Forall_impl; [exact Hl|]. intros x Hx Hv. destruct (Hx Hv) as (Ha & Hk).
        split; [eapply attested_suffix; [apply Hg|exact Ha]|exact Hk].
    + intros []. cbv beta. apply spec_pure. intros Hs. apply spec_pure. intros Hn.
      eapply spec_bind; [by apply spec_modify|]. intros []. apply spec_ret. intros v _ [Hl Hg].
      split; [split; [exact Hs|split; [exact Hn|reflexivity]]|split; [exact Hl|exact Hg]].
  - intros v Hi Hf. destruct (HF v Hi Hf) as (Hat & _ & _ & Hho & _).
    destruct (Reduce_step _ _ _ _ Hho Hr) as (_ & _ & E2 & _).
    split; [exact Hat|]. split; [|exact Hf]. split; [exact (Hrow v Hi Hf Hd)|]. destruct Hf as [-> _]. exact E2.
Qed.
(** What the loop over records establishes: it went on with the local head at the
    cursor, [n] records further, or the target is reached. *)
Definition replayed (paged : bool) (target : string) (c : cursor) (n : nat) (o : outcome) (v : View) : Prop :=
  match o with
  | Reached => target <> "" /\ head_digest (local v) = target
  | Continue c' => local v = c_current c' /\ head_seq (c_current c') = head_seq (c_current c) + Z.of_nat n
  end.

Lemma reached_target target c : reached target c = true -> target <> "" /\ head_digest (c_current c) = target.
Proof.
  unfold reached. destruct (c_current c) as [h|]; [|by rewrite andb_false_r].
  by intros [Hn%negb_true_iff%bool_decide_eq_false_1 Hb%bool_decide_eq_true_1]%andb_true_iff.
Qed.

Lemma spec_replay_record paged target c record l :
  spec (fun v => local v = c_current c /\ Forall (good_record texts (chain v)) (record :: l))
    (replay_record paged target c record)
    (fun o v => replayed paged target c 1 o v /\ Forall (good_record texts (chain v)) l).
Proof.
  unfold replay_record. eapply spec_bind; [apply spec_apply_record|]. intros c1. apply spec_pure. intros (Hs & Hh & Ha).
  set (c2 := if paged then _ else c1). assert (c_current c2 = c_current c1) as Ec by (unfold c2; by destruct paged).
  pose (F := fun v => local v = c_current c1 /\ Forall (good_record texts (chain v)) l).
  assert (Stable F) as HF by apply _.
  eapply spec_bind; [by apply (checkpoint_returns c2 _ F)|]. intros c3. apply spec_pure. intros [E3 _].
  assert (c_current c3 = c_current c1) as Ecc by congruence.
  apply spec_if; intros Ht.
  - eapply spec_bind; [by apply reads_commitReplay|]. intros []. cbv beta.
    eapply (spec_bind _ _ _ _ _ _ _ (fun _ => F)); [by apply spec_if; intros _; [apply spec_modify|apply spec_ret]|]. intros [].
    apply spec_ret. intros v _ [Hl Hg]. split; [|exact Hg]. cbn [replayed]. apply reached_target in Ht as [Hn Ht]. split; congruence.
  - eapply spec_bind; [by apply reads_expired|]. intros b. cbv beta. apply spec_if; intros _.
    + eapply spec_bind; [by apply reads_commitReplay|]. intros []. cbv beta.
      eapply spec_bind; [by apply spec_modify|]. intros []. apply spec_fail.
    + apply spec_ret. intros v _ [Hl Hg]. split; [|exact Hg]. cbn [replayed]. rewrite Ecc. split; [exact Hl|lia].
Qed.

Lemma spec_replay_records paged target l c :
  spec (fun v => local v = c_current c /\ Forall (good_record texts (chain v)) l) (replay_records paged target c l)
    (replayed paged target c (length l)).
Proof.
  revert c. induction l as [|record l IH]; intros c; cbn [replay_records].
  { apply spec_ret. intros v _ [Hl _]. cbn [replayed length]. split; [exact Hl|lia]. }
  eapply spec_bind; [apply spec_replay_record|]. intros o. destruct o as [c'|].
  - eapply (spec_conseq _ _ _ _ (fun v => head_seq (c_current c') = head_seq (c_current c) + 1 /\
      local v = c_current c' /\ Forall (good_record texts (chain v)) l)); [| |intros ? ? _ Hx; exact Hx].
    + apply spec_pure. intros Hh. eapply spec_conseq; [apply IH|done|]. intros o v _. destruct o as [c2|]; cbn [replayed length].
      * intros [Hl Hs]. split; [exact Hl|lia].
      * by intros Hd.
    + intros v _ [[Hl Hs] Hg]. split; [cbn in Hs; lia|]. by split.
  - apply spec_ret. intros v _ [Hr _]. exact Hr.
Qed.

Lemma spec_serves F what d : serves texts view ok d -> Stable F ->
  spec F (call what d) (fun records v => Forall (good_record texts (chain v)) records /\ F v).
Proof.
  intros Hd HF a w Ha Hi Hf. unfold call. cbn [fst snd]. destruct (d w) as [w' r] eqn:Ed.
  destruct (Hd w w' r Hi Ed) as (Hok & Hs & Hr). cbn. split_and!; [done|by eapply Good_same|by eapply same_suffix|].
  destruct r as [records|]; cbn; [|done]. split; [by apply Hr|by eapply HF].
Qed.

(** The end of a loop over pages. *)
Definition finished (target : string) (o : outcome) (v : View) : Prop :=
  match o with Reached => target <> "" /\ head_digest (local v) = target | Continue c => local v = c_current c end.

Lemma spec_replay_pages fuel fetch target c :
  (forall after n, serves texts view ok (fetch cid after n)) ->
  spec (fun v => local v = c_current c) (replay_pages fuel fetch target c) (finished target).
Proof.
  intros Hf. revert c. induction fuel as [|fuel IH]; intros c; cbn [replay_pages]; [apply spec_fail|].
  eapply spec_bind; [apply (spec_get _ _ _ _ _ (fun a v => A_computerID a = cid /\ local v = c_current c)); done|].
  intros a. apply spec_pure. intros ->. eapply spec_bind; [apply spec_serves; [apply Hf|apply _]|].
  intros page. destruct page as [|record page]; [apply spec_ret; by intros v _ [_ Hl]|].
  eapply (spec_bind _ _ _ _ _ _ _ (replayed true target c (length (record :: page)))).
  - eapply spec_conseq; [apply spec_replay_records|by intros v _ [Hg Hl]|intros ? ? _ Hx; exact Hx].
  - intros [c'|]; cbn [replayed].
    + apply spec_if; intros _; [apply spec_ret; by intros v _ [Hl _]|].
      eapply spec_conseq; [apply IH|by intros v _ [Hl _]|intros ? ? _ Hx; exact Hx].
    + by apply spec_ret.
Qed.

Lemma spec_replay_source fuel target c :
  spec (fun v => local v = c_current c) (replay_source fuel source target c) (finished target).
Proof.
  unfold replay_source. destruct (src_EventsPage source) as [fetch|] eqn:Ef.
  - apply spec_replay_pages. intros after n. by apply law_EventsPage.
  - eapply spec_bind; [apply (spec_get _ _ _ _ _ (fun a v => A_computerID a = cid /\ local v = c_current c)); done|].
    intros a. apply spec_pure. intros ->. eapply spec_bind; [apply spec_serves; [apply law_Events|apply _]|].
    intros records. eapply spec_conseq; [apply (spec_replay_records false target records)|by intros v _ [Hg Hl]|].
    intros [c'|] v _; cbn [replayed finished]; [by intros [Hl _]|done].
Qed.

(** The local projection has the head the chain had at some moment after [c]. *)
Definition caught_up (c : list CASRequest) (h : option Head) (v : View) : Prop :=
  exists c', c `suffix_of` c' /\ c' `suffix_of` chain v /\ h = chain_head c'.

#[export] Instance stable_caught_up c h : Stable (caught_up c h).
Proof. intros v v' ([Hc _] & _) (c' & H1 & H2 & H3). exists c'. split_and!; [done|by etrans|done]. Qed.

Lemma spec_settle_replay c : spec (fun v => c `suffix_of` chain v) settle_replay (fun _ v => caught_up c (local v) v).
Proof.
  unfold settle_replay.
  eapply spec_bind; [apply (spec_get _ _ _ _ _ (fun a v => A_computerID a = cid /\ c `suffix_of` chain v)); done|].
  intros a. apply spec_pure. intros ->.
  eapply (spec_bind _ _ _ _ _ _ _ (caught_up c)).
  { intros a' w Ha Hi Hf. unfold call. cbn [fst snd]. destruct (cas_Head cid w) as [w' r] eqn:Ed.
    destruct (law_Head w w' r Hi Ed) as (Hok & Hs & Hh). cbn. split_and!; [done|by eapply Good_same|by eapply same_suffix|].
    destruct r as [h|]; cbn; [|done]. exists (chain (view w')).
    split_and!; [etrans; [exact Hf|by eapply same_suffix]|done|by apply Hh]. }
  intros platform. eapply spec_bind; [apply spec_proj_Head; apply _|]. intros embedded.
  apply spec_if; intros Hs; [apply spec_fail|]. apply passed in Hs as <-.
  pose (F := fun v => local v = platform /\ caught_up c platform v).
  apply (spec_conseq _ _ _ _ F F _ (fun _ => F)); [apply reads_commitReplay; apply _|done|]. by intros [] v _ [-> Hc].
Qed.

(** What a reconstruction that succeeds established. *)
Definition reconstructed (target : string) (c : list CASRequest) (v : View) : Prop :=
  if target == "" then caught_up c (local v) v else head_digest (local v) = target.

Lemma spec_reconstruct_body fuel target c :
  spec (fun v => c `suffix_of` chain v) (reconstruct_body fuel source target) (fun _ => reconstructed target c).
Proof.
  unfold reconstruct_body.
  eapply spec_bind; [eapply spec_conseq; [apply (spec_frame _ _ _ _ c), spec_RecoverPrepared|done|intros ? ? _ Hx; exact Hx]|].
  intros []. eapply (spec_conseq _ _ _ _ (fun v => c `suffix_of` chain v)); [|by intros v _ [Hc _]|intros ? ? _ Hx; exact Hx].
  eapply spec_bind; [apply (spec_get _ _ _ _ _ (fun a v => A_computerID a = cid /\ c `suffix_of` chain v)); done|].
  intros a. apply spec_pure. intros ->. eapply spec_bind; [apply spec_proj_Head; apply _|]. intros h.
  apply spec_if; intros Ht.
  - apply andb_true_iff in Ht as [Hne Hat]. destruct h as [h|]; [|done]. apply bool_decide_eq_true_1 in Hat.
    apply (spec_conseq _ _ _ _ (fun v => local v = Some h) _ _ (fun _ => reconstructed target c)); [|by intros v _ [Hl _]|done].
    eapply (spec_conseq _ _ _ _ (fun v => local v = Some h) _ _ (fun _ v => local v = Some h)); [|done|].
    + apply spec_if; intros _; [by apply spec_modify|by apply spec_ret].
    + intros [] v _ Hl. unfold reconstructed. rewrite bool_decide_eq_false_2; [by rewrite Hl|].
      intros ->. by rewrite bool_decide_eq_true_2 in Hne.
  - eapply spec_bind.
    { eapply spec_conseq; [eapply (spec_frame _ _ _ _ c), spec_replay_source|intros v _ [Hl Hc]; by split|intros ? ? _ Hx; exact Hx]. }
    intros [c'|].
    + apply spec_if; intros Hn; [apply spec_fail|]. apply passed in Hn as ->.
      eapply spec_conseq; [apply (spec_settle_replay c)|by intros v _ [Hc _]|done].
    + apply spec_ret. intros v _ [_ [Hn Hl]]. unfold reconstructed. by rewrite bool_decide_eq_false_2.
Qed.

Lemma spec_reconstruct fuel target c :
  spec (fun v => c `suffix_of` chain v) (reconstruct fuel source target) (fun _ => reconstructed target c).
Proof.
  unfold reconstruct.
  eapply spec_bind; [apply (spec_get _ _ _ _ _ (fun _ v => c `suffix_of` chain v)); done|]. intros a.
  apply spec_if; intros _; [|apply spec_reconstruct_body].
  eapply spec_bind; [by apply spec_modify|]. intros []. eapply spec_bind; [apply spec_attempt, spec_reconstruct_body|].
  intros r. eapply spec_bind; [by apply spec_modify|]. intros [].
  destruct r as [[]|e]; [by apply spec_ret|apply spec_fail].
Qed.

(** *** The fuel of a replay *)

(** The error of the model alone never comes from anywhere but the bound on pages. *)
Definition never_fuel {A} (m : M W E A) : Prop := forall s, (m s).2 <> Err ErrFuel.

Lemma never_ret {A} (x : A) : never_fuel (ret x).
Proof. by intros s. Qed.
Lemma never_fail {A} e : e <> ErrFuel -> never_fuel (fail e : M W E A).
Proof. intros He s. cbn. congruence. Qed.
Lemma never_bind {A B} (m : M W E A) (k : A -> M W E B) : never_fuel m -> (forall x, never_fuel (k x)) -> never_fuel (bind m k).
Proof.
  intros Hm Hk s. unfold bind. specialize (Hm s). destruct (m s) as [s' [x|e]]; [apply Hk|]. cbn in *. congruence.
Qed.
Lemma never_call {A} what (d : dep W E A) : never_fuel (call what d).
Proof. intros s. unfold call. destruct (d s.2) as [w r]. cbn. by destruct r. Qed.
Lemma never_ignore {A} (d : dep W E A) : never_fuel (ignore d).
Proof. by intros s. Qed.
Lemma never_lift {X A} (wrap : X -> append_error E) (r : res X A) : (forall e, wrap e <> ErrFuel) -> never_fuel (lift wrap r).
Proof. intros Hw s. cbn. destruct r; cbn; [done|]. specialize (Hw e). congruence. Qed.
Lemma never_get : never_fuel get.
Proof. by intros s. Qed.
Lemma never_modify f : never_fuel (modify f).
Proof. by intros s. Qed.
Lemma never_read {A} (f : W -> W * A) : never_fuel (read f).
Proof. intros s. unfold read. by destruct (f s.2). Qed.
Lemma never_attempt {A} (m : M W E A) : never_fuel (attempt m).
Proof. intros s. unfold attempt. by destruct (m s). Qed.
Lemma never_if {A} (b : bool) (m1 m2 : M W E A) : never_fuel m1 -> never_fuel m2 -> never_fuel (if b then m1 else m2).
Proof. by destruct b. Qed.

Ltac never_step := first
  [ apply never_ret | apply never_fail; discriminate | apply never_call | apply never_ignore
  | apply never_lift; discriminate | apply never_get | apply never_modify | apply never_read | apply never_attempt
  | apply never_if | apply never_bind; [|intros ?] | assumption
  | match goal with |- never_fuel (match ?x with _ => _ end) => destruct x end ].
Ltac never_all := repeat never_step.

Lemma never_replay_records paged target l c : never_fuel (replay_records paged target c l).
Proof.
  revert c. induction l as [|record l IH]; intros c; cbn [replay_records]; [apply never_ret|].
  apply never_bind; [|intros [c'|]; [apply IH|apply never_ret]].
  unfold replay_record, apply_record, finalizeProjection, resolveProjectionBatch, batch_plaintext, checkpoint, commitReplay.
  never_all.
Qed.

Lemma never_recover_rows l : never_fuel (recover_rows l).
Proof.
  induction l as [|q l IH]; cbn [recover_rows]; [apply never_ret|].
  unfold recover_row, finalize_or_repair. never_all.
Qed.

(** Out of fuel, the chain has filled every page. *)
Lemma replay_pages_fuel fuel fetch target c a w s' :
  (forall after n, serves texts view ok (fetch cid after n)) ->
  A_computerID a = cid -> Good w -> local (view w) = c_current c ->
  replay_pages fuel fetch target c (a, w) = (s', Err ErrFuel) ->
  head_seq (c_current c) + EventReplayPageSize * Z.of_nat fuel <= Z.of_nat (length (chain (view s'.2))).
Proof.
  intros Hf. revert c a w. induction fuel as [|fuel IH]; intros c a w Ha Hi Hl; cbn [replay_pages].
  { intros [= <-]. cbn [snd]. rewrite <-Hl.
    destruct (at_head_ok _ _ _ (inv_linked _ _ (proj1 Hi)) (inv_local _ _ (proj1 Hi))) as [_ Hr]. lia. }
  unfold bind at 1. cbn [get fst snd]. rewrite Ha. unfold bind at 1.
  pose proof (spec_serves (fun v => local v = c_current c) "fetch durable chain" _ (Hf (c_after c) EventReplayPageSize) _
    a w Ha Hi Hl) as Hs.
  pose proof (never_call "fetch durable chain" (fetch cid (c_after c) EventReplayPageSize) (a, w)) as Hnc.
  destruct (call _ _ (a, w)) as [[a1 w1] [page|e]]; [|intros [= _ ->]; by destruct Hnc].
  destruct Hs as (Ha1 & Hi1 & _ & Hg & Hl1). destruct page as [|record page]; [done|].
  unfold bind at 1. set (l := record :: page) in *.
  pose proof (spec_replay_records true target l c a1 w1 Ha1 Hi1 (conj Hl1 Hg)) as Hs.
  pose proof (never_replay_records true target l c (a1, w1)) as Hn.
  destruct (replay_records true target c l (a1, w1)) as [[a2 w2] [o|e]]; [|intros [= _ ->]; by destruct Hn].
  destruct Hs as (Ha2 & Hi2 & _ & Ho). destruct o as [c'|]; [|done]. destruct Ho as [Hl2 Hh].
  destruct (_ || _) eqn:Hend; [done|]. intros He. pose proof (IH c' a2 w2 Ha2 Hi2 Hl2 He) as Hc.
  apply orb_false_iff in Hend as [Hfull%Z.ltb_ge _]. lia.
Qed.

Lemma bind_fuel {A B} (m : M W E A) (k : A -> M W E B) s s' :
  never_fuel m -> bind m k s = (s', Err ErrFuel) -> exists s1 x, m s = (s1, Ok x) /\ k x s1 = (s', Err ErrFuel).
Proof.
  intros Hm. unfold bind. specialize (Hm s). destruct (m s) as [s1 [x|e]]; [by exists s1, x|]. intros [= _ ->]. done.
Qed.

(** A reconstruction out of fuel met a chain longer than its pages. *)
Lemma reconstruct_body_fuel fuel target a w s' :
  A_computerID a = cid -> Good w -> reconstruct_body fuel source target (a, w) = (s', Err ErrFuel) ->
  EventReplayPageSize * Z.of_nat fuel <= Z.of_nat (length (chain (view s'.2))).
Proof.
  intros Ha Hi Hr. unfold reconstruct_body in Hr.
  apply bind_fuel in Hr as ([a1 w1] & [] & E1 & Hr); [|unfold RecoverPrepared; never_all; apply never_recover_rows].
  pose proof (spec_RecoverPrepared a w Ha Hi I) as H1. rewrite E1 in H1. destruct H1 as (Ha1 & Hi1 & _ & _).
  apply bind_fuel in Hr as (s2 & a2 & [= <- <-] & Hr); [|apply never_get].
  apply bind_fuel in Hr as ([a3 w3] & h & E3 & Hr); [|apply never_call]. rewrite Ha1 in E3.
  pose proof (spec_proj_Head (fun _ => True) "reconstruction local head" _ a1 w1 Ha1 Hi1 I) as H3. rewrite E3 in H3.
  destruct H3 as (Ha3 & Hi3 & _ & Hl3 & _).
  destruct (_ && _); [by destruct h; [destruct (A_replayProjection a1)|]|].
  unfold bind at 1 in Hr. destruct (replay_source fuel source target _ (a3, w3)) as [s4 [o|e]] eqn:E4.
  { exfalso. destruct o as [c'|]; [|done]. revert Hr. 
    assert (never_fuel (guard! target != "" with ErrTargetNotReached ;; settle_replay : M W E unit)) as Hn.
    { unfold settle_replay, commitReplay. never_all. }
    intros Hr. specialize (Hn s4). rewrite Hr in Hn. done. }
  injection Hr as -> ->. unfold replay_source in E4. destruct (src_EventsPage source) as [fetch|] eqn:Ef.
  - eapply replay_pages_fuel in E4; [|intros; by apply law_EventsPage|exact Ha3|exact Hi3|exact Hl3].
    cbn [c_current] in E4. destruct (at_head_ok _ _ _ (inv_linked _ _ (proj1 Hi3)) (inv_local _ _ (proj1 Hi3))) as [_ Hr].
    rewrite Hl3 in Hr. lia.
  - exfalso. apply bind_fuel in E4 as (s5 & a5 & [= <- <-] & E5); [|apply never_get].
    apply bind_fuel in E5 as (s6 & l & _ & E6); [|apply never_call].
    pose proof (never_replay_records false target l (Build_cursor h match h with Some h => HeadSequence h | None => 0 end 0 0) s6) as Hn.
    by rewrite E6 in Hn.
Qed.

(** ** Runs of the appender *)

(** The operations a computer calls; an error is reported and the run goes on. *)
Inductive operation :=
  | OpAppend (event : Event) (input : TransitionInput) (pins : list string)
  | OpAppendNew (event : Event) (input : TransitionInput) (pins : list string)
  | OpPayload (event : Event) (input : TransitionInput) (payload mediaType privacyClass : string)
  | OpPrivate (event : Event) (input : TransitionInput) (plaintext mediaType : string) (hasCipher : bool)
  | OpPayloadSet (event : Event) (input : TransitionInput) (payloads : list EventPayload) (hasCipher : bool)
  | OpRecover
  | OpReconstruct (fuel : nat)
  | OpReconstructThrough (fuel : nat) (target : string)
  | OpReplayMode (enabled : bool)
  | OpPolicy (every interval : Z).

Definition discard_result {A} (m : M W E A) : M W E unit := do! m ;; ret tt.

Definition perform (op : operation) : M W E unit :=
  match op with
  | OpAppend event input pins => discard_result (Append event input pins)
  | OpAppendNew event input pins => discard_result (AppendNew event input pins)
  | OpPayload event input payload mediaType privacyClass =>
    discard_result (AppendNewPayload event input payload mediaType privacyClass)
  | OpPrivate event input plaintext mediaType c => discard_result (AppendNewPrivatePayload event input plaintext mediaType c)
  | OpPayloadSet event input payloads c => discard_result (AppendNewPayloadSet event input payloads c)
  | OpRecover => RecoverPrepared
  | OpReconstruct fuel => Reconstruct fuel source
  | OpReconstructThrough fuel target => ReconstructThrough fuel source target
  | OpReplayMode enabled => modify (fun a => SetReplayMode a enabled)
  | OpPolicy every interval => modify (fun a => SetReplayCheckpointPolicy a every interval)
  end.

(** What an operation hashes is among the texts considered. *)
Definition known_op (op : operation) (s : Appender * W) : Prop :=
  match op with
  | OpAppend event input pins => known_args event input pins
  | OpAppendNew event input pins => builds_known (AppendNew_build event input pins) input s
  | OpPayload event input payload mediaType privacyClass =>
    builds_known (AppendNewPayload_build event input payload mediaType privacyClass) input s
  | OpPrivate event input plaintext mediaType c =>
    builds_known (AppendNewPrivatePayload_build event input plaintext mediaType c) input s
  | OpPayloadSet event input payloads c => builds_known (AppendNewPayloadSet_build event input payloads c) input s
  | _ => True
  end.

Fixpoint performs (ops : list operation) (s : Appender * W) : Appender * W :=
  match ops with [] => s | op :: ops => performs ops (perform op s).1 end.

Fixpoint known_run (ops : list operation) (s : Appender * W) : Prop :=
  match ops with [] => True | op :: ops => known_op op s /\ known_run ops (perform op s).1 end.

(** What every operation keeps. *)
Definition kept (w : W) (s' : Appender * W) : Prop :=
  A_computerID s'.1 = cid /\ Good s'.2 /\ chain (view w) `suffix_of` chain (view s'.2).

Lemma spec_kept {A} F (m : M W E A) G a w : spec F m G -> A_computerID a = cid -> Good w -> F (view w) -> kept w (m (a, w)).1.
Proof.
  intros Hm Ha Hi Hf. specialize (Hm a w Ha Hi Hf). destruct (m (a, w)) as [[a' w'] r]. by destruct Hm as (H1 & H2 & H3 & _).
Qed.

Lemma from_kept {A} a w (m : M W E A) G : from (a, w) m G -> kept w (m (a, w)).1.
Proof. unfold from. destruct (m (a, w)) as [[a' w'] r]. by intros (H1 & H2 & H3 & _). Qed.

Lemma discard_kept {A} (m : M W E A) s w : kept w (m s).1 -> kept w (discard_result m s).1.
Proof. unfold discard_result, bind. by destruct (m s) as [s' [x|e]]. Qed.

Lemma kept_discarded {A} (m : M W E A) s w : kept w (discard_result m s).1 -> kept w (m s).1.
Proof. unfold discard_result, bind. by destruct (m s) as [s' [x|e]]. Qed.

Lemma perform_kept op a w : A_computerID a = cid -> Good w -> known_op op (a, w) -> kept w (perform op (a, w)).1.
Proof.
  intros Ha Hi Hk. destruct op; cbn [perform known_op] in *; try apply discard_kept.
  - by eapply spec_kept; [apply (spec_appendLocked (local (view w)))|..].
  - by eapply from_kept, splits_from; [apply AppendNew_splits|..].
  - by eapply from_kept, splits_from; [apply AppendNewPayload_splits|..].
  - by eapply from_kept, splits_from; [apply AppendNewPrivatePayload_splits|..].
  - by eapply from_kept, splits_from; [apply AppendNewPayloadSet_splits|..].
  - by eapply spec_kept; [apply spec_RecoverPrepared|..].
  - by eapply spec_kept; [apply (spec_reconstruct _ _ [])|..|apply suffix_nil].
  - eapply (spec_kept (fun v => [] `suffix_of` chain v)); [|done|done|apply suffix_nil]. unfold ReconstructThrough.
    apply spec_if; intros _; [apply spec_fail|apply spec_reconstruct].
  - by eapply (spec_kept (fun _ => True)); [by apply spec_modify|..].
  - by eapply (spec_kept (fun _ => True)); [by apply spec_modify|..].
Qed.

(** [C1] Whatever the appender is asked to do, whatever calls fail with or
    without effect, and whatever other realizations append meanwhile: after any
    run of operations the chain of the platform is still linked by the reducer and
    has only grown, the head of the embedded projection is the head the chain had
    at some moment, and every prepared row reduces from such a head. *)
Theorem appender_keeps_invariant ops a w
    (Hcid : A_computerID a = cid) (Hgood : Good w) (Hknown : known_run ops (a, w)) :
  let w' := (performs ops (a, w)).2 in
  chain (view w) `suffix_of` chain (view w') /\ linked texts (chain (view w')) /\
  at_head (chain (view w')) (local (view w')) /\ Forall (row_ok texts (chain (view w'))) (rows (view w')).
Proof.
  cut (kept w (performs ops (a, w))).
  { intros (_ & [[H1 H2 H3 _] _] & Hc). by split_and!. }
  revert a w Hcid Hgood Hknown. induction ops as [|op ops IH]; intros a w Ha Hi; [done|].
  intros [Hop Hops]. cbn [performs] in *. destruct (perform_kept op a w Ha Hi Hop) as (Ha' & Hi' & Hc).
  destruct (perform op (a, w)).1 as [a' w']. destruct (IH a' w' Ha' Hi' Hops) as (Ha2 & Hi2 & Hc2).
  split_and!; [exact Ha2|exact Hi2|by etrans].
Qed.

(** [C4] An event [AppendNew] reports as appended was bound to the head the
    projection had when the call began, and to no other: from that head it reduces
    to the new head of the projection, the chain has an entry with its facts, and
    the receipt verifies for it. *)
Theorem append_new_is_canonical event input pins a w a' w' receipt
    (Hcid : A_computerID a = cid) (Hgood : Good w)
    (Hknown : builds_known (AppendNew_build event input pins) input (a, w))
    (Hrun : AppendNew event input pins (a, w) = ((a', w'), Ok receipt)) :
  exists q, ComputerID (R_Event q) = cid /\ R_Input q = input /\ R_PayloadPinReceiptDigests q = pins /\
    Digest (R_Event q) = Ok (R_EventDigest q) /\
    Reduce (local (view w)) (R_Event q) input = Ok (R_Next q) /\ local (view w') = Some (R_Next q) /\
    verify_receipt receipt q = Ok tt /\ attested (chain (view w')) q.
Proof.
  pose proof (splits_from _ _ _ a w (AppendNew_splits event input pins) Hcid Hgood Hknown) as Hf. unfold from in Hf.
  rewrite Hrun in Hf. destruct Hf as (_ & _ & _ & s' & ev & pins' & f & receipt' & Hb & -> & q & (E1 & E2 & E3) & Hq).
  assert (f = id /\ pins' = pins) as [-> ->].
  { unfold AppendNew_build, commit_with in Hb. unfold bind at 1 in Hb. destruct (bind_head event (a, w)) as [s1 [e1|?]]; [|done].
    unfold bind at 1 in Hb. destruct (pin_intent e1 input s1) as [s2 [[e2 i2]|?]]; [|done].
    unfold bind, lift in Hb. destruct (ComputeRequestCommitment e2 input i2 pins); [|done]. by injection Hb. }
  exists q. subst ev. destruct Hq as (Hc & Hd & Hr & Hv & Ha & Hl). by split_and!.
Qed.

Lemma spec_absurd {A} (F : View -> Prop) (m : M W E A) G : (forall v, Inv v -> F v -> False) -> spec F m G.
Proof. intros HF a w Ha Hi Hf. destruct (HF (view w)); [apply Hi|done]. Qed.

(** The head the platform reports is that of a chain no shorter than before. *)
Lemma spec_fresh_Head F what c : Stable F ->
  spec (fun v => c `suffix_of` chain v /\ F v) (call what (cas_Head cid)) (fun h v => caught_up c h v /\ F v).
Proof.
  intros HF a w Ha Hi [Hc Hf]. unfold call. cbn [fst snd]. destruct (cas_Head cid w) as [w' r] eqn:Ed.
  destruct (law_Head w w' r Hi Ed) as (Hok & Hs & Hh). cbn. split_and!; [done|by eapply Good_same|by eapply same_suffix|].
  destruct r as [h|]; cbn; [|done]. split; [|by eapply HF]. exists (chain (view w')).
  split_and!; [etrans; [exact Hc|by eapply same_suffix]|done|by apply Hh].
Qed.

(** [C8] An append on a projection that lags behind the chain never succeeds:
    the appender refuses it, whatever the event is. *)
Theorem lagging_append_refused event input pins a w
    (Hcid : A_computerID a = cid) (Hgood : Good w)
    (Hlag : head_seq (local (view w)) < Z.of_nat (length (chain (view w)))) :
  is_ok (Append event input pins (a, w)).2 = false.
Proof.
  assert (spec (fun v => chain (view w) `suffix_of` chain v /\ local v = local (view w))
    (Append event input pins) (fun _ _ => False)) as Hspec.
  { pose (F := fun v => chain (view w) `suffix_of` chain v /\ local v = local (view w)).
    unfold Append, appendLocked.
    eapply spec_bind; [apply (spec_get _ _ _ _ _ (fun a v => A_computerID a = cid /\ F v)); done|].
    intros a1. apply spec_pure. intros ->. apply spec_if; intros _; [apply spec_fail|].
    eapply spec_bind; [apply spec_lift|]. intros pin. apply spec_pure. intros _.
    eapply spec_bind; [apply spec_lift|]. intros commitment. apply spec_pure. intros _.
    apply spec_if; intros _; [apply spec_fail|].
    eapply spec_bind; [apply spec_fresh_Head; apply _|]. intros platform.
    eapply spec_bind; [apply (spec_proj_Head (fun v => caught_up (chain (view w)) platform v /\ local v = local (view w))); apply _|].
    intros embedded. apply spec_if; intros Hsame; [apply spec_fail|]. apply passed in Hsame as <-.
    apply spec_absurd. intros v Hi (Hl & (c' & Hc & Hc' & Hh) & Hl').
    destruct (linked_head texts c') as [_ Hs]; [by eapply linked_suffix; [apply Hi|]|].
    apply suffix_length in Hc. rewrite <-Hl', Hl, Hh, Hs in Hlag. lia. }
  specialize (Hspec a w Hcid Hgood (conj (reflexivity _) eq_refl)).
  destruct (Append event input pins (a, w)) as [[a' w'] [r|e]]; [|done]. by destruct Hspec as (_ & _ & _ & []).
Qed.

(** [C6] A reconstruction that succeeds has caught up: the head of the projection
    is the head of the chain at some moment after the call began. *)
Theorem reconstruct_catches_up fuel a w a' w'
    (Hcid : A_computerID a = cid) (Hgood : Good w)
    (Hrun : Reconstruct fuel source (a, w) = ((a', w'), Ok tt)) :
  exists c, chain (view w) `suffix_of` c /\ c `suffix_of` chain (view w') /\ local (view w') = chain_head c.
Proof.
  pose proof (spec_reconstruct fuel "" (chain (view w)) a w Hcid Hgood (reflexivity _)) as Hs.
  unfold Reconstruct in Hrun. rewrite Hrun in Hs. by destruct Hs as (_ & _ & _ & Hc).
Qed.

(** [C7] A reconstruction through a target that succeeds ends at the target: the
    head of the projection is the entry of the chain with that digest, and not one
    before or after it. *)
Theorem reconstruct_through_stops_at_target fuel target a w a' w'
    (Hcid : A_computerID a = cid) (Hgood : Good w)
    (Hrun : ReconstructThrough fuel source target (a, w) = ((a', w'), Ok tt)) :
  head_digest (local (view w')) = TrimSpace target /\ at_head (chain (view w')) (local (view w')).
Proof.
  unfold ReconstructThrough in Hrun. destruct (isSHA256 (TrimSpace target)) eqn:Ht; [|done].
  pose proof (spec_reconstruct fuel (TrimSpace target) [] a w Hcid Hgood (suffix_nil _)) as Hs.
  cbn [negb] in Hrun. rewrite Hrun in Hs. destruct Hs as (_ & [Hi _] & _ & Hc). split; [|apply Hi].
  unfold reconstructed in Hc. rewrite bool_decide_eq_false_2 in Hc; [done|]. intros He. by rewrite He in Ht.
Qed.

(** [C9] Replaying takes no more pages than the chain fills: a reconstruction
    whose bound on pages exceeds the length of the chain by a page never stops for
    that bound. *)
Theorem reconstruct_pages_suffice fuel target a w s' r
    (Hcid : A_computerID a = cid) (Hgood : Good w)
    (Hrun : reconstruct fuel source target (a, w) = (s', r))
    (Hfuel : Z.of_nat (length (chain (view s'.2))) < EventReplayPageSize * Z.of_nat fuel) :
  r <> Err ErrFuel.
Proof.
  rename Hrun into Er. intros ->. apply (Z.lt_irrefl (Z.of_nat (length (chain (view s'.2))))).
  eapply Z.lt_le_trans; [exact Hfuel|]. clear Hfuel. unfold reconstruct in Er. unfold bind at 1 in Er. cbn [get fst] in Er.
  destruct (A_replayProjection a).
  - unfold bind at 1 in Er. cbn [modify fst snd] in Er. unfold bind at 1, attempt in Er.
    destruct (reconstruct_body fuel source target (setReplayActive a true, w)) as [[a1 w1] r1] eqn:E1. unfold bind in Er. cbn [modify fst snd] in Er.
    destruct r1 as [[]|e]; [done|]. injection Er as <- ->. cbn [snd].
    by apply (reconstruct_body_fuel fuel target (setReplayActive a true) w (a1, w1)).
  - by apply (reconstruct_body_fuel fuel target a w).
Qed.
End Operations.
End EventSync.
