(* ===== verification/EventStoreLaws.v ===== *)
(** * EventStoreLaws: the embedded store implements its part of the contract

    What an observer sees of the store of [EventStore]: the head of a computer,
    the requests its prepared rows read back as, and the digests of its finalized
    rows. Whatever statements fail, every operation moves this view the way
    [EventContract] says, and keeps [store_ok]: the primary key holds and every
    prepared row reads back. *)
From S2P Require Import Prelude GoStrings Sha256 GoUuid GoSql GoJson GoDecode CanonicalJson JsonRoundTrip ComputerEvent EventReceipt EventDecode ProjectionBatch EventAppender EventStore EventContract.
Import ComputerEvent EventReceipt EventDecode ProjectionBatch EventStore EventContract.

Module EventStoreLaws.
Local Open Scope Z_scope.

Section Laws.
Context {P X : Type} `{Uuid, Sha256, Projector P X, Faults}.
Variable texts : string -> Prop.
Variable cid : string.

(** ** The view *)

Definition mine (r : IndexRow) : bool := ix_computer r == cid.

Definition row_request (r : IndexRow) : option CASRequest :=
  match read_row (X := X) r with Ok q => Some q | Err _ => None end.

Definition prepared_rows (l : list IndexRow) : list IndexRow := List.filter (fun r => mine r && has_status "prepared" r) l.
Definition finalized_rows (l : list IndexRow) : list IndexRow := List.filter (fun r => mine r && has_status "finalized" r) l.

Definition view_of (c : list CASRequest) (s : Store P) : View := {|
  chain := c;
  local := st_heads s !! cid;
  rows := omap row_request (prepared_rows (st_index s));
  finalized := map ix_digest (finalized_rows (st_index s)) |}.

(** A prepared row reads back as a request that its columns describe. *)
Definition row_kept (r : IndexRow) : Prop :=
  exists q, read_row (X := X) r = Ok q /\ ComputerID (R_Event q) = cid /\
    ix_sequence r = Sequence (R_Event q) /\ ix_previous r = PreviousHead (R_Event q).

Record store_ok (s : Store P) : Prop := {
  so_digests : NoDup (ix_digest <$> st_index s);
  so_kept : Forall row_kept (prepared_rows (st_index s));
}.

(** ** A prepared request reads back *)

Lemma read_pins_back pins : forallb ValidString pins = true -> read_pins (pins_json pins) = Some pins.
Proof.
  intros Hp. unfold read_pins, pins_json. rewrite parse_marshal by apply integral_JStrs. cbn [mbind option_bind fmap option_fmap option_map].
  assert (utf8 (JStrs pins) = true) as Hu by (unfold JStrs; cbn [utf8]; by rewrite forallb_map).
  rewrite !clean_utf8 by (rewrite ?clean_utf8 by exact Hu; exact Hu).
  rewrite <-(sort_members_JStrs pins). apply dec_strs_ok.
Qed.

Lemma pin_intent_total e i : exists d, ComputePinIntentCommitment e i = Ok d.
Proof.
  unfold ComputePinIntentCommitment. destruct (CanonicalJSON_total (requestIntent e i)) as [b ->]; [|by eexists].
  unfold requestIntent. cbn [integral forallb snd]. by rewrite !integral_JInt, !integral_JStrs.
Qed.

Lemma Reduce_computer h e i n :
  Reduce h e i = Ok n -> HeadComputerID n = ComputerID e.
Proof.
  destruct h as [c|].
  - intros (d & _ & _ & _ & Hc & _ & _ & _ & Hk)%Reduce_Some_inv. apply reduceKind_common in Hk as (_ & _ & Hk & _). congruence.
  - intros (d & _ & _ & Hr)%Reduce_None_inv. unfold reduceGenesis in Hr. by go_inv Hr.
Qed.

Lemma envelope_same e : same_envelope (envelope e) e.
Proof. by destruct e. Qed.

(** The row of a request reads back as the request. *)
Lemma read_index_row c q body :
  linked texts c -> row_ok texts c q -> ComputerEvent.CanonicalBytes (R_Event q) = Ok body ->
  exists x, read_row (X := X) (index_row q body) = Ok x /\ read_back q x /\ ComputerID (R_Event x) = ComputerID (R_Event q) /\
    Sequence (R_Event x) = Sequence (R_Event q) /\ PreviousHead (R_Event x) = PreviousHead (R_Event q).
Proof.
  intros Hc [Hd [Hu Ht] (h & Hh & Hr) Hb Hp] Hbody. destruct (at_head_ok texts c h Hc Hh) as [Hok _].
  destruct (Reduce_step _ _ _ _ Hok Hr) as (Hno & Hn & Hs & _ & Hd'). pose proof (Reduce_computer _ _ _ _ Hr) as Hcid.
  cbn [forallb] in Hp. apply andb_true_iff in Hp as [_ Hp].
  unfold read_row, index_row. cbn [ix_event ix_pins ix_digest ix_artifact ix_pin ix_desired ix_effective ix_pending
    ix_desiredCommitment ix_effectiveCommitment ix_reducer ix_epoch ix_target ix_restored].
  rewrite (decode_canonical _ _ Hbody Hu).
  2: { destruct (ok_sequence _ Hno). unfold is_u64. lia. }
  rewrite (read_pins_back _ Hp), !coalesce_nullable.
  destruct (pin_intent_total (envelope (R_Event q)) (Build_TransitionInput (TargetStateCommitment (R_Input q)) (RestoredPriorEffective (R_Input q)))) as [d ->].
  cbn [res_map_err]. eexists. split; [reflexivity|].
  pose proof (envelope_same (R_Event q)) as He. destruct (same_envelope_facts _ _ He) as (E1 & _ & E2 & E3).
  unfold read_back. cbn [R_Event R_EventDigest R_Input R_Next R_EventPinReceiptDigest R_PayloadPinReceiptDigests].
  split_and!; try done; [by destruct (R_Input q)|]. rewrite E1, E2.
  rewrite Hd in Hd'. injection Hd' as Hd'. destruct (R_Next q); cbn in *. congruence.
Qed.

(** ** Operations *)

#[local] Arguments with_memory {P} s dirty since /.
#[local] Arguments with_index {P} s l /.
#[local] Arguments with_heads {P} s m /.

Variable c : list CASRequest.
Hypothesis linked_c : linked texts c.
Abbreviation view := (view_of c).
Abbreviation wp := (wp (E := store_error X)).

(** What a statement on the fields in memory preserves. *)
Lemma wp_update {A} f s (Q : A -> Store P -> Prop) K k :
  wp (k tt) (f s) Q K -> wp (db_bind (update f) k) s Q K.
Proof. intros Hk n. apply Hk. Qed.
Lemma wp_peek {A B} (f : Store P -> B) s (Q : A -> Store P -> Prop) K k :
  wp (k (f s)) s Q K -> wp (db_bind (peek f) k) s Q K.
Proof. intros Hk n. apply Hk. Qed.

(** A property of the tables alone. *)
Definition durable (K : Store P -> Prop) : Prop :=
  forall s s', st_index s' = st_index s -> st_heads s' = st_heads s -> K s -> K s'.

Lemma durable_ok : durable store_ok.
Proof. intros s s' Ei Eh [K1 K2]. split; by rewrite Ei. Qed.

Lemma durable_view (F : View -> Prop) : durable (fun s => F (view s)).
Proof. intros s s' Ei Eh. unfold view_of. by rewrite Ei, Eh. Qed.

Lemma durable_and F G : durable F -> durable G -> durable (fun s => F s /\ G s).
Proof. intros D1 D2 s s' Ei Eh [K1 K2]. split; [by eapply D1|by eapply D2]. Qed.

Lemma wp_commit (K : Store P -> Prop) s : durable K -> K s -> wp commitDoltCheckpoint s (fun _ => K) K.
Proof.
  intros HK Hs. unfold commitDoltCheckpoint. apply wp_peek. apply wp_if; intros _; [by apply wp_ret|].
  apply wp_bind, wp_query; [|done]. intros n. cbn. by eapply HK; [..|exact Hs].
Qed.

Lemma wp_mark (K : Store P -> Prop) s : durable K -> K s -> wp markDoltHistoryDirty s (fun _ => K) K.
Proof. intros HK Hs n. cbn. by eapply HK; [..|exact Hs]. Qed.

Definition moved (R : View -> View -> Prop) (s s' : Store P) : Prop := store_ok s' /\ R (view s) (view s').

Lemma durable_moved R s : durable (moved R s).
Proof. apply durable_and; [apply durable_ok|apply durable_view]. Qed.

Lemma moved_same s : store_ok s -> moved (same texts) s s.
Proof. intros Hs. split; [done|by apply same_view_refl]. Qed.

(** *** Preparing *)

Lemma elem_rows s q : q ∈ rows (view s) <-> exists r, r ∈ prepared_rows (st_index s) /\ row_request r = Some q.
Proof. cbn [view_of rows]. apply list_elem_of_omap. Qed.

Lemma insert_moved q body s s' u :
  store_ok s -> row_ok texts c q -> ComputerEvent.CanonicalBytes (R_Event q) = Ok body ->
  insert_row (index_row q body) s = Some (s', u) -> moved (prepared texts q) s s'.
Proof.
  intros [K1 K2] Hq Hb. unfold insert_row. destruct (existsb _ _) eqn:Ee; [done|]. intros [= <- _].
  pose proof (existsb_false _ _ Ee) as Hnew. destruct (read_index_row c q body linked_c Hq Hb) as (x & Hx & Hback & E1 & E2 & E3).
  unfold moved. split; [split; cbn [with_index st_index]|].
  - cbn [fmap list_fmap]. constructor; [|done]. intros (r & Hr & Hin)%list_elem_of_fmap. specialize (Hnew r Hin).
    unfold clashes in Hnew. cbn [index_row ix_digest] in Hnew, Hr. rewrite <-Hr, bool_decide_eq_true_2 in Hnew by done. done.
  - unfold prepared_rows. cbn [List.filter]. destruct (mine _ && _) eqn:Em; [|done]. constructor; [|done].
    apply andb_true_iff in Em as [Em%bool_decide_eq_true_1 _]. cbn [index_row ix_computer] in Em. exists x.
    cbn [index_row ix_sequence ix_previous]. split; [exact Hx|]. split; [by rewrite E1|]. by rewrite E2, E3.
  - split; [done|]. split; [done|]. split; [|split; [|apply Hq]].
    + intros d. cbn [view_of finalized with_index st_index]. unfold finalized_rows. cbn [List.filter].
      unfold has_status at 1. cbn [index_row ix_status]. by rewrite andb_false_r.
    + intros y (r & Hr & Hy)%elem_rows. cbn [with_index st_index] in Hr. apply elem_filter in Hr as [[->|Hr]%elem_of_cons Hm].
      * right. unfold row_request in Hy. rewrite Hx in Hy. by injection Hy as <-.
      * left. apply elem_rows. exists r. split; [by apply elem_filter|done].
Qed.

Lemma wp_Prepare q s :
  store_ok s -> (Digest (R_Event q) = Ok (R_EventDigest q) -> row_ok texts c q) ->
  let R := fun v v' => same texts v v' \/ prepared texts q v v' in
  wp (Prepare q) s (fun _ s' => Digest (R_Event q) = Ok (R_EventDigest q) /\ moved R s s') (moved R s).
Proof.
  intros Hs Hq R. assert (moved R s s) as Hid by (split; [done|left; by apply same_view_refl]).
  unfold Prepare. apply wp_if; intros Hd; [by apply wp_fail|].
  apply orb_false_iff in Hd as [Hd _]. destruct (Digest (R_Event q)) as [d|] eqn:Ed; [|done].
  apply negb_false_iff, bool_decide_eq_true_1 in Hd as ->. specialize (Hq eq_refl).
  apply wp_bind, wp_lift; [|done]. intros body Hb. apply wp_bind, wp_query; [|done].
  destruct (List.find _ _) as [r|].
  - apply wp_if; intros _; [by apply wp_fail|]. apply wp_if; intros _; [by apply wp_ret|by apply wp_fail].
  - apply wp_bind, wp_exec; [|done]. intros s' u Hi. pose proof (insert_moved q body s s' u Hs Hq Hb Hi) as [Hok Hm].
    assert (moved R s s') as Hm' by (split; [done|by right]). split; [|done].
    eapply wp_conseq; [apply (wp_mark (moved R s)); [apply durable_moved|exact Hm']|by intros [] s1 Hm1|done].
Qed.

(** *** Finalizing *)

Lemma read_row_inv r q :
  read_row (X := X) r = Ok q ->
  R_EventDigest q = ix_digest r /\
  (ComputerID (R_Event q) = cid -> ix_sequence r = Sequence (R_Event q) -> R_Next q = row_head cid (ix_digest r) r).
Proof.
  unfold read_row. destruct (DecodeHistoricEvent _) as [e|]; [|done]. destruct (read_pins _) as [pins|]; [|done].
  destruct (ComputePinIntentCommitment _ _) as [d|]; [|done]. cbn [res_map_err]. intros [= <-]. split; [done|].
  cbn. unfold row_head. intros -> ->. done.
Qed.

Lemma of_digest_inv d r : of_digest cid d r = true -> ix_computer r = cid /\ ix_digest r = d.
Proof. unfold of_digest. by intros [Hc%bool_decide_eq_true_1 Hd%bool_decide_eq_true_1]%andb_true_iff. Qed.

Lemma mine_of r : ix_computer r = cid -> mine r = true.
Proof. intros Hr. by apply bool_decide_eq_true_2. Qed.

Definition finalize_where (d : string) (r : IndexRow) : bool := of_digest cid d r && has_status "prepared" r.

Lemma elem_update (f : IndexRow -> bool) (g : IndexRow -> IndexRow) l r :
  r ∈ map (fun x => if f x then g x else x) l -> exists x, x ∈ l /\ (f x = true /\ r = g x \/ f x = false /\ r = x).
Proof. intros (x & -> & Hx)%list_elem_of_fmap. exists x. split; [done|]. destruct (f x); auto. Qed.

(** Rows that are still prepared after the update were not updated. *)
Lemma prepared_update d body l r :
  r ∈ prepared_rows (map (fun r => if finalize_where d r then finalized_row body r else r) l) -> r ∈ prepared_rows l.
Proof.
  intros [Hr Hp]%elem_filter. apply elem_update in Hr as (x & Hx & [[Hf ->]|[Hf ->]]).
  - apply andb_true_iff in Hp as [_ Hp]. by vm_compute in Hp.
  - by apply elem_filter.
Qed.

Lemma finalized_update d body l x :
  x ∈ map ix_digest (finalized_rows (map (fun r => if finalize_where d r then finalized_row body r else r) l)) ->
  x = d \/ x ∈ map ix_digest (finalized_rows l).
Proof.
  intros (r & -> & [Hr Hp]%elem_filter)%list_elem_of_fmap. apply elem_update in Hr as (y & Hy & [[Hf ->]|[Hf ->]]).
  - left. apply andb_true_iff in Hf as [Hf _]. by apply of_digest_inv in Hf as [_ Hf].
  - right. apply list_elem_of_fmap. exists y. split; [done|]. by apply elem_filter.
Qed.

(** Whether a row is the next one, as [finalize_head] compares it with the head. *)
Definition next_row (current : option Head) (r : IndexRow) : bool :=
  match current with
  | None => (ix_sequence r =? 1) && (ix_previous r == ZeroHead)
  | Some h => (wrap_u64 (HeadSequence h + 1) =? ix_sequence r) && (CanonicalEventHead h == ix_previous r)
  end.

Lemma next_row_follows current r q :
  next_row current r = true -> ix_sequence r = Sequence (R_Event q) -> ix_previous r = PreviousHead (R_Event q) ->
  follows current q.
Proof.
  unfold next_row, follows. intros Hn Hs Hp. rewrite Hs, Hp in Hn. destruct current as [h|]; cbn [head_seq head_digest].
  - apply andb_true_iff in Hn as [Hn%Z.eqb_eq Hh%bool_decide_eq_true_1]. done.
  - apply andb_true_iff in Hn as [Hn%Z.eqb_eq Hh%bool_decide_eq_true_1]. by rewrite Hn.
Qed.

Lemma finalized_moved d body s s' r :
  store_ok s -> r ∈ st_index s -> of_digest cid d r = true -> has_status "prepared" r = true ->
  next_row (st_heads s !! cid) r = true ->
  st_index s' = map (fun r => if finalize_where d r then finalized_row body r else r) (st_index s) ->
  st_heads s' = <[cid := row_head cid d r]> (st_heads s) ->
  moved (advanced texts d) s s'.
Proof.
  intros [K1 K2] Hr Hd Hst Hn Ei Eh. apply of_digest_inv in Hd as [Hc Hd]. split; [split|split_and!].
  - rewrite Ei, <-list_fmap_compose. erewrite list_fmap_ext; [exact K1|]. intros k x _. cbn. by destruct (finalize_where d x).
  - rewrite Ei. apply Forall_forall. intros x Hx%prepared_update. rewrite Forall_forall in K2. by apply K2.
  - done.
  - cbn [view_of finalized]. rewrite Ei. intros x. apply finalized_update.
  - intros q. rewrite !elem_rows, Ei. intros (x & Hx%prepared_update & Hq). by exists x.
  - assert (r ∈ prepared_rows (st_index s)) as Hp by (apply elem_filter; by rewrite mine_of).
    rewrite Forall_forall in K2. destruct (K2 r Hp) as (q & Hq & Hqc & Hqs & Hqp). exists q.
    destruct (read_row_inv r q Hq) as [Hqd Hqn]. split_and!.
    + apply elem_rows. exists r. split; [done|]. unfold row_request. by rewrite Hq.
    + by rewrite Hqd.
    + by eapply next_row_follows.
    + cbn [view_of local]. rewrite Eh, lookup_insert_eq, Hqn by done. by rewrite Hd.
Qed.

Lemma wp_project legacy batch s (K : Store P -> Prop) : durable K -> K s -> wp (project legacy batch) s (fun _ => K) (fun _ => True).
Proof.
  intros HK Hs. unfold project. destruct batch as [b|]; [|by apply wp_ret]. apply wp_bind, wp_query; [|done].
  apply wp_bind, wp_lift; [|done]. intros p _. apply wp_exec; [|done]. intros t' x [= <- _]. split; [|done].
  by eapply HK; [..|exact Hs].
Qed.

(** What a finalization does: it moves the head, or finds the event finalized, or
    leaves the view as it is. *)
Definition settled_or (d : string) (v v' : View) : Prop := advanced texts d v v' \/ same texts v v' /\ d ∈ finalized v'.
Definition advanced_or (d : string) (v v' : View) : Prop := advanced texts d v v' \/ same texts v v'.

Lemma settled_advanced d s s' : moved (settled_or d) s s' -> moved (advanced_or d) s s'.
Proof. intros [Hok [Ha|[Hs _]]]; (split; [done|]); [by left|by right]. Qed.

Lemma wp_finalize_transaction d body batch legacy s :
  store_ok s ->
  wp (finalize_transaction cid d body batch legacy) s (fun _ => moved (settled_or d) s) (moved (advanced_or d) s).
Proof.
  intros Hs. assert (moved (advanced_or d) s s) as Hid by (split; [done|right; by apply same_view_refl]).
  unfold finalize_transaction. apply wp_transaction; [|done]. apply wp_bind, wp_query; [|done].
  destruct (List.find _ _) as [r|] eqn:Ef; [|by apply wp_fail]. apply List.find_some in Ef as [Hr%list_elem_of_In Hd].
  apply wp_if; intros Hst.
  { apply wp_ret. split; [done|]. right. split; [by apply same_view_refl|]. apply of_digest_inv in Hd as [Hc <-].
    cbn [view_of finalized]. apply list_elem_of_fmap. exists r. split; [done|]. apply elem_filter. by rewrite mine_of, Hst. }
  clear Hst. apply wp_if; intros Hst; [by apply wp_fail|]. apply negb_false_iff in Hst.
  apply wp_bind, wp_lift; [|done]. intros [] _. apply wp_bind. unfold finalize_head. apply wp_bind, wp_query; [|done].
  change (match st_heads s !! cid with Some h => _ | None => _ end) with (next_row (st_heads s !! cid) r).
  apply wp_if; intros Hn; [by apply wp_fail|]. apply negb_false_iff in Hn.
  apply wp_exec; [|done]. intros s1 u [= <- _]. split; [|done].
  apply wp_bind, wp_exec; [|done]. intros s2 k [= <- _]. split; [|done].
  apply wp_if; intros _; [by apply wp_fail|].
  apply wp_bind. eapply wp_conseq; [apply (wp_project legacy batch _ (moved (advanced texts d) s))| |done].
  - apply durable_moved.
  - by eapply finalized_moved.
  - intros [] s3 [Hok Ha]. apply wp_ret. split; (split; [done|]); by left.
Qed.

Lemma wp_finalizeBatch d receipt batch legacy s :
  store_ok s ->
  wp (finalizeBatch cid d receipt batch legacy) s (fun _ => moved (settled_or d) s) (moved (advanced_or d) s).
Proof.
  intros Hs. assert (moved (advanced_or d) s s) as Hid by (split; [done|right; by apply same_view_refl]).
  unfold finalizeBatch. apply wp_if; intros _; [by apply wp_fail|].
  apply wp_bind, wp_lift; [|done]. intros body _. apply wp_bind.
  eapply wp_conseq; [by apply wp_finalize_transaction| |done]. intros b s1 Hm. pose proof (durable_moved (settled_or d) s) as HK.
  apply wp_if; intros _; [by apply wp_ret|]. apply wp_bind.
  eapply wp_conseq; [by apply (wp_mark (moved (settled_or d) s))| |intros s2; by apply settled_advanced].
  intros [] s2 Hm2. apply wp_if; intros _; [by apply wp_ret|]. apply wp_peek, wp_update, wp_peek. cbv zeta.
  apply wp_if; intros _; [by apply wp_ret; eapply HK; [..|exact Hm2]|]. apply wp_update.
  eapply wp_conseq; [apply (wp_commit (moved (settled_or d) s)); [exact HK|]|done|intros s3; by apply settled_advanced].
  by eapply HK; [..|exact Hm2].
Qed.

(** *** The other operations *)

Lemma wp_Head s : store_ok s ->
  wp (Store_Head (X := X) cid) s (fun h s' => moved (same texts) s s' /\ h = local (view s')) (moved (same texts) s).
Proof. intros Hs. pose proof (moved_same s Hs). by apply wp_query. Qed.

Lemma read_rows_elem l qs q : read_rows (X := X) l = Ok qs -> q ∈ qs -> exists r, r ∈ l /\ row_request r = Some q.
Proof.
  revert qs. induction l as [|r l IH]; intros qs; cbn [read_rows]; [by intros [= <-] ?%elem_of_nil|].
  destruct (read_row r) as [q'|] eqn:Er; [|done]. destruct (read_rows l) as [qs'|]; [|done]. intros [= <-].
  intros [->|Hq]%elem_of_cons.
  - exists r. split; [left|]. unfold row_request. by rewrite Er.
  - destruct (IH qs' eq_refl Hq) as (r' & Hr & Hrq). exists r'. split; [by right|done].
Qed.

Lemma read_back_refl q : read_back q q.
Proof. by split_and!. Qed.

Lemma wp_Prepared s : store_ok s ->
  wp (Prepared (X := X) cid) s
    (fun qs s' => moved (same texts) s s' /\ forall q, q ∈ qs ->
       ComputerID (R_Event q) = cid /\ exists row, row ∈ rows (view s') /\ read_back row q)
    (moved (same texts) s).
Proof.
  intros Hs. pose proof (moved_same s Hs) as Hid. unfold Prepared. apply wp_bind, wp_query; [|done].
  apply wp_lift; [|done]. intros qs Hqs. split; [done|]. intros q Hq.
  destruct (read_rows_elem _ _ _ Hqs Hq) as (r & Hr & Hrq). rewrite merge_sort_Permutation in Hr. split.
  - pose proof (so_kept s Hs) as Hk. rewrite Forall_forall in Hk. destruct (Hk r Hr) as (q' & Hq' & Hc & _).
    unfold row_request in Hrq. rewrite Hq' in Hrq. by injection Hrq as <-.
  - exists q. split; [|apply read_back_refl]. apply elem_rows. by exists r.
Qed.

Lemma wp_Discard d s : store_ok s ->
  wp (DiscardPrepared (X := X) cid d) s (fun _ => moved (discarded texts) s) (moved (discarded texts) s).
Proof.
  intros Hs. assert (moved (discarded texts) s s) as Hid by by split. unfold DiscardPrepared.
  apply wp_bind, wp_exec; [|done]. intros s1 n [= <- _]. 
  assert (moved (discarded texts) s (with_index s (List.filter (fun r => negb (of_digest cid d r && has_status "prepared" r)) (st_index s)))) as Hm.
  { destruct Hs as [K1 K2]. split; [split|split_and!]; cbn [with_index st_index].
    - eapply sublist_NoDup; [exact K1|]. apply fmap_sublist, sublist_list_filter.
    - apply Forall_forall. intros r [[Hr _]%elem_filter Hp]%elem_filter. rewrite Forall_forall in K2. apply K2. by apply elem_filter.
    - done.
    - done.
    - intros x (r & -> & [[Hr _]%elem_filter Hp]%elem_filter)%list_elem_of_fmap. cbn. apply list_elem_of_fmap.
      exists r. split; [done|]. by apply elem_filter.
    - intros q (r & [[Hr _]%elem_filter Hp]%elem_filter & Hq)%elem_rows. apply elem_rows. exists r. split; [by apply elem_filter|done]. }
  split; [|done]. apply wp_bind. eapply wp_conseq; [apply (wp_mark (moved (discarded texts) s)); [apply durable_moved|done]| |done].
  intros [] s2 Hm2. eapply wp_conseq; [apply (wp_commit (moved (discarded texts) s)); [apply durable_moved|done]|done|done].
Qed.

Lemma wp_CommitReplay s : store_ok s ->
  wp (CommitReplay (X := X)) s (fun _ => moved (same texts) s) (moved (same texts) s).
Proof. intros Hs. apply wp_commit; [apply durable_moved|by apply moved_same]. Qed.

Lemma wp_DryRun b s : store_ok s ->
  wp (DryRunProjectionBatch (X := X) cid b) s (fun _ => moved (same texts) s) (moved (same texts) s).
Proof.
  intros Hs. pose proof (moved_same s Hs) as Hid. unfold DryRunProjectionBatch. apply wp_transaction; [|done].
  apply wp_bind, wp_query; [|done]. apply wp_bind, wp_lift; [|done]. intros p _. by apply wp_ret.
Qed.
End Laws.
End EventStoreLaws.
