(* ===== verification/EventPlatformLaws.v ===== *)
(** * EventPlatformLaws: the platform implements its part of the contract

    The chain of a computer is what [pl_log] records of it. Whatever statements
    fail, the operations of [EventPlatform] keep [platform_ok]: the chain is
    linked, the head row is the head of the chain, and the rows of receipts are
    those of the entries of the chain, each with a receipt that matches the entry
    and reads back. The chain only grows. *)
From S2P Require Import Prelude GoStrings GoBase64 Sha256 GoUuid GoTime GoSql GoJson GoDecode CanonicalJson JsonRoundTrip ComputerEvent EventReceipt EventDecode EventAppender EventStore EventPlatform EventContract EventStoreLaws.
Import ComputerEvent EventReceipt EventDecode EventAppender EventPlatform EventContract.

Module EventPlatformLaws.
Local Open Scope Z_scope.

Section Laws.
Context `{Uuid, Sha256, Ed25519, PrivateEnvelopes, Drawn, Signer, Faults}.
Variable texts : string -> Prop.
Variable cid : string.

Definition own (q : CASRequest) : bool := ComputerID (R_Event q) == cid.
Definition chain_of (p : Platform) : list CASRequest := List.filter own (pl_log p).
Definition rows_of (p : Platform) : list ReceiptRow := List.filter (fun r => rr_computer r == cid) (pl_receipts p).

(** The row of an appended request. *)
Definition row_of (q : CASRequest) (r : ReceiptRow) : Prop :=
  exists receipt n, issue (drawn_uuid n) signing_key (clock n) q = Ok receipt /\ readable receipt /\
    EventReceipt.CanonicalBytes receipt = Ok (rr_receipt r) /\ r = receipt_row q receipt (rr_receipt r).

Definition pins_ok (q : CASRequest) : Prop :=
  forallb isSHA256 (R_EventPinReceiptDigest q :: R_PayloadPinReceiptDigests q) = true.

(** The artifact of an appended event is in its file, under the digest of the event. *)
Definition stored (p : Platform) (q : CASRequest) : Prop :=
  R_EventArtifactDigest q = R_EventDigest q /\
  exists b, pl_files p !! ("computer-event", R_EventDigest q) = Some b /\ sha256_hex b = R_EventDigest q.

Definition key_of (q : CASRequest) : string := IdempotencyKey (R_Event q).

Record platform_ok (p : Platform) : Prop := {
  po_linked : linked texts (chain_of p);
  po_head : pl_heads p !! cid = chain_head (chain_of p);
  po_rows : Forall2 row_of (chain_of p) (rows_of p);
  po_pins : Forall pins_ok (chain_of p);
  po_stored : Forall (stored p) (chain_of p);
  po_keys : NoDup (key_of <$> chain_of p);
  po_files : forall d b, pl_files p !! ("computer-event", d) = Some b -> texts b;
}.

Definition grown (p p' : Platform) : Prop := platform_ok p' /\ chain_of p `suffix_of` chain_of p'.

Lemma grown_refl p : platform_ok p -> grown p p.
Proof. by split. Qed.

Lemma NoDup_fmap_eq {X Y} (f : X -> Y) l x y : NoDup (f <$> l) -> x ∈ l -> y ∈ l -> f x = f y -> x = y.
Proof.
  intros Hnd [i Hi]%list_elem_of_lookup [j Hj]%list_elem_of_lookup He.
  assert (i = j) as ->; [|congruence]. eapply NoDup_lookup; [exact Hnd|by rewrite list_lookup_fmap, Hi|by rewrite list_lookup_fmap, Hj, He].
Qed.

(** ** Entries of the chain *)

Lemma pins_valid q : pins_ok q -> forallb ValidString (R_EventPinReceiptDigest q :: R_PayloadPinReceiptDigests q) = true.
Proof.
  unfold pins_ok. rewrite !forallb_forall. intros Hp s Hs. apply EventContract.isSHA256_valid, Hp, Hs.
Qed.

Lemma entry_row_ok c q : linked texts c -> q ∈ c -> pins_ok q -> row_ok texts c q.
Proof.
  intros Hc Hq Hp. destruct (linked_elem texts c q Hc Hq) as (l & Hl & Hql).
  apply linked_cons_inv in Hql as (_ & Hr & Hd & Hk & Hcom & _). split; [done|done| |by right|by apply pins_valid].
  exists (chain_head l). split; [|done]. exists l. split; [|done]. etrans; [|exact Hl]. by exists [q].
Qed.

Lemma entry_utf8 p q : platform_ok p -> q ∈ chain_of p -> request_utf8 q.
Proof.
  intros Hp Hq. pose proof (po_pins p Hp) as Hpins. rewrite Forall_forall in Hpins.
  eapply row_request_utf8; [apply (po_linked p Hp)|]. apply entry_row_ok; [apply (po_linked p Hp)|done|by apply Hpins].
Qed.

(** ** Computations that leave the tables alone *)
Section Staying.
Abbreviation Db := (Db Platform platform_error).

Lemma wp_step {A} (k : nat -> Db A) p Q X : (forall n, wp (k n) p Q X) -> wp (db_bind step k) p Q X.
Proof. intros Hk n. apply Hk. Qed.

Lemma wp_option {A} e (o : option A) p (Q : A -> Platform -> Prop) (X : Platform -> Prop) :
  (forall x, o = Some x -> Q x p) -> X p -> wp (db_option e o) p Q X.
Proof. intros HQ HX. destruct o as [x|]; [by apply wp_ret, HQ|by apply wp_fail]. Qed.

Definition checks {A} (m : Db A) (C : A -> Platform -> Prop) : Prop :=
  forall p, wp m p (fun x p' => p' = p /\ C x p) (fun p' => p' = p).

Lemma checks_wp {A B} (m : Db A) C (k : A -> Db B) p Q (X : Platform -> Prop) :
  checks m C -> X p -> (forall x, C x p -> wp (k x) p Q X) -> wp (db_bind m k) p Q X.
Proof.
  intros Hm HX Hk. apply wp_bind. eapply wp_conseq; [apply Hm|by intros x p' [-> Hx]; apply Hk|by intros p' ->].
Qed.
End Staying.

(** One step of a computation that reads only. *)
Ltac stay := first
  [ apply wp_bind; apply wp_query; [cbv beta|done]
  | apply wp_bind; apply wp_option; [intros ? ?|done]
  | apply wp_bind; apply wp_lift; [intros ? ?|done]
  | apply wp_if; intros ?
  | apply wp_fail; done
  | apply wp_ret; done
  | apply wp_bind; apply wp_if; intros ?; [apply wp_fail; done|apply wp_ret; cbv beta]
  | match goal with
    | |- wp (match ?x with _ => _ end) _ _ _ => destruct x eqn:?
    | |- wp (let '(_, _) := ?x in _) _ _ _ => destruct x eqn:?
    end ].

Lemma validate_pin_checks q expected digest :
  checks (validate_pin q expected digest) (fun _ p => isSHA256 digest = true /\ (expected = None -> R_EventArtifactDigest q = R_EventDigest q -> stored p q)).
Proof.
  intros p. unfold validate_pin. apply wp_if; intros Hd; [by apply wp_fail|]. apply negb_false_iff in Hd.
  unfold ReadFile. destruct expected as [payload|]; [by repeat stay|].
  do 7 stay. apply wp_bind, wp_if; intros Hm; [by apply wp_fail|]. apply wp_ret. cbv beta.
  apply orb_false_iff in Hm as [Hm _]. apply orb_false_iff in Hm as [Hm _]. apply orb_false_iff in Hm as [Ha Hn].
  apply negb_false_iff, bool_decide_eq_true_1 in Ha. apply negb_false_iff, bool_decide_eq_true_1 in Hn. rewrite Ha, Hn.
  apply wp_bind, wp_query; [|done]. apply wp_bind, wp_option; [|done]. intros b Hb.
  apply wp_if; intros Hs; [by apply wp_fail|]. apply negb_false_iff, bool_decide_eq_true_1 in Hs.
  repeat stay. split; [done|]. split; [done|]. intros _ Haq. split; [done|]. by exists b.
Qed.

Lemma validate_payload_pins_checks q expected digests :
  length expected = length digests ->
  checks (validate_payload_pins q expected digests) (fun _ _ => forallb isSHA256 digests = true).
Proof.
  revert digests. induction expected as [|payload expected IH]; intros [|digest digests] Hlen p; try done; cbn [validate_payload_pins].
  eapply checks_wp; [apply validate_pin_checks|done|]. intros [] [Hd _]. eapply wp_conseq; [apply IH; by injection Hlen| |done].
  intros [] p' [-> Hds]. split; [done|]. cbn [forallb]. by rewrite Hd.
Qed.

Lemma ValidateEventPins_checks q : checks (ValidateEventPins q) (fun _ p => pins_ok q /\ (R_EventArtifactDigest q = R_EventDigest q -> stored p q)).
Proof.
  intros p. unfold ValidateEventPins. stay. apply wp_if; intros Hlen; [stay|].
  apply negb_false_iff, Nat.eqb_eq in Hlen. eapply checks_wp; [apply validate_pin_checks|done|]. intros [] [Hd Hst].
  eapply wp_conseq; [by apply validate_payload_pins_checks| |done]. intros [] p' [-> Hds]. split; [done|]. split; [|by apply Hst].
  unfold pins_ok. cbn [forallb]. by rewrite Hd.
Qed.

(** ** Pins *)

Lemma file_grown p0 p namespace name content :
  grown p0 p -> pl_files p !! (namespace, name) = None -> (namespace = "computer-event" -> texts content) ->
  grown p0 (with_file p (namespace, name) content).
Proof.
  intros [[K1 K2 K3 K4 K5 K6 K7] Hc] Hnone Ht. split; [|exact Hc]. split; [exact K1|exact K2|exact K3|exact K4| |exact K6|].
  { eapply Forall_impl; [exact K5|]. intros q (Ha & b & Hb & Hs). split; [exact Ha|]. exists b. split; [|exact Hs].
    cbn [with_file pl_files]. rewrite lookup_insert_ne; [done|]. intros He. by rewrite He, Hb in Hnone. }
  intros d b. cbn [with_file pl_files]. destruct (decide ((namespace, name) = ("computer-event", d))) as [[= -> ->]|Hne].
  - rewrite lookup_insert_eq. intros [= <-]. by apply Ht.
  - rewrite lookup_insert_ne by done. apply K7.
Qed.

Lemma wp_writeImmutable p0 p namespace name content :
  grown p0 p -> (namespace = "computer-event" -> texts content) ->
  wp (writeImmutable (namespace, name) content) p (fun _ => grown p0) (grown p0).
Proof.
  intros Hp Ht. unfold writeImmutable, ReadFile. apply wp_bind, wp_query; [|done].
  destruct (pl_files p !! (namespace, name)) as [c|] eqn:Ef.
  - apply wp_if; intros _; [by apply wp_fail|by apply wp_ret].
  - apply wp_exec; [|done]. intros p' x [= <- _]. by split; apply file_grown.
Qed.

Lemma wp_pin p0 p computerID payload mediaType namespace privacyClass field commitment :
  grown p0 p -> (namespace = "computer-event" -> texts payload) ->
  wp (pin computerID payload mediaType namespace privacyClass field commitment) p (fun _ => grown p0) (grown p0).
Proof.
  intros Hp Ht. unfold pin. apply wp_if; intros _; [by apply wp_fail|]. apply wp_bind.
  eapply wp_conseq; [by apply wp_writeImmutable| |done]. intros [] p1 Hp1. apply wp_step. intros n.
  apply wp_bind, wp_lift; [|done]. intros receipt _. apply wp_bind, wp_lift; [|done]. intros body _. apply wp_bind.
  eapply wp_conseq; [by apply wp_writeImmutable| |done]. intros [] p2 Hp2. by apply wp_ret.
Qed.

Lemma wp_PinEvent p computerID body commitment : platform_ok p -> texts body ->
  wp (PinEvent computerID body commitment) p (fun _ => grown p) (grown p).
Proof.
  intros Hp Ht. pose proof (grown_refl p Hp) as Hg. unfold PinEvent. apply wp_bind, wp_option; [|done]. intros e _.
  apply wp_if; intros _; [by apply wp_fail|]. apply wp_if; intros _; [by apply wp_fail|]. by apply wp_pin.
Qed.

Lemma wp_pinPayload p computerID payload mediaType privacyClass commitment : platform_ok p ->
  wp (pinPayload computerID payload mediaType privacyClass commitment) p (fun _ => grown p) (grown p).
Proof.
  intros Hp. pose proof (grown_refl p Hp) as Hg. unfold pinPayload.
  do 3 (apply wp_if; intros _; [by apply wp_fail|]). by apply wp_pin.
Qed.

(** ** Receipts of appended requests *)

Lemma row_of_elem p r : platform_ok p -> r ∈ rows_of p -> exists q, q ∈ chain_of p /\ row_of q r.
Proof.
  intros Hp [i Hi]%list_elem_of_lookup. destruct (Forall2_lookup_r _ _ _ _ _ (po_rows p Hp) Hi) as (q & Hq & Hr).
  exists q. split; [by eapply list_elem_of_lookup_2|done].
Qed.

Lemma elem_row_of p q : platform_ok p -> q ∈ chain_of p -> exists r, r ∈ rows_of p /\ row_of q r.
Proof.
  intros Hp [i Hi]%list_elem_of_lookup. destruct (Forall2_lookup_l _ _ _ _ _ (po_rows p Hp) Hi) as (r & Hr & Hq).
  exists r. split; [by eapply list_elem_of_lookup_2|done].
Qed.

(** A receipt that survives storage and matches a request. *)
Definition names (receipt : Receipt) (q : CASRequest) : Prop :=
  readable receipt /\ match_fields receipt (eventHeadReceiptFields q) = Ok tt.

Lemma names_normal receipt q : names receipt q -> names (normal receipt) q.
Proof.
  intros [[R1 R2 R3] Hm]. split; [|by rewrite match_fields_normal]. split; [exact R1|exact R2|].
  intros k f. cbn [normal KindFields]. rewrite lookup_fmap_Some. intros (f' & <- & Hf). by apply (R3 k f').
Qed.

(** The receipt of a row is read back and matches its request. *)
Lemma row_receipt q r : row_of q r ->
  exists receipt, UnmarshalJSON (rr_receipt r) = Ok receipt /\ names receipt q.
Proof.
  intros (receipt & n & Hi & Hr & Hb & _). destruct (issue_integral _ _ _ _ _ Hi) as [Hf _].
  exists (normal receipt). split; [by apply receipt_roundtrip|]. apply names_normal. split; [done|by apply fields_match].
Qed.

(** What is known of the answer to a request that was appended before. *)
Definition answered (key commitment : string) (o : option Receipt) (p : Platform) : Prop :=
  match o with
  | Some receipt => exists q, q ∈ chain_of p /\ key_of q = key /\ RequestCommitment (R_Event q) = commitment /\ names receipt q
  | None => key ∉ key_of <$> chain_of p
  end.

Lemma wp_existing computerID key commitment p : platform_ok p ->
  wp (existingComputerEventReceipt computerID key commitment) p
    (fun o p' => p' = p /\ (computerID = cid -> answered key commitment o p)) (fun p' => p' = p).
Proof.
  intros Hp. unfold existingComputerEventReceipt. apply wp_bind, wp_query; [|done].
  destruct (List.find _ _) as [r|] eqn:Ef.
  - apply List.find_some in Ef as [Hr%list_elem_of_In Hk]. apply wp_if; intros Hcom; [by apply wp_fail|].
    apply negb_false_iff, bool_decide_eq_true_1 in Hcom.
    apply wp_bind, wp_lift; [|done]. intros receipt Hu. apply wp_ret. split; [done|]. intros ->.
    apply andb_true_iff in Hk as [Hc Hk]. destruct (row_of_elem p r Hp) as (q & Hq & Hrow).
    { apply elem_filter. by split. }
    exists q. split; [done|]. assert (key_of q = key /\ RequestCommitment (R_Event q) = commitment) as [Hkey Hcq].
    { destruct Hrow as (? & ? & _ & _ & _ & Er). rewrite Er in Hk, Hcom. by apply bool_decide_eq_true_1 in Hk. }
    split; [done|]. split; [done|].
    destruct (row_receipt q r Hrow) as (receipt' & Hu' & Hm). by replace receipt with receipt' by congruence.
  - apply wp_ret. split; [done|]. intros -> (q & Hkey & Hq)%list_elem_of_fmap. destruct (elem_row_of p q Hp Hq) as (r & Hr & ? & ? & _ & _ & _ & Er).
    apply elem_filter in Hr as [Hr _]. pose proof (List.find_none _ _ Ef r (proj1 (list_elem_of_In _ _) Hr)) as Hn.
    unfold row_of_key in Hn. rewrite Er in Hn. cbn [receipt_row rr_computer rr_key] in Hn.
    apply elem_filter in Hq as [_ Hq%bool_decide_eq_true_1]. unfold key_of in Hkey. by rewrite Hq, Hkey, !bool_decide_eq_true_2 in Hn.
Qed.

(** ** Appending *)

Hypothesis texts_distinct : sha256_distinct texts.
Hypothesis drawn_valid : forall n, ValidString (drawn_uuid n) = true.
Hypothesis signer_valid :
  ValidString (SR_SignerDomain (SK_Ref signing_key)) = true /\ ValidString (SR_KeyID (SK_Ref signing_key)) = true.

Lemma chain_of_cons p q : own q = true -> forall heads receipts lifecycle files,
  chain_of (Build_Platform heads receipts lifecycle files (q :: pl_log p)) = q :: chain_of p.
Proof. intros Hq ????. unfold chain_of. cbn [pl_log List.filter]. by rewrite Hq. Qed.

(** The platform after a request was appended. *)
Definition appended (p : Platform) (q : CASRequest) (receipt : Receipt) (body : string) (lifecycle : list LifecycleRow) : Platform :=
  Build_Platform (<[HeadComputerID (R_Next q) := R_Next q]> (pl_heads p)) (receipt_row q receipt body :: pl_receipts p)
    lifecycle (pl_files p) (q :: pl_log p).

Lemma appended_grown p q n receipt body lifecycle :
  platform_ok p -> Reduce (pl_heads p !! ComputerID (R_Event q)) (R_Event q) (R_Input q) = Ok (R_Next q) ->
  Digest (R_Event q) = Ok (R_EventDigest q) -> known_event texts (R_Event q) ->
  (ComputerID (R_Event q) = cid -> committed texts q /\ key_of q ∉ key_of <$> chain_of p) -> pins_ok q -> stored p q ->
  issue (drawn_uuid n) signing_key (clock n) q = Ok receipt -> EventReceipt.CanonicalBytes receipt = Ok body ->
  grown p (appended p q receipt body lifecycle) /\
  (ComputerID (R_Event q) = cid -> q ∈ chain_of (appended p q receipt body lifecycle) /\ names receipt q).
Proof.
  intros Hp Hr Hd Hk Hcom Hpins Hst Hi Hb. pose proof (EventStoreLaws.Reduce_computer _ _ _ _ Hr) as Hcomp.
  destruct Hp as [K1 K2 K3 K4 K5 K6 K7].
  destruct (decide (ComputerID (R_Event q) = cid)) as [Hc|Hc].
  - assert (own q = true) as Hown by by apply bool_decide_eq_true_2.
    destruct (Hcom Hc) as [Hcommit Hfresh]. unfold appended. rewrite Hc in Hr. rewrite K2 in Hr.
    assert (linked texts (q :: chain_of p)) as Hl by (constructor; auto).
    assert (row_ok texts (q :: chain_of p) q) as Hrow by (apply entry_row_ok; [done|left|done]).
    destruct (issue_integral _ _ _ _ _ Hi) as [Hf _].
    assert (readable receipt) as Hread.
    { eapply issue_readable; [exact Hi| |done|apply signer_valid|apply signer_valid]. by eapply row_request_utf8. }
    split; [split; [split|]|].
    + by rewrite chain_of_cons.
    + rewrite chain_of_cons by done. cbn [pl_heads chain_head]. by rewrite Hcomp, Hc, lookup_insert_eq.
    + rewrite chain_of_cons by done. unfold rows_of. cbn [pl_receipts List.filter receipt_row rr_computer].
      rewrite bool_decide_eq_true_2 by done. constructor; [|done]. by exists receipt, n.
    + rewrite chain_of_cons by done. by constructor.
    + rewrite chain_of_cons by done. by constructor.
    + rewrite chain_of_cons by done. cbn [fmap list_fmap]. by constructor.
    + done.
    + rewrite chain_of_cons by done. by exists [q].
    + intros _. rewrite chain_of_cons by done. split; [left|]. split; [done|by apply fields_match].
  - assert (own q = false) as Hown by by apply bool_decide_eq_false_2.
    assert (chain_of (appended p q receipt body lifecycle) = chain_of p) as Ec.
    { unfold chain_of, appended. cbn [pl_log List.filter]. by rewrite Hown. }
    split; [|done]. split; [|by rewrite Ec]. split; rewrite ?Ec; try done.
    + cbn [appended pl_heads]. rewrite lookup_insert_ne by congruence. done.
    + unfold rows_of. cbn [appended pl_receipts List.filter receipt_row rr_computer]. by rewrite bool_decide_eq_false_2.
Qed.

(** What is known of a receipt the platform returns for a request. *)
Definition names_entry (q : CASRequest) (receipt : Receipt) (p : Platform) : Prop :=
  ComputerID (R_Event q) = cid -> exists q', q' ∈ chain_of p /\ key_of q' = key_of q /\
    RequestCommitment (R_Event q') = RequestCommitment (R_Event q) /\ names receipt q'.

(** A request whose facts the chain has was appended under its key. *)
Lemma attested_key p q : platform_ok p -> attested (chain_of p) q -> known_event texts (R_Event q) ->
  Digest (R_Event q) = Ok (R_EventDigest q) ->
  exists q', q' ∈ chain_of p /\ key_of q' = key_of q.
Proof.
  intros Hp (q' & Hq' & Hf) Hk Hd. exists q'. split; [done|].
  destruct (linked_elem texts _ _ (po_linked p Hp) Hq') as (l & _ & Hl).
  apply linked_cons_inv in Hl as (_ & _ & Hd' & Hk' & _).
  assert (same_envelope (R_Event q') (R_Event q)) as He.
  { eapply digest_envelope; [done|done|done|exact Hd'|]. unfold facts in Hf. congruence. }
  unfold key_of. destruct (R_Event q'), (R_Event q). unfold same_envelope in He. cbn in He |- *. by injection He.
Qed.

Lemma wp_append_transaction q p :
  platform_ok p -> pins_ok q -> stored p q -> known_event texts (R_Event q) ->
  (ComputerID (R_Event q) = cid -> committed texts q \/ attested (chain_of p) q) ->
  wp (append_transaction q) p (fun x p' => grown p p' /\ names_entry q x.1 p') (grown p).
Proof.
  intros Hp Hpins Hst Hk Hb. pose proof (grown_refl p Hp) as Hid. unfold append_transaction. apply wp_transaction; [|done].
  apply wp_bind. eapply wp_conseq; [by apply wp_existing| |done]. intros o p' [-> Ho]. destruct o as [receipt|].
  { apply wp_ret. split; [done|]. exact Ho. }
  apply wp_bind, wp_query; [|done]. apply wp_bind, wp_lift; [|done]. intros next Hr.
  apply wp_if; intros Hn; [by apply wp_fail|]. apply negb_false_iff, bool_decide_eq_true_1 in Hn as ->.
  apply wp_if; intros Hd; [by apply wp_fail|]. destruct (Digest (R_Event q)) as [d|] eqn:Ed; [|done].
  apply negb_false_iff, bool_decide_eq_true_1 in Hd as ->.
  assert (ComputerID (R_Event q) = cid -> committed texts q /\ key_of q ∉ key_of <$> chain_of p) as Hcom.
  { intros Hc. split; [|by apply Ho]. destruct (Hb Hc) as [|Ha]; [done|]. exfalso. apply (Ho Hc).
    destruct (attested_key p q Hp Ha Hk Ed) as (q' & Hq' & Hkey). apply list_elem_of_fmap. by exists q'. }
  apply wp_step. intros n. apply wp_bind, wp_lift; [|done]. intros receipt Hi. apply wp_bind, wp_lift; [|done]. intros body Hbody.
  assert (forall lifecycle, grown p (appended p q receipt body lifecycle) /\ names_entry q receipt (appended p q receipt body lifecycle)) as Happ.
  { intros lifecycle. destruct (appended_grown p q n receipt body lifecycle) as [Hg Hq]; try done. split; [done|].
    intros Hc. exists q. by destruct (Hq Hc). }
  apply wp_bind, wp_exec; [|done]. intros p1 affected Hs. split; [|done].
  apply wp_if; intros Haff; [by apply wp_fail|]. apply negb_false_iff, Nat.eqb_eq in Haff as ->.
  assert (p1 = with_head p (R_Next q)) as ->.
  { unfold swap_head in Hs. rewrite (EventStoreLaws.Reduce_computer _ _ _ _ Hr) in Hs.
    destruct (pl_heads p !! ComputerID (R_Event q)); [|by injection Hs].
    destruct (_ && _); [by injection Hs|discriminate]. }
  apply wp_bind, wp_exec; [|done]. intros p2 [] Hins. split; [|done].
  assert (p2 = appended p q receipt body (pl_lifecycle p)) as ->.
  { unfold insert_receipt in Hins. destruct (existsb _ _); [done|]. by injection Hins. }
  apply wp_bind. unfold join_receipt. destruct (joined_actions _) as [actions|].
  - apply wp_bind, wp_exec; [|done]. intros p3 m [= <- <-]. split; [|done]. apply wp_if; intros _; [by apply wp_fail|].
    apply wp_ret, wp_ret. destruct (Happ (map (fun r => if joinable q actions r then join_row (R_EventDigest q) r else r) (pl_lifecycle p))). done.
  - apply wp_ret, wp_ret. by destruct (Happ (pl_lifecycle p)).
Qed.

Lemma wp_CompareAndSwap q p :
  platform_ok p -> known_event texts (R_Event q) ->
  (ComputerID (R_Event q) = cid -> committed texts q \/ attested (chain_of p) q) ->
  wp (CompareAndSwap q) p (fun receipt p' => grown p p' /\ names_entry q receipt p') (grown p).
Proof.
  intros Hp Hk Hb. pose proof (grown_refl p Hp) as Hid. unfold CompareAndSwap.
  apply wp_if; intros Hg; [by apply wp_fail|]. apply orb_false_iff in Hg as [Hg _]. apply orb_false_iff in Hg as [_ Ha].
  apply negb_false_iff, bool_decide_eq_true_1 in Ha. apply wp_bind, wp_lift; [|done]. intros intent _.
  apply wp_if; intros _; [by apply wp_fail|]. apply wp_bind, wp_lift; [|done]. intros commitment _.
  apply wp_if; intros _; [by apply wp_fail|].
  eapply checks_wp; [apply ValidateEventPins_checks|done|]. intros [] [Hpins Hst]. specialize (Hst Ha).
  apply wp_bind. eapply wp_conseq; [by apply wp_existing| |by intros p' ->]. intros o p' [-> Ho]. destruct o as [receipt|].
  { apply wp_ret. by split. }
  apply wp_bind. eapply wp_conseq; [by apply wp_append_transaction| |done]. intros [receipt appended] p' Hg.
  apply wp_bind. apply wp_if; intros _; [apply wp_query; [|apply Hg]|apply wp_ret]; by apply wp_ret.
Qed.

(** A request under the key of an entry leaves everything as it is. *)
Lemma wp_retry q q0 p : platform_ok p -> q0 ∈ chain_of p -> ComputerID (R_Event q) = cid -> key_of q = key_of q0 ->
  wp (CompareAndSwap q) p
    (fun receipt p' => p' = p /\ RequestCommitment (R_Event q) = RequestCommitment (R_Event q0) /\ names receipt q0) (fun p' => p' = p).
Proof.
  intros Hp Hq0 Hc Hkey. unfold CompareAndSwap. apply wp_if; intros _; [by apply wp_fail|].
  apply wp_bind, wp_lift; [|done]. intros intent _.
  apply wp_if; intros _; [by apply wp_fail|]. apply wp_bind, wp_lift; [|done]. intros commitment _.
  apply wp_if; intros _; [by apply wp_fail|].
  eapply checks_wp; [apply ValidateEventPins_checks|done|]. intros [] _.
  apply wp_bind. eapply wp_conseq; [by apply wp_existing| |by intros p' ->]. intros o p' [-> Ho]. specialize (Ho Hc).
  destruct o as [receipt|]; cbn [answered] in Ho.
  - apply wp_ret. split; [done|]. destruct Ho as (q1 & Hq1 & Hk1 & Hcom & Hm).
    assert (q1 = q0) as -> by (eapply (NoDup_fmap_eq key_of); [apply (po_keys p Hp)|done|done|by rewrite Hk1]). by split.
  - exfalso. apply Ho, list_elem_of_fmap. by exists q0.
Qed.

(** [C5] A retried append changes nothing: a compare-and-swap under the idempotency
    key of an entry of the chain leaves the platform as it is, whatever statement
    fails and whatever the request holds otherwise. It succeeds only if it commits
    to the same request as that entry, and then with a receipt that can be sent and
    states the facts of that entry; a different request under the key is refused. *)
Theorem retried_append_changes_nothing q q0 p n p' n' r
    (Hp : platform_ok p) (Hq0 : q0 ∈ chain_of p) (Hcid : ComputerID (R_Event q) = cid) (Hkey : key_of q = key_of q0)
    (Hrun : CompareAndSwap q (p, n) = ((p', n'), r)) :
  p' = p /\ forall receipt, r = Ok receipt ->
    RequestCommitment (R_Event q) = RequestCommitment (R_Event q0) /\
    readable receipt /\ match_fields receipt (eventHeadReceiptFields q0) = Ok tt.
Proof.
  pose proof (wp_run _ _ _ _ _ _ _ _ (wp_retry q q0 p Hp Hq0 Hcid Hkey) Hrun) as Hr. destruct r as [receipt|e]; [|by split].
  destruct Hr as [-> Hr]. split; [done|]. by intros ? [= <-].
Qed.

(** ** Replay *)

Lemma Digest_bytes e d : Digest e = Ok d -> ComputerEvent.CanonicalBytes e = Ok (event_text e) /\ d = sha256_hex (event_text e).
Proof. unfold Digest, event_text. destruct (ComputerEvent.CanonicalBytes e) as [b|]; [|done]. by intros [= <-]. Qed.

(** The file of an appended event holds its canonical bytes. *)
Lemma event_file p q b :
  platform_ok p -> q ∈ chain_of p -> pl_files p !! ("computer-event", R_EventDigest q) = Some b ->
  sha256_hex b = R_EventDigest q -> DecodeHistoricEvent b = Some (envelope (R_Event q)).
Proof.
  intros Hp Hq Hb Hs. destruct (linked_elem texts _ _ (po_linked p Hp) Hq) as (l & Hsuf & Hl).
  pose proof (linked_suffix texts _ _ (po_linked p Hp) Hsuf) as Hll. destruct (linked_head texts _ Hll) as [Hok _].
  apply linked_cons_inv in Hl as (_ & _ & Hd & [Hu Ht] & _ & Hseq & Hnext & _). apply Digest_bytes in Hd as [Hbody Hd].
  assert (b = event_text (R_Event q)) as ->.
  { apply texts_distinct; [by eapply po_files|done|congruence]. }
  apply decode_canonical; [done|done|]. destruct (ok_sequence _ (Hok _ eq_refl)). unfold is_u64. lia.
Qed.

Lemma row_columns q r : row_of q r ->
  rr_computer r = ComputerID (R_Event q) /\ rr_sequence r = Sequence (R_Event q) /\ rr_digest r = R_EventDigest q /\
  rr_pin r = R_EventPinReceiptDigest q /\ rr_pins r = EventStore.pins_json (R_PayloadPinReceiptDigests q) /\
  rr_desired r = DesiredEventHead (R_Next q) /\ rr_effective r = EffectiveEventHead (R_Next q) /\
  rr_desiredCommitment r = DesiredStateCommitment (R_Next q) /\
  rr_effectiveCommitment r = EffectiveStateCommitment (R_Next q) /\
  coalesce (rr_pending r) = PendingTransitionRef (R_Next q).
Proof. intros (receipt & n & _ & _ & _ & ->). cbn. by rewrite coalesce_nullable. Qed.

Lemma wp_read_record p epoch r q : platform_ok p -> q ∈ chain_of p -> row_of q r ->
  wp (read_record cid epoch r) p
    (fun x p' => p' = p /\ let q' := D_Request x.1 in
       R_Event q' = envelope (R_Event q) /\ facts q' = facts q /\
       R_EventPinReceiptDigest q' = R_EventPinReceiptDigest q /\
       R_PayloadPinReceiptDigests q' = R_PayloadPinReceiptDigests q) (fun p' => p' = p).
Proof.
  intros Hp Hq Hr. destruct (row_columns q r Hr) as (E1 & E2 & E3 & E4 & E5 & E6 & E7 & E8 & E9 & E10).
  pose proof (po_pins p Hp) as Hpins. rewrite Forall_forall in Hpins. specialize (Hpins q Hq).
  apply pins_valid in Hpins. cbn [forallb] in Hpins. apply andb_true_iff in Hpins as [_ Hpins].
  unfold read_record. apply wp_if; intros Ha; [by apply wp_fail|]. apply negb_false_iff, bool_decide_eq_true_1 in Ha.
  unfold ReadFile. stay. apply wp_bind, wp_option; [|done]. intros b Hb. apply wp_if; intros Hs; [stay|].
  apply negb_false_iff, bool_decide_eq_true_1 in Hs. rewrite Ha, E3 in Hb. rewrite E3 in Hs.
  pose proof (event_file p q b Hp Hq Hb Hs) as He. apply wp_bind, wp_option; [|done]. intros e He'.
  assert (e = envelope (R_Event q)) as -> by congruence. stay; [stay|].
  apply wp_bind, wp_option; [|done]. intros pins Hpi. rewrite E5, EventStoreLaws.read_pins_back in Hpi by done.
  injection Hpi as <-. stay. stay; [stay|]. cbv zeta. stay. apply wp_ret. split; [done|].
  cbn [fst D_Request R_Event R_EventPinReceiptDigest R_PayloadPinReceiptDigests]. split_and!; try done.
  destruct (same_envelope_facts _ _ (EventStoreLaws.envelope_same (R_Event q))) as (F1 & F2 & F3 & F4).
  pose proof (same_envelope_commitment _ _ (EventStoreLaws.envelope_same (R_Event q))) as F5.
  unfold facts. cbn [R_Event R_EventDigest R_EventPinReceiptDigest R_PayloadPinReceiptDigests R_Next DesiredEventHead
    EffectiveEventHead PendingTransitionRef DesiredStateCommitment EffectiveStateCommitment].
  by rewrite F1, F2, F3, F4, F5, E3, E4, E6, E7, E8, E9, E10.
Qed.

Lemma known_envelope e : known_event texts e -> known_event texts (envelope e).
Proof.
  intros [Hu Ht]. pose proof (EventStoreLaws.envelope_same e) as He. split; [|by rewrite (event_text_envelope _ _ He)].
  unfold event_utf8. by rewrite (event_json_envelope _ _ He).
Qed.

Lemma wp_read_records p epoch l : platform_ok p -> (forall r, r ∈ l -> r ∈ rows_of p) ->
  wp (read_records cid epoch l) p
    (fun records p' => p' = p /\ forall record, record ∈ records ->
       let q := D_Request record in
       attested (chain_of p) q /\ known_event texts (R_Event q) /\
       forallb ValidString (R_EventPinReceiptDigest q :: R_PayloadPinReceiptDigests q) = true) (fun p' => p' = p).
Proof.
  intros Hp. revert epoch. induction l as [|r l IH]; intros epoch Hl; cbn [read_records].
  { apply wp_ret. split; [done|]. intros record Hr. by apply elem_of_nil in Hr. }
  destruct (row_of_elem p r Hp (Hl r (list_elem_of_here _ _))) as (q & Hq & Hr).
  apply wp_bind. eapply wp_conseq; [by apply wp_read_record| |done]. intros [x epoch'] p' (-> & He & Hf & Hpin & Hpins).
  cbn [fst] in *. apply wp_bind. eapply wp_conseq; [apply IH; intros r' Hr'; apply Hl; by right| |done].
  intros records p' [-> Hrs]. apply wp_ret. split; [done|]. intros record [->|Hin]%elem_of_cons; [|by apply Hrs].
  cbv zeta. split; [by exists q|]. rewrite He, Hpin, Hpins. split.
  - apply known_envelope. destruct (linked_elem texts _ _ (po_linked p Hp) Hq) as (l' & _ & Hl').
    by apply linked_cons_inv in Hl' as (_ & _ & _ & Hk & _).
  - apply pins_valid. pose proof (po_pins p Hp) as Hps. rewrite Forall_forall in Hps. by apply Hps.
Qed.

Lemma wp_EventsPage p after pageSize : platform_ok p ->
  wp (EventsPage cid after pageSize) p
    (fun records p' => p' = p /\ forall record, record ∈ records ->
       let q := D_Request record in
       attested (chain_of p) q /\ known_event texts (R_Event q) /\
       forallb ValidString (R_EventPinReceiptDigest q :: R_PayloadPinReceiptDigests q) = true) (fun p' => p' = p).
Proof.
  intros Hp. unfold EventsPage. apply wp_if; intros _; [by apply wp_fail|]. apply wp_bind.
  apply (wp_conseq _ _ (fun _ p' => p' = p) _ (fun p' => p' = p)); [|intros epoch p' ->|done].
  { apply wp_if; intros _; [by apply wp_query|by apply wp_ret]. }
  apply wp_bind, wp_query; [|done]. apply wp_read_records; [done|]. intros r Hr.
  apply subseteq_take in Hr. rewrite merge_sort_Permutation in Hr. apply elem_filter in Hr as [Hr Hc].
  apply elem_filter. split; [done|]. by apply andb_true_iff in Hc as [Hc _].
Qed.
End Laws.
End EventPlatformLaws.
