(* ===== verification/EventReplay.v ===== *)
(** * EventReplay: what the platform serves to a replay is enough

    A page of the platform (event_replay.go) does not hold what was appended: the
    event is read from its artifact, the head from the columns of its row, the
    count of revoked keys from a query, and the input of the transition is derived
    from the head. Without faults the page holds every entry it was asked for, in
    order, and each passes the checks of a replay: it reduces to the head it
    carries, which is the head that was appended, and its receipt verifies. *)
From S2P Require Import Prelude GoStrings GoBase64 Sha256 GoUuid GoTime GoSql GoJson GoDecode CanonicalJson JsonRoundTrip ComputerEvent EventReceipt EventDecode EventAppender EventStore EventPlatform EventContract EventStoreLaws EventPlatformLaws.
Import ComputerEvent EventReceipt EventDecode EventAppender EventPlatform EventContract.

Module EventReplay.
Local Open Scope Z_scope.

Section Reducer.
Context `{Uuid, Sha256}.

(** A chain of guards that let the same value pass on both sides. *)
Ltac by_guards Hr :=
  repeat match type of Hr with (if ?b then _ else _) = _ => destruct b eqn:?; [discriminate Hr|] end;
  injection Hr as <-; cbn;
  repeat match goal with E : ?b = false |- context [if ?b then _ else _] => rewrite E end; try done.

(** The input derived from the head an event led to leads to that head. *)
Lemma reduce_replay_input h e i n : Reduce h e i = Ok n -> Reduce h e (replayTransitionInput (Kind e) n) = Ok n.
Proof.
  unfold Reduce. destruct (Validate e) as [[]|]; [|done]. destruct (Digest e) as [d|]; [|done]. cbn [res_map_err].
  destruct h as [c|].
  - destruct (_ || _); [done|]. destruct (_ || _); [done|]. unfold reduceKind.
    destruct (Kind e); cbn [replayTransitionInput]; try done; intros Hr; by_guards Hr.
    match goal with E : _ || negb _ = false |- _ => by apply orb_false_iff in E as [-> _] end.
  - unfold reduceGenesis. destruct (decide (Kind e = EventGenesisImported)) as [->|Hk].
    + intros Hr. by_guards Hr.
    + by rewrite (bool_decide_eq_false_2 _ Hk).
Qed.

Definition head_epoch (h : option Head) : Z := match h with Some h => CredentialRevocationEpoch h | None => 0 end.
Definition revokes (e : Event) : bool := bool_decide (Kind e = EventKeyRevoked).

Lemma Reduce_version c e i n : Reduce (Some c) e i = Ok n -> HeadReducerVersion c = EventReducerVersion e.
Proof.
  unfold Reduce. destruct (Validate e) as [[]|]; [|done]. destruct (Digest e) as [d|]; [|done]. cbn [res_map_err].
  intros Hr. go_inv Hr. by to_prop.
Qed.

(** The columns of a head that the table of receipts does not hold. *)
Lemma Reduce_next h e i n : Reduce h e i = Ok n ->
  HeadReducerVersion n = EventReducerVersion e /\
  CredentialRevocationEpoch n = if revokes e then wrap_u64 (head_epoch h + 1) else head_epoch h.
Proof.
  destruct h as [c|]; intros Hr.
  - pose proof Hr as Hv. apply Reduce_version in Hv. apply Reduce_Some_inv in Hr as (d & _ & _ & _ & _ & _ & _ & _ & Hk).
    destruct (reduceKind_common _ _ _ _ _ Hk) as (_ & _ & _ & ->). split; [done|].
    unfold reduceKind, revokes in *. destruct (Kind e); go_inv Hk; done.
  - apply Reduce_None_inv in Hr as (d & _ & _ & Hr). unfold reduceGenesis, revokes in *. go_inv Hr. to_prop.
    by match goal with E : Kind e = _ |- _ => rewrite E end.
Qed.
End Reducer.

(** ** Pages *)
Section Pages.
Context `{Uuid, Sha256, Ed25519, PrivateEnvelopes, Drawn, Signer, Faults}.
Variable texts : string -> Prop.
Variable cid : string.
Hypothesis texts_distinct : sha256_distinct texts.
(** What the platform draws and whose keys it knows: identifiers are version 7,
    the clock has dates of four-digit years, and the history resolves its own key. *)
Hypothesis drawn_v7 : forall n, uuid_version (drawn_uuid n) = Some 7.
Hypothesis clock_utc : forall n, canonical_utc (format_rfc3339nano (clock n)) = true.
Hypothesis key_resolves : resolves key_history [signing_key].
Abbreviation chain_of := (EventPlatformLaws.chain_of cid).
Abbreviation platform_ok := (EventPlatformLaws.platform_ok texts cid).
Abbreviation row_of := EventPlatformLaws.row_of.

(** A record of a page and the entry of the chain it stands for: it passes the
    checks of a replay and leads to the head the entry led to. *)
Record replays (record : DurableEvent) (q : CASRequest) : Prop := {
  rp_event : R_Event (D_Request record) = envelope (R_Event q);
  rp_digest : R_EventDigest (D_Request record) = R_EventDigest q;
  rp_artifact : R_EventArtifactDigest (D_Request record) = R_EventDigest q;
  rp_pins : R_PayloadPinReceiptDigests (D_Request record) = R_PayloadPinReceiptDigests q;
  rp_next : R_Next (D_Request record) = R_Next q;
  rp_reduces : forall h, Reduce h (R_Event q) (R_Input q) = Ok (R_Next q) ->
    Reduce h (R_Event (D_Request record)) (R_Input (D_Request record)) = Ok (R_Next q);
  rp_verifies : VerifyEventHeadReceipt (Some key_history) (D_Receipt record) (D_Request record) = Ok tt;
  rp_binds : ReceiptKind (D_Receipt record) = "EventHeadReceipt" /\
    field_string (KindFields (D_Receipt record) !! "event_digest") = Some (R_EventDigest q);
  rp_storable : is_ok (EventReceipt.CanonicalBytes (D_Receipt record)) = true;
}.

Lemma facts_fields q1 q2 : facts q1 = facts q2 -> eventHeadReceiptFields q1 = eventHeadReceiptFields q2.
Proof. unfold facts, eventHeadReceiptFields. intros [= -> -> -> -> -> -> -> -> -> -> -> -> ->]. done. Qed.

(** The receipt of a row, read back, verifies for every request with the facts of
    its entry. *)
Lemma row_verifies q r receipt q' : row_of q r -> 0 <= Sequence (R_Event q) < 2 ^ 63 -> facts q' = facts q ->
  UnmarshalJSON (rr_receipt r) = Ok receipt -> VerifyEventHeadReceipt (Some key_history) receipt q' = Ok tt.
Proof.
  intros (receipt0 & n & Hi & Hr & Hb & _) Hseq Hf Hu. pose proof (receipt_roundtrip _ _ Hr Hb) as Hu'.
  assert (receipt = normal receipt0) as -> by congruence. destruct (issue_integral _ _ _ _ _ Hi) as [Hfields _].
  rewrite VerifyEventHeadReceipt_normal; [|done|].
  - pose proof (issued_receipt_verifies _ _ _ _ _ key_history Hi (drawn_v7 n) (clock_utc n) key_resolves) as Hv.
    unfold VerifyEventHeadReceipt in *. by rewrite (facts_fields _ _ Hf).
  - unfold small_sequence. rewrite Hfields. rewrite (fields_lookup q "sequence" (FUint64 (Sequence (R_Event q)))) by in_list. done.
Qed.

Lemma returns_step_query {A B} (f : Platform -> A) (k : A -> Db Platform platform_error B) p Q :
  returns (k (f p)) p Q -> returns (db_bind (query ErrSql f) k) p Q.
Proof. intros Hk. by apply returns_bind, returns_query. Qed.

Lemma returns_step_option {A B} e (o : option A) x (k : A -> Db Platform platform_error B) p Q :
  o = Some x -> returns (k x) p Q -> returns (db_bind (db_option e o) k) p Q.
Proof. intros -> Hk. by apply returns_bind, returns_ret. Qed.

Lemma returns_step_lift {F A B} (wrap : F -> platform_error) (r : res F A) x (k : A -> Db Platform platform_error B) p Q :
  r = Ok x -> returns (k x) p Q -> returns (db_bind (db_lift wrap r) k) p Q.
Proof. intros -> Hk. apply returns_bind. by eapply returns_lift. Qed.

(** One row: [c] is the chain before its entry. *)
Lemma returns_read_record p c q r : platform_ok p -> (q :: c) `suffix_of` chain_of p -> row_of q r ->
  Z.of_nat (length (chain_of p)) < 2 ^ 63 ->
  returns (read_record cid (head_epoch (chain_head c)) r) p
    (fun x p' => p' = p /\ replays x.1 q /\ x.2 = CredentialRevocationEpoch (R_Next q)).
Proof.
  intros Hp Hc Hr Hlen. destruct (EventPlatformLaws.row_columns q r Hr) as (E1 & E2 & E3 & E4 & E5 & E6 & E7 & E8 & E9 & E10).
  assert (q ∈ chain_of p) as Hq by (eapply elem_suffix; [exact Hc|left]).
  pose proof (linked_suffix texts _ _ (EventPlatformLaws.po_linked _ _ p Hp) Hc) as Hl.
  destruct (linked_cons_inv texts _ _ Hl) as (_ & Hred & Hd & Hk & _ & Hseq & Hnseq & Hcanon).
  pose proof (EventPlatformLaws.po_stored _ _ p Hp) as Hst. rewrite Forall_forall in Hst. destruct (Hst q Hq) as (Ha & b & Hb & Hs).
  pose proof (EventPlatformLaws.po_pins _ _ p Hp) as Hpins. rewrite Forall_forall in Hpins. specialize (Hpins q Hq).
  apply EventPlatformLaws.pins_valid in Hpins. cbn [forallb] in Hpins. apply andb_true_iff in Hpins as [_ Hpins].
  assert (rr_artifact r = R_EventDigest q) as Ea by (destruct Hr as (? & ? & _ & _ & _ & ->); exact Ha).
  unfold read_record. rewrite Ea, E3, (bool_decide_eq_true_2 (R_EventDigest q = R_EventDigest q)) by done. cbn [negb].
  apply returns_step_query. eapply returns_step_option; [exact Hb|]. rewrite Hs, bool_decide_eq_true_2 by done. cbn [negb].
  eapply returns_step_option; [by eapply (EventPlatformLaws.event_file texts cid)|].
  pose proof (EventStoreLaws.envelope_same (R_Event q)) as He. destruct (same_envelope_facts _ _ He) as (F1 & F2 & F3 & F4).
  assert (ComputerID (R_Event q) = cid) as Hcid.
  { apply elem_filter in Hq as [_ Hq]. by apply bool_decide_eq_true_1 in Hq. }
  rewrite F1, F3, Hcid, E2, Z.eqb_refl, (bool_decide_eq_true_2 (cid = cid)) by done. cbn [negb orb].
  eapply returns_step_option; [rewrite E5; by apply EventStoreLaws.read_pins_back|].
  pose proof Hr as (receipt & n & Hi & Hread & Hbody & Er).
  pose proof (receipt_roundtrip _ _ Hread Hbody) as Hu. eapply returns_step_lift; [exact Hu|].
  rewrite (CanonicalBytes_normal _ Hread), Hbody.
  assert (rr_receipt_digest r = sha256_hex (rr_receipt r)) as -> by (rewrite Er; done).
  rewrite (bool_decide_eq_true_2 (sha256_hex (rr_receipt r) = _)) by done. cbn [negb].
  destruct (Reduce_next _ _ _ _ Hred) as [Hver Hep]. rewrite F2.
  assert (match Kind (R_Event q) with EventKeyRevoked => wrap_u64 (head_epoch (chain_head c) + 1) | _ => head_epoch (chain_head c) end
          = CredentialRevocationEpoch (R_Next q)) as ->.
  { rewrite Hep. unfold revokes. by destruct (Kind (R_Event q)). }
  match goal with |- context [replayTransitionInput _ ?n] => assert (n = R_Next q) as -> end.
  { rewrite E6, E7, E8, E9, E10. replace (EventReducerVersion (envelope (R_Event q))) with (HeadReducerVersion (R_Next q))
      by (rewrite Hver; by destruct (R_Event q)).
    rewrite <-Hcid, <-(EventStoreLaws.Reduce_computer _ _ _ _ Hred), <-Hcanon, Hseq, <-Hnseq. by destruct (R_Next q). }
  destruct (EventStoreLaws.pin_intent_total (envelope (R_Event q)) (replayTransitionInput (Kind (R_Event q)) (R_Next q))) as [intent Hint].
  eapply returns_step_lift; [exact Hint|]. apply returns_ret. split; [done|]. split; [|done]. cbn [fst].
  split; cbn [D_Request D_Receipt R_Event R_EventDigest R_EventArtifactDigest R_PayloadPinReceiptDigests R_Next R_Input];
    [reflexivity..| | | |].
  - intros h Hh. rewrite (Reduce_envelope _ _ _ _ He). by eapply reduce_replay_input.
  - eapply row_verifies; [exact Hr| | |exact Hu].
    + rewrite Hseq. apply suffix_length in Hc. cbn [length] in Hc. lia.
    + unfold facts. cbn [D_Request R_Event R_EventDigest R_EventPinReceiptDigest R_PayloadPinReceiptDigests R_Next].
      by rewrite F1, F2, F3, F4, (same_envelope_commitment _ _ He), E4.
  - destruct (issue_integral _ _ _ _ _ Hi) as (Hfields & Hkind & _). split; [done|]. cbn [normal KindFields].
    rewrite Hfields, lookup_fmap.
    by rewrite (fields_lookup q "event_digest" (FJson (JStr (R_EventDigest q)))) by in_list.
  - by rewrite (CanonicalBytes_normal _ Hread), Hbody.
Qed.

Lemma returns_read_records p c qs l : platform_ok p -> (reverse qs ++ c) `suffix_of` chain_of p -> Forall2 row_of qs l ->
  Z.of_nat (length (chain_of p)) < 2 ^ 63 ->
  returns (read_records cid (head_epoch (chain_head c)) l) p (fun records p' => p' = p /\ Forall2 replays records qs).
Proof.
  intros Hp Hc Hrows Hlen. revert c Hc. induction Hrows as [|q r qs l Hr Hrows IH]; intros c Hc; cbn [read_records].
  { by apply returns_ret. }
  rewrite reverse_cons, <-app_assoc in Hc. cbn [app] in Hc.
  apply returns_bind. eapply returns_conseq; [apply (returns_read_record p c q r); try done|].
  { etrans; [|exact Hc]. by exists (reverse qs). }
  intros [record epoch] p' (-> & Hrec & He). cbn [fst snd] in *. apply returns_bind. rewrite He.
  eapply returns_conseq; [by apply (IH (q :: c))|]. intros records p' [-> Hrecs]. apply returns_ret. split; [done|by constructor].
Qed.

(** *** The rows of a page *)

Lemma linked_sequence c i q : linked texts c -> c !! i = Some q -> Sequence (R_Event q) = Z.of_nat (length c) - Z.of_nat i.
Proof.
  intros Hc Hi. assert (drop i c `suffix_of` c) as Hsuf by (exists (take i c); by rewrite take_drop).
  pose proof (linked_suffix texts _ _ Hc Hsuf) as Hl. rewrite (drop_S _ _ _ Hi) in Hl.
  destruct (linked_cons_inv texts _ _ Hl) as (_ & _ & _ & _ & _ & Hs & _). rewrite length_drop in Hs.
  apply lookup_lt_Some in Hi. lia.
Qed.

(** The count of revoked keys is the one in the head. *)
Lemma chain_epoch c : linked texts c ->
  head_epoch (chain_head c) = Z.of_nat (length (List.filter (fun q => revokes (R_Event q)) c)).
Proof.
  induction c as [|q c IH]; intros Hl; [done|]. destruct (linked_head texts _ Hl) as [Hok Hs]. specialize (Hok _ eq_refl).
  destruct (linked_cons_inv texts _ _ Hl) as (Hc & Hr & _). destruct (Reduce_next _ _ _ _ Hr) as [_ He].
  cbn [chain_head head_epoch List.filter]. rewrite He, (IH Hc). destruct (revokes (R_Event q)); [|done].
  cbn [length]. rewrite wrap_u64_small; [lia|]. destruct Hok as [Hseq _ _ _ _]. cbn [chain_head head_seq length] in Hs.
  pose proof (filter_length_le (fun q => revokes (R_Event q)) c). unfold is_u64. lia.
Qed.

Lemma filter_filter {A} (f g : A -> bool) l : List.filter f (List.filter g l) = List.filter (fun x => g x && f x) l.
Proof. induction l as [|x l IH]; [done|]. cbn. destruct (g x); cbn; [destruct (f x); by rewrite IH|done]. Qed.

Lemma filter_first {A} (f : A -> bool) m l :
  (forall i x, l !! i = Some x -> f x = Nat.ltb i m) -> List.filter f l = take m l.
Proof.
  revert m. induction l as [|x l IH]; intros m Hf; [by rewrite take_nil|]. cbn [List.filter]. rewrite (Hf 0%nat x eq_refl).
  destruct m as [|m]; cbn [take Nat.ltb Nat.leb].
  - rewrite (IH 0%nat); [by rewrite take_0|]. intros i y Hi. by rewrite (Hf (S i) y Hi).
  - f_equal. apply IH. intros i y Hi. by rewrite (Hf (S i) y Hi).
Qed.

Lemma filter_last {A} (f : A -> bool) m l :
  (forall i x, l !! i = Some x -> f x = negb (Nat.ltb i m)) -> List.filter f l = drop m l.
Proof.
  revert m. induction l as [|x l IH]; intros m Hf; [by rewrite drop_nil|]. cbn [List.filter]. rewrite (Hf 0%nat x eq_refl).
  destruct m as [|m]; cbn [drop Nat.ltb Nat.leb negb].
  - f_equal. rewrite (IH 0%nat); [by rewrite drop_0|]. intros i y Hi. by rewrite (Hf (S i) y Hi).
  - apply IH. intros i y Hi. by rewrite (Hf (S i) y Hi).
Qed.

Lemma rows_sorted c rows : linked texts c -> Forall2 row_of c rows -> StronglySorted (flip earlier) rows.
Proof.
  intros Hc Hrows. induction Hrows as [|q r c rows Hr Hrows IH]; [constructor|].
  destruct (linked_cons_inv texts _ _ Hc) as (Hc' & _ & _ & _ & _ & Hs & _). constructor; [by apply IH|].
  apply Forall_lookup. intros i r' Hi. destruct (Forall2_lookup_r _ _ _ _ _ Hrows Hi) as (q' & Hq' & Hr').
  destruct (EventPlatformLaws.row_columns _ _ Hr) as (_ & E1 & _). destruct (EventPlatformLaws.row_columns _ _ Hr') as (_ & E2 & _).
  pose proof (linked_sequence _ _ _ Hc' Hq'). unfold flip, earlier. lia.
Qed.

Lemma rows_distinct c rows r1 r2 : linked texts c -> Forall2 row_of c rows -> r1 ∈ rows -> r2 ∈ rows ->
  rr_sequence r1 = rr_sequence r2 -> r1 = r2.
Proof.
  intros Hc Hrows [i Hi]%list_elem_of_lookup [j Hj]%list_elem_of_lookup Hs.
  destruct (Forall2_lookup_r _ _ _ _ _ Hrows Hi) as (q1 & Hq1 & Hr1). destruct (Forall2_lookup_r _ _ _ _ _ Hrows Hj) as (q2 & Hq2 & Hr2).
  destruct (EventPlatformLaws.row_columns _ _ Hr1) as (_ & E1 & _). destruct (EventPlatformLaws.row_columns _ _ Hr2) as (_ & E2 & _).
  pose proof (linked_sequence _ _ _ Hc Hq1). pose proof (linked_sequence _ _ _ Hc Hq2). assert (i = j) as -> by lia. congruence.
Qed.

#[local] Instance earlier_trans : Transitive earlier.
Proof. unfold earlier. intros ???; lia. Qed.
#[local] Instance earlier_total : Total earlier.
Proof. unfold earlier. intros x y. lia. Qed.

(** Sorting newest-first rows by sequence turns them around. *)
Lemma sort_rows c rows m : linked texts c -> Forall2 row_of c rows -> merge_sort earlier (take m rows) = reverse (take m rows).
Proof.
  intros Hc Hrows. apply (Sorted_unique_strong earlier); [|apply (Sorted_merge_sort earlier)| |by rewrite merge_sort_Permutation, reverse_Permutation].
  - intros r1 r2 H1' H2' K1 K2. rewrite merge_sort_Permutation in H1'. rewrite elem_of_reverse in H2'.
    eapply rows_distinct; [done|done|by eapply subseteq_take|by eapply subseteq_take|]. unfold earlier in *. lia.
  - apply (Sorted_reverse (flip earlier)), StronglySorted_Sorted, (StronglySorted_app_1_l _ _ (drop m rows)).
    rewrite take_drop. by eapply rows_sorted.
Qed.

Lemma count_revoked c rows : linked texts c -> Forall2 row_of c rows ->
  length (List.filter (fun r => rr_kind r == kind_string EventKeyRevoked) rows)
  = length (List.filter (fun q => revokes (R_Event q)) c).
Proof.
  intros Hc Hrows. induction Hrows as [|q r c rows Hr Hrows IH]; [done|]. cbn [List.filter].
  destruct (linked_cons_inv texts _ _ Hc) as (Hc' & Hred & _).
  assert ((rr_kind r == kind_string EventKeyRevoked) = revokes (R_Event q)) as ->.
  { destruct Hr as (? & ? & _ & _ & _ & ->). cbn [receipt_row rr_kind]. unfold revokes.
    unfold Reduce in Hred. destruct (Validate (R_Event q)) as [[]|] eqn:Hv; [|done]. apply Validate_kind in Hv.
    by destruct (Kind (R_Event q)). }
  destruct (revokes (R_Event q)); cbn [length]; by rewrite IH.
Qed.

(** The entries of the chain after a place, the oldest first. *)
Definition entries_after (p : Platform) (after : Z) : list CASRequest :=
  reverse (take (length (chain_of p) - Z.to_nat after) (chain_of p)).

(** The rows before and after a place of the chain. *)
Lemma split_rows p after (f : ReceiptRow -> bool) : platform_ok p -> 0 <= after ->
  let m := (length (chain_of p) - Z.to_nat after)%nat in
  List.filter (fun r => (rr_computer r == cid) && (after <? rr_sequence r)) (pl_receipts p)
    = take m (EventPlatformLaws.rows_of cid p) /\
  List.filter (fun r => (rr_computer r == cid) && (rr_sequence r <=? after) && f r) (pl_receipts p)
    = List.filter f (drop m (EventPlatformLaws.rows_of cid p)).
Proof.
  intros Hp Ha m. pose proof (EventPlatformLaws.po_rows _ _ p Hp) as Hrows. pose proof (EventPlatformLaws.po_linked _ _ p Hp) as Hl.
  assert (forall i r, EventPlatformLaws.rows_of cid p !! i = Some r -> (after <? rr_sequence r) = Nat.ltb i m) as Hseq.
  { intros i r Hi. destruct (Forall2_lookup_r _ _ _ _ _ Hrows Hi) as (q & Hq & Hr).
    destruct (EventPlatformLaws.row_columns _ _ Hr) as (_ & E & _). pose proof (linked_sequence _ _ _ Hl Hq) as Hs.
    apply lookup_lt_Some in Hq. apply eq_bool_prop_intro. rewrite !Is_true_true, Z.ltb_lt, Nat.ltb_lt. unfold m. lia. }
  split.
  - rewrite <-(filter_filter (fun r => after <? rr_sequence r)). by apply filter_first.
  - rewrite <-(filter_filter f), <-(filter_filter (fun r => rr_sequence r <=? after)). f_equal. apply filter_last.
    intros i r Hi. rewrite <-(Hseq i r Hi). by rewrite Z.leb_antisym.
Qed.

Lemma returns_EventsPage p after pageSize : platform_ok p -> cid <> "" -> 0 <= after -> 0 < pageSize <= EventReplayMaxPageSize ->
  Z.of_nat (length (chain_of p)) < 2 ^ 63 ->
  returns (EventsPage cid after pageSize) p (fun records p' =>
    p' = p /\ Forall2 replays records (take (Z.to_nat pageSize) (entries_after p after))).
Proof.
  intros Hp Hcid Hafter Hsize Hsmall.
  pose proof (EventPlatformLaws.po_rows _ _ p Hp) as Hrows. pose proof (EventPlatformLaws.po_linked _ _ p Hp) as Hl.
  destruct (split_rows p after (fun r => rr_kind r == kind_string EventKeyRevoked) Hp Hafter) as [Enew Eold].
  set (m := (length (chain_of p) - Z.to_nat after)%nat) in *.
  assert (drop m (chain_of p) `suffix_of` chain_of p) as Hsuf by (exists (take m (chain_of p)); by rewrite take_drop).
  unfold EventsPage. rewrite (bool_decide_eq_false_2 (cid = "")) by done.
  replace (pageSize <=? 0) with false by (symmetry; apply Z.leb_gt; lia).
  replace (EventReplayMaxPageSize <? pageSize) with false by (symmetry; apply Z.ltb_ge; lia). cbn [orb].
  apply returns_bind, (returns_conseq _ _ (fun epoch p' => p' = p /\ epoch = head_epoch (chain_head (drop m (chain_of p))))).
  { rewrite chain_epoch by (by eapply linked_suffix). destruct (0 <? after) eqn:E0.
    - apply returns_query. split; [done|]. unfold key_revoked_before. rewrite Eold.
      by rewrite (count_revoked (drop m (chain_of p))); [|by eapply linked_suffix|by apply Forall2_drop].
    - apply returns_ret. split; [done|]. apply Z.ltb_ge in E0. assert (m = length (chain_of p)) as -> by (unfold m; lia).
      by rewrite drop_all. }
  intros epoch p' [-> ->]. apply returns_step_query. rewrite Enew, (sort_rows (chain_of p)) by done.
  unfold entries_after. fold m. apply returns_read_records; [done| |by apply Forall2_take, Forall2_reverse, Forall2_take|done].
  set (X := take m (chain_of p)). rewrite take_reverse, reverse_involutive.
  exists (take (length X - Z.to_nat pageSize) X). rewrite app_assoc, (take_drop _ X). unfold X. by rewrite take_drop.
Qed.

(** [C10] A page of the platform is complete and replays: when no statement fails,
    it holds the entries of the chain after the place it was asked for, oldest
    first and as many as fit, and each of them, rebuilt from its artifact and its
    row, reduces to the head that was appended, with the derived input, and has a
    receipt that verifies. *)
Theorem page_replays p after pageSize
    (Hp : platform_ok p) (Hcid : cid <> "") (Hafter : 0 <= after) (Hsize : 0 < pageSize <= EventReplayMaxPageSize)
    (Hsmall : Z.of_nat (length (chain_of p)) < 2 ^ 63) :
  returns (EventsPage cid after pageSize) p (fun records p' =>
    p' = p /\ Forall2 replays records (take (Z.to_nat pageSize) (entries_after p after))).
Proof. by apply returns_EventsPage. Qed.
End Pages.
End EventReplay.
