(* ===== verification/EventWorld.v ===== *)
(** * EventWorld: the appender with its platform and its store

    The dependencies of [EventAppender] as they are wired in a computer: the
    platform of [EventPlatform] behind the client of http_client.go, and the store
    of [EventStore]. A message to the platform may be lost before or after it was
    acted on, other realizations of the computer ([others]) append whenever a
    message is sent, every SQL statement may fail, and the clock and the expiry of
    the context are read from the outside. The cipher of private payloads
    (privacy.go) is a parameter.

    [world_laws] is the refinement: this world satisfies the contract the appender
    is proved against. *)
From S2P Require Import Prelude GoStrings GoBase64 Sha256 GoUuid GoTime GoSql GoJson GoDecode CanonicalJson JsonRoundTrip ComputerEvent EventReceipt EventDecode ProjectionBatch EventAppender EventStore EventPlatform EventContract EventSync EventStoreLaws EventPlatformLaws.
Import ComputerEvent EventReceipt EventDecode ProjectionBatch EventAppender EventPlatform EventContract.

Module EventWorld.
Local Open Scope Z_scope.

Record World (P : Type) := { w_platform : Platform; w_store : EventStore.Store P; w_tick : nat }.
Arguments w_platform {P}. Arguments w_store {P}. Arguments w_tick {P}. Arguments Build_World {P}.

Inductive world_error (X : Type) :=
  | ErrLost
  | ErrPlatform (e : platform_error)
  | ErrStore (e : EventStore.store_error X)
  | ErrPayload (e : payload_error)
  | ErrClass | ErrCipher | ErrPageSize | ErrNoProgress | ErrPages.
Arguments ErrLost {X}. Arguments ErrPlatform {X}. Arguments ErrStore {X}. Arguments ErrPayload {X}.
Arguments ErrClass {X}. Arguments ErrCipher {X}. Arguments ErrPageSize {X}. Arguments ErrNoProgress {X}. Arguments ErrPages {X}.

(** What the outside does, by step: the requests of other realizations, the expiry
    of the context, and the cipher ([Encrypt] draws a nonce). *)
Class Surroundings := {
  others : nat -> list CASRequest;
  expired_at : nat -> bool;
  encrypt : nat -> string -> string -> string -> string -> option string;
  decrypt : string -> string -> string -> option (string * string);
}.

Section Wiring.
Context {P X : Type} `{Uuid, Sha256, Ed25519, PrivateEnvelopes, Drawn, Signer, Faults, EventStore.Projector P X, Surroundings}.
Abbreviation error := (world_error X).
Abbreviation World := (World P).
Abbreviation dep := (dep World error).

(** ** The client *)

(** Others append; whether they succeed is theirs to know. *)
Definition act_others (l : list CASRequest) (s : Platform * nat) : Platform * nat :=
  foldl (fun s q => (CompareAndSwap q s).1) s l.

(** A message to the platform and its answer. *)
Definition remote {F A} (wrap : F -> error) (m : Db Platform F A) : dep A := fun w =>
  let s := act_others (others (w_tick w)) (w_platform w, S (w_tick w)) in
  match fate (w_tick w) with
  | NoEffect => (Build_World s.1 (w_store w) s.2, Err ErrLost)
  | f =>
    let '((p, n), r) := m s in
    (Build_World p (w_store w) n, match f with Sound => res_map_err wrap r | _ => Err ErrLost end)
  end.

Definition on_platform {A} (m : Db Platform platform_error A) : dep A := remote ErrPlatform m.

(** A receipt is sent as JSON and decoded. *)
Definition received (receipt : Receipt) : Db Platform platform_error Receipt :=
  let$ body := db_lift EventPlatform.ErrReceipt (MarshalJSON receipt) in
  db_lift EventPlatform.ErrReceipt (UnmarshalJSON body).

(** [RequireExpectedHead] is not sent. *)
Definition on_wire (q : CASRequest) : CASRequest :=
  Build_CASRequest (envelope (R_Event q)) (R_EventDigest q) (R_EventArtifactDigest q) (R_EventPinReceiptDigest q)
    (R_PayloadPinReceiptDigests q) (R_PinIntentCommitment q) (R_Input q) (R_Next q).

Definition Client_CompareAndSwap (q : CASRequest) : dep Receipt :=
  on_platform (let$ receipt := CompareAndSwap (on_wire q) in received receipt).

Definition answer_pin (m : Db Platform platform_error PinResult) : Db Platform platform_error PinResult :=
  let$ pin := m in
  let$ receipt := received (PinReceipt pin) in
  db_ret (Build_PinResult (PinArtifactDigest pin) receipt).

Definition Client_PinEvent (computerID body commitment : string) : dep PinResult :=
  on_platform (answer_pin (PinEvent computerID body commitment)).

Definition Client_PinNonPrivatePayload (computerID payload mediaType privacyClass intent : string) : dep PinResult := fun w =>
  if (privacyClass == "") || (privacyClass == "private") then (w, Err ErrClass)
  else on_platform (answer_pin (pinPayload computerID payload mediaType privacyClass intent)) w.

Definition Client_PinPrivatePayload (computerID eventID envelope intent : string) : dep PinResult := fun w =>
  match decrypt envelope computerID eventID with
  | None => (w, Err ErrCipher)
  | Some _ => on_platform (answer_pin (pinPayload computerID envelope PrivateArtifactMediaType "private" intent)) w
  end.

Definition Client_PreparePrivatePayload (computerID eventID mediaType plaintext : string) : dep string := fun w =>
  (Build_World (w_platform w) (w_store w) (S (w_tick w)),
   match encrypt (w_tick w) computerID eventID mediaType plaintext with Some v => Ok v | None => Err ErrCipher end).

(** [ResolvePayloads] with the platform as the reader; the reads of one resolution
    are one step. *)
Definition resolve_step (computerID eventID : string) (refs : list PayloadRef) : Db Platform payload_error (list ResolvedPayload) :=
  fun s =>
    let fetch computerID digest :=
      match FetchPayload computerID digest s with (_, Ok raw) => Some raw | (_, Err _) => None end in
    ((s.1, S s.2), ResolvePayloads (Some fetch) (Some decrypt) (expired_at s.2) computerID eventID refs).

Definition Client_EventsPage (computerID : string) (after pageSize : Z) : dep (list DurableEvent) := fun w =>
  if (pageSize <=? 0) || (EventReplayMaxPageSize <? pageSize) then (w, Err ErrPageSize)
  else match on_platform (EventsPage computerID after pageSize) w with
       | (w, Ok page) => (w, if pageSize <? Z.of_nat (length page) then Err ErrPageSize else Ok page)
       | (w, Err e) => (w, Err e)
       end.

(** The records of a page are numbered on from [previous]; the last number. *)
Fixpoint progresses (previous : Z) (page : list DurableEvent) : option Z :=
  match page with
  | [] => Some previous
  | record :: page =>
    let sequence := Sequence (R_Event (D_Request record)) in
    if (previous =? 2 ^ 64 - 1) || negb (sequence =? wrap_u64 (previous + 1)) then None else progresses sequence page
  end.

(** The loop of [Events]; [fuel] bounds the number of pages. *)
Fixpoint Client_Events (fuel : nat) (computerID : string) (after : Z) : dep (list DurableEvent) := fun w =>
  match fuel with
  | O => (w, Err ErrPages)
  | S fuel =>
    match Client_EventsPage computerID after EventReplayPageSize w with
    | (w, Err e) => (w, Err e)
    | (w, Ok []) => (w, Ok [])
    | (w, Ok page) =>
      match progresses after page with
      | None => (w, Err ErrNoProgress)
      | Some after =>
        if (Z.of_nat (length page) <? EventReplayPageSize) || (after =? 2 ^ 64 - 1) then (w, Ok page)
        else match Client_Events fuel computerID after w with
             | (w, Ok records) => (w, Ok (page ++ records))
             | (w, Err e) => (w, Err e)
             end
      end
    end
  end.

Definition client_source (fuel : nat) : EventSource World error := {|
  src_Events := Client_Events fuel;
  src_EventsPage := Some Client_EventsPage |}.

(** ** The store *)

Definition on_store {A} (m : Db (EventStore.Store P) (EventStore.store_error X) A) : dep A := fun w =>
  let '((s, n), r) := m (w_store w, w_tick w) in
  (Build_World (w_platform w) s n, res_map_err ErrStore r).

(** ** The dependencies of the appender *)

Definition payload_failure (e : error) : bool :=
  match e with ErrPayload (ErrPayloadResolverRequired | ErrPayloadDigestMismatch | ErrPayloadPrivacyMismatch) => true | _ => false end.

#[export] Instance wired : Deps World error := {|
  cas_Head c := on_platform (CAS_Head c);
  cas_CompareAndSwap := Client_CompareAndSwap;
  verify_receipt := VerifyEventHeadReceipt (Some key_history);
  proj_Head c := on_store (EventStore.Store_Head c);
  proj_Prepare q := on_store (EventStore.Prepare q);
  proj_Prepared c := on_store (EventStore.Prepared c);
  proj_Finalize c d r := on_store (EventStore.Finalize c d r);
  proj_DiscardPrepared c d := on_store (EventStore.DiscardPrepared c d);
  proj_FinalizeBatch := Some (fun c d r b => on_store (EventStore.FinalizeBatch c d r b));
  proj_FinalizeReplayBatch := Some (fun c d r b => on_store (EventStore.FinalizeReplayBatch c d r b));
  proj_DryRun := Some (fun c b => on_store (EventStore.DryRunProjectionBatch c b));
  proj_CommitReplay := Some (on_store EventStore.CommitReplay);
  pin_Event := Client_PinEvent;
  pin_NonPrivate := Some Client_PinNonPrivatePayload;
  pin_PreparePrivate := Some Client_PreparePrivatePayload;
  pin_Private := Client_PinPrivatePayload;
  dep_resolve := Some (fun c e refs => remote ErrPayload (resolve_step c e refs));
  is_payload_error := payload_failure;
  dep_now w := (Build_World (w_platform w) (w_store w) (S (w_tick w)), clock (w_tick w));
  dep_expired w := (Build_World (w_platform w) (w_store w) (S (w_tick w)), expired_at (w_tick w)) |}.
End Wiring.

(** ** The world satisfies the contract *)
Section Refinement.
Context {P X : Type} `{Uuid, Sha256, Ed25519, PrivateEnvelopes, Drawn, Signer, Faults, EventStore.Projector P X, Surroundings}.
Variable texts : string -> Prop.
Variable cid : string.
Hypothesis texts_distinct : sha256_distinct texts.
Hypothesis drawn_valid : forall n, ValidString (drawn_uuid n) = true.
Hypothesis signer_valid :
  ValidString (SR_SignerDomain (SK_Ref signing_key)) = true /\ ValidString (SR_KeyID (SK_Ref signing_key)) = true.
(** What the others append commits to texts that are considered. *)
Hypothesis others_known : forall n q, q ∈ others n -> known_event texts (R_Event q) /\ committed texts q.
Abbreviation World := (World P).
Abbreviation dep := (dep World (world_error X)).
Abbreviation grown := (EventPlatformLaws.grown texts cid).
Abbreviation platform_ok := (EventPlatformLaws.platform_ok texts cid).
Abbreviation store_ok := (EventStoreLaws.store_ok (P := P) (X := X) cid).
Abbreviation moved := (EventStoreLaws.moved (P := P) (X := X) cid).
Abbreviation chain_of := (EventPlatformLaws.chain_of cid).

Definition view_of (w : World) : View := EventStoreLaws.view_of (X := X) cid (chain_of (w_platform w)) (w_store w).
Definition world_ok (w : World) : Prop := platform_ok (w_platform w) /\ store_ok (w_store w).
Abbreviation Good := (Good texts view_of world_ok).
Abbreviation same := (same texts).

Lemma grown_trans p1 p2 p3 : grown p1 p2 -> grown p2 p3 -> grown p1 p3.
Proof. intros [_ H12] [Hp H23]. split; [done|by etrans]. Qed.

Lemma act_others_grown l s : platform_ok s.1 ->
  (forall q, q ∈ l -> known_event texts (R_Event q) /\ committed texts q) -> grown s.1 (act_others l s).1.
Proof.
  revert s. induction l as [|q l IH]; intros s Hp Hl; [by apply EventPlatformLaws.grown_refl|]. cbn [act_others foldl].
  destruct (Hl q (list_elem_of_here _ _)) as [Hk Hc].
  assert (grown s.1 (CompareAndSwap q s).1.1) as Hg.
  { pose proof (EventPlatformLaws.wp_CompareAndSwap texts cid texts_distinct drawn_valid signer_valid q s.1 Hp Hk
      (fun _ => or_introl Hc) s.2) as Hw.
    destruct s as [p n]. cbn [fst snd] in *. destruct (CompareAndSwap q (p, n)) as [[p' n'] [r|e]]; [apply Hw|exact Hw]. }
  eapply grown_trans; [exact Hg|]. apply IH; [apply Hg|]. intros q' Hq'. apply Hl. by right.
Qed.

(** A message to the platform moves the chain only, and its answer is the platform's. *)
Lemma remote_moves {F A} (wrap : F -> world_error X) (m : Db Platform F A) (G : A -> Platform -> Prop) (w w' : World) r :
  platform_ok (w_platform w) ->
  (forall p, grown (w_platform w) p -> wp m p (fun x p' => grown p p' /\ G x p') (grown p)) ->
  remote wrap m w = (w', r) ->
  w_store w' = w_store w /\ grown (w_platform w) (w_platform w') /\ forall x, r = Ok x -> G x (w_platform w').
Proof.
  intros Hp Hm. unfold remote. set (s := act_others _ _).
  assert (grown (w_platform w) s.1) as Hg by (apply (act_others_grown _ (w_platform w, S (w_tick w))); [done|apply others_known]).
  specialize (Hm s.1 Hg s.2). replace (s.1, s.2) with s in Hm by by destruct s.
  destruct (m s) as [[p n] o]. destruct (fate (w_tick w)).
  - intros [= <- <-]. cbn [w_store w_platform]. split; [done|]. destruct o as [x|e]; cbn [res_map_err].
    + destruct Hm as [Hg' HG]. split; [by eapply grown_trans|]. by intros y [= <-].
    + split; [by eapply grown_trans|done].
  - intros [= <- <-]. by split_and!.
  - intros [= <- <-]. split; [done|]. split; [|done]. destruct o; [destruct Hm as [Hg' _]|]; by eapply grown_trans.
Qed.

Lemma same_of_grown (w w' : World) : w_store w' = w_store w -> grown (w_platform w) (w_platform w') -> same (view_of w) (view_of w').
Proof.
  intros Es [Hp Hc]. unfold view_of. rewrite Es. split_and!; [|done..]. split; [done|]. apply (EventPlatformLaws.po_linked _ _ _ Hp).
Qed.

(** A message that the platform answers without failing the invariant. *)
Lemma remote_law {F A} (wrap : F -> world_error X) (m : Db Platform F A) (G : A -> Platform -> Prop) (w w' : World) r :
  Good w -> remote wrap m w = (w', r) ->
  (forall p, grown (w_platform w) p -> wp m p (fun x p' => grown p p' /\ G x p') (grown p)) ->
  world_ok w' /\ same (view_of w) (view_of w') /\ forall x, r = Ok x -> G x (w_platform w').
Proof.
  intros [_ [Hp Hs]] Hr Hm. destruct (remote_moves wrap m G w w' r Hp Hm Hr) as (Es & Hg & HG).
  split; [|split; [by apply same_of_grown|done]]. split; [apply Hg|by rewrite Es].
Qed.

(** A step of the store. *)
Lemma on_store_law {A} (m : Db (EventStore.Store P) (EventStore.store_error X) A) (R : View -> View -> Prop)
    (G : A -> EventStore.Store P -> Prop) (w w' : World) r :
  Good w -> on_store m w = (w', r) ->
  (linked texts (chain_of (w_platform w)) ->
   wp m (w_store w)
     (fun x s' => moved (chain_of (w_platform w)) R (w_store w) s' /\ G x s')
     (moved (chain_of (w_platform w)) R (w_store w))) ->
  world_ok w' /\ R (view_of w) (view_of w') /\ w_platform w' = w_platform w /\ forall x, r = Ok x -> G x (w_store w').
Proof.
  intros [_ [Hp Hs]] Hr Hm. specialize (Hm (EventPlatformLaws.po_linked _ _ _ Hp) (w_tick w)). unfold on_store in Hr.
  destruct (m (w_store w, w_tick w)) as [[s n] o]. injection Hr as <- <-. unfold view_of, world_ok. cbn [w_store w_platform].
  destruct o as [x|e]; cbn [res_map_err].
  - destruct Hm as [[Hok HR] HG]. split_and!; try done. by intros y [= <-].
  - destruct Hm as [Hok HR]. by split_and!.
Qed.

(** *** The laws, one by one *)

Lemma head_law (w w' : World) (r : res (world_error X) (option Head)) : Good w -> on_platform (CAS_Head cid) w = (w', r) ->
  world_ok w' /\ same (view_of w) (view_of w') /\ forall h, r = Ok h -> h = chain_head (chain (view_of w')).
Proof.
  intros Hg Hr. refine (remote_law ErrPlatform _ (fun h p => h = chain_head (chain_of p)) w w' r Hg Hr _). intros p Hp.
  assert (grown p p) as Hid by (apply EventPlatformLaws.grown_refl, Hp).
  apply wp_query; [|done]. split; [done|]. apply (EventPlatformLaws.po_head _ _ _ (proj1 Hp)).
Qed.

(** A receipt that is sent and decoded still names its entry. *)
Lemma wp_received p0 receipt q (Q : Receipt -> Platform -> Prop) :
  EventPlatformLaws.names receipt q -> (forall receipt', EventPlatformLaws.names receipt' q -> Q receipt' p0) ->
  forall K : Platform -> Prop, K p0 -> wp (received receipt) p0 Q K.
Proof.
  intros Hn HQ K HK. unfold received. apply wp_bind, wp_lift; [|done]. intros body Hb. apply wp_lift; [|done].
  intros receipt' Hu. assert (UnmarshalJSON body = Ok (normal receipt)) as Hu'.
  { apply receipt_roundtrip; [apply Hn|exact Hb]. }
  replace receipt' with (normal receipt) by congruence. by apply HQ, EventPlatformLaws.names_normal.
Qed.

Lemma received_stays receipt p (K : Platform -> Prop) : K p -> wp (received receipt) p (fun _ => K) K.
Proof. intros HK. unfold received. apply wp_bind, wp_lift; [|done]. intros body _. by apply wp_lift. Qed.

Lemma on_wire_facts q : facts (on_wire q) = facts q.
Proof.
  destruct (same_envelope_facts _ _ (EventStoreLaws.envelope_same (R_Event q))) as (F1 & F2 & F3 & F4).
  unfold facts. cbn [on_wire R_Event R_EventDigest R_EventPinReceiptDigest R_PayloadPinReceiptDigests R_Next].
  by rewrite F1, F2, F3, F4, (same_envelope_commitment _ _ (EventStoreLaws.envelope_same (R_Event q))).
Qed.

Lemma swap_law q (w w' : World) (r : res (world_error X) Receipt) : Good w -> ComputerID (R_Event q) = cid -> known_event texts (R_Event q) ->
  committed texts q \/ attested (chain (view_of w)) q -> Client_CompareAndSwap q w = (w', r) ->
  world_ok w' /\ same (view_of w) (view_of w') /\
  forall receipt q', r = Ok receipt -> request_utf8 q' ->
    VerifyEventHeadReceipt (Some key_history) receipt q' = Ok tt -> attested (chain (view_of w')) q'.
Proof.
  intros Hg Hc Hk Hb Hr.
  pose (G := fun receipt p => exists q0, q0 ∈ chain_of p /\ EventPlatformLaws.names receipt q0).
  destruct (remote_law ErrPlatform (let$ receipt := CompareAndSwap (on_wire q) in received receipt) G w w' r Hg Hr) as (Hok & Hs & HG).
  - intros p Hp. pose proof (EventStoreLaws.envelope_same (R_Event q)) as He.
    apply wp_bind. eapply wp_conseq; [apply (EventPlatformLaws.wp_CompareAndSwap texts cid); try done| |done].
    + apply Hp.
    + by apply EventPlatformLaws.known_envelope.
    + intros _. destruct Hb as [Hb|(q0 & Hq0 & Hf)]; [left|right].
      * by apply (committed_envelope texts q).
      * exists q0. split; [|by rewrite on_wire_facts]. eapply elem_suffix; [apply Hp|exact Hq0].
    + intros receipt p' [Hg' Hn]. destruct (same_envelope_facts _ _ He) as (F1 & _).
      destruct (Hn (eq_trans F1 Hc)) as (q0 & Hq0 & _ & _ & Hnames).
      apply (wp_received p' receipt q0); [done| |done]. intros receipt' Hn'. split; [done|]. by exists q0.
  - split; [done|]. split; [done|]. intros receipt q' -> Hu Hv. destruct (HG receipt eq_refl) as (q0 & Hq0 & _ & Hm).
    exists q0. split; [done|]. apply VerifyEventHeadReceipt_inv in Hv as (_ & _ & _ & Hm').
    eapply match_fields_facts; [exact Hm'|exact Hm|exact Hu|].
    eapply EventPlatformLaws.entry_utf8; [apply Hok|exact Hq0].
Qed.

(** A message that moves nothing but the chain is quiet. *)
Lemma remote_quiet {F A} (wrap : F -> world_error X) (m : Db Platform F A) :
  (forall p, platform_ok p -> wp m p (fun _ => grown p) (grown p)) -> Quiet texts view_of world_ok (remote wrap m).
Proof.
  intros Hm w w' r Hg Hr. destruct (remote_law wrap m (fun _ _ => True) w w' r Hg Hr) as (Hok & Hs & _); [|done].
  intros p Hp. eapply wp_conseq; [apply Hm, Hp|done|done].
Qed.

Lemma answer_pin_grown m p : wp m p (fun _ => grown p) (grown p) -> wp (answer_pin m) p (fun _ => grown p) (grown p).
Proof.
  intros Hm. unfold answer_pin. apply wp_bind. eapply wp_conseq; [exact Hm| |done]. intros pin p' Hp'. apply wp_bind.
  eapply wp_conseq; [by apply (received_stays _ _ (grown p))| |done]. intros receipt p2 Hp2. by apply wp_ret.
Qed.

Lemma tick_same (w : World) n : Good w -> world_ok (Build_World (w_platform w) (w_store w) n) /\
  same (view_of w) (view_of (Build_World (w_platform w) (w_store w) n)).
Proof. intros [Hi Hok]. split; [exact Hok|]. apply same_view_refl, Hi. Qed.

Lemma quiet_fail {A} (w w' : World) (e : world_error X) (r : res (world_error X) A) :
  Good w -> (w, Err e) = (w', r) -> world_ok w' /\ same (view_of w) (view_of w').
Proof. intros [Hi Hok] [= <- _]. split; [done|]. apply same_view_refl, Hi. Qed.

Lemma finalize_law legacy :
  finalizes texts cid view_of world_ok (fun c d r b => on_store (EventStore.finalizeBatch c d r b legacy)).
Proof.
  intros q receipt batch w w' r Hg Ha Hr.
  destruct (on_store_law _ (EventStoreLaws.advanced_or texts (R_EventDigest q))
    (fun _ s' => EventStoreLaws.settled_or texts (R_EventDigest q) (view_of w)
      (EventStoreLaws.view_of (P := P) (X := X) cid (chain_of (w_platform w)) s')) w w' r Hg Hr) as (Hok & Hm & Ep & HG).
  - intros Hl. eapply wp_conseq; [apply (EventStoreLaws.wp_finalizeBatch texts cid _ Hl); apply Hg| |done].
    intros [] s' Hs'. split; [by apply EventStoreLaws.settled_advanced|]. apply Hs'.
  - split; [done|]. destruct r as [[]|e].
    + specialize (HG tt eq_refl). rewrite <-Ep in HG. destruct HG as [Hadv|[Hs Hin]]; [by left|right; by split].
    + destruct Hm as [Hadv|Hs]; [by left|right; by split].
Qed.

#[export] Instance world_laws : Laws texts cid view_of world_ok.
Proof.
  split.
  - apply head_law.
  - apply swap_law.
  - intros w w' r Hg Hr. destruct (on_store_law _ same (fun h s' => h = EventStore.st_heads s' !! cid) w w' r Hg Hr) as (Hok & Hs & _ & HG); [|done].
    intros Hl. apply (EventStoreLaws.wp_Head texts cid _ Hl). apply Hg.
  - intros q w w' r Hg Hq Hr.
    destruct (on_store_law _ (fun v v' => same v v' \/ prepared texts q v v')
      (fun _ _ => Digest (R_Event q) = Ok (R_EventDigest q)) w w' r Hg Hr) as (Hok & Hm & _ & HG).
    { intros Hl. eapply wp_conseq; [apply (EventStoreLaws.wp_Prepare texts cid _ Hl); [apply Hg|exact Hq]| |done].
      intros [] s' [Hd Hs']. by split. }
    split; [done|]. split; [done|]. intros ->. by apply (HG tt).
  - intros w w' r Hg Hr.
    destruct (on_store_law _ same (fun qs s' => forall q, q ∈ qs -> ComputerID (R_Event q) = cid /\
      exists row, row ∈ rows (EventStoreLaws.view_of (X := X) cid [] s') /\ read_back row q) w w' r Hg Hr) as (Hok & Hs & _ & HG).
    { intros Hl. apply (EventStoreLaws.wp_Prepared texts cid _ Hl). apply Hg. }
    split; [done|]. split; [done|]. intros qs q ->. by apply HG.
  - intros d w w' r Hg Hr.
    destruct (on_store_law _ (discarded texts) (fun _ _ => True) w w' r Hg Hr) as (Hok & Hm & _); [|done].
    intros Hl. eapply wp_conseq; [apply (EventStoreLaws.wp_Discard texts cid _ Hl); apply Hg|done|done].
  - intros q receipt batch w w' r. apply (finalize_law false q receipt None).
  - intros f [= <-]. apply finalize_law.
  - intros f [= <-]. apply finalize_law.
  - intros f b [= <-] w w' r Hg Hr. destruct (on_store_law _ same (fun _ _ => True) w w' r Hg Hr) as (Hok & Hs & _); [|done].
    intros Hl. eapply wp_conseq; [apply (EventStoreLaws.wp_DryRun texts cid _ Hl); apply Hg|done|done].
  - intros f [= <-] w w' r Hg Hr. destruct (on_store_law _ same (fun _ _ => True) w w' r Hg Hr) as (Hok & Hs & _); [|done].
    intros Hl. eapply wp_conseq; [apply (EventStoreLaws.wp_CommitReplay texts cid _ Hl); apply Hg|done|done].
  - intros b c Ht. apply remote_quiet. intros p Hp. by apply answer_pin_grown, EventPlatformLaws.wp_PinEvent.
  - intros f p m c i [= <-] w w' r Hg. unfold Client_PinNonPrivatePayload. destruct (_ || _); [by apply quiet_fail|].
    eapply remote_quiet; [|done]. intros p' Hp'. by apply answer_pin_grown, EventPlatformLaws.wp_pinPayload.
  - intros f e m p [= <-] w w' r Hg [= <- _]. by apply tick_same.
  - intros e v i w w' r Hg. unfold pin_Private, wired, Client_PinPrivatePayload. destruct (decrypt _ _ _); [|by apply quiet_fail].
    eapply remote_quiet; [|done]. intros p' Hp'. by apply answer_pin_grown, EventPlatformLaws.wp_pinPayload.
  - intros f e refs [= <-] c. apply remote_quiet. intros p Hp n. unfold resolve_step.
    pose proof (EventPlatformLaws.grown_refl _ _ p Hp). by destruct (ResolvePayloads _ _ _ _ _ _).
  - intros w Hg. by apply tick_same.
  - intros w Hg. by apply tick_same.
Qed.

(** *** Records of the platform *)

Lemma page_serves c n : serves texts view_of world_ok (Client_EventsPage cid c n).
Proof.
  intros w w' r Hg. unfold Client_EventsPage. destruct (_ || _).
  { intros Hr. destruct (quiet_fail _ _ _ _ Hg Hr) as [Hok Hs]. injection Hr as _ <-. by split_and!. }
  destruct (on_platform _ w) as [w1 r1] eqn:E.
  destruct (remote_law ErrPlatform _ (fun records p => Forall (good_record texts (chain_of p)) records) w w1 r1 Hg E) as (Hok & Hs & HG).
  - intros p Hp. eapply wp_conseq; [apply (EventPlatformLaws.wp_EventsPage texts cid texts_distinct p); apply Hp| |].
    + intros records p' [-> Hrs]. split; [apply EventPlatformLaws.grown_refl, Hp|]. apply Forall_forall. intros x Hx _. by apply Hrs.
    + intros p' ->. apply EventPlatformLaws.grown_refl, Hp.
  - destruct r1 as [page|e]; intros [= <- <-]; (split; [done|]; split; [done|]); [|done].
    intros records. destruct (n <? _); [done|]. intros [= <-]. by apply HG.
Qed.

Lemma Good_next (w w' : World) : Good w -> world_ok w' -> same (view_of w) (view_of w') -> Good w'.
Proof. apply Good_same. Qed.

Lemma same_trans v1 v2 v3 : same v1 v2 -> same v2 v3 -> same v1 v3.
Proof. intros ([H12 _] & E1 & E2 & E3) ([H23 L3] & F1 & F2 & F3). split_and!; try congruence. split; [by etrans|done]. Qed.

Lemma good_records_grow c c' l : c `suffix_of` c' -> Forall (good_record (D := wired) texts c) l -> Forall (good_record (D := wired) texts c') l.
Proof.
  intros Hc Hl. eapply Forall_impl; [exact Hl|]. intros x Hx Hv. destruct (Hx Hv) as (Ha & Hk).
  split; [by eapply attested_suffix|done].
Qed.

Lemma events_serves fuel after : serves texts view_of world_ok (Client_Events fuel cid after).
Proof.
  revert after. induction fuel as [|fuel IH]; intros after w w' r Hg; cbn [Client_Events].
  { intros Hr. destruct (quiet_fail _ _ _ _ Hg Hr) as [Hok Hs]. injection Hr as _ <-. by split_and!. }
  destruct (Client_EventsPage cid after EventReplayPageSize w) as [w1 r1] eqn:E1.
  destruct (page_serves _ _ w w1 r1 Hg E1) as (Hok & Hs & Hp).
  destruct r1 as [page|e]; [|intros [= <- <-]; by split_and!].
  destruct page as [|record page]; [intros [= <- <-]; split_and!; [done..|]; by intros records [= <-]|].
  set (l := record :: page) in *. destruct (progresses after l) as [after'|]; [|intros [= <- <-]; by split_and!].
  destruct (_ || _).
  { intros [= <- <-]. split; [done|]. split; [done|]. intros records [= <-]. by apply Hp. }
  destruct (Client_Events fuel cid after' w1) as [w2 r2] eqn:E2.
  destruct (IH after' w1 w2 r2 (Good_next _ _ Hg Hok Hs) E2) as (Hok2 & Hs2 & Hp2).
  destruct r2 as [records|e]; intros [= <- <-]; (split; [done|]; split; [by eapply same_trans|]); [|done].
  intros records' [= <-]. change (record :: page ++ records) with (l ++ records). apply Forall_app. split; [|by apply Hp2].
  eapply good_records_grow; [by apply (same_suffix texts)|]. by apply Hp.
Qed.

#[export] Instance source_laws fuel : SourceLaws texts cid view_of world_ok (client_source fuel).
Proof. split; [intros after; apply events_serves|]. intros f after n [= <-]. apply page_serves. Qed.

(** [C3] The platform and the store implement the contract the appender is
    proved against: in every world, whatever statements fail, messages are lost and
    others append, each dependency moves what an observer sees only the way the
    contract says, and the pages served to replays hold entries of the chain. *)
Theorem world_refines_contract fuel :
  Laws texts cid view_of world_ok /\ SourceLaws texts cid view_of world_ok (client_source fuel).
Proof. split; [exact world_laws|exact (source_laws fuel)]. Qed.

(** The state of a computer that was never used is good. *)
Lemma Good_fresh p (s : EventStore.Store P) n :
  platform_ok p -> EventStore.st_index s = [] -> EventStore.st_heads s !! cid = None -> Good (Build_World p s n).
Proof.
  intros Hp Ei Eh. split.
  - unfold view_of, EventStoreLaws.view_of. cbn [w_platform w_store]. rewrite Ei, Eh. split; cbn [chain local rows finalized].
    + apply Hp.
    + exists []. split; [apply suffix_nil|done].
    + done.
    + done.
  - split; [exact Hp|]. cbn [w_store]. split; rewrite Ei; [constructor|constructor].
Qed.

Lemma platform_ok_fresh : platform_ok (Build_Platform ∅ [] [] ∅ []).
Proof. split; cbn; [constructor|done|constructor|constructor|constructor|constructor|]. intros d b. by rewrite lookup_empty. Qed.
End Refinement.
End EventWorld.
