(* ===== verification/EventRebuild.v ===== *)
(** * EventRebuild: a lost store is rebuilt

    When nothing fails, no other realization appends and the context does not end,
    a reconstruction into an empty store succeeds: it ends with the head of the
    platform's chain and with the tables that the batches of the chain project, in
    order. This is the liveness side of [EventSync], where everything may fail. *)
From S2P Require Import Prelude GoStrings GoBase64 Sha256 GoUuid GoTime GoSql GoJson GoDecode CanonicalJson JsonRoundTrip ComputerEvent EventReceipt EventDecode ProjectionBatch EventAppender EventStore EventPlatform EventContract EventStoreLaws EventPlatformLaws EventReplay EventWorld.
Import ComputerEvent EventReceipt EventDecode ProjectionBatch EventAppender EventPlatform EventContract EventReplay EventWorld.

Module EventRebuild.
Local Open Scope Z_scope.

(** ** Digests in batches *)

Lemma trim_hex q1 q2 q3 l :
  (forall a, is_hex_digit a = true -> q1 a = false /\ (forall b, q2 a b = false) /\ forall b c, q3 a b c = false) ->
  forallb is_hex_digit l = true -> trim q1 q2 q3 l = l.
Proof.
  intros Hq Hl. apply trim_id. destruct l as [|a [|b [|c l]]]; cbn [forallb lead] in *; [done|..];
    apply andb_true_iff in Hl as [Ha _]; destruct (Hq a Ha) as (-> & Q2 & Q3); by rewrite ?Q2, ?Q3.
Qed.

Lemma hex_not_space a : is_hex_digit a = true ->
  space1 a = false /\ (forall b, space2 a b = false /\ space2 b a = false) /\ forall b c, space3 a b c = false /\ space3 c b a = false.
Proof.
  unfold is_hex_digit, space1, space2, space3, in_range. rewrite !orb_true_iff, !andb_true_iff, !N.leb_le. intros Ha.
  split; [|split; [intros b; split|intros b c; split]]; apply not_true_is_false;
    rewrite ?orb_true_iff, ?andb_true_iff, ?orb_true_iff, ?andb_true_iff, ?N.leb_le, ?N.eqb_eq; lia.
Qed.

Lemma TrimSpace_sha d : isSHA256 d = true -> TrimSpace d = d.
Proof.
  unfold isSHA256, hex_decodes. destruct (_ || _); [done|]. intros [_ Hd]%andb_true_iff.
  unfold TrimSpace, trim_left, trim_right. rewrite (trim_hex _ _ _ (chars d)).
  - rewrite trim_hex; [by rewrite rev_involutive, of_chars_chars| |].
    + intros a Ha. destruct (hex_not_space a Ha) as (K1 & K2 & K3). split; [done|]. split; [intros b; apply K2|intros b c; apply K3].
    + rewrite forallb_forall in *. intros x Hx. by apply Hd, in_rev.
  - intros a Ha. destruct (hex_not_space a Ha) as (K1 & K2 & K3). split; [done|]. split; [intros b; apply K2|intros b c; apply K3].
  - done.
Qed.

Lemma with_digest_valid b d : isSHA256 d = true -> Batch_Validate b = Ok tt -> Batch_Validate (with_digest b d) = Ok tt.
Proof.
  intros Hd. unfold Batch_Validate. cbn [with_digest BatchVersion BatchProjectorVersion BatchComputerID BatchEventID BatchEventDigest BatchOps].
  destruct (negb _); [done|]. destruct (_ || _); [done|]. rewrite (TrimSpace_sha d Hd), Hd, andb_false_r.
  by destruct (_ && _).
Qed.

(** ** The store *)
Section Storing.
Context {P X : Type} `{Uuid, Sha256, Ed25519, PrivateEnvelopes, Drawn, Signer, Faults, EventStore.Projector P X}.
Variable texts : string -> Prop.
Variable cid : string.
Hypothesis texts_distinct : sha256_distinct texts.
Abbreviation Store := (EventStore.Store P).
Abbreviation key_of := EventPlatformLaws.key_of.
Abbreviation replays := (EventReplay.replays).

(** A row of the index that was finalized for an entry of the chain. *)
Definition finalized_for (q : CASRequest) (r : EventStore.IndexRow) : Prop :=
  EventStore.ix_computer r = cid /\ EventStore.ix_sequence r = Sequence (R_Event q) /\
  EventStore.ix_digest r = R_EventDigest q /\ EventStore.ix_key r = key_of q /\ EventStore.ix_status r = "finalized".

(** The store after the entries of [c] were replayed, with the tables [tables]. *)
Record rebuilt (c : list CASRequest) (tables : P) (s : Store) : Prop := {
  rb_head : EventStore.st_heads s !! cid = chain_head c;
  rb_rows : Forall2 finalized_for c (EventStore.st_index s);
  rb_tables : EventStore.st_projection s = tables;
}.

(** What the batch of an entry makes of the tables. *)
Definition projected (legacy : bool) (q : CASRequest) (batch : option Batch) (tables tables' : P) : Prop :=
  match batch with
  | None => Kind (R_Event q) <> EventProjectionBatchRecorded /\ tables' = tables
  | Some b =>
    Kind (R_Event q) = EventProjectionBatchRecorded /\ Batch_Validate b = Ok tt /\
    BatchComputerID b = cid /\ BatchEventDigest b = R_EventDigest q /\
    (if legacy then EventStore.projectBatchForReplay else EventStore.projectBatch) b tables = Ok tables'
  end.

Lemma returns_update {A} f s (Q : A -> Store -> Prop) k :
  returns (E := EventStore.store_error X) (k tt) (f s) Q -> returns (db_bind (EventStore.update f) k) s Q.
Proof. intros Hk n Hn. apply (Hk n Hn). Qed.

Lemma returns_peek {A B} (f : Store -> B) s (Q : A -> Store -> Prop) k :
  returns (E := EventStore.store_error X) (k (f s)) s Q -> returns (db_bind (EventStore.peek f) k) s Q.
Proof. intros Hk n Hn. apply (Hk n Hn). Qed.

Lemma rebuilt_memory c tables s dirty since : rebuilt c tables s -> rebuilt c tables (EventStore.with_memory s dirty since).
Proof. intros [K1 K2 K3]. by split. Qed.

Lemma returns_commit c tables s : rebuilt c tables s ->
  returns (E := EventStore.store_error X) EventStore.commitDoltCheckpoint s (fun _ => rebuilt c tables).
Proof.
  intros Hs. unfold EventStore.commitDoltCheckpoint. apply returns_peek. destruct (negb _); [by apply returns_ret|].
  apply returns_bind, returns_query. intros n _. do 3 eexists. split; [done|]. split; [done|]. by apply rebuilt_memory.
Qed.

(** The entries of the index do not stand in the way of the next entry. *)
Lemma next_fresh c q r : linked texts (q :: c) -> NoDup (key_of <$> q :: c) -> (exists q0, q0 ∈ c /\ finalized_for q0 r) ->
  EventStore.ix_digest r <> R_EventDigest q /\ EventStore.ix_sequence r <> Sequence (R_Event q) /\ EventStore.ix_key r <> key_of q.
Proof.
  intros Hl Hnd (q0 & Hq0 & _ & -> & -> & -> & _). destruct (linked_cons_inv texts _ _ Hl) as (Hc & _ & Hd & Hk & _ & Hs & _).
  apply list_elem_of_lookup in Hq0 as [i Hi]. pose proof (linked_sequence texts _ _ _ Hc Hi) as Hs0.
  assert (Sequence (R_Event q0) <> Sequence (R_Event q)) as Hne by (rewrite Hs, Hs0; lia). apply list_elem_of_lookup_2 in Hi.
  split; [|split; [done|]].
  - intros He. destruct (linked_elem texts _ _ Hc Hi) as (l & _ & Hl0). apply linked_cons_inv in Hl0 as (_ & _ & Hd0 & Hk0 & _).
    rewrite He in Hd0. pose proof (digest_envelope texts texts_distinct _ _ _ Hk0 Hk Hd0 Hd) as Hsame.
    by destruct (same_envelope_facts _ _ Hsame) as (_ & _ & ? & _).
  - intros He. apply NoDup_cons in Hnd as [Hnotin _]. apply Hnotin. rewrite <-He. apply list_elem_of_fmap. by exists q0.
Qed.

Lemma find_none {A} (f : A -> bool) l : (forall x, x ∈ l -> f x = false) -> List.find f l = None.
Proof.
  intros Hf. induction l as [|x l IH]; [done|]. cbn [List.find]. rewrite (Hf x) by left. apply IH. intros y Hy. apply Hf. by right.
Qed.

Lemma filter_nothing {A} (f : A -> bool) l : (forall x, x ∈ l -> f x = false) -> List.filter f l = [].
Proof.
  intros Hf. induction l as [|x l IH]; [done|]. cbn [List.filter]. rewrite (Hf x) by left. apply IH. intros y Hy. apply Hf. by right.
Qed.

(** The store with the row of the next entry prepared. *)
Definition staged (record : DurableEvent) (c : list CASRequest) (tables : P) (s : Store) : Prop :=
  exists body old, EventStore.st_index s = EventStore.index_row (D_Request record) body :: old /\
    EventStore.st_heads s !! cid = chain_head c /\ Forall2 finalized_for c old /\ EventStore.st_projection s = tables.

Lemma returns_Prepare c q record tables s :
  linked texts (q :: c) -> NoDup (key_of <$> q :: c) -> ComputerID (R_Event q) = cid -> replays record q -> rebuilt c tables s ->
  returns (E := EventStore.store_error X) (EventStore.Prepare (D_Request record)) s (fun _ => staged record c tables).
Proof.
  intros Hl Hnd Hcid Hrec [K1 K2 K3]. destruct (linked_cons_inv texts _ _ Hl) as (_ & _ & Hd & _).
  pose proof (EventStoreLaws.envelope_same (R_Event q)) as He. destruct (same_envelope_facts _ _ He) as (F1 & _ & F3 & _).
  assert (IdempotencyKey (envelope (R_Event q)) = key_of q) as F5 by (unfold EventPlatformLaws.key_of; by destruct (R_Event q)).
  assert (forall r, r ∈ EventStore.st_index s ->
    EventStore.ix_digest r <> R_EventDigest q /\ EventStore.ix_sequence r <> Sequence (R_Event q) /\ EventStore.ix_key r <> key_of q) as Hfresh.
  { intros r [i Hi]%list_elem_of_lookup. destruct (Forall2_lookup_r _ _ _ _ _ K2 Hi) as (q0 & Hq0 & Hr).
    apply (next_fresh c); [done|done|]. exists q0. split; [by eapply list_elem_of_lookup_2|done]. }
  unfold EventStore.Prepare. rewrite (rp_event _ _ Hrec), (rp_digest _ _ Hrec), (rp_artifact _ _ Hrec).
  rewrite (Digest_envelope _ _ He), Hd, !(bool_decide_eq_true_2 (R_EventDigest q = _)) by done. cbn [negb orb].
  assert (exists body, ComputerEvent.CanonicalBytes (envelope (R_Event q)) = Ok body) as [body Hbody].
  { rewrite <-(Digest_envelope _ _ He) in Hd. unfold Digest in Hd. destruct (ComputerEvent.CanonicalBytes _) as [b|]; [by exists b|done]. }
  apply returns_bind. eapply returns_lift; [exact Hbody|]. apply returns_bind, returns_query.
  set (r := EventStore.index_row (D_Request record) body).
  assert (existsb (EventStore.clashes r) (EventStore.st_index s) = false) as Hclash.
  { apply not_true_is_false. intros (r' & Hr' & Hcl)%existsb_exists. destruct (Hfresh r') as (N1 & N2 & N3); [by apply list_elem_of_In|].
    unfold EventStore.clashes, r, EventStore.index_row in Hcl. cbn [EventStore.ix_digest EventStore.ix_computer EventStore.ix_sequence EventStore.ix_key] in Hcl.
    rewrite (rp_event _ _ Hrec), (rp_digest _ _ Hrec), F3, F5 in Hcl.
    rewrite (bool_decide_eq_false_2 (R_EventDigest q = _)), (bool_decide_eq_false_2 (key_of q = _)) in Hcl by congruence. replace (Sequence (R_Event q) =? EventStore.ix_sequence r') with false in Hcl by (symmetry; apply Z.eqb_neq; congruence).
    by rewrite andb_false_r in Hcl. }
  rewrite find_none.
  - apply returns_bind. eapply returns_exec; [unfold EventStore.insert_row; by rewrite Hclash|].
    intros n _. do 3 eexists. split; [done|]. split; [done|]. by exists body, (EventStore.st_index s).
  - intros r' Hr'. destruct (Hfresh r' Hr') as (_ & _ & N3). unfold EventStore.of_key. rewrite F5.
    by rewrite (bool_decide_eq_false_2 _ N3), andb_false_r.
Qed.

Lemma valid_batch_kind (k : EventKind) : validEventKinds k = true ->
  (kind_string k == kind_string EventProjectionBatchRecorded) = bool_decide (k = EventProjectionBatchRecorded).
Proof. by destruct k. Qed.

Lemma returns_project legacy q batch tables tables' (s : Store) :
  projected legacy q batch tables tables' -> EventStore.st_projection s = tables ->
  returns (E := EventStore.store_error X) (EventStore.project legacy batch) s
    (fun _ s' => EventStore.st_index s' = EventStore.st_index s /\ EventStore.st_heads s' = EventStore.st_heads s /\
       EventStore.st_projection s' = tables').
Proof.
  intros Hp <-. unfold EventStore.project. destruct batch as [b|].
  - destruct Hp as (_ & _ & _ & _ & Hp). apply returns_bind, returns_query, returns_bind. eapply returns_lift; [exact Hp|].
    by eapply returns_exec.
  - destruct Hp as [_ ->]. by apply returns_ret.
Qed.

(** The transaction that finalizes the staged entry moves the head. *)
Lemma returns_finalize_transaction legacy c q record batch tables tables' s receiptJSON :
  linked texts (q :: c) -> NoDup (key_of <$> q :: c) -> ComputerID (R_Event q) = cid -> replays record q -> staged record c tables s ->
  projected legacy q batch tables tables' ->
  returns (E := EventStore.store_error X) (EventStore.finalize_transaction cid (R_EventDigest q) receiptJSON batch legacy) s
    (fun moved s' => moved = true /\ rebuilt (q :: c) tables' s').
Proof.
  intros Hl Hnd Hcid Hrec (body & old & Ei & Eh & Hold & Et) Hp. destruct (linked_cons_inv texts _ _ Hl) as (Hc & Hred & Hd & _ & _ & Hseq & Hnseq & Hcanon).
  destruct (linked_head texts _ Hc) as [Hok Hhs].
  destruct (Reduce_step _ _ _ _ Hok Hred) as (Hnok & _ & Hes & Hprev & _).
  pose proof (EventStoreLaws.envelope_same (R_Event q)) as He. destruct (same_envelope_facts _ _ He) as (F1 & F2 & F3 & F4).
  set (r := EventStore.index_row (D_Request record) body) in *.
  assert (EventStore.ix_computer r = cid /\ EventStore.ix_digest r = R_EventDigest q /\ EventStore.ix_sequence r = Sequence (R_Event q) /\
          EventStore.ix_previous r = PreviousHead (R_Event q) /\ EventStore.ix_kind r = kind_string (Kind (R_Event q))) as (R1 & R2 & R3 & R4 & R5).
  { unfold r, EventStore.index_row. cbn. by rewrite (rp_event _ _ Hrec), (rp_digest _ _ Hrec), F1, F2, F3, F4. }
  unfold EventStore.finalize_transaction. apply returns_transaction, returns_bind, returns_query. rewrite Ei. cbn [List.find].
  unfold EventStore.of_digest at 1. rewrite R1, R2, !bool_decide_eq_true_2 by done. cbn [andb].
  change (EventStore.has_status "finalized" r) with false. change (EventStore.has_status "prepared" r) with true. cbn [negb].
  assert (EventStore.check_batch (X := X) cid (R_EventDigest q) (EventStore.ix_kind r) batch = Ok tt) as Hcheck.
  { unfold EventStore.check_batch. rewrite R5, valid_batch_kind.
    - destruct batch as [b|]; cbn [projected] in Hp.
      + destruct Hp as (-> & -> & -> & -> & _). by rewrite !bool_decide_eq_true_2.
      + destruct Hp as [Hk _]. by rewrite bool_decide_eq_false_2.
    - apply Validate_kind. unfold Reduce in Hred. by destruct (Validate (R_Event q)) as [[]|]. }
  apply returns_bind. eapply returns_lift; [exact Hcheck|]. apply returns_bind. unfold EventStore.finalize_head.
  apply returns_bind, returns_query. rewrite Eh.
  match goal with |- context [guard$ negb ?b with _ ;; _] => assert (b = true) as -> end.
  { rewrite R3, R4, Hes, Hprev. destruct (chain_head c) as [h|] eqn:Eh'; cbn [head_seq head_digest] in *.
    - rewrite wrap_u64_small; [by rewrite Z.eqb_refl, bool_decide_eq_true_2|]. destruct Hnok as [Hn _ _ _ _].
      rewrite Hnseq in Hn. unfold is_u64. lia.
    - by rewrite bool_decide_eq_true_2. }
  cbn [negb]. eapply returns_exec; [done|]. cbn [EventStore.with_heads]. apply returns_bind.
  set (at_row := fun r => EventStore.of_digest cid (R_EventDigest q) r && EventStore.has_status "prepared" r).
  assert (at_row r = true) as Hr.
  { unfold at_row, EventStore.of_digest. by rewrite R1, R2, !bool_decide_eq_true_2. }
  assert (forall x, x ∈ old -> at_row x = false) as Hothers.
  { intros x [i Hi]%list_elem_of_lookup. destruct (Forall2_lookup_r _ _ _ _ _ Hold Hi) as (q0 & _ & _ & _ & _ & _ & Hst).
    unfold at_row, EventStore.has_status. by rewrite Hst, andb_false_r. }
  eapply returns_exec; [done|]. cbn [EventStore.st_index EventStore.with_heads]. rewrite Ei. cbn [List.filter map].
  rewrite Hr, (filter_nothing at_row old Hothers). cbn [length Nat.eqb negb].
  assert (map (fun x => if at_row x then EventStore.finalized_row receiptJSON x else x) old = old) as Hmap.
  { rewrite <-(map_id old) at 2. apply map_ext_in. intros x Hx%list_elem_of_In. by rewrite (Hothers x Hx). }
  apply returns_bind. eapply returns_conseq; [by apply (returns_project legacy q batch tables tables'); [|exact Et]|].
  intros _ s' (Ei' & Eh'' & Et'). apply returns_ret. split; [done|].
  cbn [EventStore.st_index EventStore.st_heads EventStore.with_index EventStore.with_heads] in Ei', Eh''. split.
  - rewrite Eh''. cbn [EventStore.row_head HeadComputerID]. rewrite lookup_insert_eq. cbn [chain_head]. f_equal.
    unfold EventStore.row_head, r, EventStore.index_row.
    cbn [EventStore.ix_sequence EventStore.ix_desired EventStore.ix_effective EventStore.ix_pending EventStore.ix_desiredCommitment
      EventStore.ix_effectiveCommitment EventStore.ix_reducer EventStore.ix_epoch].
    rewrite (rp_event _ _ Hrec), (rp_next _ _ Hrec), F3, coalesce_nullable, Hseq, <-Hnseq, <-Hcanon, <-Hcid,
      <-(EventStoreLaws.Reduce_computer _ _ _ _ Hred). by destruct (R_Next q).
  - rewrite Ei', Hmap. constructor; [|done]. split_and!; [done..| |done].
    unfold r, EventStore.index_row. cbn. rewrite (rp_event _ _ Hrec). unfold EventPlatformLaws.key_of. by destruct (R_Event q).
  - done.
Qed.

Lemma returns_finalizeBatch legacy c q record batch tables tables' s :
  linked texts (q :: c) -> NoDup (key_of <$> q :: c) -> ComputerID (R_Event q) = cid -> replays record q -> staged record c tables s ->
  projected legacy q batch tables tables' ->
  returns (E := EventStore.store_error X) (EventStore.finalizeBatch cid (R_EventDigest q) (D_Receipt record) batch legacy) s
    (fun _ => rebuilt (q :: c) tables').
Proof.
  intros Hl Hnd Hcid Hrec Hst Hp. destruct (rp_binds _ _ Hrec) as [Hkind Hdig]. pose proof (rp_storable _ _ Hrec) as Hbody.
  destruct (EventReceipt.CanonicalBytes (D_Receipt record)) as [body|] eqn:Hb; [|done].
  unfold EventStore.finalizeBatch. rewrite Hkind, Hdig. cbn [default]. rewrite !(bool_decide_eq_true_2 (_ = _)) by done. cbn [negb orb].
  apply returns_bind. eapply returns_lift; [exact Hb|]. apply returns_bind.
  eapply returns_conseq; [by apply (returns_finalize_transaction legacy c q record batch tables tables')|].
  intros moved s' [-> Hs']. cbn [negb]. unfold EventStore.markDoltHistoryDirty. apply returns_update.
  apply (rebuilt_memory _ _ _ true (EventStore.finalizeSinceCheckpoint s')) in Hs'.
  destruct legacy; [by apply returns_ret|]. apply returns_peek, returns_update, returns_peek.
  match goal with |- returns (if ?b then _ else _) _ _ => destruct b end; [by apply returns_ret, rebuilt_memory|].
  apply returns_update. by apply (returns_commit (q :: c) tables'), rebuilt_memory, rebuilt_memory.
Qed.
End Storing.

(** ** The replay *)
Section Replaying.
Context {P X : Type} `{Uuid, Sha256, Ed25519, PrivateEnvelopes, Drawn, Signer, Faults, EventStore.Projector P X, Surroundings}.
Variable texts : string -> Prop.
Variable cid : string.
Variable p : Platform.
Hypothesis texts_distinct : sha256_distinct texts.
Hypothesis drawn_v7 : forall n, uuid_version (drawn_uuid n) = Some 7.
Hypothesis clock_utc : forall n, canonical_utc (format_rfc3339nano (clock n)) = true.
Hypothesis key_resolves : resolves key_history [signing_key].
Hypothesis platform_good : EventPlatformLaws.platform_ok texts cid p.
Hypothesis cid_named : cid <> "".
Hypothesis chain_small : Z.of_nat (length (EventPlatformLaws.chain_of cid p)) < 2 ^ 63.
Abbreviation World := (World P).
Abbreviation error := (world_error X).
Abbreviation Store := (EventStore.Store P).
Abbreviation M := (M World error).
Abbreviation chain := (EventPlatformLaws.chain_of cid p).
Abbreviation rebuilt := (rebuilt cid).

(** From the n-th step on nothing fails, nobody else appends and time does not run out. *)
Definition calm_from (n : nat) : Prop :=
  sound_from n /\ forall m, (n <= m)%nat -> others m = [] /\ expired_at m = false.

Lemma calm_later n n' : calm_from n -> (n <= n')%nat -> calm_from n'.
Proof. intros [Hs Ho] Hn. split; [by apply (sound_later n)|]. intros m Hm. apply Ho. lia. Qed.

(** [runs m a s Q]: in a calm world, from appender [a] and store [s], [m] returns
    with [Q] of the value, the appender and the store, and the platform stays. *)
Definition runs {A} (m : M A) (a : Appender) (s : Store) (Q : A -> Appender -> Store -> Prop) : Prop :=
  forall n, calm_from n -> exists a' s' n' x, (n <= n')%nat /\
    m (a, Build_World p s n) = ((a', Build_World p s' n'), Ok x) /\ Q x a' s'.

Lemma runs_ret {A} (x : A) a s (Q : A -> Appender -> Store -> Prop) : Q x a s -> runs (ret x) a s Q.
Proof. intros HQ n _. by exists a, s, n, x. Qed.

Lemma runs_bind {A B} (m : M A) (k : A -> M B) a s Q : runs m a s (fun x a' s' => runs (k x) a' s' Q) -> runs (bind m k) a s Q.
Proof.
  intros Hm n Hn. destruct (Hm n Hn) as (a1 & s1 & n1 & x & Hn1 & E1 & Hk).
  destruct (Hk n1 (calm_later _ _ Hn Hn1)) as (a2 & s2 & n2 & y & Hn2 & E2 & HQ). exists a2, s2, n2, y.
  unfold bind. rewrite E1. split_and!; [lia|done|done].
Qed.

Lemma runs_conseq {A} (m : M A) a s (Q Q' : A -> Appender -> Store -> Prop) :
  runs m a s Q -> (forall x a' s', Q x a' s' -> Q' x a' s') -> runs m a s Q'.
Proof. intros Hm HQ n Hn. destruct (Hm n Hn) as (a' & s' & n' & x & Hn' & E & Hx). exists a', s', n', x. auto. Qed.

Lemma runs_lift {F A} (wrap : F -> append_error error) (r : res F A) x a s (Q : A -> Appender -> Store -> Prop) :
  r = Ok x -> Q x a s -> runs (lift wrap r) a s Q.
Proof. intros -> HQ n _. by exists a, s, n, x. Qed.

Lemma runs_get a s (Q : Appender -> Appender -> Store -> Prop) : Q a a s -> runs get a s Q.
Proof. intros HQ n _. by exists a, s, n, a. Qed.

Lemma runs_modify f a s (Q : unit -> Appender -> Store -> Prop) : Q tt (f a) s -> runs (modify f) a s Q.
Proof. intros HQ n _. by exists (f a), s, n, tt. Qed.

Lemma runs_attempt {A} (m : M A) a s (Q : A -> Appender -> Store -> Prop) :
  runs m a s Q -> runs (attempt m) a s (fun r a' s' => exists x, r = Ok x /\ Q x a' s').
Proof.
  intros Hm n Hn. destruct (Hm n Hn) as (a' & s' & n' & x & Hn' & E & Hx). exists a', s', n', (Ok x).
  unfold attempt. rewrite E. split_and!; [done|done|by exists x].
Qed.

Lemma runs_now a s (Q : Time -> Appender -> Store -> Prop) : (forall t, Q t a s) -> runs (read dep_now) a s Q.
Proof. intros HQ n _. exists a, s, (S n), (clock n). split_and!; [lia|done|done]. Qed.

Lemma runs_expired a s (Q : bool -> Appender -> Store -> Prop) : Q false a s -> runs (read dep_expired) a s Q.
Proof.
  intros HQ n Hn. exists a, s, (S n), false. destruct (proj2 Hn n (le_n n)) as [_ He]. unfold read. cbn. rewrite He.
  split_and!; [lia|done|done].
Qed.

Lemma runs_store {A} what (m : Db Store (EventStore.store_error X) A) a s (Q : A -> Appender -> Store -> Prop) :
  returns m s (fun x s' => Q x a s') -> runs (call what (on_store m)) a s Q.
Proof.
  intros Hm n [Hn _]. destruct (Hm n Hn) as (s' & n' & x & Hn' & E & HQ). exists a, s', n', x.
  unfold call, on_store. cbn [fst snd w_store w_tick w_platform]. by rewrite E.
Qed.

Lemma runs_platform {A} what (m : Db Platform platform_error A) a s (Q : A -> Appender -> Store -> Prop) :
  returns m p (fun x p' => p' = p /\ Q x a s) -> runs (call what (on_platform m)) a s Q.
Proof.
  intros Hm n Hn. destruct (proj2 Hn n (le_n n)) as [Ho _]. pose proof (proj1 Hn n (le_n n)) as Hf.
  destruct (Hm (S n)) as (p' & n' & x & Hn' & E & -> & HQ); [apply (sound_later n); [apply Hn|lia]|].
  exists a, s, n', x. unfold call, on_platform, remote. cbn [fst snd w_store w_tick w_platform]. rewrite Ho, Hf.
  cbn [act_others foldl]. rewrite E. split_and!; [lia|done|done].
Qed.

(** *** Batches *)

(** The batch of an entry can be fetched, decrypted and decoded, and is the entry's. *)
Definition readable_batch (q : CASRequest) (b : Batch) : Prop :=
  exists payload,
    (forall n, calm_from n -> (resolve_step cid (EventID (R_Event q)) (batch_refs (R_Event q)) (p, n)).2 = Ok [payload]) /\
    DecodeProjectionBatch (Plaintext payload) = Ok b /\
    BatchComputerID b = cid /\ BatchEventID b = EventID (R_Event q) /\
    (BatchEventDigest b = "" \/ BatchEventDigest b = R_EventDigest q).

(** A batch that is not private is readable when the platform holds its file. *)
Lemma public_batch q b raw :
  pl_files p !! ("computer-event-payload", PayloadCommitment (R_Event q)) = Some raw ->
  sha256_hex raw = PayloadCommitment (R_Event q) -> TrimSpace (PrivacyClass (R_Event q)) <> "private" ->
  TrimSpace cid <> "" -> TrimSpace (EventID (R_Event q)) <> "" ->
  DecodeProjectionBatch raw = Ok b -> BatchComputerID b = cid -> BatchEventID b = EventID (R_Event q) ->
  (BatchEventDigest b = "" \/ BatchEventDigest b = R_EventDigest q) -> readable_batch q b.
Proof.
  intros Hf Hs Hpub Hc He Hdec Hb1 Hb2 Hb3. assert (isSHA256 (PayloadCommitment (R_Event q)) = true) as Hsha by (rewrite <-Hs; apply sha256_hex_shape).
  set (class := let c := TrimSpace (PrivacyClass (R_Event q)) in if (c == "") || (c == "owner") then "public" else c).
  assert (TrimSpace class = class /\ class <> "private" /\ class <> "") as (Hc1 & Hc2 & Hc3).
  { unfold class. destruct (_ || _) eqn:E; [by repeat split; vm_compute|]. apply orb_false_iff in E as [E _].
    apply bool_decide_eq_false_1 in E. split_and!; [by apply TrimSpace_idemp|done|done]. }
  exists (Build_ResolvedPayload (trimmed (Build_PayloadRef (PayloadCommitment (R_Event q)) ProjectionBatchMediaType class "projection_batch" 1))
    raw (PayloadCommitment (R_Event q))).
  split; [|by split_and!]. intros n Hn. unfold resolve_step. cbn [snd fst]. destruct (proj2 Hn n (le_n n)) as [_ ->].
  unfold ResolvePayloads, batch_refs. fold class. rewrite (bool_decide_eq_false_2 (TrimSpace cid = "")),
    (bool_decide_eq_false_2 (TrimSpace (EventID _) = "")) by done. cbn [orb resolve_all]. unfold resolve_one.
  cbn [trimmed RefArtifactDigest RefMediaType RefPrivacyClass RefRole RefSchemaVersion].
  change (TrimSpace ProjectionBatchMediaType) with ProjectionBatchMediaType. change (TrimSpace "projection_batch") with "projection_batch".
  rewrite (TrimSpace_sha _ Hsha), Hsha, Hc1, (bool_decide_eq_false_2 (class = "")), (bool_decide_eq_false_2 (class = "private")) by done.
  unfold FetchPayload. rewrite TrimSpace_idemp, (TrimSpace_sha _ Hsha), Hsha, (bool_decide_eq_false_2 (TrimSpace cid = "")) by done.
  cbn [orb negb fetch_from]. unfold ReadFile, db_bind, query. rewrite (proj1 Hn n (le_n n)), Hf. cbn.
  rewrite Hs, (bool_decide_eq_true_2 (PayloadCommitment (R_Event q) = _)) by done. cbn.
  rewrite Hs, (bool_decide_eq_true_2 (PayloadCommitment (R_Event q) = _)) by done.
  reflexivity.
Qed.

(** What an entry makes of the tables: nothing, or what its batch projects. *)
Definition step_tables (legacy : bool) (q : CASRequest) (tables tables' : P) : Prop :=
  if decide (Kind (R_Event q) = EventProjectionBatchRecorded) then
    exists b, readable_batch q b /\
      (if legacy then EventStore.projectBatchForReplay else EventStore.projectBatch) (with_digest b (R_EventDigest q)) tables = Ok tables'
  else tables' = tables.

Fixpoint fold_tables (legacy : bool) (qs : list CASRequest) (tables tables' : P) : Prop :=
  match qs with
  | [] => tables' = tables
  | q :: qs => exists tables1, step_tables legacy q tables tables1 /\ fold_tables legacy qs tables1 tables'
  end.

Lemma fold_tables_app legacy qs1 qs2 t t' :
  fold_tables legacy (qs1 ++ qs2) t t' -> exists t1, fold_tables legacy qs1 t t1 /\ fold_tables legacy qs2 t1 t'.
Proof.
  revert t. induction qs1 as [|q qs1 IH]; intros t; [by exists t|]. cbn. intros (t1 & Hs & (t2 & H1' & H2')%IH).
  exists t2. split; [by exists t1|done].
Qed.

(** An appender of the computer that holds no payload of its own. *)
Definition idle (legacy : bool) (a : Appender) : Prop :=
  A_computerID a = cid /\ A_livePayloads a = ∅ /\ A_replayProjection a = legacy.

Lemma runs_resolve legacy q c tables tables' a s :
  (q :: c) `suffix_of` chain -> step_tables legacy q tables tables' -> idle legacy a ->
  runs (resolveProjectionBatch (envelope (R_Event q)) (R_EventDigest q)) a s
    (fun batch a' s' => a' = a /\ s' = s /\ projected cid legacy q batch tables tables').
Proof.
  intros Hsuf Hstep (Hcid & Hlive & Hrep).
  pose proof (EventStoreLaws.envelope_same (R_Event q)) as He. destruct (same_envelope_facts _ _ He) as (F1 & F2 & _).
  unfold resolveProjectionBatch. rewrite F2. unfold step_tables in Hstep.
  destruct (decide (Kind (R_Event q) = EventProjectionBatchRecorded)) as [Hk|Hk].
  2: { rewrite (bool_decide_eq_false_2 _ Hk). by apply runs_ret. }
  rewrite (bool_decide_eq_true_2 _ Hk). cbn [negb]. destruct Hstep as (b & (payload & Hres & Hdec & Hb1 & Hb2 & Hb3) & Hp).
  assert (q ∈ chain) as Hq by (eapply elem_suffix; [exact Hsuf|left]).
  assert (ComputerID (R_Event q) = cid) as Hqc by (apply elem_filter in Hq as [_ Hq]; by apply bool_decide_eq_true_1 in Hq).
  assert (EventID (envelope (R_Event q)) = EventID (R_Event q) /\ batch_refs (envelope (R_Event q)) = batch_refs (R_Event q) /\
          PayloadCommitment (envelope (R_Event q)) = PayloadCommitment (R_Event q)) as (F5 & F6 & F7) by by destruct (R_Event q).
  apply runs_bind. unfold batch_plaintext. apply runs_bind, runs_get. rewrite F7, Hlive, lookup_empty, F1, F5, F6, Hqc.
  apply runs_bind, (runs_conseq _ _ _ (fun resolved a' s' => resolved = [payload] /\ a' = a /\ s' = s)).
  { intros n Hn. exists a, s, (S (S n)), [payload]. specialize (Hres (S n) (calm_later _ _ Hn (Nat.le_succ_diag_r n))).
    unfold call. cbn [dep_resolve wired fst snd]. unfold remote. cbn [w_tick w_platform w_store].
    destruct (proj2 Hn n (le_n n)) as [-> _]. rewrite (proj1 Hn n (le_n n)). cbn [act_others foldl].
    unfold resolve_step in *. cbn [fst snd] in *. rewrite Hres. split_and!; [lia|done..]. }
  intros resolved a' s' (-> & -> & ->). apply runs_ret. apply runs_bind. eapply runs_lift; [exact Hdec|].
  rewrite Hb1, Hb2, !(bool_decide_eq_true_2 (_ = _)) by done. cbn [negb orb].
  assert ((BatchEventDigest b != "") && (BatchEventDigest b != R_EventDigest q) = false) as ->.
  { destruct Hb3 as [->| ->]; [by rewrite (bool_decide_eq_true_2 (_ = _))|].
    rewrite (bool_decide_eq_true_2 (R_EventDigest q = R_EventDigest q)) by done. apply andb_false_r. }
  apply runs_ret. cbn [projected]. assert (isSHA256 (R_EventDigest q) = true) as Hsha.
  { pose proof (EventPlatformLaws.po_linked _ _ _ platform_good) as Hl. apply (linked_suffix texts _ _ Hl) in Hsuf as Hl1.
    apply linked_cons_inv in Hl1 as (_ & _ & Hd & _). unfold Digest in Hd. destruct (ComputerEvent.CanonicalBytes _); [|done].
    apply Ok_inj in Hd. rewrite <-Hd. apply sha256_hex_shape. }
  split_and!; [done..| | |done|exact Hp].
  - apply with_digest_valid; [done|]. unfold DecodeProjectionBatch in Hdec.
    destruct (clean <$> parse _); [|done]. destruct (dec_batch _ _) as [b'|]; [|done].
    destruct (Batch_Validate b') as [[]|] eqn:Hv; [|done]. apply Ok_inj in Hdec. by subst b'.
  - exact Hb1.
Qed.

(** *** Entries *)

Lemma idle_progress legacy a seq committed : idle legacy a -> idle legacy (setReplayProgress a seq committed).
Proof. by intros (K1 & K2 & K3). Qed.

Lemma entry_of_chain q c : (q :: c) `suffix_of` chain ->
  linked texts (q :: c) /\ NoDup (EventPlatformLaws.key_of <$> q :: c) /\ ComputerID (R_Event q) = cid.
Proof.
  intros Hsuf. split; [by apply (linked_suffix texts _ _ (EventPlatformLaws.po_linked _ _ _ platform_good))|]. split.
  - pose proof (EventPlatformLaws.po_keys _ _ _ platform_good) as Hnd. destruct Hsuf as [l Hl]. rewrite Hl, fmap_app in Hnd.
    by apply NoDup_app in Hnd as (_ & _ & ?).
  - assert (q ∈ chain) as Hq by (eapply elem_suffix; [exact Hsuf|left]).
    apply elem_filter in Hq as [_ Hq]. by apply bool_decide_eq_true_1 in Hq.
Qed.

(** One record is replayed. *)
Lemma runs_apply legacy q c tables tables' cur record a s :
  (q :: c) `suffix_of` chain -> replays record q -> step_tables legacy q tables tables' -> idle legacy a ->
  rebuilt c tables s -> c_current cur = chain_head c ->
  runs (apply_record cur record) a s (fun cur' a' s' =>
    c_current cur' = Some (R_Next q) /\ c_after cur' = c_after cur /\ idle legacy a' /\ rebuilt (q :: c) tables' s').
Proof.
  intros Hsuf Hrec Hstep Hidle Hs Hcur. destruct (entry_of_chain _ _ Hsuf) as (Hl & Hnd & Hqc).
  destruct (linked_cons_inv texts _ _ Hl) as (_ & Hred & _). unfold apply_record. apply runs_bind. rewrite Hcur.
  eapply runs_lift; [by apply (rp_reduces _ _ Hrec)|]. rewrite (rp_next _ _ Hrec), bool_decide_eq_true_2 by done. cbn [negb].
  apply runs_bind. eapply runs_lift; [apply (rp_verifies _ _ Hrec)|]. apply runs_bind. cbn [proj_Prepare wired].
  apply runs_store. eapply returns_conseq; [by apply (returns_Prepare texts cid texts_distinct c q record tables)|].
  intros [] s1 Hs1. apply runs_bind. unfold finalizeProjection. rewrite (rp_event _ _ Hrec), (rp_digest _ _ Hrec).
  apply runs_bind. eapply runs_conseq; [by apply (runs_resolve legacy q c tables tables')|]. intros batch a1 s2 (-> & -> & Hp).
  apply runs_bind, runs_get. destruct Hidle as (K1 & K2 & K3). rewrite K1, K3.
  assert (forall b, b = legacy ->
    runs (call "finalize" (on_store (EventStore.finalizeBatch cid (R_EventDigest q) (D_Receipt record) batch b))) a s1
      (fun _ a' s' => a' = a /\ rebuilt (q :: c) tables' s')) as Hfin.
  { intros b ->. apply runs_store. eapply returns_conseq; [by apply (returns_finalizeBatch texts cid legacy c q record batch tables)|]. done. }
  assert (forall (x : unit) a' s', a' = a /\ rebuilt (q :: c) tables' s' ->
    runs (do! modify (fun a => setReplayProgress a (Sequence (envelope (R_Event q))) (A_replayCommittedSeq a)) ;;
          ret (Build_cursor (Some (R_Next q)) (c_after cur) (c_sinceCommit cur) (c_lastCheckpoint cur))) a' s' (fun cur' a' s' =>
      c_current cur' = Some (R_Next q) /\ c_after cur' = c_after cur /\ idle legacy a' /\ rebuilt (q :: c) tables' s')) as Hend.
  { intros x a' s' [-> Hs']. apply runs_bind, runs_modify, runs_ret. split_and!; [done..|by apply idle_progress|done]. }
  destruct legacy; (eapply runs_conseq; [by apply Hfin|exact Hend]).
Qed.

Lemma runs_commitReplay legacy c tables a s : idle legacy a -> rebuilt c tables s ->
  runs commitReplay a s (fun _ a' s' => idle legacy a' /\ rebuilt c tables s').
Proof.
  intros Ha Hs. pose proof Ha as (K1 & K2 & K3). unfold commitReplay. apply runs_bind, runs_get. rewrite K3.
  destruct legacy; [|by apply runs_ret]. cbn [proj_CommitReplay wired]. apply runs_bind, runs_store.
  eapply returns_conseq; [by apply returns_commit|]. intros [] s1 Hs1. by apply runs_modify.
Qed.

Lemma runs_checkpoint legacy c tables cur seq a s : idle legacy a -> rebuilt c tables s ->
  runs (checkpoint cur seq) a s (fun cur' a' s' =>
    c_current cur' = c_current cur /\ c_after cur' = c_after cur /\ idle legacy a' /\ rebuilt c tables s').
Proof.
  intros Ha Hs. unfold checkpoint. apply runs_bind, runs_get. destruct (negb _).
  - apply runs_bind, runs_modify, runs_ret. by split_and!; [..|apply idle_progress|].
  - apply runs_bind, runs_now. intros t. destruct (_ || _).
    + apply runs_bind. eapply runs_conseq; [by apply (runs_commitReplay legacy c tables)|]. intros [] a1 s1 [Ha1 Hs1].
      apply runs_bind, runs_now. intros t'. apply runs_bind, runs_modify, runs_ret. by split_and!; [..|apply idle_progress|].
    + apply runs_bind, runs_modify, runs_ret. by split_and!; [..|apply idle_progress|].
Qed.

(** The cursor after the entries of [c]. *)
Definition follows (c : list CASRequest) (cur : cursor) : Prop :=
  c_current cur = chain_head c /\ c_after cur = Z.of_nat (length c).

Lemma runs_records legacy records : forall qs c tables tables' cur a s,
  (reverse qs ++ c) `suffix_of` chain -> Forall2 replays records qs -> fold_tables legacy qs tables tables' ->
  idle legacy a -> rebuilt c tables s -> follows c cur ->
  runs (replay_records true "" cur records) a s (fun o a' s' => exists cur', o = Continue cur' /\
    follows (reverse qs ++ c) cur' /\ idle legacy a' /\ rebuilt (reverse qs ++ c) tables' s').
Proof.
  induction records as [|record records IH]; intros qs c tables tables' cur a s Hsuf Hrec Hfold Ha Hs Hcur; inversion Hrec as [|? q ? qs1 Hq Hqs]; subst.
  - cbn in Hfold. subst tables'. apply runs_ret. by exists cur.
  - rename qs1 into qs. destruct Hfold as (tables1 & Hstep & Hfold).
    rewrite reverse_cons, <-(assoc_L (++)) in Hsuf |- *. cbn [app] in *. cbn [replay_records]. apply runs_bind.
    assert ((q :: c) `suffix_of` chain) as Hsuf1 by (etrans; [by apply suffix_app_r|exact Hsuf]).
    destruct (entry_of_chain _ _ Hsuf1) as (Hl & _). destruct (linked_cons_inv texts _ _ Hl) as (Hc & _).
    assert (Sequence (R_Event q) = Z.of_nat (length (q :: c))) as Hseq.
    { rewrite (linked_sequence texts (q :: c) 0 q Hl eq_refl). lia. }
    unfold replay_record. apply runs_bind. destruct Hcur as [Hcur Hafter].
    eapply runs_conseq; [by apply (runs_apply legacy q c tables tables1)|]. intros cur1 a1 s1 (E1 & E2 & Ha1 & Hs1). apply runs_bind.
    eapply runs_conseq; [by apply (runs_checkpoint legacy (q :: c) tables1)|]. cbn [c_current c_after].
    intros cur2 a2 s2 (E3 & E4 & Ha2 & Hs2). unfold reached. cbn [String.eqb negb andb]. rewrite (bool_decide_eq_true_2 ("" = "")) by done.
    cbn [negb andb]. apply runs_bind, runs_expired, runs_ret. eapply runs_conseq; [apply (IH qs (q :: c) tables1 tables'); try done|done].
    split; [by rewrite E3, E1|]. rewrite E4, (rp_event _ _ Hq).
    destruct (same_envelope_facts _ _ (EventStoreLaws.envelope_same (R_Event q))) as (_ & _ & F3 & _). by rewrite F3, Hseq.
Qed.

(** *** Pages *)

Lemma runs_page what after a s : 0 <= after ->
  runs (call what (Client_EventsPage cid after EventReplayPageSize)) a s (fun page a' s' => a' = a /\ s' = s /\
    Forall2 replays page (take (Z.to_nat EventReplayPageSize) (entries_after cid p after))).
Proof.
  intros Hafter n Hn. destruct (runs_platform what (EventsPage cid after EventReplayPageSize) a s
    (fun page a' s' => a' = a /\ s' = s /\ Forall2 replays page (take (Z.to_nat EventReplayPageSize) (entries_after cid p after))))
    with (n := n) as (a' & s' & n' & page & Hn' & E & -> & -> & Hpage); [|done|].
  { eapply returns_conseq; [by apply (returns_EventsPage texts cid texts_distinct)|]. by intros page p' [-> Hpage]. }
  exists a, s, n', page. split; [done|]. split; [|done]. revert E. unfold call, Client_EventsPage.
  change ((EventReplayPageSize <=? 0) || (EventReplayMaxPageSize <? EventReplayPageSize)) with false. cbn [fst snd].
  destruct (on_platform _ _) as [w [page'|e]]; intros E; [|done]. injection E as -> ->.
  assert (Z.of_nat (length page) <= EventReplayPageSize) as Hlen.
  { rewrite (Forall2_length _ _ _ Hpage), length_take. unfold EventReplayPageSize. lia. }
  by replace (EventReplayPageSize <? Z.of_nat (length page)) with false by (symmetry; apply Z.ltb_ge; lia).
Qed.

Lemma runs_pages legacy fuel : forall qs c tables tables' cur a s,
  reverse qs ++ c = chain -> fold_tables legacy qs tables tables' -> idle legacy a -> rebuilt c tables s -> follows c cur ->
  Z.of_nat (length qs) < EventReplayPageSize * Z.of_nat fuel ->
  runs (replay_pages fuel Client_EventsPage "" cur) a s (fun o a' s' => exists cur', o = Continue cur' /\
    idle legacy a' /\ rebuilt chain tables' s').
Proof.
  induction fuel as [|fuel IH]; intros qs c tables tables' cur a s Hc Hfold Ha Hs Hcur Hfuel; [unfold EventReplayPageSize in Hfuel; lia|].
  assert (entries_after cid p (Z.of_nat (length c)) = qs) as Hrest.
  { unfold entries_after. rewrite Nat2Z.id, <-Hc, length_app, Nat.add_sub, take_app_length. apply reverse_involutive. }
  cbn [replay_pages]. apply runs_bind, runs_get. destruct Hcur as [Hcur Hafter]. pose proof Ha as (K1 & _). rewrite K1, Hafter.
  apply runs_bind. eapply runs_conseq; [apply runs_page; lia|]. intros page a1 s1 (-> & -> & Hpage). rewrite Hrest in Hpage.
  set (k := Z.to_nat EventReplayPageSize) in *. pose proof (Forall2_length _ _ _ Hpage) as Hlen. rewrite length_take in Hlen.
  destruct page as [|r0 page0].
  - apply Forall2_nil_inv_l in Hpage. destruct qs as [|q qs]; [|done]. cbn in Hc, Hfold. subst c tables'.
    apply runs_ret. by exists cur.
  - set (page := r0 :: page0) in *. rewrite <-(take_drop k qs) in Hfold.
    apply fold_tables_app in Hfold as (tables1 & Hfold1 & Hfold2).
    assert (reverse (drop k qs) ++ reverse (take k qs) ++ c = chain) as Hc'
      by (rewrite (assoc_L (++)), <-reverse_app, take_drop; exact Hc).
    apply runs_bind. eapply runs_conseq.
    { apply (runs_records legacy page (take k qs) c tables tables1); try done. by exists (reverse (drop k qs)). }
    intros o a2 s2 (cur' & -> & Hcur' & Ha2 & Hs2).
    assert (length (reverse (take k qs) ++ c) <= length chain)%nat as Hle by (rewrite <-Hc', (length_app (reverse (drop k qs))); lia).
    destruct (Z.ltb_spec (Z.of_nat (length page)) EventReplayPageSize) as [Hlt|Hge].
    + cbn [orb]. apply runs_ret. exists cur'. split; [done|]. split; [done|].
      assert (length qs <= k)%nat as Hk by (unfold k in *; lia). rewrite drop_ge in Hc', Hfold2 by done. cbn in Hc', Hfold2.
      subst tables'. by rewrite <-Hc'.
    + destruct Hcur' as [Hcur' Hafter']. rewrite Hafter'.
      replace (Z.of_nat _ =? 2 ^ 64 - 1) with false by (symmetry; apply Z.eqb_neq; lia). cbn [orb].
      apply (IH (drop k qs) (reverse (take k qs) ++ c) tables1 tables'); try done.
      rewrite length_drop. unfold k, EventReplayPageSize in *. lia.
Qed.

(** *** The reconstruction *)

Lemma runs_RecoverPrepared c tables a s : A_computerID a = cid -> rebuilt c tables s ->
  runs RecoverPrepared a s (fun _ a' s' => a' = a /\ s' = s).
Proof.
  intros Ha Hs. unfold RecoverPrepared. apply runs_bind, runs_get. rewrite Ha. apply runs_bind. cbn [proj_Prepared wired].
  apply (runs_store _ _ _ _ (fun rows a' s' => runs (recover_rows rows) a' s' (fun _ a' s' => a' = a /\ s' = s))).
  unfold EventStore.Prepared. apply returns_bind, returns_query. rewrite filter_nothing.
  - by apply (returns_lift _ _ []), runs_ret.
  - intros r [i Hi]%list_elem_of_lookup. destruct (Forall2_lookup_r _ _ _ _ _ (rb_rows _ _ _ _ Hs) Hi) as (q & _ & _ & _ & _ & _ & Hr).
    unfold EventStore.has_status. by rewrite Hr, andb_false_r.
Qed.

Lemma runs_settle legacy tables a s : idle legacy a -> rebuilt chain tables s ->
  runs settle_replay a s (fun _ a' s' => idle legacy a' /\ rebuilt chain tables s').
Proof.
  intros Ha Hs. pose proof Ha as (K1 & _). unfold settle_replay. apply runs_bind, runs_get. rewrite K1. apply runs_bind.
  cbn [cas_Head proj_Head wired]. apply runs_platform, returns_query. split; [done|].
  apply runs_bind, runs_store, returns_query. rewrite (rb_head _ _ _ _ Hs), (EventPlatformLaws.po_head _ _ _ platform_good).
  unfold sameHead. rewrite bool_decide_eq_true_2 by done. by apply runs_commitReplay.
Qed.

Lemma runs_reconstruct_body legacy fuel pages qs c tables tables' a s :
  reverse qs ++ c = chain -> fold_tables legacy qs tables tables' -> idle legacy a -> rebuilt c tables s ->
  Z.of_nat (length qs) < EventReplayPageSize * Z.of_nat fuel ->
  runs (reconstruct_body fuel (client_source pages) "") a s (fun _ a' s' => idle legacy a' /\ rebuilt chain tables' s').
Proof.
  intros Hc Hfold Ha Hs Hfuel. pose proof Ha as (K1 & _). unfold reconstruct_body. apply runs_bind.
  eapply runs_conseq; [by apply (runs_RecoverPrepared c tables)|]. intros [] a1 s1 [-> ->]. apply runs_bind, runs_get. rewrite K1.
  apply runs_bind. cbn [proj_Head wired]. apply runs_store, returns_query. rewrite (rb_head _ _ _ _ Hs).
  rewrite (bool_decide_eq_true_2 ("" = "")) by done. cbn [negb andb client_source src_EventsPage replay_source].
  apply runs_bind. eapply runs_conseq; [apply (runs_pages legacy fuel qs c tables tables'); try done|].
  - split; [done|]. cbn [c_after]. assert (c `suffix_of` chain) as Hsuf by (by exists (reverse qs)).
    destruct (linked_head texts c) as [_ Hh]; [by apply (linked_suffix texts chain); [apply (EventPlatformLaws.po_linked _ _ _ platform_good)|]|].
    destruct (chain_head c); cbn [head_seq] in Hh; lia.
  - intros o a2 s2 (cur & -> & Ha2 & Hs2). by apply (runs_settle legacy).
Qed.

(** [C2] A lagging store catches up, and a lost one is rebuilt: when nothing fails
    and nobody else appends, a reconstruction of a store that holds the first
    entries [c] of the chain (none, when the store is new) and no prepared row
    returns without an error, whatever the replay mode. The platform is left as it
    is, the store has its head and one finalized row for every entry, and its
    tables are what the batches of the missing entries [qs] make of the tables it
    had, applied in the order of the chain. *)
Theorem lost_store_rebuilds legacy fuel pages qs c tables tables' a s
    (Hchain : reverse qs ++ c = chain) (Hfold : fold_tables legacy qs tables tables') (Hidle : idle legacy a)
    (Hstore : rebuilt c tables s) (Hfuel : Z.of_nat (length qs) < EventReplayPageSize * Z.of_nat fuel) :
  runs (Reconstruct fuel (client_source pages)) a s (fun _ a' s' =>
    idle legacy a' /\ EventStore.st_heads s' !! cid = pl_heads p !! cid /\ rebuilt chain tables' s').
Proof.
  apply (runs_conseq _ _ _ (fun _ a' s' => idle legacy a' /\ rebuilt chain tables' s')).
  2: { intros [] a' s' [Ha' Hs']. split; [done|]. by rewrite (rb_head _ _ _ _ Hs'), (EventPlatformLaws.po_head _ _ _ platform_good). }
  unfold Reconstruct, reconstruct. apply runs_bind, runs_get. pose proof Hidle as (_ & _ & ->). destruct legacy.
  - apply runs_bind, runs_modify, runs_bind.
    eapply runs_conseq; [apply runs_attempt, (runs_reconstruct_body true fuel pages qs c tables tables'); done|].
    intros r a1 s1 ([] & -> & Ha1 & Hs1). by apply runs_bind, runs_modify, runs_ret.
  - by apply (runs_reconstruct_body false fuel pages qs c tables tables').
Qed.
End Replaying.
End EventRebuild.
