(* ===== verification/EventDemo.v ===== *)
(** * EventDemo: a small world to evaluate the theorems on

    One computer with its platform and its store: a genesis event is appended, the
    store is lost, and a reconstruction replays the chain into a new one. The
    instances are concrete functions, so every run here is a computation. *)
From S2P Require Import Prelude GoStrings Sha256 GoUuid GoTime GoSql GoJson CanonicalJson JsonRoundTrip ComputerEvent EventReceipt ProjectionBatch EventAppender EventStore EventPlatform EventContract EventSync EventStoreLaws EventPlatformLaws EventReplay EventWorld EventRebuild.
Import ComputerEvent EventReceipt ProjectionBatch EventAppender EventPlatform EventContract EventSync EventReplay EventWorld EventRebuild.

Module EventDemo.
Local Open Scope Z_scope.
#[local] Existing Instances ByDigit.uuid_by_digit checksum ByChecksum.signing_by_checksum.

#[local] Instance no_envelopes : PrivateEnvelopes := fun _ => None.
#[local] Instance drawn : Drawn := {|
  clock _ := of_civil (Build_civil 2026 6 28 12 3 1 0);
  drawn_uuid _ := "00000000-0000-7000-8000-000000000000" |}.
Definition platform_key : SigningKey := Build_SigningKey (Build_SignerRef "platform-control" "k1") (Checksum.sum "secret").
#[local] Instance signer : Signer := {|
  signing_key := platform_key; key_history := fun _ _ _ _ _ => Some (ed_Public (SK_PrivateKey platform_key)) |}.
(** Every third step loses an answer after the first thousand. *)
#[local] Instance fates : Faults := fun n =>
  if Nat.ltb n 1000 then Sound else if Nat.eqb (Nat.modulo n 3) 0 then AnswerLost else Sound.
#[local] Instance no_tables : EventStore.Projector unit unit := {|
  EventStore.projectBatch := fun _ _ => Ok tt; EventStore.projectBatchForReplay := fun _ _ => Ok tt |}.
#[local] Instance alone : Surroundings := {|
  others _ := []; expired_at _ := false; encrypt _ _ _ _ _ := None; decrypt _ _ _ := None |}.

Abbreviation World := (World unit).
Abbreviation error := (world_error unit).

Definition empty_store : EventStore.Store unit := EventStore.Build_Store unit [] ∅ tt false 0 0.
Definition empty_platform : Platform := Build_Platform ∅ [] [] ∅ [].
Definition no_appender : Appender := Build_Appender "" ∅ false false 0 0 0 0.
Definition appender : Appender := default no_appender (NewComputerEventAppender "computer-1").
Definition start : World := Build_World empty_platform empty_store 0.

Definition new_event : Event := Demo.event EventGenesisImported "" (Demo.target 1).
Definition input : TransitionInput := Demo.input 1.

(** The event the append builds, bound to an empty chain. *)
Definition build := AppendNew_build (W := World) (E := error) new_event input [].
Definition no_event : Event := new_event.
Definition genesis : Event :=
  match (build (appender, start)).2 with Ok (event, _, _) => event | Err _ => no_event end.
Definition pin_intent : string := ok_or "" (ComputePinIntentCommitment genesis input).

Definition known_texts : list string := [event_text genesis; commit_text genesis input pin_intent []].
Definition texts (s : string) : Prop := s ∈ known_texts.

Definition appended := AppendNew (W := World) (E := error) new_event input [] (appender, start).
(** The platform as it is then, with a store that has lost everything. *)
Definition restored : World := Build_World (w_platform appended.1.2) empty_store (w_tick appended.1.2).
Definition source := client_source (P := unit) (X := unit) 2.
Definition rebuilt := Reconstruct 2 source (appender, restored).
Definition genesis_digest : string := ok_or "" (Digest genesis).
Definition rebuilt_through := ReconstructThrough 2 source genesis_digest (appender, restored).

(** The length of the chain after a run. *)
Definition entries {A} (run : (Appender * World) * res (append_error error) A) : nat :=
  length (EventPlatformLaws.chain_of "computer-1" (w_platform run.1.2)).

(** What the runs return, evaluated once. *)
Definition outcomes : bool * nat * bool * nat * bool :=
  (is_ok appended.2, entries appended, is_ok rebuilt.2, entries rebuilt, is_ok rebuilt_through.2).

Lemma outcomes_ok : outcomes = (true, 1%nat, true, 1%nat, true).
Proof. vm_compute. reflexivity. Qed.

(** ** The hypotheses of the theorems *)

Lemma split5 {A B C D E} (a a' : A) (b b' : B) (c c' : C) (d d' : D) (e e' : E) :
  (a, b, c, d, e) = (a', b', c', d', e') -> a = a' /\ b = b' /\ c = c' /\ d = d' /\ e = e'.
Proof. by intros [= -> -> -> -> ->]. Qed.

Lemma outcome_facts :
  is_ok appended.2 = true /\ entries appended = 1%nat /\ is_ok rebuilt.2 = true /\ entries rebuilt = 1%nat /\
  is_ok rebuilt_through.2 = true.
Proof. exact (split5 _ _ _ _ _ _ _ _ _ _ outcomes_ok). Qed.

Lemma texts_distinct : sha256_distinct texts.
Proof.
  assert (bool_decide (sha256_hex (event_text genesis) = sha256_hex (commit_text genesis input pin_intent [])) = false) as Hne.
  { vm_compute. reflexivity. }
  apply bool_decide_eq_false_1 in Hne. intros x y Hx Hy He. unfold texts, known_texts in *.
  apply elem_of_cons in Hx as [->|[->|[]%elem_of_nil]%elem_of_cons]; apply elem_of_cons in Hy as [->|[->|[]%elem_of_nil]%elem_of_cons];
    congruence.
Qed.

Lemma drawn_valid (n : nat) : ValidString (drawn_uuid n) = true.
Proof. vm_compute. reflexivity. Qed.

Lemma signer_valid :
  ValidString (SR_SignerDomain (SK_Ref signing_key)) = true /\ ValidString (SR_KeyID (SK_Ref signing_key)) = true.
Proof. split; vm_compute; reflexivity. Qed.

Lemma others_known (n : nat) q : q ∈ others n -> known_event texts (R_Event q) /\ committed texts q.
Proof. intros []%elem_of_nil. Qed.

Abbreviation view := (view_of (P := unit) (X := unit) "computer-1").
Abbreviation good := (Good texts view (world_ok (P := unit) (X := unit) texts "computer-1")).

#[local] Instance laws : Laws texts "computer-1" view (world_ok (P := unit) (X := unit) texts "computer-1").
Proof. exact (world_laws texts "computer-1" texts_distinct drawn_valid signer_valid others_known). Defined.
#[local] Instance replay_laws : SourceLaws texts "computer-1" view (world_ok (P := unit) (X := unit) texts "computer-1") source.
Proof. exact (source_laws texts "computer-1" texts_distinct drawn_valid signer_valid others_known 2). Defined.

Lemma start_good : good start.
Proof. by apply Good_fresh; [apply platform_ok_fresh|..]. Qed.

Lemma genesis_known : known_args (texts := texts) genesis input [].
Proof.
  split; [split; [vm_compute; reflexivity|by left]|]. intros pin Hp.
  assert (pin = pin_intent) as -> by (unfold pin_intent; by rewrite Hp).
  split; [vm_compute; reflexivity|by right; left].
Qed.

Lemma build_known : builds_known (texts := texts) build input (appender, start).
Proof.
  intros s' event pins f Hb. assert (event = genesis) as ->.
  { unfold genesis. by rewrite Hb. }
  assert (match (build (appender, start)).2 with Ok (_, pins, _) => pins == [] | Err _ => false end = true) as Hp.
  { vm_compute. reflexivity. }
  rewrite Hb in Hp. cbn [snd] in Hp. apply bool_decide_eq_true_1 in Hp as ->. exact genesis_known.
Qed.

(** The result of a run that is known to succeed. *)
Lemma ran {S F A} (d : A) (x : S * res F A) : is_ok x.2 = true -> x = (x.1, Ok (ok_or d x.2)).
Proof. by destruct x as [s [v|e]]. Qed.

Lemma appended_ran : appended = ((appended.1.1, appended.1.2), Ok (ok_or zero_receipt appended.2)).
Proof. destruct outcome_facts as [Ho _]. rewrite (ran zero_receipt appended Ho) at 1. by destruct appended as [[a w] r]. Qed.

Lemma appended_kept : kept (texts := texts) (cid := "computer-1") (view := view) (ok := world_ok (P := unit) (X := unit) texts "computer-1") start appended.1.
Proof.
  apply kept_discarded.
  exact (perform_kept (source := source) texts_distinct (OpAppendNew new_event input []) appender start eq_refl start_good build_known).
Qed.

Lemma restored_good : good restored.
Proof. apply Good_fresh; [apply appended_kept|done|done]. Qed.

Lemma lost_store p n :
  head_seq (local (view (Build_World p empty_store n))) = 0 /\
  chain (view (Build_World p empty_store n)) = EventPlatformLaws.chain_of "computer-1" p.
Proof. done. Qed.

Lemma restored_lags : head_seq (local (view restored)) < Z.of_nat (length (chain (view restored))).
Proof.
  destruct (lost_store (w_platform appended.1.2) (w_tick appended.1.2)) as [Hl Hc]. unfold restored.
  rewrite Hl, Hc. pose proof (proj1 (proj2 outcome_facts)) as He. unfold entries in He. rewrite He. reflexivity.
Qed.

(** ** The witnesses *)

(** A run of several operations, one of which answers with an error. *)
Definition day : list operation :=
  [OpAppendNew new_event input []; OpRecover; OpReplayMode true; OpReconstruct 2; OpPolicy 8 0].

Lemma appender_keeps_invariant_witness :
  exists ops a w, ops <> [] /\ linked texts (chain (view (performs (source := source) ops (a, w)).2)).
Proof.
  exists day, appender, start. split; [discriminate|].
  destruct (appender_keeps_invariant (source := source) texts_distinct day appender start eq_refl start_good
    (conj build_known (conj I (conj I (conj I (conj I I)))))) as (_ & Hl & _).
  exact Hl.
Defined.

Lemma append_new_is_canonical_witness :
  exists q receipt, appended.2 = Ok receipt /\ attested (chain (view appended.1.2)) q.
Proof.
  destruct (append_new_is_canonical texts_distinct new_event input [] appender start _ _ _ eq_refl start_good build_known appended_ran)
    as (q & _ & _ & _ & _ & _ & _ & _ & Ha).
  exists q, (ok_or zero_receipt appended.2). split; [exact (f_equal snd appended_ran)|exact Ha].
Defined.

Lemma lagging_append_refused_witness :
  exists w, good w /\ is_ok (Append (W := World) (E := error) genesis input [] (appender, w)).2 = false.
Proof.
  exists restored. split; [exact restored_good|].
  exact (lagging_append_refused genesis input [] appender restored eq_refl restored_good restored_lags).
Defined.

Lemma rebuilt_ran : rebuilt = ((rebuilt.1.1, rebuilt.1.2), Ok tt).
Proof.
  destruct outcome_facts as (_ & _ & Ho & _). etransitivity; [apply (ran tt rebuilt Ho)|].
  by destruct rebuilt as [[a w] [[]|e]].
Qed.

Lemma reconstruct_catches_up_witness :
  exists c, chain (view restored) `suffix_of` c /\ local (view rebuilt.1.2) = chain_head c.
Proof.
  destruct (reconstruct_catches_up (source := source) texts_distinct 2 appender restored _ _ eq_refl restored_good rebuilt_ran)
    as (c & Hc & _ & Hl).
  exists c. split; [exact Hc|exact Hl].
Defined.

Lemma rebuilt_through_ran : rebuilt_through = ((rebuilt_through.1.1, rebuilt_through.1.2), Ok tt).
Proof.
  destruct outcome_facts as (_ & _ & _ & _ & Ho). etransitivity; [apply (ran tt rebuilt_through Ho)|].
  by destruct rebuilt_through as [[a w] [[]|e]].
Qed.

Lemma rebuilt_through_eq : ReconstructThrough 2 source genesis_digest (appender, restored) = rebuilt_through.
Proof. unfold rebuilt_through. reflexivity. Qed.

Lemma reconstruct_through_stops_at_target_witness :
  head_digest (local (view rebuilt_through.1.2)) = TrimSpace genesis_digest.
Proof.
  exact (proj1 (reconstruct_through_stops_at_target (source := source) texts_distinct 2 genesis_digest appender restored
    rebuilt_through.1.1 rebuilt_through.1.2 eq_refl restored_good
    (eq_trans rebuilt_through_eq rebuilt_through_ran))).
Defined.

Lemma rebuilt_eq : reconstruct 2 source "" (appender, restored) = rebuilt.
Proof. unfold rebuilt. reflexivity. Qed.

Lemma rebuilt_entries : Z.of_nat (length (chain (view rebuilt.1.2))) < EventReplayPageSize * Z.of_nat 2.
Proof.
  destruct outcome_facts as (_ & _ & _ & He & _). change (Z.of_nat (entries rebuilt) < EventReplayPageSize * Z.of_nat 2).
  rewrite He. reflexivity.
Qed.

Lemma reconstruct_pages_suffice_witness :
  exists w r, good w /\ rebuilt.2 = r /\ r <> Err ErrFuel.
Proof.
  exists restored, rebuilt.2. split; [exact restored_good|]. split; [reflexivity|].
  exact (reconstruct_pages_suffice (source := source) texts_distinct 2 "" appender restored rebuilt.1 rebuilt.2 eq_refl restored_good
    (eq_trans rebuilt_eq (surjective_pairing rebuilt)) rebuilt_entries).
Defined.

Lemma world_refines_contract_witness :
  Laws texts "computer-1" view (world_ok (P := unit) (X := unit) texts "computer-1") /\
  SourceLaws texts "computer-1" view (world_ok (P := unit) (X := unit) texts "computer-1") source.
Proof. exact (world_refines_contract texts "computer-1" texts_distinct drawn_valid signer_valid others_known 2). Defined.

(** ** Without faults *)

#[local] Instance no_faults : Faults := fun _ => Sound.

Definition served : Platform := w_platform appended.1.2.

Lemma served_ok : EventPlatformLaws.platform_ok texts "computer-1" served.
Proof. apply appended_kept. Qed.

Lemma served_entry : exists q0, EventPlatformLaws.chain_of "computer-1" served = [q0].
Proof.
  pose proof (proj1 (proj2 outcome_facts)) as He. unfold entries in He. fold served in He.
  destruct (EventPlatformLaws.chain_of "computer-1" served) as [|q0 [|q1 c]]; [discriminate|by exists q0|discriminate].
Qed.

Lemma served_small : Z.of_nat (length (EventPlatformLaws.chain_of "computer-1" served)) < 2 ^ 63.
Proof. by destruct served_entry as [q0 ->]. Qed.

Lemma drawn_v7 (n : nat) : uuid_version (drawn_uuid n) = Some 7.
Proof. vm_compute. reflexivity. Qed.

Lemma clock_utc (n : nat) : canonical_utc (format_rfc3339nano (clock n)) = true.
Proof. vm_compute. reflexivity. Qed.

Lemma key_resolves : resolves key_history [signing_key].
Proof. intros k c n t ->%list_elem_of_singleton. reflexivity. Qed.

Lemma page_replays_witness :
  exists record q0, EventPlatformLaws.chain_of "computer-1" served = [q0] /\ replays record q0 /\
    (EventsPage "computer-1" 0 10 (served, 0%nat)).2 = Ok [record].
Proof.
  destruct served_entry as [q0 Hq0].
  assert (0 < 10 <= EventReplayMaxPageSize) as Hsize by (unfold EventReplayMaxPageSize; lia).
  destruct (page_replays texts "computer-1" texts_distinct drawn_v7 clock_utc key_resolves served 0 10 served_ok
    ltac:(discriminate) (Z.le_refl 0) Hsize served_small 0%nat (fun _ _ => eq_refl)) as (p' & n' & records & _ & E & _ & Hr).
  unfold entries_after in Hr. rewrite Hq0 in Hr. apply list.Forall2_cons_inv_r in Hr as (record & l & Hr & Hl & ->).
  apply Forall2_nil_inv_r in Hl as ->. exists record, q0. rewrite E. split; [exact Hq0|]. split; [exact Hr|reflexivity].
Defined.

Lemma retried_append_changes_nothing_witness :
  exists q0, q0 ∈ EventPlatformLaws.chain_of "computer-1" served /\ (CompareAndSwap q0 (served, 0%nat)).1.1 = served.
Proof.
  destruct served_entry as [q0 Hq0]. assert (q0 ∈ EventPlatformLaws.chain_of "computer-1" served) as Hin by (rewrite Hq0; by left).
  exists q0. split; [exact Hin|]. pose proof Hin as [_ Hc]%elem_filter. apply bool_decide_eq_true_1 in Hc.
  destruct (CompareAndSwap q0 (served, 0%nat)) as [[p' n'] r] eqn:E. cbn [fst].
  exact (proj1 (EventPlatformLaws.retried_append_changes_nothing texts "computer-1" q0 q0 served 0 p' n' r served_ok Hin Hc eq_refl E)).
Defined.

Lemma genesis_kind q : linked texts [q] -> Kind (R_Event q) = EventGenesisImported.
Proof.
  intros (_ & Hr & _)%linked_cons_inv. apply Reduce_None_inv in Hr as (d & _ & _ & Hr). unfold reduceGenesis in Hr.
  go_inv Hr. by to_prop.
Qed.

Lemma lost_store_rebuilds_witness :
  exists q0 a' s' n', EventPlatformLaws.chain_of "computer-1" served = [q0] /\
    Reconstruct 2 (client_source 2) (appender, Build_World served empty_store 0) = ((a', Build_World served s' n'), Ok tt) /\
    EventStore.st_heads s' !! "computer-1" = Some (R_Next q0).
Proof.
  destruct served_entry as [q0 Hq0]. exists q0.
  assert (fold_tables (P := unit) (X := unit) "computer-1" served false [q0] tt tt) as Hfold.
  { exists tt. split; [|done]. pose proof (EventPlatformLaws.po_linked _ _ _ served_ok) as Hl. rewrite Hq0 in Hl.
    unfold step_tables. by rewrite (genesis_kind q0 Hl). }
  assert (EventRebuild.rebuilt "computer-1" [] tt empty_store) as Hstore by (split; [reflexivity|constructor|reflexivity]).
  assert (reverse [q0] ++ [] = EventPlatformLaws.chain_of "computer-1" served) as Hchain by (rewrite Hq0; reflexivity).
  assert (idle "computer-1" false appender) as Hidle by (split; [|split]; reflexivity).
  assert (calm_from 0) as Hcalm by (split; [intros m _|intros m _; split]; reflexivity).
  destruct (lost_store_rebuilds (P := unit) (X := unit) texts "computer-1" served texts_distinct drawn_v7 clock_utc key_resolves
    served_ok ltac:(discriminate) served_small false 2 2 [q0] [] tt tt appender empty_store Hchain Hfold Hidle Hstore eq_refl 0%nat Hcalm)
    as (a' & s' & n' & [] & _ & E & _ & _ & Hs').
  exists a', s', n'. split; [exact Hq0|]. split; [exact E|].
  pose proof (EventRebuild.rb_head _ _ _ _ Hs') as Hh. rewrite Hq0 in Hh. exact Hh.
Defined.

(** A batch on a platform that holds its file can be replayed. *)
Definition batch : Batch := Build_Batch 1 1 "computer-1" (EventID new_event) ""
  [Build_ProjectionOp "object_recorded" "object-1" "" (Some (JObj [("id", JStr "object-1")]))].
Definition batch_body : string := marshal (batch_json batch).
Definition batch_event : Event := with_artifacts (Demo.event EventProjectionBatchRecorded "" "") [] [] (sha256_hex batch_body) "".
Definition batch_entry : CASRequest := {|
  R_Event := batch_event; R_EventDigest := ok_or "" (Digest batch_event); R_EventArtifactDigest := ok_or "" (Digest batch_event);
  R_EventPinReceiptDigest := ""; R_PayloadPinReceiptDigests := []; R_PinIntentCommitment := ""; R_Input := input;
  R_Next := Demo.head1 |}.
Definition holding : Platform := Build_Platform ∅ [] [] {[ ("computer-event-payload", sha256_hex batch_body) := batch_body ]} [].

Lemma batch_readable : readable_batch "computer-1" holding batch_entry batch.
Proof.
  apply (public_batch _ _ _ _ batch_body); try (vm_compute; done). by left.
Qed.
End EventDemo.
