(* ===== verification/RouteLedger.v ===== *)
(** * RouteLedger: which computer version a route serves

    Models [internal/routeledger/ledger.go] and the [ComputerVersion] of
    [internal/computerversion/types.go]: route slot identifiers, the validation
    of commands, receipts and authorization evidence, and the [MemoryLedger],
    whose four maps are the fields of [Ledger]. A method returns the ledger it
    leaves and its result. [uuid.NewString()] and [l.now()] are arguments of the
    method that calls them; a time is an instant in UTC. *)
From S2P Require Import Prelude GoStrings GoTime GoJson Sha256 GoUuid.
From Stdlib Require Import Ascii.

Module RouteLedger.
Local Open Scope Z_scope.

(** ** [computerversion.ComputerVersion] *)
Record ComputerVersion := { CodeRef : string; ArtifactProgramRef : string }.

#[export] Instance ComputerVersion_eq_dec : EqDecision ComputerVersion.
Proof. solve_decision. Defined.

Definition CodeRef_Valid (r : string) : bool := TrimSpace r != "".
Definition ArtifactProgramRef_Valid (r : string) : bool := TrimSpace r != "".
Definition Valid (v : ComputerVersion) : bool :=
  CodeRef_Valid (CodeRef v) && ArtifactProgramRef_Valid (ArtifactProgramRef v).

Definition SameVersion (a b : ComputerVersion) : bool :=
  (CodeRef a == CodeRef b) && (ArtifactProgramRef a == ArtifactProgramRef b).

(** ** Data *)
Inductive TransitionKind :=
  | TransitionBootstrap | TransitionPromote | TransitionRollback
  | TransitionBootstrapRollback | TransitionUnknown (s : string).

#[export] Instance TransitionKind_eq_dec : EqDecision TransitionKind.
Proof. solve_decision. Defined.

Inductive AuthorizationEvidenceKind :=
  | EvidenceApproval | EvidencePromotionCertificate | EvidenceUnknown (s : string).

#[export] Instance AuthorizationEvidenceKind_eq_dec : EqDecision AuthorizationEvidenceKind.
Proof. solve_decision. Defined.

Definition evidence_kind_string (k : AuthorizationEvidenceKind) : string :=
  match k with
  | EvidenceApproval => "approval"
  | EvidencePromotionCertificate => "promotion_certificate"
  | EvidenceUnknown s => s
  end.

Record AuthorizationEvidence := {
  EvidenceRef : string;
  EvidenceKind : AuthorizationEvidenceKind;
  EvidenceRouteSlotID : string;
  EvidenceVersion : ComputerVersion;
  Payload : string;
  PayloadSHA256 : string;
  CreatedAt : Time;
}.

Record Slot := {
  SlotID : string;
  Current : ComputerVersion;
  Generation : Z;
  LatestReceiptID : string;
}.

Record TransitionCommand := {
  CmdRouteSlotID : string;
  CmdKind : TransitionKind;
  CmdOld : ComputerVersion;
  CmdNew : ComputerVersion;
  CmdExpectedGeneration : Z;
  CmdApprovalRef : string;
  CmdPromotionCertificateRef : string;
  CmdRollbackTargetReceiptID : string;
  CmdIdempotencyKey : string;
}.

Record TransitionReceipt := {
  ReceiptID : string;
  RouteSlotID_ : string;
  Kind : TransitionKind;
  Old : ComputerVersion;
  New : ComputerVersion;
  ExpectedGeneration : Z;
  CommittedGeneration : Z;
  ApprovalRef : string;
  PromotionCertificateRef : string;
  RollbackTargetReceiptID : string;
  IdempotencyKey : string;
  CommittedAt : Time;
}.

Definition zero_version : ComputerVersion := Build_ComputerVersion "" "".
Definition zero_slot : Slot := Build_Slot "" zero_version 0 "".
Definition zero_receipt : TransitionReceipt :=
  Build_TransitionReceipt "" "" (TransitionUnknown "") zero_version zero_version 0 0 "" "" "" "" 0.

Inductive ledger_error :=
  | ErrContext | ErrSlotNotFound | ErrStaleTransition | ErrIdempotencyReuse
  | ErrIDsRequired | ErrInvalidIDs | ErrInvalidSlotID
  | ErrSlotIDRequired | ErrKeyRequired | ErrNewInvalid | ErrRefsRequired
  | ErrBootstrap | ErrPromote | ErrRollback | ErrBootstrapRollback | ErrUnsupportedKind
  | ErrPayloadIncomplete | ErrPayloadHash | ErrCreatedAt | ErrEvidenceKind | ErrMarshal
  | ErrRefHash | ErrRefCollision | ErrEvidenceNotFound | ErrEvidenceRequired
  | ErrEvidenceBinding | ErrRollbackTarget | ErrBootstrapRollbackTarget
  | ErrReceiptID | ErrReceiptIncomplete | ErrReceiptEvidence | ErrReceiptKind.

(** ** Route slot identifiers *)

Definition forbidden : string := of_chars [":"%char; byte_of 0; byte_of 13; byte_of 10].

Definition RouteSlotID (ownerID computerID : string) : res ledger_error string :=
  let ownerID := TrimSpace ownerID in
  let computerID := TrimSpace computerID in
  refuse (ownerID == "") || (computerID == "") with ErrIDsRequired ;;
  refuse ContainsAny ownerID forbidden || ContainsAny computerID forbidden with ErrInvalidIDs ;;
  Ok ("computer:" +:+ ownerID +:+ ":" +:+ computerID).

Definition ParseRouteSlotID (slotID : string) : res ledger_error (string * string) :=
  let slotID := TrimSpace slotID in
  match Split slotID ":" with
  | [p0; p1; p2] =>
    refuse (p0 != "computer") || (p1 == "") || (p2 == "") with ErrInvalidSlotID ;;
    match RouteSlotID p1 p2 with
    | Ok canonical => refuse canonical != slotID with ErrInvalidSlotID ;; Ok (p1, p2)
    | Err _ => Err ErrInvalidSlotID
    end
  | _ => Err ErrInvalidSlotID
  end.

(** ** Commands *)

Definition trim_version (v : ComputerVersion) : ComputerVersion :=
  Build_ComputerVersion (TrimSpace (CodeRef v)) (TrimSpace (ArtifactProgramRef v)).

Definition normalized (c : TransitionCommand) : TransitionCommand := {|
  CmdRouteSlotID := TrimSpace (CmdRouteSlotID c);
  CmdKind := CmdKind c;
  CmdOld := trim_version (CmdOld c);
  CmdNew := trim_version (CmdNew c);
  CmdExpectedGeneration := CmdExpectedGeneration c;
  CmdApprovalRef := TrimSpace (CmdApprovalRef c);
  CmdPromotionCertificateRef := TrimSpace (CmdPromotionCertificateRef c);
  CmdRollbackTargetReceiptID := TrimSpace (CmdRollbackTargetReceiptID c);
  CmdIdempotencyKey := TrimSpace (CmdIdempotencyKey c);
|}.

Definition validHexString (value : string) : bool := hex_decodes value.

Definition validHashEvidenceRef (value prefix : string) : bool :=
  HasPrefix value prefix && Nat.eqb (len value) (len prefix + 64)
  && validHexString (drop_string (len prefix) value).

Definition token_separators : string :=
  of_chars [byte_of 32; byte_of 9; byte_of 13; byte_of 10; byte_of 0].

Definition validToken (value : string) : bool :=
  if (value == "") || Nat.ltb 512 (len value) then false
  else negb (ContainsAny value token_separators).

Definition validEvidenceRef (value prefix : string) : bool :=
  if negb (HasPrefix value prefix) || Nat.leb (len value) (len prefix) || Nat.ltb 512 (len value)
  then false
  else validToken value.

Section Ledger.
Context {uu : Uuid} {us : UuidSHA1 uu} {sh : Sha256}.

Definition validReceiptID (id : string) : bool := uuid_parses id.

Definition Validate (c : TransitionCommand) : res ledger_error unit :=
  let c := normalized c in
  refuse CmdRouteSlotID c == "" with ErrSlotIDRequired ;;
  let? _ := ParseRouteSlotID (CmdRouteSlotID c) in
  refuse negb (validEvidenceRef (CmdIdempotencyKey c) "idempotency:") with ErrKeyRequired ;;
  refuse negb (Valid (CmdNew c)) with ErrNewInvalid ;;
  refuse negb (validHashEvidenceRef (CmdApprovalRef c) "approval:sha256:")
         || negb (validHashEvidenceRef (CmdPromotionCertificateRef c) "certificate:sha256:")
    with ErrRefsRequired ;;
  match CmdKind c with
  | TransitionBootstrap =>
    refuse negb (CmdExpectedGeneration c =? 0) || Valid (CmdOld c)
           || (CmdRollbackTargetReceiptID c != "") with ErrBootstrap ;; Ok tt
  | TransitionPromote =>
    refuse negb (Valid (CmdOld c)) || (CmdRollbackTargetReceiptID c != "") with ErrPromote ;; Ok tt
  | TransitionRollback =>
    refuse negb (Valid (CmdOld c)) || negb (validReceiptID (CmdRollbackTargetReceiptID c))
      with ErrRollback ;; Ok tt
  | TransitionBootstrapRollback =>
    refuse negb (CmdExpectedGeneration c =? 1) || negb (Valid (CmdOld c))
           || negb (SameVersion (CmdOld c) (CmdNew c))
           || negb (validReceiptID (CmdRollbackTargetReceiptID c)) with ErrBootstrapRollback ;; Ok tt
  | TransitionUnknown _ => Err ErrUnsupportedKind
  end.

(** ** Receipts *)

Definition Receipt_Validate (r : TransitionReceipt) : res ledger_error unit :=
  refuse negb (validReceiptID (ReceiptID r)) with ErrReceiptID ;;
  let? _ := ParseRouteSlotID (RouteSlotID_ r) in
  refuse negb (Valid (New r)) || (CommittedGeneration r =? 0) || IsZero (CommittedAt r)
    with ErrReceiptIncomplete ;;
  refuse negb (validHashEvidenceRef (ApprovalRef r) "approval:sha256:")
         || negb (validHashEvidenceRef (PromotionCertificateRef r) "certificate:sha256:")
         || negb (validEvidenceRef (IdempotencyKey r) "idempotency:") with ErrReceiptEvidence ;;
  match Kind r with
  | TransitionBootstrap =>
    refuse negb (ExpectedGeneration r =? 0) || Valid (Old r)
           || negb (CommittedGeneration r =? 1) || (RollbackTargetReceiptID r != "")
      with ErrBootstrap ;; Ok tt
  | TransitionPromote =>
    refuse negb (Valid (Old r)) || (RollbackTargetReceiptID r != "")
           || negb (CommittedGeneration r =? wrap_u64 (ExpectedGeneration r + 1))
      with ErrPromote ;; Ok tt
  | TransitionRollback =>
    refuse negb (Valid (Old r)) || negb (validReceiptID (RollbackTargetReceiptID r))
           || negb (CommittedGeneration r =? wrap_u64 (ExpectedGeneration r + 1))
      with ErrRollback ;; Ok tt
  | TransitionBootstrapRollback =>
    refuse negb (ExpectedGeneration r =? 1) || negb (Valid (Old r))
           || negb (SameVersion (Old r) (New r))
           || negb (validReceiptID (RollbackTargetReceiptID r))
           || negb (CommittedGeneration r =? 2) with ErrBootstrapRollback ;; Ok tt
  | TransitionUnknown _ => Err ErrReceiptKind
  end.

Definition bootstrap_name (routeSlotID idempotencyKey : string) : string :=
  "choir-route-bootstrap-receipt" +:+ chr 0 +:+ TrimSpace routeSlotID +:+ chr 0 +:+ TrimSpace idempotencyKey.
Definition BootstrapReceiptID (routeSlotID idempotencyKey : string) : string :=
  uuid_sha1 (bootstrap_name routeSlotID idempotencyKey).

(** The identifier [newReceipt] mints; [fresh] is [uuid.NewString()]. *)
Definition minted_id (command : TransitionCommand) (fresh : string) : string :=
  if CmdKind command == TransitionBootstrap
  then BootstrapReceiptID (CmdRouteSlotID command) (CmdIdempotencyKey command) else fresh.

Definition newReceipt (command : TransitionCommand) (generation : Z) (committedAt : Time)
    (fresh : string) : TransitionReceipt := {|
  ReceiptID := minted_id command fresh;
  RouteSlotID_ := CmdRouteSlotID command;
  Kind := CmdKind command;
  Old := CmdOld command;
  New := CmdNew command;
  ExpectedGeneration := CmdExpectedGeneration command;
  CommittedGeneration := generation;
  ApprovalRef := TrimSpace (CmdApprovalRef command);
  PromotionCertificateRef := TrimSpace (CmdPromotionCertificateRef command);
  RollbackTargetReceiptID := TrimSpace (CmdRollbackTargetReceiptID command);
  IdempotencyKey := TrimSpace (CmdIdempotencyKey command);
  CommittedAt := committedAt;
|}.

Definition receiptMatchesCommand (r : TransitionReceipt) (c : TransitionCommand) : bool :=
  (RouteSlotID_ r == CmdRouteSlotID c) && (Kind r == CmdKind c)
  && SameVersion (Old r) (CmdOld c) && SameVersion (New r) (CmdNew c)
  && (ExpectedGeneration r =? CmdExpectedGeneration c)
  && (ApprovalRef r == TrimSpace (CmdApprovalRef c))
  && (PromotionCertificateRef r == TrimSpace (CmdPromotionCertificateRef c))
  && (RollbackTargetReceiptID r == TrimSpace (CmdRollbackTargetReceiptID c))
  && (IdempotencyKey r == TrimSpace (CmdIdempotencyKey c)).

Definition ReceiptMatchesCommand (r : TransitionReceipt) (c : TransitionCommand) : bool :=
  receiptMatchesCommand r (normalized c).

(** ** Authorization evidence *)

Definition version_json (v : ComputerVersion) : json :=
  JObj [("code_ref", JStr (CodeRef v)); ("artifact_program_ref", JStr (ArtifactProgramRef v))].

Definition time_json (t : Time) : option json := JStr <$> marshal_time t.

Definition authorizationEvidencePayload (e : AuthorizationEvidence) : res ledger_error string :=
  match time_json (CreatedAt e) with
  | None => Err ErrMarshal
  | Some t =>
    Ok (marshal (JObj [("evidence_kind", JStr (evidence_kind_string (EvidenceKind e)));
      ("route_slot_id", JStr (EvidenceRouteSlotID e));
      ("computer_version", version_json (EvidenceVersion e));
      ("payload_sha256", JStr (PayloadSHA256 e)); ("created_at", t)]))
  end.

Definition validatePayload (e : AuthorizationEvidence) : res ledger_error unit :=
  let? _ := ParseRouteSlotID (EvidenceRouteSlotID e) in
  refuse negb (Valid (EvidenceVersion e)) || Nat.eqb (len (Payload e)) 0
         || negb (GoJson.Valid (Payload e)) || negb (Nat.eqb (len (PayloadSHA256 e)) 64)
    with ErrPayloadIncomplete ;;
  refuse sha256_hex (Payload e) != PayloadSHA256 e with ErrPayloadHash ;;
  refuse IsZero (CreatedAt e) with ErrCreatedAt ;;
  refuse (EvidenceKind e != EvidenceApproval) && (EvidenceKind e != EvidencePromotionCertificate)
    with ErrEvidenceKind ;;
  Ok tt.

Definition evidence_prefix (k : AuthorizationEvidenceKind) : string :=
  if k == EvidencePromotionCertificate then "certificate:sha256:" else "approval:sha256:".

Definition Evidence_Validate (e : AuthorizationEvidence) : res ledger_error unit :=
  let? _ := validatePayload e in
  let? payload := authorizationEvidencePayload e in
  refuse EvidenceRef e != evidence_prefix (EvidenceKind e) +:+ sha256_hex payload with ErrRefHash ;;
  Ok tt.

Definition with_ref (e : AuthorizationEvidence) (ref : string) : AuthorizationEvidence :=
  Build_AuthorizationEvidence ref (EvidenceKind e) (EvidenceRouteSlotID e) (EvidenceVersion e)
    (Payload e) (PayloadSHA256 e) (CreatedAt e).

Definition NewAuthorizationEvidence (kind : AuthorizationEvidenceKind) (routeSlotID : string)
    (version : ComputerVersion) (payload : string) (createdAt : Time) : res ledger_error AuthorizationEvidence :=
  let evidence := Build_AuthorizationEvidence "" kind (TrimSpace routeSlotID) version
                    payload (sha256_hex payload) createdAt in
  let? _ := validatePayload evidence in
  let? body := authorizationEvidencePayload evidence in
  Ok (with_ref evidence (evidence_prefix kind +:+ sha256_hex body)).

(** [json.Marshal] of a [json.RawMessage] compacts it and escapes it for HTML. *)
Fixpoint compact_raw (in_string : bool) (l : list ascii) : list ascii :=
  match l with
  | [] => []
  | a :: l1 =>
    if negb in_string && is_ws a then compact_raw in_string l1
    else if in_string && Ascii.eqb a (byte_of 92) then
      match l1 with
      | [] => [a]
      | b :: l2 => a :: b :: compact_raw in_string l2
      end
    else if Ascii.eqb a (byte_of 34) then a :: compact_raw (negb in_string) l1
    else if Ascii.eqb a "<" || Ascii.eqb a ">" || Ascii.eqb a "&" then
      u_escape (code a) ++ compact_raw in_string l1
    else match l1 with
    | b :: c :: l3 =>
      if (code a =? 226)%N && (code b =? 128)%N && ((code c =? 168)%N || (code c =? 169)%N)
      then u_escape (8064 + code c)%N ++ compact_raw in_string l3
      else a :: compact_raw in_string l1
    | _ => a :: compact_raw in_string l1
    end
  end.

(** [json.Marshal(evidence)]; the empty string where it returns an error. *)
Definition evidence_marshal (e : AuthorizationEvidence) : string :=
  match time_json (CreatedAt e) with
  | Some t =>
    if GoJson.Valid (Payload e) then
      let member k v := marshal_string k +:+ ":" +:+ v in
      "{" +:+ join "," [
        member "evidence_ref" (marshal_string (EvidenceRef e));
        member "evidence_kind" (marshal_string (evidence_kind_string (EvidenceKind e)));
        member "route_slot_id" (marshal_string (EvidenceRouteSlotID e));
        member "computer_version" (marshal (version_json (EvidenceVersion e)));
        member "payload" (of_chars (compact_raw false (chars (Payload e))));
        member "payload_sha256" (marshal_string (PayloadSHA256 e));
        member "created_at" (marshal t)] +:+ "}"
    else ""
  | None => ""
  end.

Definition authorizationEvidenceEqual (left right : AuthorizationEvidence) : bool :=
  evidence_marshal left == evidence_marshal right.

Definition verifyTransitionEvidenceMap (evidence : gmap string AuthorizationEvidence)
    (command : TransitionCommand) : res ledger_error unit :=
  match evidence !! CmdApprovalRef command, evidence !! CmdPromotionCertificateRef command with
  | Some approval, Some certificate =>
    refuse (EvidenceKind approval != EvidenceApproval)
           || (EvidenceKind certificate != EvidencePromotionCertificate)
           || (EvidenceRouteSlotID approval != CmdRouteSlotID command)
           || (EvidenceRouteSlotID certificate != CmdRouteSlotID command)
           || negb (SameVersion (EvidenceVersion approval) (CmdNew command))
           || negb (SameVersion (EvidenceVersion certificate) (CmdNew command))
      with ErrEvidenceBinding ;;
    Ok tt
  | _, _ => Err ErrEvidenceBinding
  end.

(** ** [MemoryLedger] *)
Record Ledger := {
  slots : gmap string Slot;
  receipts : gmap string TransitionReceipt;
  byKey : gmap string string;
  evidence : gmap string AuthorizationEvidence;
}.

Definition NewMemoryLedger : Ledger := Build_Ledger ∅ ∅ ∅ ∅.

Definition set_evidence (l : Ledger) (e : gmap string AuthorizationEvidence) : Ledger :=
  Build_Ledger (slots l) (receipts l) (byKey l) e.

Definition Resolve (ctxErr : bool) (l : Ledger) (slotID : string) : res ledger_error (Slot * TransitionReceipt) :=
  refuse ctxErr with ErrContext ;;
  match slots l !! TrimSpace slotID with
  | None => Err ErrSlotNotFound
  | Some slot => Ok (slot, default zero_receipt (receipts l !! LatestReceiptID slot))
  end.

(** The guards of [transitionLocked] after the idempotency check: [Ok] holds the
    generation that will be committed. *)
Definition admit_transition (l : Ledger) (command : TransitionCommand) : res ledger_error Z :=
  let slot := slots l !! CmdRouteSlotID command in
  let current := default zero_slot slot in
  let exists_ := bool_decide (is_Some slot) in
  refuse negb exists_ && (CmdKind command != TransitionBootstrap) with ErrSlotNotFound ;;
  refuse exists_ && ((CmdKind command == TransitionBootstrap)
                     || negb (Generation current =? CmdExpectedGeneration command)
                     || negb (SameVersion (Current current) (CmdOld command)))
    with ErrStaleTransition ;;
  let target := receipts l !! CmdRollbackTargetReceiptID command in
  refuse (CmdKind command == TransitionRollback) &&
         match target with
         | None => true
         | Some t => (RouteSlotID_ t != CmdRouteSlotID command)
                     || negb (SameVersion (New t) (CmdNew command))
                     || (Generation current <=? CommittedGeneration t)
         end with ErrRollbackTarget ;;
  refuse (CmdKind command == TransitionBootstrapRollback) &&
         match target with
         | None => true
         | Some t => (Kind t != TransitionBootstrap) || (RouteSlotID_ t != CmdRouteSlotID command)
                     || (ReceiptID t != LatestReceiptID current)
                     || negb (CommittedGeneration t =? 1)
                     || negb (SameVersion (New t) (CmdOld command))
         end with ErrBootstrapRollbackTarget ;;
  Ok (if exists_ then wrap_u64 (Generation current + 1) else 1).

(** The writes of [transitionLocked]. *)
Definition commit_transition (l : Ledger) (command : TransitionCommand) (committedGeneration : Z)
    (fresh : string) (now : Time) : Ledger * (Slot * TransitionReceipt) :=
  let receipt := newReceipt command committedGeneration now fresh in
  let receipts' := <[ReceiptID receipt := receipt]> (receipts l) in
  let byKey' := <[CmdIdempotencyKey command := ReceiptID receipt]> (byKey l) in
  if CmdKind command == TransitionBootstrapRollback then
    (Build_Ledger (delete (CmdRouteSlotID command) (slots l)) receipts' byKey' (evidence l),
     (zero_slot, receipt))
  else
    let slot := Build_Slot (CmdRouteSlotID command) (CmdNew command)
                  committedGeneration (ReceiptID receipt) in
    (Build_Ledger (<[SlotID slot := slot]> (slots l)) receipts' byKey' (evidence l),
     (slot, receipt)).

(** The answer to a command whose idempotency key is already recorded. *)
Definition replay_transition (l : Ledger) (command : TransitionCommand) (receiptID : string)
    : res ledger_error (Slot * TransitionReceipt) :=
  let receipt := default zero_receipt (receipts l !! receiptID) in
  refuse negb (receiptMatchesCommand receipt command) with ErrIdempotencyReuse ;;
  if CmdKind command == TransitionBootstrapRollback then
    refuse bool_decide (is_Some (slots l !! CmdRouteSlotID command)) with ErrStaleTransition ;;
    Ok (zero_slot, receipt)
  else Ok (default zero_slot (slots l !! CmdRouteSlotID command), receipt).

Definition transitionLocked (l : Ledger) (command : TransitionCommand) (fresh : string) (now : Time)
    : Ledger * res ledger_error (Slot * TransitionReceipt) :=
  match byKey l !! CmdIdempotencyKey command with
  | Some receiptID => (l, replay_transition l command receiptID)
  | None =>
    match admit_transition l command with
    | Err e => (l, Err e)
    | Ok committedGeneration =>
      let '(l', r) := commit_transition l command committedGeneration fresh now in (l', Ok r)
    end
  end.

Definition Transition (ctxErr : bool) (l : Ledger) (command : TransitionCommand) (fresh : string) (now : Time)
    : Ledger * res ledger_error (Slot * TransitionReceipt) :=
  if ctxErr then (l, Err ErrContext) else
  let command := normalized command in
  match Validate command with
  | Err e => (l, Err e)
  | Ok _ => transitionLocked l command fresh now
  end.

Definition PinAuthorizationEvidence (ctxErr : bool) (l : Ledger) (e : AuthorizationEvidence)
    : Ledger * res ledger_error AuthorizationEvidence :=
  if ctxErr then (l, Err ErrContext) else
  match Evidence_Validate e with
  | Err er => (l, Err er)
  | Ok _ =>
    if match evidence l !! EvidenceRef e with
       | Some existing => negb (authorizationEvidenceEqual existing e)
       | None => false
       end
    then (l, Err ErrRefCollision)
    else (set_evidence l (<[EvidenceRef e := e]> (evidence l)), Ok e)
  end.

Definition ResolveAuthorizationEvidence (ctxErr : bool) (l : Ledger) (ref : string)
    : res ledger_error AuthorizationEvidence :=
  refuse ctxErr with ErrContext ;;
  match evidence l !! ref with Some e => Ok e | None => Err ErrEvidenceNotFound end.

Definition VerifyTransitionEvidence (ctxErr : bool) (l : Ledger) (command : TransitionCommand) : res ledger_error unit :=
  refuse ctxErr with ErrContext ;; verifyTransitionEvidenceMap (evidence l) command.

(** The loop that merges the supplied evidence into a copy of the pinned one. *)
Fixpoint combine_evidence (combined : gmap string AuthorizationEvidence)
    (items : list AuthorizationEvidence) : res ledger_error (gmap string AuthorizationEvidence) :=
  match items with
  | [] => Ok combined
  | item :: items =>
    let? _ := Evidence_Validate item in
    refuse match combined !! EvidenceRef item with
           | Some existing => negb (authorizationEvidenceEqual existing item)
           | None => false
           end with ErrRefCollision ;;
    combine_evidence (<[EvidenceRef item := item]> combined) items
  end.

Definition TransitionWithEvidence (ctxErr : bool) (l : Ledger) (command : TransitionCommand)
    (items : list AuthorizationEvidence) (fresh : string) (now : Time)
    : Ledger * res ledger_error (Slot * TransitionReceipt) :=
  if ctxErr then (l, Err ErrContext) else
  let command := normalized command in
  match Validate command with
  | Err e => (l, Err e)
  | Ok _ =>
    match items with
    | [] => (l, Err ErrEvidenceRequired)
    | _ =>
      match combine_evidence (evidence l) items with
      | Err e => (l, Err e)
      | Ok combined =>
        match verifyTransitionEvidenceMap combined command with
        | Err e => (l, Err e)
        | Ok _ =>
          match transitionLocked l command fresh now with
          | (l', Ok r) => (set_evidence l' combined, Ok r)
          | (l', Err e) => (l', Err e)
          end
        end
      end
    end
  end.

(** ** Normalization *)
Lemma trim_version_idemp v : trim_version (trim_version v) = trim_version v.
Proof. destruct v. unfold trim_version. simpl. by rewrite !TrimSpace_idemp. Qed.

Lemma normalized_idemp c : normalized (normalized c) = normalized c.
Proof. unfold normalized. simpl. by rewrite !TrimSpace_idemp, !trim_version_idemp. Qed.

(** The facts validation establishes of a command that is already normalized. *)
Record command_ok (c : TransitionCommand) : Prop := {
  cmd_normalized : normalized c = c;
  cmd_slot : is_ok (ParseRouteSlotID (CmdRouteSlotID c)) = true;
  cmd_key : validEvidenceRef (CmdIdempotencyKey c) "idempotency:" = true;
  cmd_new : Valid (CmdNew c) = true;
  cmd_approval : validHashEvidenceRef (CmdApprovalRef c) "approval:sha256:" = true;
  cmd_certificate : validHashEvidenceRef (CmdPromotionCertificateRef c) "certificate:sha256:" = true;
  cmd_kind : match CmdKind c with
    | TransitionBootstrap => CmdExpectedGeneration c = 0 /\ Valid (CmdOld c) = false /\
                             CmdRollbackTargetReceiptID c = ""
    | TransitionPromote => Valid (CmdOld c) = true /\ CmdRollbackTargetReceiptID c = ""
    | TransitionRollback => Valid (CmdOld c) = true /\ validReceiptID (CmdRollbackTargetReceiptID c) = true
    | TransitionBootstrapRollback =>
      CmdExpectedGeneration c = 1 /\ Valid (CmdOld c) = true /\
      SameVersion (CmdOld c) (CmdNew c) = true /\ validReceiptID (CmdRollbackTargetReceiptID c) = true
    | TransitionUnknown _ => False
    end;
}.

#[local] Arguments Valid : simpl never.
#[local] Arguments validReceiptID : simpl never.

Lemma Validate_normalized d : normalized d = d -> Validate d = Ok tt -> command_ok d.
Proof.
  intros Hd. unfold Validate. rewrite Hd. intros Hv.
  destruct (CmdRouteSlotID d == ""); [done|].
  destruct (ParseRouteSlotID (CmdRouteSlotID d)) eqn:Hp; [|done].
  destruct (validEvidenceRef _ _) eqn:Hkey; [|done]. cbn [negb orb] in Hv.
  destruct (Valid (CmdNew d)) eqn:Hnew; [|done]. cbn [negb orb] in Hv.
  destruct (validHashEvidenceRef (CmdApprovalRef d) _) eqn:Ha; [|done]. cbn [negb orb] in Hv.
  destruct (validHashEvidenceRef (CmdPromotionCertificateRef d) _) eqn:Hcert; [|done].
  cbn [negb orb] in Hv.
  split; try done; [by rewrite Hp|].
  destruct (CmdKind d); try done;
    match type of Hv with (if ?b then _ else _) = _ => destruct b eqn:Hg; [done|] end;
    by to_prop.
Qed.

Lemma Validate_ok c : Validate (normalized c) = Ok tt -> command_ok (normalized c).
Proof. apply Validate_normalized, normalized_idemp. Qed.

Lemma SameVersion_eq a b : SameVersion a b = true <-> a = b.
Proof.
  unfold SameVersion. rewrite andb_true_iff, !bool_decide_eq_true.
  destruct a, b. simpl. split; [intros [-> ->]; done|intros [= -> ->]; done].
Qed.

(** ** One transition, by cases *)
Lemma transitionLocked_inv l c fresh now l' res :
  transitionLocked l c fresh now = (l', res) ->
  (l' = l /\ exists id, byKey l !! CmdIdempotencyKey c = Some id /\ res = replay_transition l c id) \/
  (l' = l /\ byKey l !! CmdIdempotencyKey c = None /\ is_ok res = false) \/
  (byKey l !! CmdIdempotencyKey c = None /\ exists gen out, admit_transition l c = Ok gen /\
     commit_transition l c gen fresh now = (l', out) /\ res = Ok out).
Proof.
  unfold transitionLocked. destruct (byKey l !! _) as [id|] eqn:Hk.
  - intros [= <- <-]. left. eauto.
  - destruct (admit_transition l c) as [gen|e] eqn:Ha.
    + destruct (commit_transition l c gen fresh now) as [l1 out] eqn:Hc.
      intros [= <- <-]. right. right. eauto 10.
    + intros [= <- <-]. right. by left.
Qed.

Lemma replay_ok_match l c id r :
  replay_transition l c id = Ok r -> receiptMatchesCommand r.2 c = true.
Proof.
  unfold replay_transition. intros Hr. destruct (receiptMatchesCommand _ c) eqn:E; [|done].
  simpl in Hr. case_bool_decide; [case_bool_decide; [done|]|]; by simplify_eq/=.
Qed.

(** What admission establishes of the slot and of the rollback target. *)
Lemma admit_inv l c gen :
  admit_transition l c = Ok gen ->
  match slots l !! CmdRouteSlotID c with
  | None => CmdKind c = TransitionBootstrap /\ gen = 1
  | Some s => CmdKind c <> TransitionBootstrap /\ Generation s = CmdExpectedGeneration c /\
              Current s = CmdOld c /\ gen = wrap_u64 (Generation s + 1)
  end /\
  (CmdKind c = TransitionRollback -> exists s t, slots l !! CmdRouteSlotID c = Some s /\
     receipts l !! CmdRollbackTargetReceiptID c = Some t /\ RouteSlotID_ t = CmdRouteSlotID c /\
     New t = CmdNew c /\ CommittedGeneration t < Generation s) /\
  (CmdKind c = TransitionBootstrapRollback -> exists s t, slots l !! CmdRouteSlotID c = Some s /\
     receipts l !! CmdRollbackTargetReceiptID c = Some t /\ Kind t = TransitionBootstrap /\
     RouteSlotID_ t = CmdRouteSlotID c /\ ReceiptID t = LatestReceiptID s /\ New t = CmdOld c).
Proof.
  unfold admit_transition.
  destruct (slots l !! CmdRouteSlotID c) as [s|] eqn:Hs; simpl; intros Ha;
    destruct (receipts l !! CmdRollbackTargetReceiptID c) as [t|] eqn:Ht;
    go_inv Ha; to_prop; split_and!; try done;
    repeat match goal with
    | H : (_ && _)%bool = false |- _ => apply andb_false_iff in H; destruct H
    end; to_prop; try congruence; intros; try congruence;
    repeat match goal with
    | H : SameVersion _ _ = true |- _ => apply SameVersion_eq in H
    end; try done; eauto 12 with lia.
Qed.

(** ** Identifiers minted for receipts *)

Lemma sep_prefix_inj (x : ascii) a b a' b' :
  x ∉ a -> x ∉ a' -> a ++ x :: b = a' ++ x :: b' -> a = a' /\ b = b'.
Proof.
  revert a'. induction a as [|y a IH]; intros [|y' a']; simpl; intros Ha Ha' Heq; simplify_eq.
  - done.
  - set_solver.
  - set_solver.
  - destruct (IH a') as [-> ->]; set_solver.
Qed.

Lemma sep_suffix_inj (x : ascii) a b a' b' :
  x ∉ b -> x ∉ b' -> a ++ x :: b = a' ++ x :: b' -> a = a' /\ b = b'.
Proof.
  intros Hb Hb' Heq. apply (f_equal reverse) in Heq. revert Heq.
  rewrite !reverse_app, !reverse_cons, <-!(assoc_L (++)). simpl. intros Heq.
  apply sep_prefix_inj in Heq as [H1 H2]; [|by rewrite elem_of_reverse..].
  by apply (inj reverse) in H1, H2.
Qed.

Lemma ContainsAny_not s cs a : ContainsAny s cs = false -> a ∈ chars cs -> a ∉ chars s.
Proof.
  unfold ContainsAny. intros Hc Ha Has. apply not_true_iff_false in Hc. apply Hc.
  apply existsb_exists. exists a. split; [by apply list_elem_of_In|].
  apply existsb_exists. exists a. split; [by apply list_elem_of_In|]. apply Ascii.eqb_refl.
Qed.

Lemma key_no_nul key : validEvidenceRef key "idempotency:" = true -> byte_of 0 ∉ chars key.
Proof.
  unfold validEvidenceRef, validToken. intros Hv.
  destruct (_ || _ || _); [done|]. destruct (_ || _); [done|].
  apply negb_true_iff in Hv. eapply ContainsAny_not; [exact Hv|].
  unfold token_separators. rewrite chars_of_chars. set_solver.
Qed.

(** Stable bootstrap identifiers have different names for different keys. *)
Lemma bootstrap_name_inj slot key slot' key' :
  validEvidenceRef key "idempotency:" = true -> validEvidenceRef key' "idempotency:" = true ->
  TrimSpace key = key -> TrimSpace key' = key' ->
  bootstrap_name slot key = bootstrap_name slot' key' -> key = key'.
Proof.
  intros Hk Hk' Ht Ht' Hxy. unfold bootstrap_name in Hxy. rewrite Ht, Ht' in Hxy.
  apply (f_equal chars) in Hxy. rewrite !chars_app in Hxy. apply app_inv_head in Hxy.
  unfold chr in Hxy. rewrite !(assoc_L (++)) in Hxy.
  change (chars (String (byte_of 0) EmptyString)) with [byte_of 0] in Hxy.
  rewrite <-!(assoc_L (++)) in Hxy. simpl in Hxy. rewrite !app_comm_cons in Hxy.
  apply sep_suffix_inj in Hxy as [_ Hxy]; [by apply chars_inj|by apply key_no_nul..].
Qed.

(** ** The invariant

    [names] holds the names of the bootstrap receipts of the runs considered; the
    SHA-1 identifiers of different ones are taken to differ. *)
Variable names : string -> Prop.

(** A command whose bootstrap receipt, if it makes one, has its name among them. *)
Definition named (c : TransitionCommand) : Prop :=
  CmdKind c = TransitionBootstrap -> names (bootstrap_name (CmdRouteSlotID c) (CmdIdempotencyKey c)).

(** Receipts, keys and slots refer to each other; receipt identifiers are either
    random or the stable bootstrap ones. *)
Record linked (l : Ledger) : Prop := {
  linked_receipt : forall id r, receipts l !! id = Some r ->
    ReceiptID r = id /\ byKey l !! IdempotencyKey r = Some id /\
    TrimSpace (IdempotencyKey r) = IdempotencyKey r /\
    validEvidenceRef (IdempotencyKey r) "idempotency:" = true /\
    (uuid_version id = Some 4 \/
     id = BootstrapReceiptID (RouteSlotID_ r) (IdempotencyKey r) /\
     names (bootstrap_name (RouteSlotID_ r) (IdempotencyKey r)));
  linked_key : forall key id, byKey l !! key = Some id ->
    exists r, receipts l !! id = Some r /\ IdempotencyKey r = key;
  linked_slot : forall k s, slots l !! k = Some s ->
    SlotID s = k /\ exists r, receipts l !! LatestReceiptID s = Some r /\
      RouteSlotID_ r = k /\ New r = Current s /\ CommittedGeneration r = Generation s;
}.

(** Generations count up from one and never exceed the number of receipts, and
    every receipt is one its reader accepts. *)
Record counted (l : Ledger) : Prop := {
  counted_slot : forall k s, slots l !! k = Some s ->
    1 <= Generation s <= Z.of_nat (size (receipts l));
  counted_receipt : forall id r, receipts l !! id = Some r -> Receipt_Validate r = Ok tt;
}.

(** A random identifier: of version 4, and not one of the ledger's. *)
Definition fresh_id (l : Ledger) (fresh : string) : Prop :=
  uuid_version fresh = Some 4 /\ receipts l !! fresh = None.

Lemma trimmed_key c : command_ok c -> TrimSpace (CmdIdempotencyKey c) = CmdIdempotencyKey c.
Proof. intros Hc. rewrite <-(cmd_normalized c Hc) at 2. done. Qed.

Hypothesis names_distinct : sha1_distinct names.

Lemma minted_id_fresh l c fresh :
  linked l -> command_ok c -> named c -> fresh_id l fresh -> byKey l !! CmdIdempotencyKey c = None ->
  receipts l !! minted_id c fresh = None.
Proof.
  intros Hl Hc Hn [_ Hf] Hk. unfold minted_id. case_bool_decide as Hb; [|done].
  destruct (receipts l !! BootstrapReceiptID (CmdRouteSlotID c) (CmdIdempotencyKey c)) as [r|] eqn:Hr; [|done].
  exfalso. destruct (linked_receipt l Hl _ _ Hr) as (Hid & Hkey & Htrim & Hvalid & [Hv|[Heq Hnr]]).
  - unfold BootstrapReceiptID in Hv. by rewrite uuid_sha1_version in Hv.
  - pose proof (trimmed_key c Hc) as Htc.
    apply names_distinct in Heq; [|by apply Hn|done].
    apply bootstrap_name_inj in Heq; [|by apply cmd_key|done..]. rewrite <-Heq in Hkey. congruence.
Qed.

Lemma trimmed_refs c : command_ok c ->
  TrimSpace (CmdApprovalRef c) = CmdApprovalRef c /\
  TrimSpace (CmdPromotionCertificateRef c) = CmdPromotionCertificateRef c /\
  TrimSpace (CmdRollbackTargetReceiptID c) = CmdRollbackTargetReceiptID c.
Proof.
  intros Hc. repeat split; rewrite <-(cmd_normalized c Hc) at 2; done.
Qed.

Lemma newReceipt_matches c gen now fresh : receiptMatchesCommand (newReceipt c gen now fresh) c = true.
Proof.
  unfold receiptMatchesCommand. simpl. rewrite !bool_decide_eq_true_2 by done.
  rewrite Z.eqb_refl. by rewrite !(proj2 (SameVersion_eq _ _) eq_refl).
Qed.

Lemma newReceipt_valid l c gen now fresh :
  command_ok c -> admit_transition l c = Ok gen -> fresh_id l fresh -> now <> 0 ->
  1 <= gen -> Receipt_Validate (newReceipt c gen now fresh) = Ok tt.
Proof.
  intros Hc Ha [Hf _] Hnow Hgen. apply admit_inv in Ha as (Hslot & _ & _).
  destruct (trimmed_refs c Hc) as (Ta & Tc & Tr). pose proof (trimmed_key c Hc) as Tk.
  assert (validReceiptID (minted_id c fresh) = true) as Hid.
  { unfold validReceiptID, uuid_parses, minted_id. apply bool_decide_eq_true_2.
    case_bool_decide; unfold BootstrapReceiptID; rewrite ?uuid_sha1_version, ?Hf; eauto. }
  destruct Hc as [_ Hps Hkey Hnew Happ Hcert Hkind].
  unfold Receipt_Validate. simpl. rewrite Hid, Ta, Tc, Tr, Tk, Hnew, Happ, Hcert, Hkey.
  destruct (ParseRouteSlotID (CmdRouteSlotID c)); [|done]. simpl.
  unfold IsZero. rewrite (proj2 (Z.eqb_neq now 0)) by done.
  rewrite (proj2 (Z.eqb_neq gen 0)) by lia. simpl.
  destruct (slots l !! CmdRouteSlotID c) as [s|].
  - destruct Hslot as (Hnb & Hgs & Hcur & ->). rewrite Hgs.
    destruct (CmdKind c); try done.
    + destruct Hkind as [-> ->]. by rewrite Z.eqb_refl.
    + destruct Hkind as [-> ->]. by rewrite Z.eqb_refl.
    + by destruct Hkind as (-> & -> & -> & ->).
  - destruct Hslot as [Hb ->]. rewrite Hb in *. by destruct Hkind as (-> & -> & ->).
Qed.

(** ** Preservation *)

Definition receipts_grow (l l' : Ledger) : Prop :=
  receipts l ⊆ receipts l' /\ byKey l ⊆ byKey l'.

Lemma commit_fields l c gen fresh now l' out :
  commit_transition l c gen fresh now = (l', out) ->
  out.2 = newReceipt c gen now fresh /\
  receipts l' = <[minted_id c fresh := out.2]> (receipts l) /\
  byKey l' = <[CmdIdempotencyKey c := minted_id c fresh]> (byKey l) /\
  evidence l' = evidence l /\
  (if CmdKind c == TransitionBootstrapRollback
   then slots l' = delete (CmdRouteSlotID c) (slots l) /\ out.1 = zero_slot
   else slots l' = <[CmdRouteSlotID c := out.1]> (slots l) /\
        out.1 = Build_Slot (CmdRouteSlotID c) (CmdNew c) gen (minted_id c fresh)).
Proof.
  unfold commit_transition. case_bool_decide; intros [= <- <-]; simpl; done.
Qed.

Lemma commit_linked l c gen fresh now l' out :
  linked l -> command_ok c -> named c -> fresh_id l fresh ->
  byKey l !! CmdIdempotencyKey c = None -> receipts l !! minted_id c fresh = None ->
  commit_transition l c gen fresh now = (l', out) -> linked l'.
Proof.
  intros [Hr Hk Hs] Hc Hn [Hv _] Hkey Hid Hcom.
  apply commit_fields in Hcom as (Hout & Hrec & Hby & _ & Hslots).
  split.
  - intros id r. rewrite Hrec, Hby, Hout. intros [[<- <-]|[Hne Hl]]%lookup_insert_Some.
    + simpl. rewrite (trimmed_key c Hc). split_and!; try done; [by simplify_map_eq|by apply trimmed_key|by apply cmd_key|].
      unfold minted_id. clear Hslots. case_bool_decide as Hb; [right|by left]. split; [done|by apply Hn].
    + destruct (Hr id r Hl) as (H1 & H2 & H3). split_and!; [done| |by destruct_and!..].
      rewrite lookup_insert_ne by congruence. done.
  - intros key id. rewrite Hrec, Hby, Hout. intros [[<- <-]|[Hne Hl]]%lookup_insert_Some.
    + eexists. split; [by rewrite lookup_insert_eq|]. simpl. by apply trimmed_key.
    + destruct (Hk key id Hl) as (r & H1 & H2). exists r. split; [|done].
      rewrite lookup_insert_ne by congruence. done.
  - intros k s Hl. rewrite Hrec.
    assert ((k = CmdRouteSlotID c /\ s = out.1 /\
             s = Build_Slot (CmdRouteSlotID c) (CmdNew c) gen (minted_id c fresh)) \/
            slots l !! k = Some s) as [(-> & _ & ->)|Hold].
    { case_bool_decide; destruct Hslots as [Hsl Hout1]; rewrite Hsl in Hl.
      - apply lookup_delete_Some in Hl as [_ Hl]. by right.
      - apply lookup_insert_Some in Hl as [[<- <-]|[_ Hl]]; [left|by right]. done. }
    + simpl. split; [done|]. exists out.2. rewrite lookup_insert_eq, Hout. done.
    + destruct (Hs k s Hold) as (H1 & r & H2 & H3). split; [done|]. exists r.
      rewrite lookup_insert_ne by congruence. done.
Qed.

Lemma commit_grow l c gen fresh now l' out :
  byKey l !! CmdIdempotencyKey c = None -> receipts l !! minted_id c fresh = None ->
  commit_transition l c gen fresh now = (l', out) -> receipts_grow l l'.
Proof.
  intros Hk Hid Hcom. apply commit_fields in Hcom as (_ & Hrec & Hby & _).
  split; [rewrite Hrec|rewrite Hby]; by apply insert_subseteq.
Qed.

Lemma commit_counted l c gen fresh now l' out :
  counted l -> command_ok c -> fresh_id l fresh -> now <> 0 ->
  admit_transition l c = Ok gen -> receipts l !! minted_id c fresh = None ->
  Z.of_nat (size (receipts l')) < 2 ^ 64 ->
  commit_transition l c gen fresh now = (l', out) -> counted l'.
Proof.
  intros [Hs Hr] Hc Hf Hnow Ha Hid Hsize Hcom.
  apply commit_fields in Hcom as (Hout & Hrec & _ & _ & Hslots).
  assert (size (receipts l') = S (size (receipts l))) as Hsz.
  { rewrite Hrec. by rewrite map_size_insert_None. }
  assert (1 <= gen <= Z.of_nat (size (receipts l'))) as Hgen.
  { apply admit_inv in Ha as (Ha & _ & _). destruct (slots l !! _) as [s|] eqn:Es.
    - destruct Ha as (_ & _ & _ & ->). pose proof (Hs _ _ Es).
      rewrite wrap_u64_small; unfold is_u64; lia.
    - destruct Ha as [_ ->]. lia. }
  split.
  - intros k s Hl. case_bool_decide; destruct Hslots as [Hsl Hout1]; rewrite Hsl in Hl.
    + apply lookup_delete_Some in Hl as [_ Hl]. pose proof (Hs _ _ Hl). lia.
    + apply lookup_insert_Some in Hl as [[<- <-]|[_ Hl]]; [by rewrite Hout1|].
      pose proof (Hs _ _ Hl). lia.
  - intros id r. rewrite Hrec, Hout. intros [[<- <-]|[_ Hl]]%lookup_insert_Some; [|by eapply Hr].
    eapply newReceipt_valid; [done..|]. lia.
Qed.

(** ** Runs of the ledger *)
Inductive step : Ledger -> Ledger -> Prop :=
  | step_transition l c fresh now l' r :
      named (normalized c) -> fresh_id l fresh -> now <> 0 ->
      Transition false l c fresh now = (l', r) -> step l l'
  | step_evidence l c items fresh now l' r :
      named (normalized c) -> fresh_id l fresh -> now <> 0 ->
      TransitionWithEvidence false l c items fresh now = (l', r) -> step l l'
  | step_pin l e l' r : PinAuthorizationEvidence false l e = (l', r) -> step l l'.

Inductive steps : Ledger -> Ledger -> Prop :=
  | steps_refl l : steps l l
  | steps_next l1 l2 l3 : steps l1 l2 -> step l2 l3 -> steps l1 l3.

Definition reachable (l : Ledger) : Prop := steps NewMemoryLedger l.

(** A step keeps the receipts or commits one admitted, valid command. *)
Definition quiet (l l' : Ledger) : Prop :=
  slots l' = slots l /\ receipts l' = receipts l /\ byKey l' = byKey l.

Definition committed (l l' : Ledger) : Prop :=
  exists c gen fresh now l1 out, command_ok c /\ named c /\ fresh_id l fresh /\ now <> 0 /\
    byKey l !! CmdIdempotencyKey c = None /\ admit_transition l c = Ok gen /\
    commit_transition l c gen fresh now = (l1, out) /\ quiet l1 l'.

Lemma Transition_inv l c fresh now l' res :
  Transition false l c fresh now = (l', res) ->
  (l' = l /\ is_ok res = false) \/
  (command_ok (normalized c) /\ transitionLocked l (normalized c) fresh now = (l', res)).
Proof.
  unfold Transition. destruct (Validate (normalized c)) as [[]|e] eqn:Hv.
  - intros Ht. right. split; [by apply Validate_ok|done].
  - intros [= <- <-]. by left.
Qed.

Lemma TransitionWithEvidence_inv l c items fresh now l' res :
  TransitionWithEvidence false l c items fresh now = (l', res) ->
  (l' = l /\ is_ok res = false) \/
  (exists combined l1 r, command_ok (normalized c) /\
    combine_evidence (evidence l) items = Ok combined /\
    verifyTransitionEvidenceMap combined (normalized c) = Ok tt /\
    transitionLocked l (normalized c) fresh now = (l1, Ok r) /\
    l' = set_evidence l1 combined /\ res = Ok r).
Proof.
  unfold TransitionWithEvidence. intros Ht.
  destruct (Validate (normalized c)) as [[]|e] eqn:Hv; [|simplify_eq; by left].
  destruct items as [|it items]; [simplify_eq; by left|].
  destruct (combine_evidence _ _) as [combined|]; [|simplify_eq; by left].
  destruct (verifyTransitionEvidenceMap _ _) as [[]|] eqn:Hve; [|simplify_eq; by left].
  destruct (transitionLocked l (normalized c) fresh now) as [l1 [r|e]] eqn:Hl; simplify_eq.
  - right. exists combined, l1, r. split; [by apply Validate_ok|done].
  - left. apply transitionLocked_inv in Hl as [(-> & _)|[(-> & _)|(_ & gen & out & _ & _ & Hr)]]; done.
Qed.

Lemma step_cases l l' : step l l' -> quiet l l' \/ committed l l'.
Proof.
  intros Hst.
  assert (forall c fresh now l1 r, command_ok c -> named c -> fresh_id l fresh -> now <> 0 ->
    transitionLocked l c fresh now = (l1, r) ->
    forall l2, quiet l1 l2 -> quiet l l2 \/ committed l l2) as Hlocked.
  { intros c fresh now l1 r Hc Hn Hf Hnow Hl l2 Hq.
    apply transitionLocked_inv in Hl as [(-> & _)|[(-> & _)|(Hk & gen & out & Ha & Hcom & _)]];
      [by left..|right]. exists c, gen, fresh, now, l1, out. done. }
  destruct Hst as [l c fresh now l' r Hn Hf Hnow Ht|l c items fresh now l' r Hn Hf Hnow Ht|l e l' r Hp].
  - apply Transition_inv in Ht as [[-> _]|[Hc Hl]]; [by left|]. by eapply Hlocked.
  - apply TransitionWithEvidence_inv in Ht as [[-> _]|(cb & l1 & q & Hc & _ & _ & Hl & -> & _)];
      [by left|]. by eapply Hlocked.
  - unfold PinAuthorizationEvidence in Hp. left.
    destruct (Evidence_Validate e) as [[]|]; [|by simplify_eq].
    destruct (evidence l !! EvidenceRef e) as [ex|];
      [destruct (authorizationEvidenceEqual ex e)|]; by simplify_eq/=.
Qed.

Lemma step_linked l l' :
  linked l -> step l l' -> linked l' /\ receipts_grow l l'.
Proof.
  intros Hl [(E1 & E2 & E3)|(c & gen & fresh & now & l1 & out & Hc & Hn & Hf & Hnow & Hk & Ha & Hcom & E1 & E2 & E3)]%step_cases.
  - split; [|split; by rewrite ?E2, ?E3].
    destruct Hl as [H1 H2 H3]. split; rewrite ?E1, ?E2, ?E3; done.
  - pose proof (minted_id_fresh l c fresh Hl Hc Hn Hf Hk) as Hid.
    pose proof (commit_linked _ _ _ _ _ _ _ Hl Hc Hn Hf Hk Hid Hcom) as [H1 H2 H3].
    pose proof (commit_grow _ _ _ _ _ _ _ Hk Hid Hcom) as [G1 G2].
    split; [split; rewrite ?E1, ?E2, ?E3; done|split; rewrite ?E2, ?E3; done].
Qed.

Lemma steps_linked l l' :
  linked l -> steps l l' -> linked l' /\ receipts_grow l l'.
Proof.
  intros Hl Hst. induction Hst as [l|l1 l2 l3 Hst IH Hs]; [done|].
  destruct (IH Hl) as [Hl2 [G1 G2]]. destruct (step_linked l2 l3 Hl2 Hs) as [Hl3 [G3 G4]].
  split; [done|]. split; by etrans.
Qed.

Lemma empty_linked : linked NewMemoryLedger.
Proof. split; intros *; simpl; by rewrite lookup_empty. Qed.

Lemma step_counted l l' :
  linked l -> counted l -> step l l' -> Z.of_nat (size (receipts l')) < 2 ^ 64 ->
  counted l'.
Proof.
  intros Hl Hct [(E1 & E2 & E3)|(c & gen & fresh & now & l1 & out & Hc & Hn & Hf & Hnow & Hk & Ha & Hcom & E1 & E2 & E3)]%step_cases Hsz.
  - destruct Hct as [H1 H2]. split; rewrite ?E1, ?E2; done.
  - pose proof (minted_id_fresh l c fresh Hl Hc Hn Hf Hk) as Hid.
    rewrite E2 in Hsz.
    pose proof (commit_counted _ _ _ _ _ _ _ Hct Hc Hf Hnow Ha Hid Hsz Hcom) as [H1 H2].
    split; rewrite ?E1, ?E2; done.
Qed.

Lemma steps_size l l' :
  linked l -> steps l l' -> (size (receipts l) <= size (receipts l'))%nat.
Proof.
  intros Hl Hst. destruct (steps_linked l l' Hl Hst) as [_ [Hg _]].
  by apply map_subseteq_size.
Qed.

Lemma steps_counted l l' :
  linked l -> counted l -> steps l l' -> Z.of_nat (size (receipts l')) < 2 ^ 64 ->
  linked l' /\ counted l'.
Proof.
  intros Hl Hct Hst. induction Hst as [l|l1 l2 l3 Hst IH Hs]; [done|]. intros Hsz.
  destruct (steps_linked l1 l2 Hl Hst) as [Hl2 _]. destruct (step_linked l2 l3 Hl2 Hs) as [Hl3 [Hg _]].
  apply map_subseteq_size in Hg. destruct (IH Hl Hct) as [_ Hc2]; [lia|].
  split; [done|]. exact (step_counted l2 l3 Hl2 Hc2 Hs Hsz).
Qed.

Lemma empty_counted : counted NewMemoryLedger.
Proof. split; intros *; simpl; by rewrite lookup_empty. Qed.

(** After a successful transition its receipt is recorded under its key. *)
Lemma locked_recorded l c fresh now l' out :
  linked l -> command_ok c -> named c -> fresh_id l fresh ->
  transitionLocked l c fresh now = (l', Ok out) ->
  linked l' /\ (exists id, byKey l' !! CmdIdempotencyKey c = Some id /\
     receipts l' !! id = Some out.2 /\ receiptMatchesCommand out.2 c = true).
Proof.
  intros Hl Hc Hn Hf Ht.
  apply transitionLocked_inv in Ht as [(-> & id & Hk & Hr)|[(_ & _ & Hr)|(Hk & gen & out' & Ha & Hcom & Hr)]];
    [| by simplify_eq/= |].
  - split; [done|]. exists id. split; [done|]. symmetry in Hr.
    pose proof (replay_ok_match _ _ _ _ Hr) as Hm. split; [|done].
    destruct (linked_key l Hl _ _ Hk) as (r & Hrec & _). unfold replay_transition in Hr.
    rewrite Hrec in Hr. simpl in Hr. rewrite Hrec. go_inv Hr; done.
  - simplify_eq. pose proof (minted_id_fresh l c fresh Hl Hc Hn Hf Hk) as Hid.
    split; [by eapply commit_linked|].
    apply commit_fields in Hcom as (Hout & Hrec & Hby & _).
    exists (minted_id c fresh). rewrite Hby, Hrec, !lookup_insert_eq, Hout.
    split_and!; try done. apply newReceipt_matches.
Qed.

(** ** Evidence *)

Definition evidence_ok (m : gmap string AuthorizationEvidence) : Prop :=
  forall ref e, m !! ref = Some e -> EvidenceRef e = ref /\ Evidence_Validate e = Ok tt.

(** Evidence once pinned stays, up to equal JSON. *)
Definition evidence_kept (m m' : gmap string AuthorizationEvidence) : Prop :=
  forall ref e, m !! ref = Some e ->
    exists e', m' !! ref = Some e' /\ authorizationEvidenceEqual e e' = true.

Lemma evidence_kept_refl m : evidence_kept m m.
Proof. intros ref e He. exists e. split; [done|]. by apply bool_decide_eq_true_2. Qed.

Lemma evidence_kept_trans m1 m2 m3 : evidence_kept m1 m2 -> evidence_kept m2 m3 -> evidence_kept m1 m3.
Proof.
  intros H1 H2 ref e He. destruct (H1 _ _ He) as (e2 & He2 & Heq2).
  destruct (H2 _ _ He2) as (e3 & He3 & Heq3). exists e3. split; [done|].
  unfold authorizationEvidenceEqual in *. to_prop. apply bool_decide_eq_true_2. congruence.
Qed.

Lemma pin_kept m e :
  evidence_ok m -> Evidence_Validate e = Ok tt ->
  match m !! EvidenceRef e with
  | Some existing => negb (authorizationEvidenceEqual existing e)
  | None => false
  end = false ->
  evidence_ok (<[EvidenceRef e := e]> m) /\ evidence_kept m (<[EvidenceRef e := e]> m).
Proof.
  intros Hok Hv Hcol. split.
  - intros ref e' [[<- <-]|[_ He]]%lookup_insert_Some; [done|by apply Hok].
  - intros ref e' He. destruct (decide (ref = EvidenceRef e)) as [->|Hne].
    + rewrite He in Hcol. apply negb_false_iff in Hcol. exists e. by rewrite lookup_insert_eq.
    + exists e'. rewrite lookup_insert_ne by done. split; [done|]. by apply bool_decide_eq_true_2.
Qed.

Lemma combine_evidence_ok items m m' :
  evidence_ok m -> combine_evidence m items = Ok m' -> evidence_ok m' /\ evidence_kept m m'.
Proof.
  revert m. induction items as [|it items IH]; intros m Hok; simpl.
  - intros [= <-]. split; [done|]. apply evidence_kept_refl.
  - destruct (Evidence_Validate it) as [[]|] eqn:Hv; [|done].
    match goal with |- (if ?b then _ else _) = _ -> _ => destruct b eqn:Hcol; [done|] end.
    intros Hc. destruct (pin_kept m it Hok Hv Hcol) as [Hok1 Hk1].
    destruct (IH _ Hok1 Hc) as [Hok2 Hk2]. split; [done|]. by eapply evidence_kept_trans.
Qed.

Lemma locked_evidence l c fresh now l' res :
  transitionLocked l c fresh now = (l', res) -> evidence l' = evidence l.
Proof.
  intros [(-> & _)|[(-> & _)|(_ & gen & out & _ & Hcom & _)]]%transitionLocked_inv; try done.
  by apply commit_fields in Hcom as (_ & _ & _ & -> & _).
Qed.

Lemma step_evidence_ok l l' :
  evidence_ok (evidence l) -> step l l' ->
  evidence_ok (evidence l') /\ evidence_kept (evidence l) (evidence l').
Proof.
  intros Hok Hst. pose proof (evidence_kept_refl (evidence l)) as Hrefl.
  destruct Hst as [l c fresh now l' r Hn Hf Hnow Ht|l c items fresh now l' r Hn Hf Hnow Ht|l e l' r Hp].
  - apply Transition_inv in Ht as [[-> _]|[_ Hl]]; [done|]. apply locked_evidence in Hl. by rewrite Hl.
  - apply TransitionWithEvidence_inv in Ht as [[-> _]|(cb & l1 & q & _ & Hcb & _ & _ & -> & _)]; [done|].
    by eapply combine_evidence_ok.
  - unfold PinAuthorizationEvidence in Hp.
    destruct (Evidence_Validate e) as [[]|] eqn:Hv; [|by simplify_eq].
    match type of Hp with (if ?b then _ else _) = _ => destruct b eqn:Hcol; [by simplify_eq|] end.
    simplify_eq/=. by apply pin_kept.
Qed.

Lemma steps_evidence_ok l l' :
  evidence_ok (evidence l) -> steps l l' ->
  evidence_ok (evidence l') /\ evidence_kept (evidence l) (evidence l').
Proof.
  intros Hok Hst. induction Hst as [l|l1 l2 l3 Hst IH Hs].
  - split; [done|apply evidence_kept_refl].
  - destruct (IH Hok) as [Hok2 Hk2]. destruct (step_evidence_ok l2 l3 Hok2 Hs) as [Hok3 Hk3].
    split; [done|]. by eapply evidence_kept_trans.
Qed.

Lemma reachable_evidence_ok l : reachable l -> evidence_ok (evidence l).
Proof.
  intros Hr. apply (steps_evidence_ok NewMemoryLedger l); [|done]. intros ref e. simpl.
  by rewrite lookup_empty.
Qed.

Lemma verify_evidence_inv m c :
  verifyTransitionEvidenceMap m c = Ok tt ->
  exists approval certificate,
    m !! CmdApprovalRef c = Some approval /\ m !! CmdPromotionCertificateRef c = Some certificate /\
    EvidenceKind approval = EvidenceApproval /\
    EvidenceKind certificate = EvidencePromotionCertificate /\
    EvidenceRouteSlotID approval = CmdRouteSlotID c /\ EvidenceRouteSlotID certificate = CmdRouteSlotID c /\
    EvidenceVersion approval = CmdNew c /\ EvidenceVersion certificate = CmdNew c.
Proof.
  unfold verifyTransitionEvidenceMap.
  destruct (m !! CmdApprovalRef c) as [a|]; [|done].
  destruct (m !! CmdPromotionCertificateRef c) as [d|]; [|done].
  intros Hv. match type of Hv with (if ?b then _ else _) = _ => destruct b eqn:Hg; [done|] end.
  to_prop. exists a, d. by rewrite <-!SameVersion_eq.
Qed.

(** ** Properties *)

(** [C38] Every ledger that transitions and pins reach, as long as fewer than 2^64
    receipts were written: keys and receipts refer to each other one to one, the
    latest receipt of a slot belongs to it and records its version and
    generation, generations start at one and are at most the number of receipts,
    and every recorded receipt passes the validation of its readers. The SHA-1
    UUIDs of the bootstraps of the run are assumed to differ where their names
    do. *)
Theorem ledger_invariant l
    (Hr : reachable l) (Hsz : Z.of_nat (size (receipts l)) < 2 ^ 64) :
  linked l /\ counted l.
Proof. apply (steps_counted _ _ empty_linked empty_counted Hr Hsz). Qed.

(** The transition of the slot a command asks for. *)
Definition slot_change (l l' : Ledger) (c : TransitionCommand) (slot : Slot) : Prop :=
  let k := CmdRouteSlotID c in
  match CmdKind c with
  | TransitionBootstrap =>
    slots l !! k = None /\ slots l' !! k = Some slot /\
    Current slot = CmdNew c /\ Generation slot = 1
  | TransitionBootstrapRollback =>
    exists s, slots l !! k = Some s /\ Generation s = 1 /\ Current s = CmdOld c /\ slots l' !! k = None
  | _ =>
    exists s, slots l !! k = Some s /\ Generation s = CmdExpectedGeneration c /\ Current s = CmdOld c /\
      slots l' !! k = Some slot /\ Current slot = CmdNew c /\ Generation slot = Generation s + 1 /\
      (CmdKind c = TransitionRollback ->
       exists t, receipts l !! CmdRollbackTargetReceiptID c = Some t /\ RouteSlotID_ t = k /\
         New t = Current slot /\ CommittedGeneration t < Generation s)
  end.

(** [C22] A transition with a new idempotency key is a compare-and-set: it
    succeeds only on a slot that holds the old version at the expected
    generation (or is absent, for a bootstrap), sets the new version at the next
    generation, without wrapping, or removes a bootstrapped slot, leaves every
    other slot alone, and records one valid receipt that matches the command; a
    rollback only goes to a version that an earlier, lower-generation receipt of
    the same slot proves. *)
Theorem transition_compare_and_set l c fresh now l' slot r
    (Hr : reachable l) (Hsz : Z.of_nat (size (receipts l)) < 2 ^ 64 - 1)
    (Hn : named (normalized c)) (Hf : fresh_id l fresh) (Hnow : now <> 0)
    (Ht : Transition false l c fresh now = (l', Ok (slot, r)))
    (Hnew : byKey l !! TrimSpace (CmdIdempotencyKey c) = None) :
  slot_change l l' (normalized c) slot /\
  (forall k, k <> CmdRouteSlotID (normalized c) -> slots l' !! k = slots l !! k) /\
  receipts l' = <[ReceiptID r := r]> (receipts l) /\
  Receipt_Validate r = Ok tt /\ ReceiptMatchesCommand r c = true.
Proof.
  destruct (steps_counted _ _ empty_linked empty_counted Hr) as [Hl [Hgen Hval]]; [lia|].
  apply Transition_inv in Ht as [[_ ?]|[Hc Ht]]; [done|].
  unfold ReceiptMatchesCommand.
  change (TrimSpace (CmdIdempotencyKey c)) with (CmdIdempotencyKey (normalized c)) in Hnew.
  set (d := normalized c) in *. clearbody d. clear c.
  apply transitionLocked_inv in Ht as [(_ & id & Hk & _)|[(_ & _ & ?)|(Hk & gen & out & Ha & Hcom & Hout)]];
    [congruence|done|].
  injection Hout as <-. pose proof (admit_inv _ _ _ Ha) as (Hslot & Hrb & Hbrb).
  apply commit_fields in Hcom as (Hr2 & Hrec & _ & _ & Hslots). simpl in Hr2, Hslots.
  assert (1 <= gen /\ forall s, slots l !! CmdRouteSlotID d = Some s -> gen = Generation s + 1) as [Hg1 Hgs].
  { destruct (slots l !! CmdRouteSlotID d) as [s|] eqn:Es.
    - destruct Hslot as (_ & _ & _ & ->). pose proof (Hgen _ _ Es).
      rewrite wrap_u64_small by (unfold is_u64; lia). split; [lia|]. by intros ? [= <-].
    - destruct Hslot as [_ ->]. split; [lia|done]. }
  assert (Receipt_Validate r = Ok tt) as Hvr.
  { rewrite Hr2. by eapply newReceipt_valid. }
  split_and!; [| |by rewrite Hrec, Hr2|done|rewrite Hr2; apply newReceipt_matches].
  - unfold slot_change. cbv zeta.
    destruct (slots l !! CmdRouteSlotID d) as [s|] eqn:Es.
    + destruct Hslot as (Hnb & Hgen_s & Hcur & _). specialize (Hgs s eq_refl).
      destruct (CmdKind d) eqn:EK; try done.
      all: case_bool_decide; try done; destruct Hslots as [Hsl ->]; rewrite Hsl.
      * exists s. rewrite lookup_insert_eq. by split_and!.
      * exists s. rewrite lookup_insert_eq. split_and!; try done. intros _.
        destruct (Hrb eq_refl) as (s' & t & Hs' & Htg & H1 & H2 & H3). exists t. by simplify_eq.
      * exists s. rewrite lookup_delete_eq. split_and!; try done.
        pose proof (cmd_kind _ Hc) as Hk2. rewrite EK in Hk2. by destruct Hk2 as [<- _].
      * pose proof (cmd_kind _ Hc) as Hk2. by rewrite EK in Hk2.
    + destruct Hslot as [EK ->]. rewrite EK in *.
      rewrite bool_decide_eq_false_2 in Hslots by done. destruct Hslots as [Hsl ->].
      rewrite Hsl, lookup_insert_eq. done.
  - intros k Hk2. case_bool_decide; destruct Hslots as [-> _];
      [by rewrite lookup_delete_ne|by rewrite lookup_insert_ne].
Qed.

(** [C23] Idempotency: once a command has succeeded, in every later state of the
    ledger the same command changes nothing and returns the receipt it returned
    the first time, with the slot as it is now (the rollback of a bootstrap is
    refused as stale when the slot has come back); and no other command can ever
    use its key: it is refused and changes nothing. *)
Theorem transition_replay l c fresh now l1 slot r l2 c2 fresh2 now2
    (Hr : reachable l) (Hn : named (normalized c)) (Hf : fresh_id l fresh)
    (Ht : Transition false l c fresh now = (l1, Ok (slot, r)))
    (Hst : steps l1 l2)
    (Hv : is_ok (Validate (normalized c2)) = true)
    (Hkey : TrimSpace (CmdIdempotencyKey c2) = TrimSpace (CmdIdempotencyKey c)) :
  Transition false l2 c2 fresh2 now2 =
   (l2, if negb (ReceiptMatchesCommand r c2) then Err ErrIdempotencyReuse
        else match CmdKind c2, slots l2 !! TrimSpace (CmdRouteSlotID c2) with
             | TransitionBootstrapRollback, Some _ => Err ErrStaleTransition
             | _, s => Ok (default zero_slot s, r)
             end) /\
  ReceiptMatchesCommand r c = true.
Proof.
  destruct (steps_linked _ _ empty_linked Hr) as [Hl _].
  apply Transition_inv in Ht as [[_ ?]|[Hc Ht]]; [done|].
  destruct (locked_recorded _ _ _ _ _ _ Hl Hc Hn Hf Ht) as (Hl1 & id & Hk & Hrec & Hm).
  destruct (steps_linked _ _ Hl1 Hst) as [_ [G1 G2]].
  split; [|exact Hm]. unfold Transition.
  destruct (Validate (normalized c2)) as [[]|]; [|done].
  unfold transitionLocked.
  assert (byKey l2 !! CmdIdempotencyKey (normalized c2) = Some id) as ->.
  { eapply lookup_weaken; [|exact G2]. simpl in *. by rewrite Hkey. }
  unfold replay_transition. erewrite lookup_weaken by (exact Hrec || exact G1).
  unfold ReceiptMatchesCommand. simpl.
  destruct (receiptMatchesCommand r (normalized c2)); simpl; [|done].
  destruct (CmdKind c2), (slots l2 !! TrimSpace (CmdRouteSlotID c2)); done.
Qed.

(** [C36] A transition with evidence is atomic and authorized: if it is refused,
    for whatever reason, the ledger is exactly what it was; if it succeeds, the
    approval and the promotion certificate the command names are pinned in the
    ledger under their own references, are valid (their references are the
    hashes of their contents), have the two kinds, and are bound to the route
    and the new version; and no evidence pinned before is lost or replaced by
    evidence that differs. *)
Theorem transition_with_evidence_atomic l c items fresh now l' res
    (Hr : reachable l) (Ht : TransitionWithEvidence false l c items fresh now = (l', res)) :
  match res with
  | Err _ => l' = l
  | Ok _ =>
    let d := normalized c in
    (exists approval certificate,
      evidence l' !! CmdApprovalRef d = Some approval /\
      evidence l' !! CmdPromotionCertificateRef d = Some certificate /\
      EvidenceRef approval = CmdApprovalRef d /\
      EvidenceRef certificate = CmdPromotionCertificateRef d /\
      Evidence_Validate approval = Ok tt /\ Evidence_Validate certificate = Ok tt /\
      EvidenceKind approval = EvidenceApproval /\
      EvidenceKind certificate = EvidencePromotionCertificate /\
      EvidenceRouteSlotID approval = CmdRouteSlotID d /\
      EvidenceRouteSlotID certificate = CmdRouteSlotID d /\
      EvidenceVersion approval = CmdNew d /\ EvidenceVersion certificate = CmdNew d) /\
    evidence_kept (evidence l) (evidence l')
  end.
Proof.
  apply TransitionWithEvidence_inv in Ht
    as [[-> Hres]|(cb & l1 & q & Hc & Hcb & Hve & Hl & -> & ->)]; [by destruct res|]. simpl.
  destruct (combine_evidence_ok _ _ _ (reachable_evidence_ok l Hr) Hcb) as [Hok Hkept].
  split; [|done].
  apply verify_evidence_inv in Hve as (a & ce & Ha & Hce & Hrest).
  exists a, ce. destruct (Hok _ _ Ha) as [Ra Va], (Hok _ _ Hce) as [Rc Vc]. destruct_and!. by split_and!.
Qed.
End Ledger.

(** Route slot identifiers round trip: the identifier built from an owner
    and a computer parses back to the two (trimmed), and whatever identifier
    parses is, trimmed, the one built from the parts it gives; so distinct pairs
    never share a slot. *)
Theorem route_slot_id_roundtrip ownerID computerID slotID :
  (RouteSlotID ownerID computerID = Ok slotID ->
   ParseRouteSlotID slotID = Ok (TrimSpace ownerID, TrimSpace computerID)) /\
  (ParseRouteSlotID slotID = Ok (ownerID, computerID) ->
   RouteSlotID ownerID computerID = Ok (TrimSpace slotID)).
Proof.
  split.
  - unfold RouteSlotID. set (o := TrimSpace ownerID). set (k := TrimSpace computerID).
    assert (TrimSpace o = o /\ TrimSpace k = k) as [Ho Hk] by (split; apply TrimSpace_idemp).
    clearbody o k. intros Hs.
    destruct ((o == "") || (k == "")) eqn:E1; [done|].
    destruct (ContainsAny o forbidden || ContainsAny k forbidden) eqn:E2; [done|].
    injection Hs as <-. to_prop.
    assert (forall x, ContainsAny x forbidden = false -> ":"%char ∉ chars x) as Hno.
    { intros x Hx. eapply ContainsAny_not; [exact Hx|]. unfold forbidden.
      rewrite chars_of_chars. set_solver. }
    assert (TrimSpace ("computer:" +:+ o +:+ ":" +:+ k) = "computer:" +:+ o +:+ ":" +:+ k) as Htrim.
    { apply TrimSpace_fixed; [done|]. rewrite !chars_app, (assoc_L (++)).
      change (chars ":" ++ chars k) with (":"%char :: chars k).
      apply rlead_app; [|by apply TrimSpace_rlead].
      intros Hnil. apply (f_equal of_chars) in Hnil. by rewrite of_chars_chars in Hnil. }
    unfold ParseRouteSlotID. rewrite Htrim. unfold Split. rewrite !chars_app.
    change (chars "computer:" ++ ?x) with (chars "computer" ++ ":"%char :: x).
    change (chars ":" ++ ?x) with (":"%char :: x).
    rewrite split_chars_app by by_deciding.
    rewrite split_chars_app by auto. rewrite split_chars_last by auto. simpl.
    rewrite !of_chars_chars. decide_all. unfold RouteSlotID. rewrite Ho, Hk. decide_all.
    rewrite H, H0. simpl. by rewrite bool_decide_eq_true_2.
  - unfold ParseRouteSlotID. intros Hp.
    destruct (Split (TrimSpace slotID) ":") as [|p0 [|p1 [|p2 [|]]]]; try done.
    destruct (_ || _ || _); [done|]. destruct (RouteSlotID p1 p2) as [canonical|] eqn:Hc; [|done].
    destruct (canonical != TrimSpace slotID) eqn:E; [done|]. to_prop. done.
Qed.

(** ** A small history to evaluate *)
Module Demo.
#[local] Existing Instance checksum.
#[local] Existing Instance ByDigit.uuid_by_digit.
#[local] Existing Instance ByDigit.uuid_sha1_by_digit.

Definition slot_id : string := "computer:owner:computer-1".
Definition version (s : string) : ComputerVersion := Build_ComputerVersion s "program".
Definition fresh (n : Z) : string := "00000000-0000-4000-8000-00000000000" +:+ itoa n.
Definition valid_or {A} (d : A) (r : res ledger_error A) : A := match r with Ok a => a | Err _ => d end.
Definition no_evidence : AuthorizationEvidence :=
  Build_AuthorizationEvidence "" (EvidenceUnknown "") "" zero_version "" "" 0.
Definition evidence_for (k : AuthorizationEvidenceKind) (v : string) : AuthorizationEvidence :=
  valid_or no_evidence (NewAuthorizationEvidence k slot_id (version v) "{}" 5).

Definition command (k : TransitionKind) (old new : string) (gen : Z) (target key : string) : TransitionCommand := {|
  CmdRouteSlotID := slot_id; CmdKind := k;
  CmdOld := if old == "" then zero_version else version old; CmdNew := version new;
  CmdExpectedGeneration := gen;
  CmdApprovalRef := EvidenceRef (evidence_for EvidenceApproval new);
  CmdPromotionCertificateRef := EvidenceRef (evidence_for EvidencePromotionCertificate new);
  CmdRollbackTargetReceiptID := target; CmdIdempotencyKey := "idempotency:" +:+ key |}.

Definition boot : TransitionCommand := command TransitionBootstrap "" "a" 0 "" "k1".
Definition promote : TransitionCommand := command TransitionPromote "a" "b" 1 "" "k2".
Definition rollback : TransitionCommand :=
  command TransitionRollback "b" "a" 2 (BootstrapReceiptID slot_id "idempotency:k1") "k3".
Definition items (v : string) : list AuthorizationEvidence :=
  [evidence_for EvidenceApproval v; evidence_for EvidencePromotionCertificate v].

Definition out {A} (p : Ledger * res ledger_error A) : Ledger := p.1.
Definition run1 := TransitionWithEvidence false NewMemoryLedger boot (items "a") (fresh 1) 7.
Definition run2 := Transition false (out run1) promote (fresh 2) 8.
Definition run3 := Transition false (out run2) rollback (fresh 3) 9.
Definition result (p : Ledger * res ledger_error (Slot * TransitionReceipt)) : Slot * TransitionReceipt :=
  valid_or (zero_slot, zero_receipt) p.2.

Lemma fresh_ok l n : uuid_version (fresh n) = Some 4 -> receipts l !! fresh n = None -> fresh_id l (fresh n).
Proof. by split. Qed.

Lemma run1_fresh : fresh_id NewMemoryLedger (fresh 1).
Proof. apply fresh_ok; vm_compute; reflexivity. Qed.
Lemma run2_fresh : fresh_id (out run1) (fresh 2).
Proof. apply fresh_ok; vm_compute; reflexivity. Qed.
Lemma run3_fresh : fresh_id (out run2) (fresh 3).
Proof. apply fresh_ok; vm_compute; reflexivity. Qed.

(** The one bootstrap of the demonstration. *)
Definition boot_name (x : string) : Prop := x = bootstrap_name slot_id "idempotency:k1".
Lemma boot_names_distinct : sha1_distinct boot_name.
Proof. by intros x y -> ->. Qed.

Lemma boot_named : named boot_name (normalized boot).
Proof. by vm_compute. Qed.
Lemma other_named c : CmdKind c <> TransitionBootstrap -> named boot_name (normalized c).
Proof. intros Hne Hk. by destruct Hne. Qed.

Lemma run1_ok : TransitionWithEvidence false NewMemoryLedger boot (items "a") (fresh 1) 7
  = (out run1, Ok (result run1)).
Proof. vm_compute. reflexivity. Qed.
Lemma run2_ok : Transition false (out run1) promote (fresh 2) 8
  = (out run2, Ok ((result run2).1, (result run2).2)).
Proof. vm_compute. reflexivity. Qed.
Lemma run3_ok : Transition false (out run2) rollback (fresh 3) 9
  = (out run3, Ok ((result run3).1, (result run3).2)).
Proof. vm_compute. reflexivity. Qed.

Lemma run1_reachable : reachable boot_name (out run1).
Proof.
  eapply steps_next; [apply steps_refl|].
  eapply (step_evidence _ _ _ _ _ _ _ _ boot_named run1_fresh); [|exact run1_ok]. done.
Qed.
Lemma run2_reachable : reachable boot_name (out run2).
Proof.
  eapply steps_next; [apply run1_reachable|].
  eapply (step_transition _ _ _ _ _ _ _ (other_named promote ltac:(done)) run2_fresh); [|exact run2_ok]. done.
Qed.

Lemma ledger_invariant_witness :
  (exists s, slots (out run2) !! slot_id = Some s /\ Generation s = 2) /\
  linked boot_name (out run2) /\ counted (out run2).
Proof.
  split; [eexists; split; vm_compute; reflexivity|].
  apply (ledger_invariant boot_name boot_names_distinct (out run2) run2_reachable). vm_compute. reflexivity.
Defined.

Lemma transition_compare_and_set_witness :
  Current (result run3).1 = version "a" /\ ReceiptMatchesCommand (result run3).2 rollback = true.
Proof.
  split; [vm_compute; reflexivity|].
  destruct (transition_compare_and_set boot_name boot_names_distinct (out run2) rollback (fresh 3) 9 (out run3)
    (result run3).1 (result run3).2 run2_reachable) as (_ & _ & _ & _ & Hm).
  - vm_compute. reflexivity.
  - apply other_named. done.
  - exact run3_fresh.
  - lia.
  - exact run3_ok.
  - vm_compute. reflexivity.
  - exact Hm.
Defined.

Lemma transition_replay_witness :
  (Transition false (out run2) boot (fresh 9) 10).1 = out run2 /\
  ReceiptMatchesCommand (result run2).2 promote = true.
Proof.
  split; [vm_compute; reflexivity|].
  destruct (transition_replay boot_name boot_names_distinct (out run1) promote (fresh 2) 8 (out run2)
    (result run2).1 (result run2).2 (out run2) promote (fresh 9) 10 run1_reachable) as [_ Hm].
  - apply other_named. done.
  - exact run2_fresh.
  - exact run2_ok.
  - apply steps_refl.
  - vm_compute. reflexivity.
  - reflexivity.
  - exact Hm.
Defined.

Lemma transition_with_evidence_atomic_witness :
  is_ok run1.2 = true /\
  exists a, evidence (out run1) !! CmdApprovalRef boot = Some a /\ EvidenceVersion a = version "a".
Proof.
  split; [vm_compute; reflexivity|].
  pose proof (transition_with_evidence_atomic boot_name NewMemoryLedger boot (items "a") (fresh 1) 7
    (out run1) (Ok (result run1)) (steps_refl _ _) run1_ok) as Ht.
  destruct Ht as [(a & ce & Ha & _ & _ & _ & _ & _ & _ & _ & _ & _ & Hv & _) _].
  exists a. split; [exact Ha|exact Hv].
Defined.

Lemma route_slot_id_roundtrip_witness :
  RouteSlotID " owner" "computer-1 " = Ok slot_id /\
  ParseRouteSlotID slot_id = Ok (TrimSpace " owner", TrimSpace "computer-1 ") /\
  TrimSpace " owner" = "owner".
Proof.
  assert (RouteSlotID " owner" "computer-1 " = Ok slot_id) as Hr by (vm_compute; reflexivity).
  split; [exact Hr|]. split; [|vm_compute; reflexivity].
  exact (proj1 (route_slot_id_roundtrip " owner" "computer-1 " slot_id) Hr).
Defined.
End Demo.
End RouteLedger.
