(* ===== verification/BaseModel.v ===== *)
(** * BaseModel: the value types of Choir Base

    Models [internal/base/model/types.go] and the [Tree] snapshot that
    [internal/base/tree] and [internal/base/planner] each declare with the same
    two maps. Times are instants in UTC; a [*time.Time] is an option. *)
From S2P Require Import Prelude GoStrings GoTime.
From Stdlib Require Import Ascii.

Module BaseModel.

(** ** Identifiers *)
Definition prefixed (prefix s : string) : bool := HasPrefix s prefix && Nat.ltb (len prefix) (len s).

Definition ItemID_Valid (id : string) : bool := prefixed "base_item_" id.

Definition BlobRef_Valid (b : string) : bool :=
  if b == "" then true
  else if negb (HasPrefix b "sha256:") then false
  else let hex := drop_string (len "sha256:") b in
       if negb (Nat.eqb (len hex) 64) then false else forallb is_lower_hex (chars hex).

Definition VersionID_Valid (v : string) : bool := if v == "" then true else prefixed "base_ver_" v.

Definition EventID_Valid (e : string) : bool := prefixed "base_evt_" e.

(** ** Items and versions *)
Inductive ItemKind := KindFile | KindFolder | KindOther (s : string).

#[export] Instance ItemKind_eq_dec : EqDecision ItemKind.
Proof. solve_decision. Defined.

Definition kind_string (k : ItemKind) : string :=
  match k with KindFile => "file" | KindFolder => "folder" | KindOther s => s end.

(** The kind a string denotes. *)
Definition kind_of_string (s : string) : ItemKind :=
  if s == "file" then KindFile else if s == "folder" then KindFolder else KindOther s.

Definition ItemKind_Valid (k : ItemKind) : bool :=
  match k with KindFile | KindFolder => true | KindOther _ => false end.

Record Item := {
  ItemID : string;
  OwnerID : string;
  ParentItemID : string;
  Name : string;
  Kind : ItemKind;
  CurrentVersion : string;
  DeletedAt : option Time;
  CreatedAt : Time;
  UpdatedAt : Time;
}.

#[export] Instance Item_eq_dec : EqDecision Item.
Proof. solve_decision. Defined.

Definition zero_item : Item := Build_Item "" "" "" "" (KindOther "") "" None 0%Z 0%Z.

Definition Item_Valid (i : Item) : bool :=
  if negb (ItemID_Valid (ItemID i)) then false
  else if negb (ItemKind_Valid (Kind i)) then false
  else if negb (VersionID_Valid (CurrentVersion i)) then false
  else if (Kind i == KindFolder) && (CurrentVersion i == "") && (DeletedAt i == None) then false
  else true.

Definition Location (i : Item) : string * string := (ParentItemID i, Name i).

Record Version := {
  VersionID : string;
  VersionItemID : string;
  BlobRef : string;
  MediaType : string;
  ContentHash : string;
  ManifestJSON : string;
  ProvenanceJSON : string;
  CreatedByDevice : string;
  CreatedBySubject : string;
  VersionCreatedAt : Time;
}.

#[export] Instance Version_eq_dec : EqDecision Version.
Proof. solve_decision. Defined.

Definition zero_version : Version := Build_Version "" "" "" "" "" "" "" "" "" 0%Z.

Definition Version_Valid (v : Version) : bool :=
  if negb (VersionID_Valid (VersionID v)) then false
  else if VersionID v == "" then false
  else if negb (ItemID_Valid (VersionItemID v)) then false
  else if negb (BlobRef_Valid (BlobRef v)) then false
  else if (BlobRef v == "") && (ContentHash v != "") then false
  else true.

Record Blob := { Blob_BlobRef : string; SizeBytes : Z; SHA256 : string; Blob_CreatedAt : Time }.

Definition Blob_Valid (b : Blob) : bool :=
  if (Blob_BlobRef b == "") || negb (BlobRef_Valid (Blob_BlobRef b)) then false
  else if (SizeBytes b <? 0)%Z then false
  else if (SHA256 b != "") && (SHA256 b != drop_string (len "sha256:") (Blob_BlobRef b)) then false
  else true.

(** ** Events *)
Inductive EventType :=
  | EventCreate | EventUpdate | EventDelete | EventMove | EventBlobUpload
  | EventOther (s : string).

#[export] Instance EventType_eq_dec : EqDecision EventType.
Proof. solve_decision. Defined.

Definition event_type_string (t : EventType) : string :=
  match t with
  | EventCreate => "create" | EventUpdate => "update" | EventDelete => "delete"
  | EventMove => "move" | EventBlobUpload => "blob_upload" | EventOther s => s
  end.

Definition EventType_Valid (t : EventType) : bool :=
  match t with EventOther _ => false | _ => true end.

Record Event := {
  EventID : string;
  Event_OwnerID : string;
  Event_ItemID : string;
  DeviceID : string;
  SubjectID : string;
  Event_Type : EventType;
  Event_Kind : ItemKind;
  Event_BlobRef : string;
  ParentEventID : string;
  CursorSeq : Z;
  PayloadJSON : string;
  Event_CreatedAt : Time;
}.

#[export] Instance Event_eq_dec : EqDecision Event.
Proof. solve_decision. Defined.

Definition Event_Valid (e : Event) : bool :=
  if negb (EventID_Valid (EventID e)) then false
  else if negb (ItemID_Valid (Event_ItemID e)) then false
  else if negb (EventType_Valid (Event_Type e)) then false
  else if (CursorSeq e <? 0)%Z then false
  else if Event_OwnerID e == "" then false
  else true.

(** ** Sync status *)
Inductive SyncState :=
  | StateSynced | StateLocalOnly | StateRemoteOnly | StateConflict | StateStuck
  | StateOther (s : string).

Definition SyncState_Valid (s : SyncState) : bool :=
  match s with StateOther _ => false | _ => true end.

Record SyncStatus := {
  Status_OwnerID : string;
  Status_DeviceID : string;
  Status_ItemID : string;
  LocalVersionID : string;
  RemoteVersionID : string;
  SyncedVersionID : string;
  State : SyncState;
  LastError : string;
  RepairHandle : string;
  Status_UpdatedAt : Time;
}.

Definition SyncStatus_Valid (s : SyncStatus) : bool :=
  if negb (ItemID_Valid (Status_ItemID s)) then false
  else if negb (SyncState_Valid (State s)) then false
  else if negb (VersionID_Valid (LocalVersionID s)) || negb (VersionID_Valid (RemoteVersionID s))
          || negb (VersionID_Valid (SyncedVersionID s)) then false
  else true.

(** ** Trees *)
Record Tree := { Items : gmap string Item; Versions : gmap string Version }.

Definition NewTree : Tree := Build_Tree ∅ ∅.

Definition set_item (t : Tree) (id : string) (i : Item) : Tree := Build_Tree (<[id := i]> (Items t)) (Versions t).
Definition set_version (t : Tree) (id : string) (v : Version) : Tree := Build_Tree (Items t) (<[id := v]> (Versions t)).
Definition delete_version (t : Tree) (id : string) : Tree := Build_Tree (Items t) (delete id (Versions t)).

(** The zero value of a missing entry. *)
Definition version_of (t : Tree) (id : string) : Version := default zero_version (Versions t !! id).
Definition item_of (t : Tree) (id : string) : Item := default zero_item (Items t !! id).

(** A tombstone, or a record without a current version. *)
Definition isDeleted (i : Item) : bool := (DeletedAt i != None) || (CurrentVersion i == "").
End BaseModel.
