(* ===== verification/BasePlanner.v ===== *)
(** * BasePlanner: three-way reconciliation

    Models [internal/base/planner/planner.go]: [planItem] reconciles one item of
    the remote, local and synced trees, [pathCollisions] finds distinct items at
    one location, [Plan] collects both and sorts. Go visits maps in an arbitrary
    order, so the orders in which [Plan] visits the union of the identifiers and
    the items of the two trees are arguments; [ids_order] and [tree_order] say
    which lists are possible. [sort.Slice] is not stable: where two conflicts
    have one ItemID their order is open, so conflicts are compared up to
    permutation. *)
From S2P Require Import Prelude GoStrings GoTime BaseModel.
Import BaseModel.

Module BasePlanner.

Inductive ActionType :=
  | ActionDownload | ActionUpload | ActionDeleteLocal | ActionDeleteRemote
  | ActionUpdateLocal | ActionUpdateRemote | ActionMoveLocal | ActionMoveRemote.

#[export] Instance ActionType_eq_dec : EqDecision ActionType.
Proof. solve_decision. Defined.

Definition action_string (a : ActionType) : string :=
  match a with
  | ActionDownload => "download" | ActionUpload => "upload"
  | ActionDeleteLocal => "delete_local" | ActionDeleteRemote => "delete_remote"
  | ActionUpdateLocal => "update_local" | ActionUpdateRemote => "update_remote"
  | ActionMoveLocal => "move_local" | ActionMoveRemote => "move_remote"
  end.

Record Action := { Type_ : ActionType; Action_ItemID : string; Action_Version : Version; LocalPath : string }.

#[export] Instance Action_eq_dec : EqDecision Action.
Proof. solve_decision. Defined.

Record Conflict := {
  Conflict_ItemID : string; LocalVer : Version; RemoteVer : Version; SyncedVer : Version; Reason : string }.

#[export] Instance Conflict_eq_dec : EqDecision Conflict.
Proof. solve_decision. Defined.

Definition act (t : ActionType) (id : string) (v : Version) : Action := Build_Action t id v "".

(** ** Comparisons *)
Definition versionsEqual (a b : Version) : bool :=
  if (VersionID a != "") && (VersionID b != "") then VersionID a == VersionID b
  else (BlobRef a == BlobRef b) && (ContentHash a == ContentHash b).

Definition versionContentChanged (a b : Version) : bool := negb (versionsEqual a b).

Definition moved (item sItem : Item) : bool :=
  (ParentItemID item != ParentItemID sItem) || (Name item != Name sItem).

Definition locationsEqual (a b : Item) : bool :=
  (ParentItemID a == ParentItemID b) && (Name a == Name b).

Definition itemChanged (item : Item) (ver : Version) (sItem : Item) (sVer : Version) : bool :=
  versionContentChanged ver sVer || moved item sItem.

(** ** One item *)
Definition reconcileBothPresent (id : string) (rItem lItem sItem : Item) (rVer lVer sVer : Version)
    : list Action * list Conflict :=
  let localChanged := itemChanged lItem lVer sItem sVer in
  let remoteChanged := itemChanged rItem rVer sItem sVer in
  match localChanged, remoteChanged with
  | false, false => ([], [])
  | true, false =>
    if moved lItem sItem && negb (versionContentChanged lVer sVer) then ([act ActionMoveRemote id lVer], [])
    else if versionContentChanged lVer sVer && negb (moved lItem sItem) then ([act ActionUpdateRemote id lVer], [])
    else if versionContentChanged lVer sVer && moved lItem sItem then ([act ActionUpdateRemote id lVer], [])
    else ([act ActionMoveRemote id lVer], [])
  | false, true =>
    if moved rItem sItem && negb (versionContentChanged rVer sVer) then ([act ActionMoveLocal id rVer], [])
    else if versionContentChanged rVer sVer && negb (moved rItem sItem) then ([act ActionUpdateLocal id rVer], [])
    else if versionContentChanged rVer sVer && moved rItem sItem then ([act ActionUpdateLocal id rVer], [])
    else ([act ActionMoveLocal id rVer], [])
  | true, true =>
    if versionsEqual lVer rVer && locationsEqual lItem rItem then ([], []) else
    let lMoved := moved lItem sItem in
    let rMoved := moved rItem sItem in
    let lContent := versionContentChanged lVer sVer in
    let rContent := versionContentChanged rVer sVer in
    let reason :=
      if (lMoved || rMoved) && (lContent || rContent)
      then "move/edit: one side moved, the other edited (or both)"
      else if lMoved && rMoved && negb (locationsEqual lItem rItem)
      then "move/move: both sides moved to different locations"
      else "both modified" in
    ([], [Build_Conflict id lVer rVer sVer reason])
  end.

Definition planItem (id : string) (remote local synced : Tree) : list Action * list Conflict :=
  let rItem := item_of remote id in let rHas := bool_decide (is_Some (Items remote !! id)) in
  let lItem := item_of local id in let lHas := bool_decide (is_Some (Items local !! id)) in
  let sItem := item_of synced id in let sHas := bool_decide (is_Some (Items synced !! id)) in
  let rVer := version_of remote id in
  let lVer := version_of local id in
  let sVer := version_of synced id in
  let rPresent := rHas && negb (isDeleted rItem) in
  let lPresent := lHas && negb (isDeleted lItem) in
  let sPresent := sHas && negb (isDeleted sItem) in
  let lCorrupt := lPresent && (CurrentVersion lItem != "") && (VersionID lVer == "") in
  let rCorrupt := rPresent && (CurrentVersion rItem != "") && (VersionID rVer == "") in
  if lCorrupt || rCorrupt then
    let reason :=
      if rCorrupt && negb lCorrupt then "corrupt remote item: version record missing"
      else if lCorrupt && rCorrupt then "corrupt items on both sides: version records missing"
      else "corrupt local item: version record missing" in
    ([], [Build_Conflict id lVer rVer sVer reason])
  else if sPresent then
    match lPresent, rPresent with
    | true, true => reconcileBothPresent id rItem lItem sItem rVer lVer sVer
    | true, false =>
      if itemChanged lItem lVer sItem sVer
      then ([], [Build_Conflict id lVer zero_version sVer "modify/delete: local modified, remote deleted"])
      else ([act ActionDeleteLocal id lVer], [])
    | false, true =>
      if itemChanged rItem rVer sItem sVer
      then ([], [Build_Conflict id zero_version rVer sVer "modify/delete: remote modified, local deleted"])
      else ([act ActionDeleteRemote id rVer], [])
    | false, false => ([], [])
    end
  else
    match lPresent, rPresent with
    | true, true =>
      if versionsEqual lVer rVer && locationsEqual lItem rItem then ([], [])
      else ([], [Build_Conflict id lVer rVer zero_version
                   "add/add: both sides created the same item with different content or location"])
    | true, false => ([act ActionUpload id lVer], [])
    | false, true => ([act ActionDownload id rVer], [])
    | false, false => ([], [])
    end.

(** ** Path collisions *)

(** The first loop: the last live local item visited at each location. *)
Definition local_at (local : Tree) (order : list (string * Item)) : gmap (string * string) (string * Version) :=
  foldl (fun seen p =>
    if isDeleted p.2 then seen
    else <[(ParentItemID p.2, Name p.2) := (p.1, version_of local p.1)]> seen) ∅ order.

Definition collision_reason (localID id : string) : string :=
  "add/add path collision: local item " +:+ localID +:+ " and remote item " +:+ id
  +:+ " occupy the same path".

Definition collision_of (remote : Tree) (seen : gmap (string * string) (string * Version))
    (p : string * Item) : list Conflict :=
  if isDeleted p.2 then [] else
  match seen !! (ParentItemID p.2, Name p.2) with
  | None => []
  | Some (localID, localVer) =>
    if (localID == "") || (localID == p.1) then []
    else [Build_Conflict p.1 localVer (version_of remote p.1) zero_version (collision_reason localID p.1)]
  end.

Definition pathCollisions (remote local : Tree) (remote_order local_order : list (string * Item)) : list Conflict :=
  let seen := local_at local local_order in
  remote_order ≫= collision_of remote seen.

(** ** The plan *)
Definition action_less (a b : Action) : bool :=
  if Action_ItemID a != Action_ItemID b then String.ltb (Action_ItemID a) (Action_ItemID b)
  else String.ltb (action_string (Type_ a)) (action_string (Type_ b)).

Definition sortActions (l : list Action) : list Action := sort_slice action_less l.

Definition sortConflicts (l : list Conflict) : list Conflict :=
  sort_slice (fun a b => String.ltb (Conflict_ItemID a) (Conflict_ItemID b)) l.

Definition Plan (remote local synced : Tree)
    (ids : list string) (remote_order local_order : list (string * Item)) : list Action * list Conflict :=
  let per := map (fun id => planItem id remote local synced) ids in
  let actions := per ≫= fst in
  let conflicts := (per ≫= snd) ++ pathCollisions remote local remote_order local_order in
  (sortActions actions, sortConflicts conflicts).

(** The orders in which Go may range over the maps. *)
Definition all_ids (remote local synced : Tree) : gset string :=
  dom (Items remote) ∪ dom (Items local) ∪ dom (Items synced).

Definition ids_order (remote local synced : Tree) (l : list string) : Prop :=
  l ≡ₚ elements (all_ids remote local synced).

Definition tree_order (t : Tree) (l : list (string * Item)) : Prop := l ≡ₚ map_to_list (Items t).

Lemma ids_order_refl remote local synced :
  ids_order remote local synced (elements (all_ids remote local synced)).
Proof. by unfold ids_order. Qed.

Lemma tree_order_refl t : tree_order t (map_to_list (Items t)).
Proof. by unfold tree_order. Qed.

#[export] Hint Resolve ids_order_refl tree_order_refl : go.

(** ** [ApplyEvent] *)
Definition hasAppliedEvent (tree : Tree) (evt : Event) : bool :=
  match Items tree !! Event_ItemID evt with
  | None => false
  | Some item => UpdatedAt item == Event_CreatedAt evt
  end.

Definition touch (i : Item) (deleted : option Time) (version : string) (created updated : Time) : Item :=
  Build_Item (ItemID i) (OwnerID i) (ParentItemID i) (Name i) (Kind i) version deleted created updated.

Definition ApplyEvent (tree : Tree) (evt : Event) : Tree :=
  let id := Event_ItemID evt in
  let now := Event_CreatedAt evt in
  if match Items tree !! id with
     | Some existing => (UpdatedAt existing == now) && hasAppliedEvent tree evt
     | None => false
     end then tree
  else
    let item := item_of tree id in
    match Event_Type evt with
    | EventDelete => delete_version (set_item tree id (touch item (Some now) "" (CreatedAt item) now)) id
    | EventMove => set_item tree id (touch item (DeletedAt item) (CurrentVersion item) (CreatedAt item) now)
    | EventCreate | EventUpdate =>
      set_item tree id (touch item (DeletedAt item) (CurrentVersion item)
        (if IsZero (CreatedAt item) then now else CreatedAt item) now)
    | _ => tree
    end.

(** ** What a side holds of an item *)
Definition present (t : Tree) (id : string) : bool :=
  bool_decide (is_Some (Items t !! id)) && negb (isDeleted (item_of t id)).

Definition corrupt (t : Tree) (id : string) : bool :=
  present t id && (CurrentVersion (item_of t id) != "") && (VersionID (version_of t id) == "").

Definition changed (t synced : Tree) (id : string) : bool :=
  itemChanged (item_of t id) (version_of t id) (item_of synced id) (version_of synced id).

Definition same_item (a b : Tree) (id : string) : bool :=
  versionsEqual (version_of a id) (version_of b id) && locationsEqual (item_of a id) (item_of b id).

Definition same_content (a b : Version) : Prop := BlobRef a = BlobRef b /\ ContentHash a = ContentHash b.

Lemma versionsEqual_refl v : versionsEqual v v = true.
Proof.
  unfold versionsEqual. destruct (VersionID v != "") eqn:E; simpl; by rewrite !bool_decide_eq_true_2.
Qed.

Lemma locationsEqual_refl i : locationsEqual i i = true.
Proof. unfold locationsEqual. by rewrite !bool_decide_eq_true_2. Qed.

(** The action a change on one side propagates to the other. *)
Definition propagate (update move : ActionType) (id : string) (t synced : Tree) : Action :=
  act (if versionContentChanged (version_of t id) (version_of synced id) then update else move)
      id (version_of t id).

(** What must hold for an action to be planned: the side it writes does not hold
    the item, or holds it unchanged since the last synchronization. *)
Definition action_justified (id : string) (remote local synced : Tree) (a : Action) : Prop :=
  match Type_ a with
  | ActionDownload => present synced id = false /\ present local id = false /\ present remote id = true /\
      a = act ActionDownload id (version_of remote id)
  | ActionUpload => present synced id = false /\ present remote id = false /\ present local id = true /\
      a = act ActionUpload id (version_of local id)
  | ActionDeleteLocal => present synced id = true /\ present remote id = false /\ present local id = true /\
      changed local synced id = false /\ a = act ActionDeleteLocal id (version_of local id)
  | ActionDeleteRemote => present synced id = true /\ present local id = false /\ present remote id = true /\
      changed remote synced id = false /\ a = act ActionDeleteRemote id (version_of remote id)
  | ActionUpdateLocal | ActionMoveLocal =>
      present synced id = true /\ present local id = true /\ present remote id = true /\
      changed local synced id = false /\ changed remote synced id = true /\
      a = propagate ActionUpdateLocal ActionMoveLocal id remote synced
  | ActionUpdateRemote | ActionMoveRemote =>
      present synced id = true /\ present local id = true /\ present remote id = true /\
      changed remote synced id = false /\ changed local synced id = true /\
      a = propagate ActionUpdateRemote ActionMoveRemote id local synced
  end.

(** What happens to one item. *)
Inductive verdict (id : string) (remote local synced : Tree) : list Action -> list Conflict -> Prop :=
  | verdict_none : 
      corrupt remote id = false -> corrupt local id = false ->
      (present remote id = false /\ present local id = false) \/
      (present remote id = true /\ present local id = true /\
       (same_item local remote id = true \/
        (changed local synced id = false /\ changed remote synced id = false /\ present synced id = true))) ->
      verdict id remote local synced [] []
  | verdict_action a :
      corrupt remote id = false -> corrupt local id = false ->
      action_justified id remote local synced a ->
      verdict id remote local synced [a] []
  | verdict_conflict c :
      Conflict_ItemID c = id ->
      LocalVer c = (if present local id || corrupt remote id then version_of local id else zero_version) ->
      RemoteVer c = (if present remote id || corrupt local id then version_of remote id else zero_version) ->
      corrupt remote id = true \/ corrupt local id = true \/
      (present synced id = true /\ present remote id = false /\ present local id = true /\ changed local synced id = true) \/
      (present synced id = true /\ present local id = false /\ present remote id = true /\ changed remote synced id = true) \/
      (present local id = true /\ present remote id = true /\ same_item local remote id = false /\
       (present synced id = true -> changed local synced id = true /\ changed remote synced id = true)) ->
      verdict id remote local synced [] [c].

Lemma reconcile_verdict id remote local synced :
  corrupt remote id = false -> corrupt local id = false ->
  present synced id = true -> present local id = true -> present remote id = true ->
  let p := reconcileBothPresent id (item_of remote id) (item_of local id) (item_of synced id)
             (version_of remote id) (version_of local id) (version_of synced id) in
  verdict id remote local synced p.1 p.2.
Proof.
  intros Hcr Hcl Hs Hl Hr. unfold reconcileBothPresent.
  fold (changed local synced id). fold (changed remote synced id). fold (same_item local remote id).
  destruct (changed local synced id) eqn:El, (changed remote synced id) eqn:Er; simpl.
  - destruct (same_item local remote id) eqn:Es; simpl.
    + apply verdict_none; auto 10.
    + apply verdict_conflict; simpl; rewrite ?Hl, ?Hr; auto 10.
  - assert (forall a, a = propagate ActionUpdateRemote ActionMoveRemote id local synced ->
      verdict id remote local synced [a] []) as Hact.
    { intros a ->. apply verdict_action; [done..|]. unfold action_justified, propagate, act. simpl.
      destruct (versionContentChanged _ _); simpl; auto 10. }
    unfold propagate, changed, itemChanged in *.
    destruct (versionContentChanged (version_of local id) _), (moved (item_of local id) _); simpl in *; auto.
  - assert (forall a, a = propagate ActionUpdateLocal ActionMoveLocal id remote synced ->
      verdict id remote local synced [a] []) as Hact.
    { intros a ->. apply verdict_action; [done..|]. unfold action_justified, propagate, act. simpl.
      destruct (versionContentChanged _ _); simpl; auto 10. }
    unfold propagate, changed, itemChanged in *.
    destruct (versionContentChanged (version_of remote id) _), (moved (item_of remote id) _); simpl in *; auto.
  - apply verdict_none; auto 10.
Qed.

Lemma planItem_verdict id remote local synced :
  verdict id remote local synced (planItem id remote local synced).1 (planItem id remote local synced).2.
Proof.
  unfold planItem.
  fold (present remote id). fold (present local id). fold (present synced id).
  fold (corrupt remote id). fold (corrupt local id).
  destruct (corrupt local id || corrupt remote id) eqn:Hc; simpl.
  - apply orb_true_iff in Hc. apply verdict_conflict; simpl; [done| | |tauto].
    + destruct Hc as [Hc|Hc]; [|by rewrite Hc, orb_true_r]. pose proof Hc as Hc'.
      unfold corrupt in Hc'. to_prop. by rewrite H.
    + destruct Hc as [Hc|Hc]; [by rewrite Hc, orb_true_r|]. pose proof Hc as Hc'.
      unfold corrupt in Hc'. to_prop. by rewrite H.
  - apply orb_false_iff in Hc as [Hcl Hcr].
    destruct (present synced id) eqn:Hs; destruct (present local id) eqn:Hl, (present remote id) eqn:Hr.
    + by apply reconcile_verdict.
    + fold (changed local synced id). destruct (changed local synced id) eqn:Hch; simpl.
      * apply verdict_conflict; simpl; rewrite ?Hl, ?Hr, ?Hcl, ?Hcr; auto 10.
      * apply verdict_action; unfold action_justified; simpl; auto 10.
    + fold (changed remote synced id). destruct (changed remote synced id) eqn:Hch; simpl.
      * apply verdict_conflict; simpl; rewrite ?Hl, ?Hr, ?Hcl, ?Hcr; auto 10.
      * apply verdict_action; unfold action_justified; simpl; auto 10.
    + apply verdict_none; auto.
    + fold (same_item local remote id). destruct (same_item local remote id) eqn:He; simpl.
      * apply verdict_none; auto 10.
      * apply verdict_conflict; simpl; rewrite ?Hl, ?Hr; auto.
        right. right. right. right. split_and!; try done. congruence.
    + apply verdict_action; unfold action_justified; simpl; auto 10.
    + apply verdict_action; unfold action_justified; simpl; auto 10.
    + apply verdict_none; auto.
Qed.

Lemma present_version t id :
  present t id = true -> corrupt t id = false -> VersionID (version_of t id) <> "".
Proof.
  intros Hp Hc He. unfold corrupt in Hc. rewrite Hp, He in Hc. simpl in Hc.
  unfold present, isDeleted in Hp. to_prop. by rewrite bool_decide_eq_false_2 in Hc.
Qed.

(** ** The whole plan *)
Section Plan_facts.
Context (remote local synced : Tree).
Context (ids : list string) (ro lo : list (string * Item)).
Context (Hids : ids_order remote local synced ids).

Lemma elem_of_ids id : id ∈ ids <-> id ∈ all_ids remote local synced.
Proof. unfold ids_order in Hids. rewrite Hids. apply elem_of_elements. Qed.

Lemma present_all_ids t id : present t id = true -> t = remote \/ t = local \/ t = synced -> id ∈ ids.
Proof.
  intros Hp Ht. apply elem_of_ids. unfold all_ids. rewrite !elem_of_union, !elem_of_dom.
  unfold present in Hp. to_prop. destruct Ht as [->|[->| ->]]; auto.
Qed.

Lemma elem_of_actions a :
  a ∈ (Plan remote local synced ids ro lo).1 <->
  exists id, id ∈ ids /\ a ∈ (planItem id remote local synced).1.
Proof.
  unfold Plan, sortActions. simpl. rewrite elem_of_sort_slice, list_elem_of_bind.
  setoid_rewrite list_elem_of_fmap. split.
  - intros (p & Ha & id & -> & Hid). eauto.
  - intros (id & Hid & Ha). eauto.
Qed.

Lemma elem_of_conflicts c :
  c ∈ (Plan remote local synced ids ro lo).2 <->
  (exists id, id ∈ ids /\ c ∈ (planItem id remote local synced).2) \/
  c ∈ pathCollisions remote local ro lo.
Proof.
  unfold Plan, sortConflicts. simpl. rewrite elem_of_sort_slice, elem_of_app, list_elem_of_bind.
  setoid_rewrite list_elem_of_fmap. split.
  - intros [(p & Ha & id & -> & Hid)|Hp]; [left|right]; eauto.
  - intros [(id & Hid & Ha)|Hp]; [left|right]; eauto.
Qed.

Lemma planItem_action_id id a : a ∈ (planItem id remote local synced).1 -> Action_ItemID a = id.
Proof.
  pose proof (planItem_verdict id remote local synced) as Hv.
  destruct (planItem id remote local synced) as [acts cs]. simpl in *.
  destruct Hv as [|a' ? ? Ha|]; [by intros ?%elem_of_nil| |by intros ?%elem_of_nil].
  intros ->%list_elem_of_singleton.
  unfold action_justified in Ha. destruct (Type_ a'); destruct_and!; subst; done.
Qed.

Lemma planItem_conflict_id id c : c ∈ (planItem id remote local synced).2 -> Conflict_ItemID c = id.
Proof.
  pose proof (planItem_verdict id remote local synced) as Hv.
  destruct (planItem id remote local synced) as [acts cs]. simpl in *.
  destruct Hv; [by intros ?%elem_of_nil..|]. by intros ->%list_elem_of_singleton.
Qed.

Lemma planItem_none id :
  (planItem id remote local synced).1 = [] -> (planItem id remote local synced).2 = [] ->
  corrupt remote id = false /\ corrupt local id = false /\
  ((present remote id = false /\ present local id = false) \/
   (present remote id = true /\ present local id = true /\
    (same_item local remote id = true \/
     (changed local synced id = false /\ changed remote synced id = false /\ present synced id = true)))).
Proof.
  intros Ha Hc. pose proof (planItem_verdict id remote local synced) as Hv. rewrite Ha, Hc in Hv.
  inversion Hv; auto.
Qed.

(** The items at which two versions agree in content and location agree. *)
Lemma unchanged_agree id :
  VersionID (version_of local id) <> "" -> VersionID (version_of remote id) <> "" ->
  changed local synced id = false -> changed remote synced id = false ->
  locationsEqual (item_of local id) (item_of remote id) = true /\
  (versionsEqual (version_of local id) (version_of remote id) = true \/
   same_content (version_of local id) (version_of remote id)).
Proof.
  unfold changed, itemChanged, moved, versionContentChanged, locationsEqual, same_content.
  generalize (version_of local id), (version_of remote id), (version_of synced id).
  generalize (item_of local id), (item_of remote id), (item_of synced id).
  intros il ir i0 vl vr v0 Hvl Hvr Hl Hr. to_prop.
  split; [rewrite !bool_decide_eq_true_2 by congruence; done|].
  unfold versionsEqual in *.
  rewrite !(bool_decide_eq_false_2 (VersionID vl = "")) in * by done.
  rewrite !(bool_decide_eq_false_2 (VersionID vr = "")) in * by done.
  destruct (VersionID v0 != ""); simpl in *; to_prop; [left|right; split; congruence].
  by rewrite bool_decide_eq_true_2 by congruence.
Qed.

Lemma action_ids_NoDup : NoDup (Action_ItemID <$> (map (fun id => planItem id remote local synced) ids ≫= fst)).
Proof.
  assert (NoDup ids) as Hnd by (unfold ids_order in Hids; rewrite Hids; apply NoDup_elements).
  clear Hids. induction ids as [|id l IH]; csimpl; [constructor|].
  apply NoDup_cons in Hnd as [Hni Hnd]. rewrite fmap_app. apply NoDup_app. split_and!.
  - pose proof (planItem_verdict id remote local synced) as Hv. destruct Hv; simpl; by repeat constructor || set_solver.
  - intros x (a & -> & Ha)%list_elem_of_fmap (b & Hab & Hb)%list_elem_of_fmap.
    apply list_elem_of_bind in Hb as (p & Hb & (id' & -> & Hid')%list_elem_of_fmap).
    apply planItem_action_id in Ha, Hb. congruence.
  - by apply IH.
Qed.
End Plan_facts.

(** ** Path collisions *)

Definition unique_locations (t : Tree) : Prop :=
  forall id1 i1 id2 i2, Items t !! id1 = Some i1 -> Items t !! id2 = Some i2 ->
    isDeleted i1 = false -> isDeleted i2 = false -> Location i1 = Location i2 -> id1 = id2.

Definition no_corrupt (t : Tree) : Prop := forall id, corrupt t id = false.

Lemma local_at_lookup local l loc id v :
  (forall p q, p ∈ l -> q ∈ l -> isDeleted p.2 = false -> isDeleted q.2 = false ->
     Location p.2 = Location q.2 -> p.1 = q.1) ->
  local_at local l !! loc = Some (id, v) <->
  exists i, (id, i) ∈ l /\ isDeleted i = false /\ Location i = loc /\ v = version_of local id.
Proof.
  unfold local_at. induction l as [|[id0 i0] l IH] using rev_ind; intros Hu.
  - simpl. rewrite lookup_empty. split; [done|]. intros (i & Hi & _). by apply elem_of_nil in Hi.
  - rewrite foldl_snoc. simpl.
    assert (forall p q, p ∈ l -> q ∈ l -> isDeleted p.2 = false -> isDeleted q.2 = false ->
      Location p.2 = Location q.2 -> p.1 = q.1) as Hu' by (intros; apply Hu; set_solver).
    destruct (isDeleted i0) eqn:Hd0.
    + rewrite IH by done. split; intros (i & Hi & Hd & Hl & Hv); exists i; [set_solver|].
      apply elem_of_app in Hi as [Hi|Hi%list_elem_of_singleton]; [done|]. simplify_eq. congruence.
    + rewrite lookup_insert_Some. fold (Location i0). rewrite IH by done. split.
      * intros [[<- [= <- <-]]|(Hne & i & Hi & Hd & Hl & Hv)];
          [exists i0; split; [set_solver|done]|exists i; split; [set_solver|done]].
      * intros (i & Hi & Hd & Hl & ->). destruct (decide (Location i0 = loc)) as [He|Hne].
        -- left. split; [done|].
           assert (id0 = id) as -> by (apply (Hu (id0, i0) (id, i)); simpl; congruence || set_solver). done.
        -- right. split; [done|]. exists i. set_solver.
Qed.

Lemma tree_order_elem t l id i : tree_order t l -> (id, i) ∈ l <-> Items t !! id = Some i.
Proof. intros ->. apply elem_of_map_to_list. Qed.

Lemma local_at_spec local lo loc id v :
  tree_order local lo -> unique_locations local ->
  local_at local lo !! loc = Some (id, v) <->
  exists i, Items local !! id = Some i /\ isDeleted i = false /\ Location i = loc /\ v = version_of local id.
Proof.
  intros Hlo Hu. rewrite local_at_lookup.
  - by setoid_rewrite tree_order_elem.
  - intros [id1 i1] [id2 i2]. rewrite !(tree_order_elem local lo) by done. apply Hu.
Qed.

Lemma local_at_order local lo1 lo2 :
  tree_order local lo1 -> tree_order local lo2 -> unique_locations local ->
  local_at local lo1 = local_at local lo2.
Proof.
  intros H1 H2 Hu. apply map_eq. intros loc. apply option_eq. intros [id v].
  by rewrite !local_at_spec.
Qed.

Lemma elem_of_pathCollisions remote local ro lo c :
  tree_order remote ro -> tree_order local lo -> unique_locations local ->
  c ∈ pathCollisions remote local ro lo <->
  exists rid ri lid li, Items remote !! rid = Some ri /\ isDeleted ri = false /\
    Items local !! lid = Some li /\ isDeleted li = false /\ Location ri = Location li /\
    lid <> rid /\ lid <> "" /\
    c = Build_Conflict rid (version_of local lid) (version_of remote rid) zero_version (collision_reason lid rid).
Proof.
  intros Hro Hlo Hu. unfold pathCollisions. rewrite list_elem_of_bind. split.
  - intros ([rid ri] & Hc & Hr). rewrite (tree_order_elem remote ro) in Hr by done.
    unfold collision_of in Hc. simpl in Hc.
    destruct (isDeleted ri) eqn:Hd; [by apply elem_of_nil in Hc|].
    fold (Location ri) in Hc. destruct (local_at local lo !! Location ri) as [[lid lv]|] eqn:Hl;
      [|by apply elem_of_nil in Hc].
    apply (local_at_spec _ _ _ _ _ Hlo Hu) in Hl as (li & Hli & Hdl & Hloc & ->).
    destruct ((lid == "") || (lid == rid)) eqn:He; [by apply elem_of_nil in Hc|].
    apply list_elem_of_singleton in Hc as ->. to_prop. exists rid, ri, lid, li. split_and!; try done. unfold Location. congruence.
  - intros (rid & ri & lid & li & Hr & Hd & Hl & Hdl & Hloc & Hne & Hne' & ->).
    exists (rid, ri). rewrite (tree_order_elem remote ro) by done. split; [|done].
    unfold collision_of. simpl. rewrite Hd. fold (Location ri).
    assert (local_at local lo !! Location ri = Some (lid, version_of local lid)) as ->.
    { apply (local_at_spec _ _ _ _ _ Hlo Hu). by exists li. }
    rewrite !bool_decide_eq_false_2 by done. simpl. by apply list_elem_of_singleton.
Qed.

(** ** Properties *)

(** [C24] No change is silently lost: every planned action writes a side that does
    not hold the item, or that holds it live and unchanged, in content and
    location, since the last synchronization (deletions and updates never hit an
    unsynchronized edit); it carries the version of the other side (its own, for
    a deletion); no item has two actions; and an item with an action has no
    conflict of its own (at most a path collision with another item). *)
Theorem plan_actions_safe remote local synced ids ro lo a
    (Hids : ids_order remote local synced ids)
    (Ha : a ∈ (Plan remote local synced ids ro lo).1) :
  action_justified (Action_ItemID a) remote local synced a /\
  NoDup (Action_ItemID <$> (Plan remote local synced ids ro lo).1) /\
  (forall c, c ∈ (Plan remote local synced ids ro lo).2 -> Conflict_ItemID c = Action_ItemID a ->
     c ∈ pathCollisions remote local ro lo).
Proof.
  apply elem_of_actions in Ha as (id & Hid & Ha).
  pose proof (planItem_action_id _ _ _ _ _ Ha) as ->.
  pose proof (planItem_verdict id remote local synced) as Hv.
  split_and!.
  - destruct Hv; [by apply elem_of_nil in Ha| |by apply elem_of_nil in Ha].
    by apply list_elem_of_singleton in Ha as ->.
  - unfold Plan, sortActions. simpl. rewrite sort_slice_Permutation. by apply action_ids_NoDup.
  - intros c Hc Hcid. apply elem_of_conflicts in Hc as [(id' & _ & Hc)|Hc]; [exfalso|done].
    pose proof (planItem_conflict_id _ _ _ _ _ Hc) as Hcid'. rewrite Hcid in Hcid'. subst id'.
    destruct Hv; [by apply elem_of_nil in Hc..|by apply elem_of_nil in Ha].
Qed.

(** Nothing that differs is passed over: an item for which the plan has
    neither an action nor a conflict is live on neither side, or live on both at
    the same location with the same version or the same content, and is not
    corrupt on either side. *)
Theorem plan_complete remote local synced ids ro lo id
    (Hids : ids_order remote local synced ids)
    (Hna : forall a, a ∈ (Plan remote local synced ids ro lo).1 -> Action_ItemID a <> id)
    (Hnc : forall c, c ∈ (Plan remote local synced ids ro lo).2 -> Conflict_ItemID c <> id) :
  corrupt remote id = false /\ corrupt local id = false /\
  ((present remote id = false /\ present local id = false) \/
   (present remote id = true /\ present local id = true /\
    locationsEqual (item_of local id) (item_of remote id) = true /\
    (versionsEqual (version_of local id) (version_of remote id) = true \/
     same_content (version_of local id) (version_of remote id)))).
Proof.
  destruct (decide (id ∈ ids)) as [Hin|Hout].
  - destruct (planItem_none remote local synced id) as (Hr & Hl & Hcase).
    + destruct (planItem id remote local synced).1 as [|a l] eqn:E; [done|].
      exfalso. apply (Hna a); [apply elem_of_actions; exists id; rewrite E; set_solver|].
      apply (planItem_action_id remote local synced). rewrite E. set_solver.
    + destruct (planItem id remote local synced).2 as [|c l] eqn:E; [done|].
      exfalso. apply (Hnc c); [apply elem_of_conflicts; left; exists id; rewrite E; set_solver|].
      apply (planItem_conflict_id remote local synced). rewrite E. set_solver.
    + split_and!; [done..|]. destruct Hcase as [Habs|(Hpr & Hpl & [Hs|(Hcl & Hcr & _)])]; [by left|..];
        right; split_and!; try done.
      * unfold same_item in Hs. by to_prop.
      * unfold same_item in Hs. to_prop. by left.
      * apply (unchanged_agree remote local synced); auto using present_version.
      * apply (unchanged_agree remote local synced); auto using present_version.
  - assert (forall t, t = remote \/ t = local \/ t = synced -> present t id = false) as Habs.
    { intros t Ht. apply not_true_iff_false. intros Hp. apply Hout.
      by apply (present_all_ids remote local synced ids Hids t). }
    unfold corrupt. rewrite !Habs by auto. auto.
Qed.

(** Reconciling two equal trees plans nothing, whatever the last
    synchronized tree is: no action and no conflict, provided no live item lacks
    its version record and no two live items share a location. *)
Theorem plan_converged t synced ids ro lo
    (Hids : ids_order t t synced ids) (Hro : tree_order t ro) (Hlo : tree_order t lo)
    (Hc : no_corrupt t) (Hu : unique_locations t) :
  Plan t t synced ids ro lo = ([], []).
Proof.
  assert (forall id, (planItem id t t synced).1 = [] /\ (planItem id t t synced).2 = []) as Hnone.
  { intros id. assert (same_item t t id = true) as Hs.
    { unfold same_item. by rewrite versionsEqual_refl, locationsEqual_refl. }
    pose proof (Hc id) as Hcid. pose proof (planItem_verdict id t t synced) as Hv.
    destruct Hv as [|a ? ? Ha|c ? ? ? Hc']; [done|exfalso..].
    - unfold action_justified in Ha. destruct (Type_ a); destruct_and!; congruence.
    - destruct Hc' as [?|[?|[?|[?|?]]]]; destruct_and?; congruence. }
  unfold Plan.
  assert (forall A (f : list Action * list Conflict -> list A), (forall id, f (planItem id t t synced) = []) ->
    (map (fun id => planItem id t t synced) ids ≫= f) = []) as Hbind.
  { intros A f Hf. clear Hids. induction ids as [|id l IH]; csimpl; [done|]. by rewrite Hf. }
  rewrite !Hbind by apply Hnone.
  assert (pathCollisions t t ro lo = []) as ->; [|done].
  apply elem_of_nil_inv. intros c. rewrite elem_of_pathCollisions by done.
  intros (rid & ri & lid & li & Hr & Hdr & Hl & Hdl & Hloc & Hne & _). apply Hne.
  symmetry. by eapply Hu.
Qed.

(** The plan does not depend on the order in which Go visits its maps, as
    long as no two live local items share a location: the actions are the same
    list, and the conflicts the same up to the order among conflicts of one
    item, which [sort.Slice] leaves open. *)
Theorem plan_order_independent remote local synced ids1 ids2 ro1 ro2 lo1 lo2
    (Hi1 : ids_order remote local synced ids1) (Hi2 : ids_order remote local synced ids2)
    (Hr1 : tree_order remote ro1) (Hr2 : tree_order remote ro2)
    (Hl1 : tree_order local lo1) (Hl2 : tree_order local lo2)
    (Hu : unique_locations local) :
  (Plan remote local synced ids1 ro1 lo1).1 = (Plan remote local synced ids2 ro2 lo2).1 /\
  (Plan remote local synced ids1 ro1 lo1).2 ≡ₚ (Plan remote local synced ids2 ro2 lo2).2.
Proof.
  assert (ids1 ≡ₚ ids2) as Hids by (unfold ids_order in *; by rewrite Hi1, Hi2).
  assert (ro1 ≡ₚ ro2) as Hro by (unfold tree_order in *; by rewrite Hr1, Hr2).
  split.
  - unfold Plan, sortActions. simpl.
    apply (sort_slice_perm (fun a => (Action_ItemID a, action_string (Type_ a)))
             (pair_ltb String.ltb String.ltb)).
    + apply (NoDup_fmap_1 fst). rewrite <-list_fmap_compose. by apply action_ids_NoDup.
    + by rewrite Hids.
  - unfold Plan, sortConflicts, pathCollisions. simpl. rewrite !sort_slice_Permutation.
    rewrite Hids, Hro. by rewrite (local_at_order local lo1 lo2).
Qed.

(** Two live items, one on each side, at the same location with different
    identities are always reported as a conflict that preserves both versions,
    as long as no two live local items share a location. *)
Theorem path_collisions_reported remote local synced ids ro lo rid ri lid li
    (Hids : ids_order remote local synced ids)
    (Hro : tree_order remote ro) (Hlo : tree_order local lo) (Hu : unique_locations local)
    (Hr : Items remote !! rid = Some ri) (Hdr : isDeleted ri = false)
    (Hl : Items local !! lid = Some li) (Hdl : isDeleted li = false)
    (Hloc : Location ri = Location li) (Hne : lid <> rid) (Hne' : lid <> "") :
  exists c, c ∈ (Plan remote local synced ids ro lo).2 /\ Conflict_ItemID c = rid /\
    LocalVer c = version_of local lid /\ RemoteVer c = version_of remote rid.
Proof.
  eexists. split; [apply elem_of_conflicts; right; apply elem_of_pathCollisions; try done|].
  - exists rid, ri, lid, li. by split_and!.
  - done.
Qed.

(** ** Mirror images *)
Definition mirror_type (t : ActionType) : ActionType :=
  match t with
  | ActionDownload => ActionUpload | ActionUpload => ActionDownload
  | ActionDeleteLocal => ActionDeleteRemote | ActionDeleteRemote => ActionDeleteLocal
  | ActionUpdateLocal => ActionUpdateRemote | ActionUpdateRemote => ActionUpdateLocal
  | ActionMoveLocal => ActionMoveRemote | ActionMoveRemote => ActionMoveLocal
  end.

Definition mirror (a : Action) : Action :=
  Build_Action (mirror_type (Type_ a)) (Action_ItemID a) (Action_Version a) (LocalPath a).

(** A conflict without its reason, and the same seen from the other side. *)
Definition sides (c : Conflict) := (Conflict_ItemID c, LocalVer c, RemoteVer c, SyncedVer c).
Definition mirror_sides (c : Conflict) := (Conflict_ItemID c, RemoteVer c, LocalVer c, SyncedVer c).

Lemma versionsEqual_comm a b : versionsEqual a b = versionsEqual b a.
Proof.
  unfold versionsEqual. rewrite (andb_comm (VersionID a != "")).
  destruct (_ && _); [apply bool_decide_ext; split; congruence|].
  f_equal; apply bool_decide_ext; split; congruence.
Qed.

Lemma locationsEqual_comm a b : locationsEqual a b = locationsEqual b a.
Proof. unfold locationsEqual. f_equal; apply bool_decide_ext; split; congruence. Qed.

Lemma planItem_mirror id remote local synced :
  (planItem id local remote synced).1 = map mirror (planItem id remote local synced).1 /\
  map sides (planItem id local remote synced).2 = map mirror_sides (planItem id remote local synced).2.
Proof.
  unfold planItem, reconcileBothPresent.
  fold (present remote id). fold (present local id). fold (present synced id).
  fold (corrupt remote id). fold (corrupt local id).
  fold (changed local synced id). fold (changed remote synced id).
  rewrite (versionsEqual_comm (version_of remote id) (version_of local id)).
  rewrite (locationsEqual_comm (item_of remote id) (item_of local id)).
  destruct (corrupt remote id), (corrupt local id); try done; cbn [orb].
  destruct (present synced id), (present remote id), (present local id); try done;
    try (destruct (changed local synced id), (changed remote synced id); try done);
    try (destruct (versionsEqual (version_of local id) (version_of remote id) &&
                   locationsEqual (item_of local id) (item_of remote id)); done);
    destruct (versionContentChanged (version_of local id) (version_of synced id)),
      (moved (item_of local id) (item_of synced id)),
      (versionContentChanged (version_of remote id) (version_of synced id)),
      (moved (item_of remote id) (item_of synced id)); done.
Qed.

(** The planner treats the two sides alike: swapping the remote and the local
    tree swaps uploads with downloads and local with remote deletions, updates
    and moves, action by action, and the two versions of every item's own
    conflict. *)
Theorem plan_mirror remote local synced ids ro lo ids' ro' lo'
    (Hi : ids_order remote local synced ids) (Hi' : ids_order local remote synced ids') :
  (Plan local remote synced ids' ro' lo').1 ≡ₚ mirror <$> (Plan remote local synced ids ro lo).1 /\
  (forall id, sides <$> (planItem id local remote synced).2 = mirror_sides <$> (planItem id remote local synced).2).
Proof.
  split; [|intros id; apply planItem_mirror].
  assert (ids' ≡ₚ ids) as Hids.
  { unfold ids_order, all_ids in *. rewrite Hi, Hi'.
    by rewrite (comm_L (∪) (dom (Items local)) (dom (Items remote))). }
  unfold Plan, sortActions. simpl. rewrite !sort_slice_Permutation, Hids. clear Hi Hi' Hids.
  induction ids as [|id l IH]; csimpl; [done|]. rewrite fmap_app, IH.
  apply (reflexive_eq (R := (≡ₚ))). f_equal. apply planItem_mirror.
Qed.

(** ** Evaluated instances *)
Module Demo.
Definition item (id name ver : string) (deleted : option Time) : Item :=
  Build_Item id "owner" "root" name KindFile ver deleted 0%Z 0%Z.
Definition ver (v id : string) : Version := Build_Version v id ("sha256:" +:+ v) "" v "" "" "" "" 0%Z.
Definition tree (l : list (string * string * string)) : Tree :=
  Build_Tree (list_to_map (map (fun p => (p.1.1, item p.1.1 p.1.2 p.2 None)) l))
             (list_to_map (map (fun p => (p.1.1, ver p.2 p.1.1)) l)).

(** One item edited remotely, one moved locally, one deleted remotely, one new,
    one edited on both sides. *)
Definition synced : Tree := tree [("a", "A", "a1"); ("b", "B", "b1"); ("c", "C", "c1"); ("e", "E", "e1")].
Definition remote : Tree := tree [("a", "A", "a2"); ("b", "B", "b1"); ("d", "N", "d1"); ("e", "E", "e2")].
Definition local : Tree := tree [("a", "A", "a1"); ("b", "B2", "b1"); ("c", "C", "c1"); ("f", "N", "f1"); ("e", "E", "e3")].
Definition ids : list string := elements (all_ids remote local synced).
Definition the_plan := Plan remote local synced ids (map_to_list (Items remote)) (map_to_list (Items local)).

Example the_plan_is :
  map (fun a => (Type_ a, Action_ItemID a)) the_plan.1 =
    [(ActionUpdateLocal, "a"); (ActionMoveRemote, "b"); (ActionDeleteLocal, "c");
     (ActionDownload, "d"); (ActionUpload, "f")] /\
  map Conflict_ItemID the_plan.2 = ["d"; "e"].
Proof. split; vm_compute; reflexivity. Qed.

Lemma items_unique (t : Tree) (l : list (string * Item)) :
  tree_order t l ->
  (forallb (fun p => forallb (fun q => isDeleted p.2 || isDeleted q.2 || (Location p.2 != Location q.2)
      || (p.1 == q.1)) l) l) = true -> unique_locations t.
Proof.
  intros Hl Hb id1 i1 id2 i2 H1 H2 D1 D2 Hloc.
  rewrite <-(tree_order_elem t l) in H1, H2 by done.
  rewrite forallb_forall in Hb. apply list_elem_of_In in H1, H2. specialize (Hb _ H1).
  rewrite forallb_forall in Hb. specialize (Hb _ H2). simpl in Hb. rewrite D1, D2, Hloc in Hb.
  rewrite (bool_decide_eq_true_2 (Location i2 = Location i2)) in Hb by done. simpl in Hb. by to_prop.
Qed.

Lemma local_unique : unique_locations local.
Proof. apply (items_unique _ (map_to_list (Items local))); [apply tree_order_refl|vm_compute; reflexivity]. Qed.

Lemma plan_actions_safe_witness :
  action_justified "c" remote local synced (act ActionDeleteLocal "c" (ver "c1" "c")).
Proof.
  assert (act ActionDeleteLocal "c" (ver "c1" "c") ∈ the_plan.1) as Ha by by_deciding.
  exact (proj1 (plan_actions_safe remote local synced ids _ _ _ (ids_order_refl _ _ _) Ha)).
Defined.

Definition deleted_b : Tree := Build_Tree {["b" := item "b" "B" "" (Some 3%Z)]} ∅.

Lemma plan_complete_witness :
  present local "b" = true /\ present deleted_b "b" = false /\
  corrupt deleted_b "b" = false.
Proof.
  split; [vm_compute; reflexivity|]. split; [vm_compute; reflexivity|].
  refine (proj1 (plan_complete deleted_b deleted_b deleted_b
    (elements (all_ids deleted_b deleted_b deleted_b)) [] [] "b" (ids_order_refl _ _ _) _ _)).
  - vm_compute. intros a Ha. inversion Ha.
  - vm_compute. intros a Ha. inversion Ha.
Defined.

Lemma local_not_corrupt : no_corrupt local.
Proof.
  intros id. unfold corrupt, present.
  destruct (Items local !! id) as [i|] eqn:E; [|done].
  assert (forallb (fun p => negb (VersionID (version_of local p.1) == "")) (map_to_list (Items local)) = true) as Hall
    by (vm_compute; reflexivity).
  rewrite forallb_forall in Hall. specialize (Hall (id, i)).
  rewrite <-list_elem_of_In, elem_of_map_to_list in Hall. specialize (Hall E).
  apply negb_true_iff in Hall. simpl in Hall. rewrite Hall. apply andb_false_r.
Qed.

Lemma plan_converged_witness :
  Plan local local synced (elements (all_ids local local synced)) (map_to_list (Items local))
    (map_to_list (Items local)) = ([], []).
Proof.
  apply (plan_converged local synced); [auto with go|auto with go|auto with go|exact local_not_corrupt|exact local_unique].
Defined.

Lemma plan_order_independent_witness :
  (Plan remote local synced (reverse ids) (reverse (map_to_list (Items remote)))
     (reverse (map_to_list (Items local)))).1 = the_plan.1.
Proof.
  refine (proj1 (plan_order_independent remote local synced _ _ _ _ _ _ _ _ _ _ _ _ local_unique));
    unfold ids_order, tree_order; by rewrite ?reverse_Permutation.
Defined.

Lemma path_collisions_reported_witness :
  exists c, c ∈ the_plan.2 /\ Conflict_ItemID c = "d" /\
    LocalVer c = version_of local "f" /\ RemoteVer c = version_of remote "d".
Proof.
  apply (path_collisions_reported remote local synced ids _ _ "d" (item "d" "N" "d1" None) "f" (item "f" "N" "f1" None));
    try done; auto with go. exact local_unique.
Defined.

Lemma plan_mirror_witness :
  (Plan local remote synced (elements (all_ids local remote synced)) (map_to_list (Items local))
     (map_to_list (Items remote))).1 ≡ₚ mirror <$> the_plan.1.
Proof.
  refine (proj1 (plan_mirror remote local synced ids _ _ _ _ _ _ _)); auto with go.
Defined.
End Demo.

(** With two live local items at one location the conflicts do depend on the
    order in which Go visits the local tree: for one remote item at that
    location the plan reports the collision in one order, and nothing in the
    other. *)
Theorem plan_conflicts_depend_on_map_order :
  exists remote local synced ids ro lo1 lo2,
    ids_order remote local synced ids /\ tree_order remote ro /\
    tree_order local lo1 /\ tree_order local lo2 /\
    Plan remote local synced ids ro lo1 <> Plan remote local synced ids ro lo2.
Proof.
  set (two := Demo.tree [("a", "A", "a1"); ("b", "A", "b1")]).
  set (one := Demo.tree [("a", "A", "a1")]).
  exists one, two, two, (elements (all_ids one two two)), (map_to_list (Items one)),
    (map_to_list (Items two)), (reverse (map_to_list (Items two))).
  split_and!; [apply ids_order_refl|apply tree_order_refl|apply tree_order_refl
              |apply reverse_Permutation|vm_compute; discriminate].
Qed.

(** [ApplyEvent] recognizes an event it has applied by its time stamp alone:
    it drops any further event of an item, whatever its identifier and type (a
    deletion, say), whose time stamp is that of the item's last change; so it
    does not only ignore duplicates of one EventID. *)
Theorem apply_event_drops_equal_times tree evt1 evt2
    (Htype : Event_Type evt1 = EventDelete \/ Event_Type evt1 = EventMove \/
             Event_Type evt1 = EventCreate \/ Event_Type evt1 = EventUpdate)
    (Hitem : Event_ItemID evt2 = Event_ItemID evt1)
    (Htime : Event_CreatedAt evt2 = Event_CreatedAt evt1) :
  ApplyEvent (ApplyEvent tree evt1) evt2 = ApplyEvent tree evt1.
Proof.
  assert (exists i, Items (ApplyEvent tree evt1) !! Event_ItemID evt1 = Some i /\
                    UpdatedAt i = Event_CreatedAt evt1) as (i & Hi & Hu).
  { unfold ApplyEvent, hasAppliedEvent.
    destruct (Items tree !! Event_ItemID evt1) as [ex|] eqn:E.
    - destruct (UpdatedAt ex == Event_CreatedAt evt1) eqn:Eu; simpl; [to_prop; eauto|].
      destruct Htype as [-> |[-> |[-> | ->]]]; simpl; rewrite lookup_insert_eq; eexists; split; done.
    - destruct Htype as [-> |[-> |[-> | ->]]]; simpl; rewrite lookup_insert_eq; eexists; split; done. }
  unfold ApplyEvent at 1, hasAppliedEvent. rewrite Hitem, Htime, Hi, Hu.
  by rewrite bool_decide_eq_true_2.
Qed.

Lemma apply_event_drops_equal_times_witness :
  let create := Build_Event "e1" "o" "a" "" "" EventCreate KindFile "" "" 1%Z "" 5%Z in
  let delete := Build_Event "e2" "o" "a" "" "" EventDelete KindFile "" "" 2%Z "" 5%Z in
  ApplyEvent (ApplyEvent NewTree create) delete = ApplyEvent NewTree create.
Proof.
  cbv zeta. apply (apply_event_drops_equal_times NewTree
    (Build_Event "e1" "o" "a" "" "" EventCreate KindFile "" "" 1%Z "" 5%Z)
    (Build_Event "e2" "o" "a" "" "" EventDelete KindFile "" "" 2%Z "" 5%Z)); auto.
Defined.
End BasePlanner.
