(* ===== verification/BaseTree.v ===== *)
(** * BaseTree: deriving a tree from a journal

    Models [internal/base/tree/tree.go]: event payloads and their JSON, the fold
    of one event into a tree, and [Derive]/[DeriveUpTo], which sort a journal by
    cursor and fold it. [sort.Slice] is not stable: events are assumed to have
    distinct cursors where the order matters, as the journal assigns them. *)
From S2P Require Import Prelude GoStrings GoTime GoJson CanonicalJson JsonRoundTrip BaseModel BasePlanner.
Import BaseModel.

Module BaseTree.

(** ** Payloads *)
Record Payload := {
  P_Name : string;
  P_ParentItemID : string;
  P_Kind : string;
  P_VersionID : string;
  P_BlobRef : string;
  P_MediaType : string;
  P_ContentHash : string;
}.

Definition zero_payload : Payload := Build_Payload "" "" "" "" "" "" "".

Definition payload_json (p : Payload) : json := JObj (
  omit_str "name" (P_Name p) ++ omit_str "parent_item_id" (P_ParentItemID p)
  ++ omit_str "kind" (P_Kind p) ++ omit_str "version_id" (P_VersionID p)
  ++ omit_str "blob_ref" (P_BlobRef p) ++ omit_str "media_type" (P_MediaType p)
  ++ omit_str "content_hash" (P_ContentHash p)).

Definition Payload_JSON (p : Payload) : string := marshal (payload_json p).

Definition payload_names : list string :=
  ["name"; "parent_item_id"; "kind"; "version_id"; "blob_ref"; "media_type"; "content_hash"].

(** [json.Unmarshal] stores one member; a value that is not a string leaves the
    field alone (the error is reported at the end, and dropped). *)
Definition set_field (p : Payload) (kv : string * json) : Payload :=
  match field_of payload_names kv.1, kv.2 with
  | Some f, JStr s =>
    if f == "name" then Build_Payload s (P_ParentItemID p) (P_Kind p) (P_VersionID p) (P_BlobRef p) (P_MediaType p) (P_ContentHash p)
    else if f == "parent_item_id" then Build_Payload (P_Name p) s (P_Kind p) (P_VersionID p) (P_BlobRef p) (P_MediaType p) (P_ContentHash p)
    else if f == "kind" then Build_Payload (P_Name p) (P_ParentItemID p) s (P_VersionID p) (P_BlobRef p) (P_MediaType p) (P_ContentHash p)
    else if f == "version_id" then Build_Payload (P_Name p) (P_ParentItemID p) (P_Kind p) s (P_BlobRef p) (P_MediaType p) (P_ContentHash p)
    else if f == "blob_ref" then Build_Payload (P_Name p) (P_ParentItemID p) (P_Kind p) (P_VersionID p) s (P_MediaType p) (P_ContentHash p)
    else if f == "media_type" then Build_Payload (P_Name p) (P_ParentItemID p) (P_Kind p) (P_VersionID p) (P_BlobRef p) s (P_ContentHash p)
    else Build_Payload (P_Name p) (P_ParentItemID p) (P_Kind p) (P_VersionID p) (P_BlobRef p) (P_MediaType p) s
  | _, _ => p
  end.

Definition ParsePayload (s : string) : Payload :=
  if s == "" then zero_payload else
  match parse s with
  | Some (JObj fs) => foldl set_field zero_payload fs
  | _ => zero_payload
  end.

(** ** Events *)
Definition versionFromPayload (evt : Event) (p : Payload) : Version := {|
  VersionID := P_VersionID p;
  VersionItemID := Event_ItemID evt;
  BlobRef := P_BlobRef p;
  MediaType := P_MediaType p;
  ContentHash := P_ContentHash p;
  ManifestJSON := "";
  ProvenanceJSON := "";
  CreatedByDevice := DeviceID evt;
  CreatedBySubject := SubjectID evt;
  VersionCreatedAt := Event_CreatedAt evt;
|}.

(** [if payload.VersionID != "" { tree.Versions[id] = ... }] *)
Definition put_version (t : Tree) (evt : Event) (p : Payload) : Tree :=
  if P_VersionID p != "" then set_version t (Event_ItemID evt) (versionFromPayload evt p) else t.

Definition or_else (a b : string) : string := if a != "" then a else b.

(** The item an event for an unknown item starts from. *)
Definition fresh_item (evt : Event) (k : ItemKind) : Item :=
  Build_Item (Event_ItemID evt) (Event_OwnerID evt) "" "" k "" None (Event_CreatedAt evt) 0%Z.

Definition applyEvent (tree : Tree) (evt : Event) : Tree :=
  let payload := ParsePayload (PayloadJSON evt) in
  let id := Event_ItemID evt in
  let now := Event_CreatedAt evt in
  let kind := kind_of_string (P_Kind payload) in
  let found := Items tree !! id in
  match Event_Type evt with
  | EventCreate =>
    let created := match found with
                   | Some existing => if negb (IsZero (CreatedAt existing)) then CreatedAt existing else now
                   | None => now
                   end in
    put_version (set_item tree id
      (Build_Item id (Event_OwnerID evt) (P_ParentItemID payload) (P_Name payload) kind
         (P_VersionID payload) None created now)) evt payload
  | EventUpdate =>
    let item := default (fresh_item evt kind) found in
    put_version (set_item tree id
      (Build_Item (ItemID item) (OwnerID item) (or_else (P_ParentItemID payload) (ParentItemID item))
         (or_else (P_Name payload) (Name item)) (if P_Kind payload != "" then kind else Kind item)
         (P_VersionID payload) None (CreatedAt item) now)) evt payload
  | EventBlobUpload =>
    let item := default (fresh_item evt KindFile) found in
    put_version (set_item tree id
      (Build_Item (ItemID item) (OwnerID item) (ParentItemID item) (Name item) (Kind item)
         (P_VersionID payload) None (CreatedAt item) now)) evt payload
  | EventDelete =>
    let item := default (fresh_item evt kind) found in
    delete_version (set_item tree id
      (Build_Item (ItemID item) (OwnerID item) (ParentItemID item) (Name item) (Kind item)
         "" (Some now) (CreatedAt item) now)) id
  | EventMove =>
    match found with
    | None => tree
    | Some item =>
      set_item tree id
        (Build_Item (ItemID item) (OwnerID item) (or_else (P_ParentItemID payload) (ParentItemID item))
           (or_else (P_Name payload) (Name item)) (Kind item) (CurrentVersion item)
           (DeletedAt item) (CreatedAt item) now)
    end
  | EventOther _ => tree
  end.

Definition maxCursor (events : list Event) : Z :=
  foldl (fun m e => if (CursorSeq e >? m)%Z then CursorSeq e else m) 0%Z events.

Definition cursor_less (a b : Event) : bool := (CursorSeq a <? CursorSeq b)%Z.

Definition DeriveUpTo (events : list Event) (cursor : Z) : Tree :=
  let ordered := List.filter (fun e => (CursorSeq e <=? cursor)%Z) events in
  foldl applyEvent NewTree (sort_slice cursor_less ordered).

Definition Derive (events : list Event) : Tree := DeriveUpTo events (maxCursor events).

(** ** Queries *)
Definition LiveItems (t : Tree) (order : list (string * Item)) : list Item :=
  map snd (List.filter (fun p => (DeletedAt p.2 == None) && (CurrentVersion p.2 != "")) order).

Definition IsDeleted (t : Tree) (id : string) : bool :=
  match Items t !! id with
  | None => false
  | Some it => (DeletedAt it != None) || (CurrentVersion it == "")
  end.

Definition Has (t : Tree) (id : string) : bool := bool_decide (is_Some (Items t !! id)).

(** ** Facts *)
Lemma sort_cursor_key l : sort_slice cursor_less l = sort_slice (key_less CursorSeq Z.ltb) l.
Proof. reflexivity. Qed.

Lemma maxCursor_ge events e : e ∈ events -> (CursorSeq e <= maxCursor events)%Z.
Proof.
  unfold maxCursor.
  assert (forall m, (m <= foldl (fun m e => if (CursorSeq e >? m)%Z then CursorSeq e else m) m events)%Z /\
    (e ∈ events -> CursorSeq e <= foldl (fun m e => if (CursorSeq e >? m)%Z then CursorSeq e else m) m events)%Z) as Hgen.
  { induction events as [|x l IH]; intros m; simpl.
    - split; [lia|]. by intros ?%elem_of_nil.
    - destruct (Z.gtb_spec (CursorSeq x) m) as [Hgt|Hle].
      + destruct (IH (CursorSeq x)) as [H1 H2]. split; [lia|]. intros [->|Hin]%elem_of_cons; auto.
      + destruct (IH m) as [H1 H2]. split; [lia|]. intros [->|Hin]%elem_of_cons; [lia|auto]. }
  apply Hgen.
Qed.

Lemma Derive_all events :
  Derive events = foldl applyEvent NewTree (sort_slice cursor_less events).
Proof.
  unfold Derive, DeriveUpTo. do 2 f_equal.
  assert (forall l, (forall e, e ∈ l -> (CursorSeq e <= maxCursor events)%Z) ->
    List.filter (fun e => (CursorSeq e <=? maxCursor events)%Z) l = l) as Hf.
  { induction l as [|e l IH]; simpl; intros Hl; [done|].
    rewrite (proj2 (Z.leb_le _ _) (Hl e ltac:(set_solver))). f_equal. apply IH. set_solver. }
  apply Hf. intros e. apply maxCursor_ge.
Qed.

(** ** One event and one item *)

(** What a tree has of an item. *)
Definition entry (t : Tree) (id : string) : option Item * option Version := (Items t !! id, Versions t !! id).

Lemma put_version_lookup t evt p id :
  entry (put_version t evt p) id =
  (Items t !! id, if (P_VersionID p != "") && (id == Event_ItemID evt)
                  then Some (versionFromPayload evt p) else Versions t !! id).
Proof.
  unfold entry, put_version. destruct (P_VersionID p != ""); simpl; [|done].
  case_bool_decide; [subst; by rewrite lookup_insert_eq|by rewrite lookup_insert_ne].
Qed.

Lemma put_version_same t evt p :
  entry (put_version t evt p) (Event_ItemID evt) =
  (Items t !! Event_ItemID evt, if P_VersionID p != "" then Some (versionFromPayload evt p)
                                else Versions t !! Event_ItemID evt).
Proof. by rewrite put_version_lookup, (bool_decide_eq_true_2 (Event_ItemID evt = _)), andb_true_r. Qed.

Lemma applyEvent_other tree evt id :
  id <> Event_ItemID evt -> entry (applyEvent tree evt) id = entry tree id.
Proof.
  intros Hne. unfold applyEvent. cbv zeta.
  destruct (Event_Type evt); try done;
    rewrite ?put_version_lookup, ?(bool_decide_eq_false_2 (id = _)), ?andb_false_r by done;
    unfold entry; simpl; try (destruct (Items tree !! Event_ItemID evt); simpl);
    by rewrite ?lookup_insert_ne, ?lookup_delete_ne.
Qed.

Lemma applyEvent_same tree1 tree2 evt :
  entry tree1 (Event_ItemID evt) = entry tree2 (Event_ItemID evt) ->
  entry (applyEvent tree1 evt) (Event_ItemID evt) = entry (applyEvent tree2 evt) (Event_ItemID evt).
Proof.
  intros Heq. injection Heq as Hi Hv. unfold applyEvent. cbv zeta. rewrite Hi.
  destruct (Event_Type evt); rewrite ?put_version_lookup; unfold entry; simpl;
    try (destruct (Items tree2 !! Event_ItemID evt) eqn:E; simpl);
    rewrite ?lookup_insert_eq, ?lookup_delete_eq, ?Hi, ?Hv, ?E; done.
Qed.

Lemma fold_local id l t1 t2 :
  entry t1 id = entry t2 id ->
  entry (foldl applyEvent t1 l) id =
  entry (foldl applyEvent t2 (List.filter (fun e => Event_ItemID e == id) l)) id.
Proof.
  revert t1 t2. induction l as [|e l IH]; intros t1 t2 Heq; simpl; [done|].
  case_bool_decide as He; simpl; apply IH.
  - subst id. by apply applyEvent_same.
  - rewrite applyEvent_other by congruence. done.
Qed.

(** ** Sorting by cursor *)
Lemma elem_of_filter_list {A} (f : A -> bool) l x : x ∈ List.filter f l <-> f x = true /\ x ∈ l.
Proof. rewrite !list_elem_of_In, filter_In. tauto. Qed.

Lemma StronglySorted_filter {A} (R : A -> A -> Prop) f l :
  StronglySorted R l -> StronglySorted R (List.filter f l).
Proof.
  induction 1 as [|x l Hs IH Hall]; simpl; [constructor|]. destruct (f x); [|done].
  constructor; [done|]. rewrite Forall_forall in Hall |- *. intros y [_ Hy]%elem_of_filter_list. auto.
Qed.

Lemma NoDup_cursor_filter f (l : list Event) :
  NoDup (CursorSeq <$> l) -> NoDup (CursorSeq <$> List.filter f l).
Proof.
  induction l as [|e l IH]; simpl; [done|]. intros [Hn Hnd]%NoDup_cons.
  destruct (f e); simpl; [|auto]. constructor; [|auto].
  intros (x & Hx & [_ Hin]%elem_of_filter_list)%list_elem_of_fmap. apply Hn, list_elem_of_fmap. eauto.
Qed.

Lemma sort_cursor_filter f l :
  NoDup (CursorSeq <$> l) ->
  sort_slice cursor_less (List.filter f l) = List.filter f (sort_slice cursor_less l).
Proof.
  intros Hnd. rewrite !sort_cursor_key. apply (sort_slice_unique CursorSeq Z.ltb).
  - by apply NoDup_cursor_filter.
  - apply filter_perm, sort_slice_Permutation.
  - apply StronglySorted_filter. by apply (sort_slice_key_sorted CursorSeq Z.ltb).
Qed.

Lemma sort_cursor_snoc l e :
  (forall x, x ∈ l -> (CursorSeq x < CursorSeq e)%Z) ->
  sort_slice cursor_less (l ++ [e]) = sort_slice cursor_less l ++ [e].
Proof.
  intros Hl. unfold sort_slice. rewrite foldl_snoc. fold (sort_slice cursor_less l).
  assert (forall x, x ∈ sort_slice cursor_less l -> (CursorSeq x < CursorSeq e)%Z) as Hs.
  { intros x Hx%elem_of_sort_slice. auto. }
  revert Hs. generalize (sort_slice cursor_less l). intros k Hk.
  induction k as [|x k IH]; simpl; [done|]. unfold cursor_less at 1.
  rewrite (proj2 (Z.ltb_ge _ _)) by (specialize (Hk x ltac:(set_solver)); lia).
  rewrite IH; [done|]. set_solver.
Qed.

(** ** The invariant of derived trees *)
Record tree_ok (t : Tree) : Prop := {
  tree_item_id : forall id i, Items t !! id = Some i -> ItemID i = id;
  tree_current : forall id i, Items t !! id = Some i -> CurrentVersion i <> "" ->
    DeletedAt i = None /\ exists v, Versions t !! id = Some v /\ VersionID v = CurrentVersion i;
  tree_version : forall id v, Versions t !! id = Some v ->
    VersionItemID v = id /\ VersionID v <> "" /\ exists i, Items t !! id = Some i /\ DeletedAt i = None;
}.

(** The same for one item. *)
Definition entry_ok (id : string) (e : option Item * option Version) : Prop :=
  match e with
  | (None, v) => v = None
  | (Some i, v) => ItemID i = id /\
    (DeletedAt i <> None -> CurrentVersion i = "" /\ v = None) /\
    match v with
    | None => CurrentVersion i = ""
    | Some v => VersionItemID v = id /\ VersionID v <> "" /\
                (CurrentVersion i <> "" -> VersionID v = CurrentVersion i)
    end
  end.

Lemma tree_ok_entries t : (forall id, entry_ok id (entry t id)) -> tree_ok t.
Proof.
  intros Hok. split.
  - intros id i Hi. specialize (Hok id). unfold entry in Hok. rewrite Hi in Hok. apply Hok.
  - intros id i Hi Hc. specialize (Hok id). unfold entry in Hok. rewrite Hi in Hok.
    destruct Hok as (_ & Hd & Hv). split.
    + destruct (DeletedAt i); [|done]. by destruct Hd.
    + destruct (Versions t !! id) as [v|]; [|done]. exists v. by destruct Hv as (_ & _ & Hv); auto.
  - intros id v Hv. specialize (Hok id). unfold entry in Hok. rewrite Hv in Hok.
    destruct (Items t !! id) as [i|]; [|done]. destruct Hok as (_ & Hd & H1 & H2 & _).
    split_and!; [done..|]. exists i. split; [done|]. destruct (DeletedAt i); [by destruct Hd|done].
Qed.

Lemma applyEvent_entry_ok t evt :
  entry_ok (Event_ItemID evt) (entry t (Event_ItemID evt)) ->
  entry_ok (Event_ItemID evt) (entry (applyEvent t evt) (Event_ItemID evt)).
Proof.
  unfold applyEvent. cbv zeta. intros Hok. unfold entry in Hok.
  destruct (Event_Type evt); rewrite ?put_version_same; unfold entry; simpl;
    rewrite ?lookup_insert_eq, ?lookup_delete_eq; simpl;
    try (destruct (Items t !! Event_ItemID evt) as [i|] eqn:E; simpl);
    rewrite ?lookup_insert_eq, ?E; try done;
    destruct (Versions t !! Event_ItemID evt) as [v|]; simpl in *; destruct_and?; try done;
    try case_bool_decide; simpl; split_and!; try done; try congruence.
Qed.

Lemma fold_tree_ok l t :
  (forall id, entry_ok id (entry t id)) -> forall id, entry_ok id (entry (foldl applyEvent t l) id).
Proof.
  revert t. induction l as [|e l IH]; intros t Hok; simpl; [done|]. apply IH. intros id.
  destruct (decide (id = Event_ItemID e)) as [->|Hne]; [by apply applyEvent_entry_ok|].
  by rewrite applyEvent_other.
Qed.

Lemma DeriveUpTo_ok events cursor : tree_ok (DeriveUpTo events cursor).
Proof.
  apply tree_ok_entries. unfold DeriveUpTo. apply fold_tree_ok. intros id. unfold entry. simpl.
  by rewrite !lookup_empty.
Qed.

(** ** Payload text *)
Definition payload_utf8 (p : Payload) : Prop := utf8 (payload_json p) = true.

Lemma foldl_omit p f s : foldl set_field p (omit_str f s) = if s == "" then p else set_field p (f, JStr s).
Proof. unfold omit_str. by case_bool_decide. Qed.

Lemma fold_payload p :
  foldl set_field zero_payload
    (omit_str "name" (P_Name p) ++ omit_str "parent_item_id" (P_ParentItemID p)
     ++ omit_str "kind" (P_Kind p) ++ omit_str "version_id" (P_VersionID p)
     ++ omit_str "blob_ref" (P_BlobRef p) ++ omit_str "media_type" (P_MediaType p)
     ++ omit_str "content_hash" (P_ContentHash p)) = p.
Proof.
  rewrite !foldl_app, !foldl_omit. destruct p as [a b c d e f g].
  cbn [P_Name P_ParentItemID P_Kind P_VersionID P_BlobRef P_MediaType P_ContentHash].
  assert (forall s (P : string -> Payload) (Q : Payload), Q = P "" ->
    (if s == "" then Q else P s) = P s) as Hif by (intros s P Q ->; by case_bool_decide; subst).
  rewrite (Hif a (fun a => Build_Payload a "" "" "" "" "" "")) by done.
  rewrite (Hif b (fun b => Build_Payload a b "" "" "" "" "")) by done.
  rewrite (Hif c (fun c => Build_Payload a b c "" "" "" "")) by done.
  rewrite (Hif d (fun d => Build_Payload a b c d "" "" "")) by done.
  rewrite (Hif e (fun e => Build_Payload a b c d e "" "")) by done.
  rewrite (Hif f (fun f => Build_Payload a b c d e f "")) by done.
  by rewrite (Hif g (fun g => Build_Payload a b c d e f g)) by done.
Qed.

(** ** What a history says of an item

    A history is the list of the events of one item, newest first. *)

(** The events that make the item exist. *)
Definition writes (e : Event) : bool :=
  match Event_Type e with EventCreate | EventUpdate | EventBlobUpload | EventDelete => true | _ => false end.
Definition deletes (e : Event) : bool := match Event_Type e with EventDelete => true | _ => false end.

Definition payload_of (e : Event) : Payload := ParsePayload (PayloadJSON e).

(** The events since the item is known: the first write and what came later. *)
Fixpoint known (h : list Event) : list Event :=
  match h with
  | [] => []
  | e :: older => if existsb writes (e :: older) then e :: known older else []
  end.

(** The last event that settles a text: a create, or an event of the given types
    whose payload has it. *)
Definition settles (types : EventType -> bool) (field : Payload -> string) (e : Event) : bool :=
  match Event_Type e with
  | EventCreate => true
  | t => types t && (field (payload_of e) != "")
  end.
Definition last_text (types : EventType -> bool) (field : Payload -> string) (h : list Event) : string :=
  match List.find (settles types field) (known h) with Some e => field (payload_of e) | None => "" end.

Definition renames (t : EventType) : bool := match t with EventUpdate | EventMove => true | _ => false end.

(** The version record: of the last write that names a version, if no delete came later. *)
Definition versions (e : Event) : bool :=
  match Event_Type e with
  | EventCreate | EventUpdate | EventBlobUpload => P_VersionID (payload_of e) != ""
  | EventDelete => true
  | _ => false
  end.
Definition version_at (h : list Event) : option Version :=
  match List.find versions h with
  | Some e => if deletes e then None else Some (versionFromPayload e (payload_of e))
  | None => None
  end.

Definition first_write (h : list Event) : option Event := last (known h).

(** The kind and the owner an item starts with. *)
Definition first_kind (e : Event) : ItemKind :=
  match Event_Type e with EventBlobUpload => KindFile | _ => kind_of_string (P_Kind (payload_of e)) end.
Definition sets_kind (e : Event) : bool :=
  match Event_Type e with EventCreate => true | EventUpdate => P_Kind (payload_of e) != "" | _ => false end.
Definition creates (e : Event) : bool := match Event_Type e with EventCreate => true | _ => false end.

(** The events the derivation knows. *)
Definition touches (e : Event) : bool := match Event_Type e with EventOther _ => false | _ => true end.

(** What the history [h] of an item with the last write [w] says of its record. *)
Record describes (id : string) (h : list Event) (w : Event) (i : Item) : Prop := {
  d_id : ItemID i = id;
  d_deleted : DeletedAt i = if deletes w then Some (Event_CreatedAt w) else None;
  d_version : CurrentVersion i = if deletes w then "" else P_VersionID (payload_of w);
  d_name : Name i = last_text renames P_Name h;
  d_parent : ParentItemID i = last_text renames P_ParentItemID h;
  d_updated : Some (UpdatedAt i) = Event_CreatedAt <$> List.find touches (known h);
  d_kind : Some (Kind i) = match List.find sets_kind (known h) with
                           | Some e => Some (kind_of_string (P_Kind (payload_of e)))
                           | None => first_kind <$> first_write h
                           end;
  d_owner : Some (OwnerID i) = match List.find creates (known h) with
                               | Some e => Some (Event_OwnerID e)
                               | None => Event_OwnerID <$> first_write h
                               end;
  d_created : forall e, first_write h = Some e -> IsZero (Event_CreatedAt e) = false -> CreatedAt i = Event_CreatedAt e;
}.

(** ** Histories *)

Lemma sorted_reverse h : StronglySorted (fun e1 e2 => CursorSeq e2 < CursorSeq e1)%Z h ->
  StronglySorted (fun a b => key_less CursorSeq Z.ltb a b = true) (reverse h).
Proof.
  induction 1 as [|e h Hs IH Hall]; [constructor|]. rewrite reverse_cons. apply StronglySorted_app_2; [|done|by repeat constructor].
  intros x y Hx ->%list_elem_of_singleton. rewrite elem_of_reverse in Hx. rewrite Forall_forall in Hall. apply Z.ltb_lt. auto.
Qed.

Lemma find_writes h : existsb writes h = match List.find writes h with Some _ => true | None => false end.
Proof. induction h as [|e h IH]; [done|]. cbn [existsb List.find]. by destruct (writes e). Qed.

Lemma known_none h : List.find writes h = None -> known h = [].
Proof. intros Hf. destruct h as [|e h]; [done|]. cbn [known]. by rewrite find_writes, Hf. Qed.

Lemma known_some e h : is_Some (List.find writes (e :: h)) -> known (e :: h) = e :: known h.
Proof. intros [w Hw]. cbn [known]. by rewrite find_writes, Hw. Qed.

Lemma known_nonempty h w : List.find writes h = Some w -> exists f l, known h = l ++ [f].
Proof.
  intros Hw. destruct h as [|e h]; [done|]. rewrite known_some by done. destruct (exists_last (l := e :: known h)) as (l & f & ->); [done|].
  by exists f, l.
Qed.

(** One event and what the tree has of its item. *)
Definition entry_step (e : Event) (x : option Item * option Version) : option Item * option Version :=
  let p := payload_of e in
  let now := Event_CreatedAt e in
  let kind := kind_of_string (P_Kind p) in
  let version := if P_VersionID p != "" then Some (versionFromPayload e p) else x.2 in
  match Event_Type e with
  | EventCreate =>
    let created := match x.1 with Some i => if negb (IsZero (CreatedAt i)) then CreatedAt i else now | None => now end in
    (Some (Build_Item (Event_ItemID e) (Event_OwnerID e) (P_ParentItemID p) (P_Name p) kind (P_VersionID p) None created now), version)
  | EventUpdate =>
    let i := default (fresh_item e kind) x.1 in
    (Some (Build_Item (ItemID i) (OwnerID i) (or_else (P_ParentItemID p) (ParentItemID i)) (or_else (P_Name p) (Name i))
       (if P_Kind p != "" then kind else Kind i) (P_VersionID p) None (CreatedAt i) now), version)
  | EventBlobUpload =>
    let i := default (fresh_item e KindFile) x.1 in
    (Some (Build_Item (ItemID i) (OwnerID i) (ParentItemID i) (Name i) (Kind i) (P_VersionID p) None (CreatedAt i) now), version)
  | EventDelete =>
    let i := default (fresh_item e kind) x.1 in
    (Some (Build_Item (ItemID i) (OwnerID i) (ParentItemID i) (Name i) (Kind i) "" (Some now) (CreatedAt i) now), None)
  | EventMove =>
    (option_map (fun i => Build_Item (ItemID i) (OwnerID i) (or_else (P_ParentItemID p) (ParentItemID i))
       (or_else (P_Name p) (Name i)) (Kind i) (CurrentVersion i) (DeletedAt i) (CreatedAt i) now) x.1, x.2)
  | EventOther _ => x
  end.

Lemma applyEvent_entry t e : entry (applyEvent t e) (Event_ItemID e) = entry_step e (entry t (Event_ItemID e)).
Proof.
  unfold applyEvent, entry_step. cbv zeta. unfold payload_of. destruct (Event_Type e); rewrite ?put_version_same; unfold entry; simpl;
    rewrite ?lookup_insert_eq, ?lookup_delete_eq; try done.
  destruct (Items t !! Event_ItemID e) as [i|] eqn:E; simpl; by rewrite ?lookup_insert_eq, ?E.
Qed.

Lemma versions_none h : List.find writes h = None -> List.find versions h = None.
Proof.
  induction h as [|e h IH]; [done|]. cbn [List.find]. destruct (writes e) eqn:Hw; [done|]. intros Hn.
  replace (versions e) with false; [auto|]. unfold versions, writes in *. by destruct (Event_Type e).
Qed.

Lemma version_at_cons e h : version_at (e :: h) =
  if versions e then if deletes e then None else Some (versionFromPayload e (payload_of e)) else version_at h.
Proof. unfold version_at. cbn [List.find]. by destruct (versions e). Qed.

Lemma last_text_cons types field e h : known (e :: h) = e :: known h ->
  last_text types field (e :: h) = if settles types field e then field (payload_of e) else last_text types field h.
Proof. unfold last_text. intros ->. cbn [List.find]. by destruct (settles types field e). Qed.

Lemma last_text_none types field h : List.find writes h = None -> last_text types field h = "".
Proof. intros Hf. unfold last_text. by rewrite known_none. Qed.

(** The first write of an item. *)
Lemma first_describes e h : List.find writes h = None -> writes e = true ->
  exists item, entry_step e (None, None) = (Some item, version_at (e :: h)) /\ describes (Event_ItemID e) (e :: h) e item.
Proof.
  intros Hn Hw. assert (known (e :: h) = e :: known h) as Hk by (apply known_some; cbn [List.find]; rewrite Hw; by eexists).
  assert (version_at h = None) as Hv by (unfold version_at; by rewrite versions_none).
  pose proof (last_text_none renames P_Name h Hn) as Ln. pose proof (last_text_none renames P_ParentItemID h Hn) as Lp.
  unfold entry_step. rewrite version_at_cons, Hv. unfold writes, versions, deletes in *. cbn [fst snd].
  destruct (Event_Type e) eqn:Ht; try done; eexists; (split; [reflexivity|]);
    (split; unfold first_write; rewrite ?last_text_cons, ?Ln, ?Lp, ?Hk, ?known_none by done; unfold deletes, settles, sets_kind, creates, touches, renames, first_kind, or_else;
     cbn [List.find known last fmap option_fmap option_map]; rewrite ?Ht; try done).
  all: try (by intros ? [= <-]). by destruct (P_Kind (payload_of e) != "").
Qed.

(** A later event of an item that is known. *)
Lemma later_describes e h w i : List.find writes h = Some w -> describes (Event_ItemID e) h w i ->
  exists item, entry_step e (Some i, version_at h) = (Some item, version_at (e :: h)) /\
    describes (Event_ItemID e) (e :: h) (if writes e then e else w) item.
Proof.
  intros Hw [D1 D2 D3 D4 D5 D6 D7 D8 D9].
  assert (known (e :: h) = e :: known h) as Hk.
  { apply known_some. cbn [List.find]. destruct (writes e); [by eexists|]. rewrite Hw. by eexists. }
  destruct (known_nonempty h w Hw) as (f & l & Hf).
  assert (first_write (e :: h) = first_write h) as Hfirst.
  { unfold first_write. rewrite Hk, Hf. change (e :: l ++ [f]) with ((e :: l) ++ [f]). by rewrite !last_snoc. }
  unfold entry_step. rewrite version_at_cons. unfold writes, versions, deletes in *. cbn [fst snd].
  destruct (Event_Type e) eqn:Ht; eexists; (split; [reflexivity|]);
    (split; rewrite ?Hfirst, ?last_text_cons, ?Hk by done; unfold deletes, settles, sets_kind, creates, touches, renames, or_else;
     cbn [List.find default option_map fmap option_fmap ItemID OwnerID ParentItemID Name Kind CurrentVersion DeletedAt CreatedAt UpdatedAt]; rewrite ?Ht; try done).
  - intros e0 He0 Hz. rewrite (D9 e0 He0 Hz). by rewrite Hz.
  - destruct (P_Name (payload_of e) != ""); [done|exact D4].
  - destruct (P_ParentItemID (payload_of e) != ""); [done|exact D5].
  - by destruct (P_Kind (payload_of e) != "").
  - destruct (P_Name (payload_of e) != ""); [done|exact D4].
  - destruct (P_ParentItemID (payload_of e) != ""); [done|exact D5].
Qed.

(** The entry of an item in the tree its history derives. *)
Lemma history_entry id h : Forall (fun e => Event_ItemID e = id) h ->
  match List.find writes h with
  | None => entry (foldl applyEvent NewTree (reverse h)) id = (None, None)
  | Some w => exists item, entry (foldl applyEvent NewTree (reverse h)) id = (Some item, version_at h) /\ describes id h w item
  end.
Proof.
  induction 1 as [|e h He Hh IH]; [done|].
  rewrite reverse_cons, foldl_app. cbn [foldl List.find]. subst id. rewrite applyEvent_entry.
  destruct (List.find writes h) as [w|] eqn:Hw.
  - destruct IH as (i & -> & Hi). destruct (later_describes e h w i Hw Hi) as (item & -> & Hd).
    destruct (writes e); by exists item.
  - rewrite IH. destruct (writes e) eqn:Hwe; [by apply first_describes|].
    unfold entry_step, writes in *. by destruct (Event_Type e).
Qed.

(** ** Properties *)


(** Items do not interfere: what the derived tree holds of an item, its
    record and its version, is what the events of that item alone derive. *)
Theorem derive_item_local events id (Hnd : NoDup (CursorSeq <$> events)) :
  entry (Derive events) id =
  entry (Derive (List.filter (fun e => Event_ItemID e == id) events)) id.
Proof. rewrite !Derive_all, sort_cursor_filter by done. by apply fold_local. Qed.

(** Every tree derived at any cursor is well formed: an item is stored under
    its identifier; an item with a current version is not deleted and has the
    record of exactly that version; a version record belongs to an existing,
    undeleted item. So the planner never finds an item of a derived tree
    corrupt. *)
Theorem derive_tree_well_formed events cursor :
  tree_ok (DeriveUpTo events cursor) /\ BasePlanner.no_corrupt (DeriveUpTo events cursor).
Proof.
  pose proof (DeriveUpTo_ok events cursor) as [H1 H2 H3]. split; [done|].
  intros id. apply not_true_iff_false. intros Hc.
  unfold BasePlanner.corrupt, BasePlanner.present, item_of, version_of in Hc.
  destruct (Items (DeriveUpTo events cursor) !! id) as [i|] eqn:Hi; [|done]. simpl in Hc. to_prop.
  destruct (H2 id i Hi) as (_ & v & Hv & Hver); [done|]. rewrite Hv in *. simpl in *. congruence.
Qed.

(** Payloads round trip: the payload an event carries as JSON text is read
    back exactly, when its strings are valid UTF-8. *)
Theorem payload_roundtrip p (Hu : payload_utf8 p) : ParsePayload (Payload_JSON p) = p.
Proof.
  unfold ParsePayload, Payload_JSON.
  assert (integral (payload_json p) = true) as Hi.
  { unfold payload_json, omit_str. cbn [integral]. rewrite !forallb_app.
    repeat (case_bool_decide; cbn [forallb integral snd andb]); done. }
  rewrite bool_decide_eq_false_2.
  2:{ intros He. apply (f_equal chars) in He. by rewrite print_marshal in He. }
  rewrite parse_marshal, clean_utf8 by done. apply fold_payload.
Qed.

(** An update or a blob upload that names no version leaves the item deleted
    for every reader of the tree, as it has no current version, while its old
    version record stays in the map of the live items' versions. *)
Theorem derive_keeps_stale_version evt1 evt2
    (H1 : Event_Type evt1 = EventCreate) (H2 : Event_Type evt2 = EventUpdate \/ Event_Type evt2 = EventBlobUpload)
    (Hid : Event_ItemID evt2 = Event_ItemID evt1)
    (Hseq : (CursorSeq evt1 < CursorSeq evt2)%Z)
    (Hv1 : P_VersionID (ParsePayload (PayloadJSON evt1)) <> "")
    (Hv2 : P_VersionID (ParsePayload (PayloadJSON evt2)) = "") :
  IsDeleted (Derive [evt1; evt2]) (Event_ItemID evt1) = true /\
  Versions (Derive [evt1; evt2]) !! Event_ItemID evt1 =
    Some (versionFromPayload evt1 (ParsePayload (PayloadJSON evt1))).
Proof.
  rewrite Derive_all. change [evt1; evt2] with ([evt1] ++ [evt2]).
  rewrite sort_cursor_snoc by (intros x ->%list_elem_of_singleton; done).
  cbn [sort_slice foldl insert_sorted app].
  set (t := applyEvent (applyEvent NewTree evt1) evt2).
  assert (entry t (Event_ItemID evt2) =
    (Items t !! Event_ItemID evt2, Versions t !! Event_ItemID evt2)) as Hent by done.
  assert (entry (applyEvent NewTree evt1) (Event_ItemID evt1) = (Some (Build_Item (Event_ItemID evt1)
      (Event_OwnerID evt1) (P_ParentItemID (ParsePayload (PayloadJSON evt1))) (P_Name (ParsePayload (PayloadJSON evt1)))
      (kind_of_string (P_Kind (ParsePayload (PayloadJSON evt1)))) (P_VersionID (ParsePayload (PayloadJSON evt1)))
      None (Event_CreatedAt evt1) (Event_CreatedAt evt1)),
      Some (versionFromPayload evt1 (ParsePayload (PayloadJSON evt1))))) as He1.
  { unfold applyEvent. cbv zeta. rewrite H1, put_version_same. simpl.
    rewrite lookup_insert_eq, lookup_empty, bool_decide_eq_false_2 by done. done. }
  injection He1 as Hi1 Hver1.
  assert (exists i, entry t (Event_ItemID evt2) = (Some i, Some (versionFromPayload evt1 (ParsePayload (PayloadJSON evt1))))
      /\ CurrentVersion i = "") as (i & He & Hc).
  { unfold t, applyEvent at 1. cbv zeta.
    destruct H2 as [-> | ->]; rewrite put_version_same, Hv2; simpl;
      rewrite lookup_insert_eq, Hid, Hver1; eexists; split; done. }
  rewrite He, Hid in Hent. injection Hent as Hi Hv. rewrite <-Hv. split; [|done].
  unfold IsDeleted. by rewrite <-Hi, Hc, orb_true_r.
Qed.

(** ** Evaluated instances *)
Module Demo.
Definition payload (name ver : string) : string :=
  Payload_JSON (Build_Payload name "root" "file" ver "" "" "").
Definition event (t : EventType) (id : string) (seq : Z) (p : string) : Event :=
  Build_Event ("base_evt_" +:+ itoa seq) "o" id "d" "s" t KindFile "" "" seq p seq.
Definition events : list Event :=
  [event EventCreate "a" 1 (payload "x" "base_ver_1"); event EventCreate "b" 2 (payload "y" "base_ver_2");
   event EventMove "a" 3 (payload "z" ""); event EventDelete "b" 4 ""].


Lemma derive_item_local_witness :
  option_map Name (Items (Derive events) !! "a") = Some "z" /\
  entry (Derive events) "a" = entry (Derive (List.filter (fun e => Event_ItemID e == "a") events)) "a".
Proof.
  split; [vm_compute; reflexivity|]. apply (derive_item_local events "a"). by_deciding.
Defined.

Lemma payload_roundtrip_witness :
  ParsePayload (Payload_JSON (Build_Payload "a<b" "" "file" "v" "" "" "")) =
  Build_Payload "a<b" "" "file" "v" "" "" "".
Proof. apply (payload_roundtrip (Build_Payload "a<b" "" "file" "v" "" "" "")). vm_compute. reflexivity. Defined.

Lemma derive_keeps_stale_version_witness :
  IsDeleted (Derive [event EventCreate "a" 1 (payload "x" "base_ver_1"); event EventUpdate "a" 2 ""]) "a" = true.
Proof.
  refine (proj1 (derive_keeps_stale_version (event EventCreate "a" 1 (payload "x" "base_ver_1"))
    (event EventUpdate "a" 2 "") eq_refl (or_introl eq_refl) eq_refl _ _ eq_refl)); [done|].
  vm_compute. discriminate.
Defined.
End Demo.
End BaseTree.
