(* ===== verification/BaseJournal.v ===== *)
(** * BaseJournal: the append-only journal and its hash chain

    Models [internal/base/journal/journal.go]: the chain hash, [MemJournal] with
    [Append], [Entries], [EntriesUpTo], the cursors, and [verifyChain]. A method
    returns the journal it leaves and its result. *)
From S2P Require Import Prelude GoStrings GoTime GoJson CanonicalJson JsonRoundTrip Sha256 BaseModel BaseTree.
From Stdlib Require Import Ascii.
Import BaseModel.

Module BaseJournal.

Record Entry := { Entry_Event : Event; Hash : string }.

Inductive journal_error :=
  | ErrEventID | ErrItemID | ErrEventType | ErrOwner
  | ErrCursor | ErrParent | ErrNegativeCursor | ErrBeyondHead
  | ErrChainCursor | ErrChainParent | ErrChainMissing | ErrChainHash.

Definition event_json (e : Event) (created : string) : json := JObj [
  ("EventID", JStr (EventID e)); ("OwnerID", JStr (Event_OwnerID e)); ("ItemID", JStr (Event_ItemID e));
  ("DeviceID", JStr (DeviceID e)); ("SubjectID", JStr (SubjectID e));
  ("EventType", JStr (event_type_string (Event_Type e))); ("Kind", JStr (kind_string (Event_Kind e)));
  ("BlobRef", JStr (Event_BlobRef e)); ("ParentEventID", JStr (ParentEventID e));
  ("CursorSeq", JInt (CursorSeq e)); ("PayloadJSON", JStr (PayloadJSON e)); ("CreatedAt", JStr created)].

(** [fmt.Sprintf("%v", evt)], the fallback for a year JSON cannot carry. *)
Definition event_text (e : Event) : string :=
  "{" +:+ join " " [EventID e; Event_OwnerID e; Event_ItemID e; DeviceID e; SubjectID e;
    event_type_string (Event_Type e); kind_string (Event_Kind e); Event_BlobRef e; ParentEventID e;
    itoa (CursorSeq e); PayloadJSON e; time_String (Event_CreatedAt e)] +:+ "}".

Definition event_bytes (e : Event) : string :=
  match marshal_time (Event_CreatedAt e) with
  | Some created => marshal (event_json e created)
  | None => event_text e
  end.

Section Journal.
Context {sh : Sha256}.

Definition computeHash (evt : Event) (parentHash : string) : string :=
  sha256_hex (parentHash +:+ event_bytes evt).

(** ** [MemJournal] *)
Record MemJournal := {
  entries : list Entry;
  lastByItem : gmap string string;
  lastSeq : Z;
  cursors : gmap string Z;
}.

Definition NewMemJournal : MemJournal := Build_MemJournal [] ∅ 0 ∅.

Definition validateEvent (evt : Event) : res journal_error unit :=
  refuse negb (EventID_Valid (EventID evt)) with ErrEventID ;;
  refuse negb (ItemID_Valid (Event_ItemID evt)) with ErrItemID ;;
  refuse negb (EventType_Valid (Event_Type evt)) with ErrEventType ;;
  refuse Event_OwnerID evt == "" with ErrOwner ;;
  Ok tt.

Definition with_seq (e : Event) (seq : Z) : Event :=
  Build_Event (EventID e) (Event_OwnerID e) (Event_ItemID e) (DeviceID e) (SubjectID e) (Event_Type e)
    (Event_Kind e) (Event_BlobRef e) (ParentEventID e) seq (PayloadJSON e) (Event_CreatedAt e).

Definition with_parent (e : Event) (parent : string) : Event :=
  Build_Event (EventID e) (Event_OwnerID e) (Event_ItemID e) (DeviceID e) (SubjectID e) (Event_Type e)
    (Event_Kind e) (Event_BlobRef e) parent (CursorSeq e) (PayloadJSON e) (Event_CreatedAt e).

(** The hash of the latest entry of an item, scanning from the end. *)
Fixpoint find_hash (item : string) (rev_entries : list Entry) : string :=
  match rev_entries with
  | [] => ""
  | e :: es => if Event_ItemID (Entry_Event e) == item then Hash e else find_hash item es
  end.

Definition Append (j : MemJournal) (evt : Event) : MemJournal * res journal_error Entry :=
  match validateEvent evt with
  | Err e => (j, Err e)
  | Ok _ =>
    let evt := if (CursorSeq evt =? 0)%Z then with_seq evt (wrap_i64 (lastSeq j + 1)) else evt in
    if (CursorSeq evt <=? lastSeq j)%Z then (j, Err ErrCursor) else
    let expectedParent := default "" (lastByItem j !! Event_ItemID evt) in
    if (ParentEventID evt != "") && (expectedParent != "") && (ParentEventID evt != expectedParent)
    then (j, Err ErrParent) else
    let evt := if ParentEventID evt == "" then with_parent evt expectedParent else evt in
    let parentHash := if expectedParent != "" then find_hash (Event_ItemID evt) (rev (entries j)) else "" in
    let entry := Build_Entry evt (computeHash evt parentHash) in
    (Build_MemJournal (entries j ++ [entry]) (<[Event_ItemID evt := EventID evt]> (lastByItem j))
       (CursorSeq evt) (cursors j), Ok entry)
  end.

Definition entry_less (a b : Entry) : bool := (CursorSeq (Entry_Event a) <? CursorSeq (Entry_Event b))%Z.

Definition Entries (j : MemJournal) : list Entry := sort_slice entry_less (entries j).

Definition EntriesUpTo (j : MemJournal) (maxSeq : Z) : list Entry :=
  sort_slice entry_less (List.filter (fun e => (CursorSeq (Entry_Event e) <=? maxSeq)%Z) (entries j)).

Definition Cursor (j : MemJournal) (deviceID : string) : Z := default 0%Z (cursors j !! deviceID).

Definition SetCursor (j : MemJournal) (deviceID : string) (seq : Z) : MemJournal * res journal_error unit :=
  if (seq <? 0)%Z then (j, Err ErrNegativeCursor)
  else if (lastSeq j <? seq)%Z then (j, Err ErrBeyondHead)
  else (Build_MemJournal (entries j) (lastByItem j) (lastSeq j) (<[deviceID := seq]> (cursors j)), Ok tt).

(** ** Verification *)
Record chain_state := {
  byID : gmap string Entry;
  chain_last : gmap string string;
  chain_seq : Z;
}.

Definition verify_entry (s : chain_state) (e : Entry) : res journal_error chain_state :=
  let evt := Entry_Event e in
  refuse (CursorSeq evt <=? chain_seq s)%Z with ErrChainCursor ;;
  let expectedParent := default "" (chain_last s !! Event_ItemID evt) in
  refuse ParentEventID evt != expectedParent with ErrChainParent ;;
  let? parentHash :=
    (if expectedParent != "" then
       match byID s !! expectedParent with
       | None => Err ErrChainMissing
       | Some parent => Ok (Hash parent)
       end
     else Ok "") in
  refuse Hash e != computeHash evt parentHash with ErrChainHash ;;
  Ok {| byID := <[EventID evt := e]> (byID s);
        chain_last := <[Event_ItemID evt := EventID evt]> (chain_last s);
        chain_seq := CursorSeq evt |}.

Fixpoint verify_from (s : chain_state) (es : list Entry) : res journal_error chain_state :=
  match es with
  | [] => Ok s
  | e :: es => let? s' := verify_entry s e in verify_from s' es
  end.

Definition verifyChain (es : list Entry) : res journal_error unit :=
  let? _ := verify_from (Build_chain_state ∅ ∅ (-1)) es in Ok tt.

Definition VerifyChain (j : MemJournal) : res journal_error unit := verifyChain (entries j).

Definition Events (es : list Entry) : list Event := map Entry_Event es.

(** ** Verified tapes *)
Definition on_item (x : string) (e : Entry) : bool := Event_ItemID (Entry_Event e) == x.

Definition item_events (x : string) (es : list Entry) : list Event := map Entry_Event (List.filter (on_item x) es).

(** The hash the last entry of an item has. *)
Definition item_hash (x : string) (es : list Entry) : string := find_hash x (rev es).

(** The events of one item, the latest first, and the hash they chain to. *)
Inductive chained : list Event -> string -> Prop :=
  | chained_nil : chained [] ""
  | chained_cons e l h : chained l h -> chained (e :: l) (computeHash e h).

Definition ids (es : list Entry) : list string := map (fun e => EventID (Entry_Event e)) es.

(** What [verify_from] knows after a tape with distinct, non-empty event ids. *)
Record chain_inv (es : list Entry) (s : chain_state) : Prop := {
  inv_last : forall x, chain_last s !! x = None -> item_events x es = [] /\ item_hash x es = "";
  inv_byID : forall x id, chain_last s !! x = Some id ->
    id <> "" /\ exists e, byID s !! id = Some e /\ Hash e = item_hash x es;
  inv_chained : forall x, chained (rev (item_events x es)) (item_hash x es);
  inv_ids : forall id e, byID s !! id = Some e -> id ∈ ids es;
}.

Lemma item_hash_snoc x es e :
  item_hash x (es ++ [e]) = if on_item x e then Hash e else item_hash x es.
Proof. unfold item_hash. by rewrite rev_app_distr. Qed.

Lemma item_events_snoc x es e :
  item_events x (es ++ [e]) = item_events x es ++ (if on_item x e then [Entry_Event e] else []).
Proof. unfold item_events. rewrite List.filter_app, map_app. simpl. by destruct (on_item x e). Qed.

Lemma verify_from_snoc s es e :
  verify_from s (es ++ [e]) = (let? s' := verify_from s es in verify_entry s' e).
Proof.
  revert s. induction es as [|x es IH]; intros s; simpl.
  - by destruct (verify_entry s e).
  - destruct (verify_entry s x); [apply IH|done].
Qed.

(** The hash a new entry of the tape chains to. *)
Lemma chain_parent_hash es s x :
  chain_inv es s ->
  (if default "" (chain_last s !! x) != "" then
     match byID s !! default "" (chain_last s !! x) with
     | None => Err ErrChainMissing
     | Some parent => Ok (Hash parent)
     end
   else Ok "") = Ok (item_hash x es) :> res journal_error string.
Proof.
  intros [Hl Hb _ _]. destruct (chain_last s !! x) as [id|] eqn:E; simpl.
  - destruct (Hb x id E) as (Hne & e & -> & <-). by rewrite bool_decide_eq_false_2.
  - by destruct (Hl x E) as [_ ->].
Qed.

Lemma verify_entry_inv es s e s' :
  chain_inv es s -> EventID (Entry_Event e) <> "" -> EventID (Entry_Event e) ∉ ids es ->
  verify_entry s e = Ok s' -> chain_inv (es ++ [e]) s'.
Proof.
  intros Hinv Hne Hni Hv. pose proof Hinv as [Hl Hb Hc Hi]. unfold verify_entry in Hv.
  rewrite (chain_parent_hash es) in Hv by done.
  destruct (_ <=? _)%Z; [done|]. destruct (_ != _); [done|].
  destruct (Hash e != _) eqn:Hh; [done|]. simplify_eq/=. to_prop.
  split; simpl.
  - intros x [Hx Hxe]%lookup_insert_None. rewrite item_hash_snoc, item_events_snoc. unfold on_item.
    rewrite bool_decide_eq_false_2 by done. rewrite app_nil_r. auto.
  - intros x id [[<- <-]|[Hx Hxe]]%lookup_insert_Some; rewrite item_hash_snoc; unfold on_item.
    + split; [done|]. exists e. by rewrite lookup_insert_eq, bool_decide_eq_true_2.
    + rewrite bool_decide_eq_false_2 by done. destruct (Hb x id Hxe) as (Hne' & e' & He' & Hh').
      split; [done|]. exists e'. split; [|done]. rewrite lookup_insert_ne; [done|].
      intros <-. by apply Hni, (Hi _ e').
  - intros x. rewrite item_hash_snoc, item_events_snoc. unfold on_item. case_bool_decide as Hx.
    + rewrite rev_app_distr. simpl. rewrite Hh, Hx. constructor. apply Hc.
    + rewrite app_nil_r. apply Hc.
  - intros id e'. unfold ids. rewrite map_app, elem_of_app. intros [[<- _]|[_ He']]%lookup_insert_Some.
    + right. simpl. by apply list_elem_of_singleton.
    + left. by eapply Hi.
Qed.

Lemma chain_inv_nil n : chain_inv [] (Build_chain_state ∅ ∅ n).
Proof.
  split; simpl; intros *; rewrite ?lookup_empty; try done. constructor.
Qed.

Lemma verify_from_inv es s :
  NoDup (ids es) -> Forall (fun id => id <> "") (ids es) ->
  verify_from (Build_chain_state ∅ ∅ (-1)) es = Ok s -> chain_inv es s.
Proof.
  revert s. induction es as [|e es IH] using rev_ind; intros s Hnd Hne Hv.
  - simpl in Hv. simplify_eq. apply chain_inv_nil.
  - rewrite verify_from_snoc in Hv. unfold ids in Hnd, Hne. rewrite map_app in Hnd, Hne.
    apply NoDup_app in Hnd as (Hnd & Hni & _). apply Forall_app in Hne as [Hne Hee].
    destruct (verify_from _ es) as [s1|] eqn:E; [|done].
    apply Forall_inv in Hee. eapply verify_entry_inv; [by apply IH|done| |exact Hv].
    intros Hin. by apply (Hni _ Hin), list_elem_of_singleton.
Qed.

(** ** The hash commits to the events of an item *)

(** Events that JSON carries exactly: valid UTF-8 and a year up to 9999. *)
Definition encodable (e : Event) : Prop :=
  exists created, marshal_time (Event_CreatedAt e) = Some created /\ utf8 (event_json e created) = true.

(** Two events with the same fields; time stamps by their text. *)
Definition same_event (e1 e2 : Event) : Prop :=
  EventID e1 = EventID e2 /\ Event_OwnerID e1 = Event_OwnerID e2 /\ Event_ItemID e1 = Event_ItemID e2 /\
  DeviceID e1 = DeviceID e2 /\ SubjectID e1 = SubjectID e2 /\
  event_type_string (Event_Type e1) = event_type_string (Event_Type e2) /\
  kind_string (Event_Kind e1) = kind_string (Event_Kind e2) /\ Event_BlobRef e1 = Event_BlobRef e2 /\
  ParentEventID e1 = ParentEventID e2 /\ CursorSeq e1 = CursorSeq e2 /\ PayloadJSON e1 = PayloadJSON e2 /\
  marshal_time (Event_CreatedAt e1) = marshal_time (Event_CreatedAt e2).

Lemma event_bytes_json e : encodable e -> exists created,
  marshal_time (Event_CreatedAt e) = Some created /\ utf8 (event_json e created) = true /\
  event_bytes e = marshal (event_json e created).
Proof. intros (c & Hc & Hu). exists c. unfold event_bytes. by rewrite Hc. Qed.

Lemma event_json_integral e c : integral (event_json e c) = true.
Proof. unfold event_json. cbn [integral forallb snd]. by rewrite integral_JInt. Qed.

Lemma event_bytes_inj e1 e2 :
  encodable e1 -> encodable e2 -> event_bytes e1 = event_bytes e2 -> same_event e1 e2.
Proof.
  intros (c1 & Hc1 & U1 & ->)%event_bytes_json (c2 & Hc2 & U2 & ->)%event_bytes_json Heq.
  apply marshal_inj in Heq; [|apply event_json_integral..]. rewrite !clean_utf8 in Heq by done.
  unfold event_json in Heq. injection Heq. intros. unfold same_event. rewrite Hc1, Hc2.
  split_and!; first [done | by apply itoa_inj | congruence].
Qed.

Lemma event_bytes_head e : encodable e -> exists l, chars (event_bytes e) = "{"%char :: l.
Proof.
  intros (c & _ & _ & ->)%event_bytes_json. rewrite print_marshal. by eexists.
Qed.

(** A chain hash is empty only for the empty chain, and else 64 hexadecimal digits. *)
Lemma chained_shape l h : chained l h -> (l = [] /\ h = "") \/ (l <> [] /\ isSHA256 h = true).
Proof. intros [|e l' h' _]; [by left|right]. split; [done|apply sha256_hex_shape]. Qed.

Lemma isSHA256_head h : isSHA256 h = true -> exists a l, chars h = a :: l /\ a <> "{"%char.
Proof.
  intros Hh. pose proof (isSHA256_length h Hh) as Hlen. unfold len in Hlen. rewrite <-length_chars in Hlen.
  unfold isSHA256 in Hh. destruct (_ || _); [done|]. unfold hex_decodes in Hh.
  apply andb_true_iff in Hh as [_ Hh]. destruct (chars h) as [|a l]; [done|].
  exists a, l. split; [done|]. intros ->. done.
Qed.

(** The texts hashed along a chain of events, the latest first. *)
Fixpoint chain_hash (l : list Event) : string :=
  match l with [] => "" | e :: l => computeHash e (chain_hash l) end.
Fixpoint chain_texts (l : list Event) : list string :=
  match l with [] => [] | e :: l => (chain_hash l +:+ event_bytes e) :: chain_texts l end.

Lemma chained_hash l h : chained l h -> h = chain_hash l.
Proof. induction 1 as [|e l h _ ->]; done. Qed.

Lemma computeHash_inj e1 e2 l1 l2 h1 h2 :
  encodable e1 -> encodable e2 -> chained l1 h1 -> chained l2 h2 ->
  computeHash e1 h1 = computeHash e2 h2 ->
  (same_event e1 e2 /\ h1 = h2) \/ collision_in [h1 +:+ event_bytes e1; h2 +:+ event_bytes e2].
Proof.
  intros He1 He2 Hc1 Hc2 Heq.
  apply (sha256_hex_eq _ _ [h1 +:+ event_bytes e1; h2 +:+ event_bytes e2]) in Heq as [Heq|];
    [left|by right|in_list|in_list].
  destruct (event_bytes_head e1 He1) as [k1 Hk1], (event_bytes_head e2 He2) as [k2 Hk2].
  assert (h1 = h2) as ->.
  { apply chained_shape in Hc1 as [[_ ->]|[_ H1]], Hc2 as [[_ ->]|[_ H2]]; [done|exfalso|exfalso|].
    - destruct (isSHA256_head h2 H2) as (a & l & Ha & Hne). apply (f_equal chars) in Heq.
      rewrite !chars_app, Ha, Hk1 in Heq. by injection Heq.
    - destruct (isSHA256_head h1 H1) as (a & l & Ha & Hne). apply (f_equal chars) in Heq.
      rewrite !chars_app, Ha, Hk2 in Heq. by injection Heq.
    - apply string_app_inj_length in Heq as [Heq _]; [done|].
      apply isSHA256_length in H1, H2. unfold len in *. congruence. }
  split; [|done]. apply string_app_inj_l in Heq. by apply event_bytes_inj.
Qed.

Lemma chained_inj l1 l2 h :
  Forall encodable l1 -> Forall encodable l2 -> chained l1 h -> chained l2 h ->
  Forall2 same_event l1 l2 \/ collision_in (chain_texts l1 ++ chain_texts l2).
Proof.
  intros Hl1. revert l2 h. induction Hl1 as [|e1 l1 He1 Hl1 IH]; intros l2 h Hl2 H1 H2.
  - left. inversion H1; subst. apply chained_shape in H2 as [[-> _]|[_ ?]]; [constructor|done].
  - inversion H1 as [|? ? h1 Hc1]; subst. inversion H2 as [Heq|e2 l2' h2 Hc2 Heq]; subst.
    + pose proof (sha256_hex_nonempty (h1 +:+ event_bytes e1)) as Hne. done.
    + apply Forall_cons in Hl2 as [He2 Hl2].
      destruct (computeHash_inj e1 e2 l1 l2' h1 h2) as [[Hs ->]|Hcol]; try done.
      * destruct (IH l2' h2) as [Hall|Hcol]; try done; [left; by constructor|right].
        eapply collision_in_subset; [|exact Hcol]. simpl. set_solver.
      * right. eapply collision_in_subset; [|exact Hcol].
        rewrite (chained_hash _ _ Hc1), (chained_hash l2' h2) by done. simpl. set_solver.
Qed.

(** ** Journals *)

(** What a successful append did. *)
Lemma Append_inv j evt j' r :
  Append j evt = (j', r) ->
  (j' = j /\ is_ok r = false) \/
  exists e, r = Ok e /\ validateEvent evt = Ok tt /\
    EventID (Entry_Event e) = EventID evt /\ Event_ItemID (Entry_Event e) = Event_ItemID evt /\
    (lastSeq j < CursorSeq (Entry_Event e))%Z /\
    (CursorSeq evt <> 0%Z -> CursorSeq (Entry_Event e) = CursorSeq evt) /\
    ParentEventID (Entry_Event e) = (if ParentEventID evt == "" then default "" (lastByItem j !! Event_ItemID evt)
                                     else ParentEventID evt) /\
    (ParentEventID evt <> "" -> default "" (lastByItem j !! Event_ItemID evt) <> "" ->
     ParentEventID evt = default "" (lastByItem j !! Event_ItemID evt)) /\
    Hash e = computeHash (Entry_Event e)
      (if default "" (lastByItem j !! Event_ItemID evt) != "" then item_hash (Event_ItemID evt) (entries j) else "") /\
    j' = Build_MemJournal (entries j ++ [e]) (<[Event_ItemID evt := EventID evt]> (lastByItem j))
           (CursorSeq (Entry_Event e)) (cursors j).
Proof.
  unfold Append. destruct (validateEvent evt) as [[]|]; [|intros [= <- <-]; by left].
  set (evt1 := if (CursorSeq evt =? 0)%Z then with_seq evt _ else evt).
  assert (EventID evt1 = EventID evt /\ Event_ItemID evt1 = Event_ItemID evt /\
          ParentEventID evt1 = ParentEventID evt /\
          (CursorSeq evt <> 0%Z -> CursorSeq evt1 = CursorSeq evt)) as (H1 & H2 & H3 & H4).
  { unfold evt1. destruct (Z.eqb_spec (CursorSeq evt) 0); done. }
  clearbody evt1. rewrite <-H1, <-H2, <-H3. destruct (CursorSeq evt1 <=? lastSeq j)%Z eqn:Hc; [intros [= <- <-]; by left|].
  destruct ((ParentEventID evt1 != "") && _ && _) eqn:Hp; [intros [= <- <-]; by left|].
  set (evt2 := if ParentEventID evt1 == "" then with_parent evt1 _ else evt1).
  assert (EventID evt2 = EventID evt1 /\ Event_ItemID evt2 = Event_ItemID evt1 /\
          CursorSeq evt2 = CursorSeq evt1 /\
          ParentEventID evt2 = if ParentEventID evt1 == "" then default "" (lastByItem j !! Event_ItemID evt1)
                               else ParentEventID evt1) as (G1 & G2 & G3 & G4).
  { unfold evt2. by destruct (ParentEventID evt1 == ""). }
  clearbody evt2. rewrite !G2. intros [= <- <-]. right. eexists. split; [done|]. apply Z.leb_gt in Hc.
  cbn [Entry_Event Hash]. rewrite G1, G2, G3. split_and!; try done.
  intros Hn1 Hn2. rewrite (bool_decide_eq_false_2 _ Hn1), (bool_decide_eq_false_2 _ Hn2) in Hp. simpl in Hp.
  by to_prop.
Qed.

(** The cursors of a journal increase and end at its head. *)
Record cursors_ok (j : MemJournal) : Prop := {
  cursors_sorted : StronglySorted (fun a b => entry_less a b = true) (entries j);
  cursors_head : forall e, e ∈ entries j -> (0 < CursorSeq (Entry_Event e) <= lastSeq j)%Z;
  cursors_nonneg : (0 <= lastSeq j)%Z;
}.

(** Any use of a journal. *)
Inductive step : MemJournal -> MemJournal -> Prop :=
  | step_append j evt j' r : Append j evt = (j', r) -> step j j'
  | step_cursor j d n j' r : SetCursor j d n = (j', r) -> step j j'.

Inductive later : MemJournal -> MemJournal -> Prop :=
  | later_refl j : later j j
  | later_step j1 j2 j3 : later j1 j2 -> step j2 j3 -> later j1 j3.

Definition reachable (j : MemJournal) : Prop := later NewMemJournal j.

Lemma StronglySorted_snoc {A} (R : A -> A -> Prop) l x :
  StronglySorted R l -> Forall (fun y => R y x) l -> StronglySorted R (l ++ [x]).
Proof.
  induction 1 as [|y l Hs IH Hall]; simpl; intros Hx; [repeat constructor|].
  apply Forall_cons in Hx as [Hy Hx]. constructor; [by apply IH|].
  apply Forall_app. split; [done|by constructor].
Qed.

Lemma SetCursor_fields j d n j' r :
  SetCursor j d n = (j', r) -> entries j' = entries j /\ lastByItem j' = lastByItem j /\ lastSeq j' = lastSeq j.
Proof. unfold SetCursor. intros Hs. repeat case_match; by simplify_eq. Qed.

Lemma step_cursors_ok j j' : cursors_ok j -> step j j' -> cursors_ok j'.
Proof.
  intros Hok Hst. destruct Hst as [j evt j' r Ha|j d n j' r Hs].
  - apply Append_inv in Ha as [[-> _]|(e & _ & _ & _ & _ & Hlt & _ & _ & _ & _ & ->)]; [done|].
    destruct Hok as [H1 H2 H3]. split; simpl; [|..|lia].
    + apply StronglySorted_snoc; [done|]. apply Forall_forall. intros x Hx.
      unfold entry_less. apply Z.ltb_lt. specialize (H2 x Hx). lia.
    + intros x [Hx|Hx]%elem_of_app; [specialize (H2 x Hx); lia|].
      apply list_elem_of_singleton in Hx as ->. lia.
  - apply SetCursor_fields in Hs as (E1 & _ & E3). destruct Hok as [H1 H2 H3].
    split; by rewrite ?E1, ?E3.
Qed.

Lemma later_cursors_ok j j' : cursors_ok j -> later j j' -> cursors_ok j'.
Proof. intros Hok Hl. induction Hl; [done|]. eapply step_cursors_ok; [by apply IHHl|done]. Qed.

Lemma new_cursors_ok : cursors_ok NewMemJournal.
Proof. split; simpl; [constructor| |done]. by intros e ?%elem_of_nil. Qed.

Lemma later_prefix j j' :
  later j j' -> exists es, entries j' = entries j ++ es /\ (lastSeq j <= lastSeq j')%Z /\
    (cursors_ok j -> forall e, e ∈ es -> (lastSeq j < CursorSeq (Entry_Event e))%Z).
Proof.
  induction 1 as [j|j1 j2 j3 Hl (es & He & Hs & Hc) Hst].
  - exists []. rewrite app_nil_r. split_and!; [done|lia|]. by intros _ e ?%elem_of_nil.
  - destruct Hst as [j2 evt j3 r Ha|j2 d n j3 r Hc2].
    + apply Append_inv in Ha as [[-> _]|(e & _ & _ & _ & _ & Hlt & _ & _ & _ & _ & ->)]; [eauto|].
      exists (es ++ [e]). simpl. rewrite He, (assoc_L (++)). split_and!; [done|lia|].
      intros Hok x [Hx|Hx]%elem_of_app; [by apply Hc|].
      apply list_elem_of_singleton in Hx as ->. lia.
    + apply SetCursor_fields in Hc2 as (E1 & _ & E3). exists es. by rewrite E1, E3.
Qed.

Lemma sorted_entries_id l :
  StronglySorted (fun a b => entry_less a b = true) l -> sort_slice entry_less l = l.
Proof.
  intros Hs. apply (sort_slice_id (fun e => CursorSeq (Entry_Event e)) Z.ltb); [done|].
  induction Hs as [|e l Hs IH Hall]; csimpl; [constructor|]. constructor; [|done].
  intros (x & Hx & Hin)%list_elem_of_fmap. rewrite Forall_forall in Hall. specialize (Hall x Hin).
  unfold entry_less in Hall. apply Z.ltb_lt in Hall. lia.
Qed.

(** [C26] The journal is append-only. In whatever later state, after any appends
    and cursor updates, successful or refused, the entries of a journal are still
    there in place and unchanged, followed by entries with higher cursors; so
    reading up to an old head returns exactly the old entries. Cursors are
    positive and strictly increasing, [Entries] returns the tape as it is, and
    an append that is refused changes nothing. *)
Theorem journal_append_only j j' (Hr : reachable j) (Hl : later j j') :
  (exists es, entries j' = entries j ++ es) /\
  Entries j' = entries j' /\ EntriesUpTo j' (lastSeq j) = entries j /\
  NoDup (CursorSeq <$> Events (entries j')) /\
  (forall evt e j2, Append j evt = (j2, Err e) -> j2 = j).
Proof.
  pose proof (later_cursors_ok _ _ new_cursors_ok Hr) as Hok.
  pose proof (later_cursors_ok _ _ Hok Hl) as [Hs' Hh' _].
  destruct (later_prefix j j' Hl) as (es & He & Hle & Hgt). specialize (Hgt Hok).
  split_and!.
  - by exists es.
  - by apply sorted_entries_id.
  - unfold EntriesUpTo. rewrite He, List.filter_app.
    assert (List.filter (fun e => CursorSeq (Entry_Event e) <=? lastSeq j)%Z (entries j) = entries j) as ->.
    { apply forallb_filter_id, forallb_forall. intros e Hin%list_elem_of_In.
      apply Z.leb_le. apply (cursors_head j Hok e Hin). }
    assert (List.filter (fun e => CursorSeq (Entry_Event e) <=? lastSeq j)%Z es = []) as ->.
    { clear He. induction es as [|e es IH]; simpl; [done|].
      rewrite (proj2 (Z.leb_gt _ _)) by (apply Hgt; set_solver). apply IH. set_solver. }
    rewrite app_nil_r. apply sorted_entries_id, Hok.
  - clear He Hh'. induction Hs' as [|e l Hs IH Hall]; csimpl; [constructor|]. constructor; [|done].
    intros (x & Hx & Hin)%list_elem_of_fmap. apply list_elem_of_In, in_map_iff in Hin as (e' & <- & Hin).
    rewrite Forall_forall in Hall. specialize (Hall e' (proj2 (list_elem_of_In _ _) Hin)).
    unfold entry_less in Hall. apply Z.ltb_lt in Hall. lia.
  - intros evt e j2 Ha. apply Append_inv in Ha as [[-> _]|(e' & Hf & _)]; done.
Qed.

(** ** Appending and verifying *)

(** A use of [Append] as its callers make it: a new event identifier, and no
    parent named for the first event of an item. *)
Definition good_append (j : MemJournal) (evt : Event) : Prop :=
  EventID evt ∉ ids (entries j) /\ (ParentEventID evt = "" \/ is_Some (lastByItem j !! Event_ItemID evt)).

Inductive built : MemJournal -> Prop :=
  | built_new : built NewMemJournal
  | built_append j evt j' r : built j -> good_append j evt -> Append j evt = (j', r) -> built j'
  | built_cursor j d n j' r : built j -> SetCursor j d n = (j', r) -> built j'.

Record journal_inv (j : MemJournal) : Prop := {
  ji_cursors : cursors_ok j;
  ji_verified : exists s, verify_from (Build_chain_state ∅ ∅ (-1)) (entries j) = Ok s /\
    chain_inv (entries j) s /\ chain_last s = lastByItem j /\ (chain_seq s <= lastSeq j)%Z;
}.

Lemma validateEvent_id evt : validateEvent evt = Ok tt -> EventID evt <> "".
Proof.
  unfold validateEvent. intros Hv He. rewrite He in Hv. done.
Qed.

Lemma append_verifies j evt e s :
  chain_inv (entries j) s -> chain_last s = lastByItem j -> (chain_seq s <= lastSeq j)%Z ->
  (lastSeq j < CursorSeq (Entry_Event e))%Z ->
  Event_ItemID (Entry_Event e) = Event_ItemID evt ->
  ParentEventID (Entry_Event e) = default "" (lastByItem j !! Event_ItemID evt) ->
  Hash e = computeHash (Entry_Event e) (item_hash (Event_ItemID evt) (entries j)) ->
  is_ok (verify_entry s e) = true.
Proof.
  intros Hinv Hl Hs Hlt Hi Hp Hh. unfold verify_entry.
  rewrite (chain_parent_hash (entries j)) by done. rewrite Hi, Hl, Hp, Hh.
  rewrite (proj2 (Z.leb_gt _ _)) by lia. by rewrite !bool_decide_eq_true_2.
Qed.

Lemma journal_inv_step j evt j' r :
  journal_inv j -> good_append j evt -> Append j evt = (j', r) -> journal_inv j'.
Proof.
  intros Hj [Hni Hpar] Ha. pose proof (step_cursors_ok j j' (ji_cursors j Hj) (step_append _ _ _ _ Ha)) as Hc'.
  split; [done|]. destruct Hj as [_ (s & Hv & Hinv & Hlast & Hseq)].
  apply Append_inv in Ha as [[-> _]|(e & _ & Hval & Hid & Hitem & Hlt & _ & Hp & Hpm & Hh & ->)]; [by exists s|].
  simpl in *. rewrite verify_from_snoc, Hv.
  assert (item_hash (Event_ItemID evt) (entries j) =
    if default "" (lastByItem j !! Event_ItemID evt) != "" then item_hash (Event_ItemID evt) (entries j) else "") as Hih.
  { destruct (lastByItem j !! Event_ItemID evt) as [id|] eqn:E; simpl.
    - rewrite <-Hlast in E. destruct (inv_byID _ _ Hinv _ _ E) as [Hne _]. by rewrite bool_decide_eq_false_2.
    - rewrite <-Hlast in E. by destruct (inv_last _ _ Hinv _ E) as [_ ->]. }
  assert (is_ok (verify_entry s e) = true) as Hok.
  { eapply append_verifies; try done; [|by rewrite Hh, <-Hih].
    rewrite Hp. clear - Hpar Hpm Hlast Hinv. case_bool_decide as E; [done|]. destruct Hpar as [|[id Hid']]; [done|].
    apply Hpm; [done|]. rewrite Hid'. simpl. rewrite <-Hlast in Hid'. by apply (inv_byID _ _ Hinv) in Hid' as [? _]. }
  destruct (verify_entry s e) as [s'|] eqn:Es; [|done]. exists s'. split; [done|].
  split; [eapply verify_entry_inv; [done| | |exact Es]; rewrite Hid; [by apply validateEvent_id|done]|].
  unfold verify_entry in Es. rewrite (chain_parent_hash (entries j)) in Es by done.
  destruct (_ <=? _)%Z; [done|]. destruct (ParentEventID _ != _); [done|]. destruct (Hash e != _); [done|].
  simplify_eq/=. rewrite Hitem, Hid, Hlast. split; [done|lia].
Qed.

Lemma built_inv j : built j -> journal_inv j.
Proof.
  induction 1 as [|j evt j' r _ IH Hg Ha|j d n j' r _ IH Hs].
  - split; [apply new_cursors_ok|]. eexists. split; [done|]. split; [apply chain_inv_nil|]. simpl. split; [done|lia].
  - by eapply journal_inv_step.
  - pose proof (step_cursors_ok j j' (ji_cursors j IH) (step_cursor _ _ _ _ _ Hs)) as Hc'.
    apply SetCursor_fields in Hs as (E1 & E2 & E3). split; [done|].
    destruct IH as [_ IH]. by rewrite E1, E2, E3.
Qed.

(** Every journal built by appending events with new identifiers, leaving the
    parent of an item's first event to the journal, verifies, whatever was
    refused in between. *)
Theorem built_journal_verifies j (Hb : built j) : VerifyChain j = Ok tt.
Proof.
  destruct (built_inv j Hb) as [_ (s & Hv & _)]. unfold VerifyChain, verifyChain. by rewrite Hv.
Qed.

(** [Append] accepts a parent named for the first event of an item, which
    [VerifyChain] then rejects for ever: the journal's own append makes its tape
    count as tampered with. *)
Theorem append_first_parent_breaks_chain j evt
    (Hb : built j) (Hv : validateEvent evt = Ok tt) (Hseq : (lastSeq j < CursorSeq evt)%Z)
    (Hfirst : lastByItem j !! Event_ItemID evt = None) (Hpar : ParentEventID evt <> "") :
  exists e, (Append j evt).2 = Ok e /\ VerifyChain (Append j evt).1 = Err ErrChainParent.
Proof.
  destruct (built_inv j Hb) as [Hc (s & Hver & Hinv & Hlast & Hs)].
  destruct (Append j evt) as [j' r] eqn:Ha. pose proof Ha as Ha'.
  apply Append_inv in Ha as [[-> Hr]|(e & -> & _ & Hid & Hitem & Hlt & _ & Hp & _ & _ & ->)].
  - exfalso. unfold Append in Ha'. rewrite Hv, (proj2 (Z.eqb_neq _ _)), Hfirst in Ha' by (destruct Hc; lia).
    cbv zeta in Ha'. rewrite (proj2 (Z.leb_gt _ _)) in Ha' by lia.
    rewrite (bool_decide_eq_true_2 (default "" None = "")) in Ha' by done.
    cbn [negb] in Ha'. rewrite andb_false_r in Ha'. cbn [andb] in Ha'. apply (f_equal snd) in Ha'. simpl in Ha'. by subst r.
  - exists e. split; [done|]. unfold VerifyChain, verifyChain. simpl. rewrite verify_from_snoc, Hver.
    unfold verify_entry. rewrite (proj2 (Z.leb_gt _ _)) by lia.
    rewrite Hlast, Hitem, Hfirst, Hp. simpl.
    by rewrite (bool_decide_eq_false_2 (ParentEventID evt = "")), bool_decide_eq_false_2 by done.
Qed.

(** The texts hashed for the events of an item. *)
Definition item_texts (item : string) (es : list Entry) : list string := chain_texts (rev (item_events item es)).

(** [C39] The chain is tamper-evident: of two tapes that both verify, with distinct
    non-empty event identifiers, whose last entries for an item have one hash,
    the events of the item are the same, one by one, with all their fields; or
    two of the texts hashed along the two chains are different and have one
    SHA-256. (Strings are assumed to be
    valid UTF-8 and years at most 9999, since the encoding keeps no more.) *)
Theorem tape_tamper_evident es1 es2 item
    (V1 : verifyChain es1 = Ok tt) (V2 : verifyChain es2 = Ok tt)
    (D1 : NoDup (ids es1)) (D2 : NoDup (ids es2))
    (N1 : Forall (fun id => id <> "") (ids es1)) (N2 : Forall (fun id => id <> "") (ids es2))
    (U1 : Forall encodable (item_events item es1)) (U2 : Forall encodable (item_events item es2))
    (Hhash : item_hash item es1 = item_hash item es2) :
  Forall2 same_event (item_events item es1) (item_events item es2) \/
  collision_in (item_texts item es1 ++ item_texts item es2).
Proof.
  unfold verifyChain in V1, V2.
  destruct (verify_from _ es1) as [s1|] eqn:E1; [|done].
  destruct (verify_from _ es2) as [s2|] eqn:E2; [|done].
  apply verify_from_inv in E1 as [_ _ C1 _]; [|done..].
  apply verify_from_inv in E2 as [_ _ C2 _]; [|done..].
  specialize (C1 item). specialize (C2 item). rewrite Hhash in C1.
  destruct (chained_inj (rev (item_events item es1)) (rev (item_events item es2)) (item_hash item es2))
    as [Hall|]; try done; [by apply Forall_rev..| |by right].
  left. apply Forall2_reverse in Hall. unfold reverse in Hall. by rewrite <-!rev_alt, !rev_involutive in Hall.
Qed.
End Journal.

(** ** A small journal to evaluate *)
Module Demo.
#[local] Existing Instance checksum.

Definition event (id item parent : string) : Event :=
  Build_Event ("base_evt_" +:+ id) "o" ("base_item_" +:+ item) "d" "s" EventCreate KindFile "" parent 0 "{}" 0%Z.

(** Append events in order, keeping the journal whether each is accepted or not. *)
Fixpoint append_all (j : MemJournal) (es : list Event) : MemJournal :=
  match es with [] => j | e :: es => append_all (Append j e).1 es end.

Definition journal1 : MemJournal := append_all NewMemJournal [event "1" "a" ""; event "2" "b" ""; event "3" "a" "base_evt_1"].
Definition journal2 : MemJournal := append_all journal1 [event "4" "b" ""; event "5" "b" "base_evt_2"].

Lemma later_append_all j es j' : later j j' -> later j (append_all j' es).
Proof.
  revert j'. induction es as [|e es IH]; simpl; intros j' Hl; [done|].
  apply IH. eapply later_step; [done|]. eapply (step_append _ e). apply surjective_pairing.
Qed.

Lemma built_append_next j e : built j -> good_append j e -> built (Append j e).1.
Proof. intros Hb Hg. eapply built_append; [done|exact Hg|apply surjective_pairing]. Qed.

Lemma journal1_built : built journal1.
Proof.
  unfold journal1. cbn [append_all]. apply built_append_next; [apply built_append_next; [apply built_append_next|]|].
  - constructor.
  - split; [|by left]. by_deciding.
  - split; [|by left]. by_deciding.
  - split; [|right]; by_deciding.
Qed.

Lemma journal_append_only_witness :
  length (entries journal1) = 3%nat /\ length (entries journal2) = 4%nat /\
  EntriesUpTo journal2 (lastSeq journal1) = entries journal1.
Proof.
  split; [vm_compute; reflexivity|]. split; [vm_compute; reflexivity|].
  apply (journal_append_only journal1 journal2); apply later_append_all; constructor.
Defined.

Lemma built_journal_verifies_witness : length (entries journal1) = 3%nat /\ VerifyChain journal1 = Ok tt.
Proof. split; [vm_compute; reflexivity|]. exact (built_journal_verifies journal1 journal1_built). Defined.

Lemma append_first_parent_breaks_chain_witness :
  exists e, (Append journal1 (with_seq (event "9" "c" "base_evt_1") 7)).2 = Ok e /\
    VerifyChain (Append journal1 (with_seq (event "9" "c" "base_evt_1") 7)).1 = Err ErrChainParent.
Proof.
  apply (append_first_parent_breaks_chain journal1 (with_seq (event "9" "c" "base_evt_1") 7) journal1_built);
    try (vm_compute; reflexivity). vm_compute. discriminate.
Defined.

Definition encodable_bool (e : Event) : bool :=
  match marshal_time (Event_CreatedAt e) with Some c => utf8 (event_json e c) | None => false end.

Lemma encodable_all l : forallb encodable_bool l = true -> Forall encodable l.
Proof.
  intros Hl. apply Forall_forall. intros e He%list_elem_of_In. rewrite forallb_forall in Hl.
  specialize (Hl e He). unfold encodable_bool in Hl. destruct (marshal_time _) as [c|] eqn:E; [by exists c|done].
Qed.

Lemma tape_tamper_evident_witness :
  Forall2 same_event (item_events "base_item_a" (entries journal1)) (item_events "base_item_a" (entries journal2)) \/
  collision_in (item_texts "base_item_a" (entries journal1) ++ item_texts "base_item_a" (entries journal2)).
Proof.
  apply (tape_tamper_evident (entries journal1) (entries journal2) "base_item_a").
  - vm_compute. reflexivity.
  - vm_compute. reflexivity.
  - by_deciding.
  - by_deciding.
  - by_deciding.
  - by_deciding.
  - apply encodable_all. vm_compute. reflexivity.
  - apply encodable_all. vm_compute. reflexivity.
  - vm_compute. reflexivity.
Defined.
End Demo.
End BaseJournal.
