(* ===== verification/BlobStore.v ===== *)
(** * BlobStore: the content-addressed blob store of Choir Base

    Models [internal/base/blob/store.go]. The directory of the store is a map from
    relative paths to nodes. [Put] returns the sequence of disk states it goes
    through, one per system call that changes the disk, so a crash leaves any of
    them; which calls fail, and how much a failing write leaves behind, is an
    argument. *)
From S2P Require Import Prelude GoStrings GoTime Sha256 BaseModel.
From Stdlib Require Import Ascii.
Import BaseModel.

Module BlobStore.

Inductive node := File (data : string) | Dir.

#[export] Instance node_eq_dec : EqDecision node.
Proof. solve_decision. Defined.

(** What is below the root of the store, by path. *)
Abbreviation disk := (gmap (list string) node).

Inductive blob_error := ErrInvalidRef | ErrNotFound | ErrCorruptBlob | ErrIO.

(** The calls of one [Put] that fail, the bytes a failing write leaves, and the
    name [os.CreateTemp] draws. *)
Record faults := {
  stat_fails : bool; mkdir_fails : bool; create_fails : bool; write_fails : bool;
  sync_fails : bool; close_fails : bool; rename_fails : bool;
  remove_fails : bool;
  written : string; temp_suffix : string;
}.

Definition no_faults (suffix : string) : faults :=
  Build_faults false false false false false false false false "" suffix.

Section Store.
Context {sh : Sha256}.

(** [filepath.Join] drops empty elements. *)
Definition shard (hexDigest : string) : string :=
  if Nat.ltb (len hexDigest) 2 then "_misc" else of_chars (take 2 (chars hexDigest)).

Definition path (hexDigest : string) : list string :=
  if hexDigest == "" then [shard hexDigest] else [shard hexDigest; hexDigest].

Definition is_file (s : disk) (p : list string) : bool :=
  match s !! p with Some (File _) => true | _ => false end.

(** [fileExists], with a failing stat. *)
Definition fileExists (fails : bool) (s : disk) (p : list string) : res blob_error bool :=
  if fails then Err ErrIO else Ok (is_file s p).

(** [os.MkdirAll] of a shard directory. *)
Definition mkdir (fails : bool) (s : disk) (dir : string) : option disk :=
  if fails then None else match s !! [dir] with
  | Some (File _) => None
  | _ => Some (<[[dir] := Dir]> s)
  end.

Definition temp_path (fl : faults) (dir : string) : list string := [dir; ".blob-tmp-" +:+ temp_suffix fl].

(** [os.Rename] of a file: over a file it replaces it, over a directory it
    fails with an error that [os.IsExist] recognises, which [Put] ignores. *)
Definition rename (fails : bool) (s : disk) (from to : list string) (data : string) : option disk :=
  if fails then None
  else if s !! to == Some Dir then Some s
  else Some (<[to := File data]> (delete from s)).

(** The deferred [os.Remove] of the temporary file, whose error is dropped. *)
Definition cleanup (fl : faults) (tmp : list string) (s : disk) : disk := if remove_fails fl then s else delete tmp s.

Definition Put (fl : faults) (s : disk) (data : string) : list disk * res blob_error string :=
  let hexDigest := sha256_hex data in
  let ref := "sha256:" +:+ hexDigest in
  let p := path hexDigest in
  match fileExists (stat_fails fl) s p with
  | Err e => ([s], Err e)
  | Ok true => ([s], Ok ref)
  | Ok false =>
    match mkdir (mkdir_fails fl) s (shard hexDigest) with
    | None => ([s], Err ErrIO)
    | Some s1 =>
      let tmp := temp_path fl (shard hexDigest) in
      if create_fails fl || (s1 !! tmp != None) then ([s; s1], Err ErrIO) else
      let s2 := <[tmp := File ""]> s1 in
      if write_fails fl then
        let s3 := <[tmp := File (written fl)]> s2 in ([s; s1; s2; s3; cleanup fl tmp s3], Err ErrIO)
      else
      let s3 := <[tmp := File data]> s2 in
      if sync_fails fl || close_fails fl then ([s; s1; s2; s3; cleanup fl tmp s3], Err ErrIO) else
      match rename (rename_fails fl) s3 tmp p data with
      | None => ([s; s1; s2; s3; cleanup fl tmp s3], Err ErrIO)
      | Some s4 => ([s; s1; s2; s3; s4; cleanup fl tmp s4], Ok ref)
      end
    end
  end.

(** The disk [Put] leaves when nothing crashes. *)
Definition put_disk (fl : faults) (s : disk) (data : string) : disk := List.last (Put fl s data).1 s.

Definition Get (s : disk) (ref : string) : res blob_error string :=
  refuse negb (BlobRef_Valid ref) with ErrInvalidRef ;;
  let hexDigest := TrimPrefix ref "sha256:" in
  match s !! path hexDigest with
  | None => Err ErrNotFound
  | Some Dir => Err ErrIO
  | Some (File data) =>
    refuse sha256_hex data != hexDigest with ErrCorruptBlob ;;
    Ok data
  end.

Definition Has (s : disk) (ref : string) : res blob_error bool :=
  refuse negb (BlobRef_Valid ref) with ErrInvalidRef ;;
  fileExists false s (path (TrimPrefix ref "sha256:")).

(** A directory has a size of its own, an argument. *)
Definition Stat (dir_size : Z) (s : disk) (ref : string) : res blob_error Blob :=
  refuse negb (BlobRef_Valid ref) with ErrInvalidRef ;;
  let hexDigest := TrimPrefix ref "sha256:" in
  match s !! path hexDigest with
  | None => Err ErrNotFound
  | Some n => Ok (Build_Blob ref (match n with File d => Z.of_nat (len d) | Dir => dir_size end) hexDigest 0%Z)
  end.

(** [CopyFrom], with what [io.ReadAll] gives. *)
Definition CopyFrom (fl : faults) (s : disk) (src : option string) : list disk * res blob_error string :=
  match src with None => ([s], Err ErrIO) | Some data => Put fl s data end.

(** ** References *)
Lemma isSHA256_lower h : isSHA256 h = true -> forallb is_lower_hex (chars h) = true.
Proof.
  unfold isSHA256, hex_decodes, to_lower. destruct (negb _); simpl; [done|].
  destruct (_ != h) eqn:Hl; [done|]. to_prop. intros [_ Hh]%andb_true_iff.
  apply (f_equal chars) in Hl. rewrite chars_of_chars in Hl. revert Hl Hh.
  induction (chars h) as [|a l IH]; simpl; [done|]. intros [= Ha Hl] [Hx Hr]%andb_true_iff.
  rewrite (IH Hl Hr), andb_true_r. unfold is_hex_digit in Hx. unfold is_lower_hex.
  apply orb_true_iff in Hx as [Hx|Hx]; [done|]. unfold in_range at 1 in Ha.
  unfold in_range in Hx. rewrite andb_true_iff, !N.leb_le in Hx.
  rewrite (proj2 (andb_true_iff _ _)) in Ha by (rewrite !N.leb_le; lia).
  apply (f_equal code) in Ha. unfold code, byte_of in *. rewrite N_ascii_embedding in Ha by lia. lia.
Qed.

Lemma substring_drop n m s :
  len s <= n + m -> String.substring n m s = drop_string n s.
Proof.
  unfold drop_string, len. revert n m. induction s as [|a s IH]; intros n m Hl.
  - by destruct n, m.
  - destruct n as [|n]; simpl in *.
    + destruct m as [|m]; simpl; [lia|]. unfold of_chars. simpl. f_equal.
      rewrite IH by (simpl; lia). reflexivity.
    + by rewrite IH by lia.
Qed.

Lemma HasPrefix_drop p s : HasPrefix s p = true -> s = p +:+ drop_string (len p) s.
Proof.
  unfold HasPrefix. revert s. induction p as [|a p IH]; intros [|b s] Hp; try done.
  - symmetry. apply of_chars_chars.
  - simpl in Hp. destruct (ascii_dec a b) as [->|]; [|done].
    change (String b s = String b (p +:+ drop_string (len p) s)). f_equal. by apply IH.
Qed.

Lemma ref_trim h : TrimPrefix ("sha256:" +:+ h) "sha256:" = h.
Proof.
  unfold TrimPrefix. replace (HasPrefix _ _) with true; [|by destruct h].
  rewrite substring_drop by lia. apply of_chars_chars.
Qed.

Lemma ref_valid h : isSHA256 h = true -> BlobRef_Valid ("sha256:" +:+ h) = true.
Proof.
  intros Hh. unfold BlobRef_Valid. rewrite bool_decide_eq_false_2 by done.
  replace (HasPrefix _ _) with true; [|by destruct h]. simpl.
  replace (drop_string _ _) with h by (symmetry; apply of_chars_chars).
  rewrite (isSHA256_length h Hh). simpl. by apply isSHA256_lower.
Qed.

Lemma path_sha h : isSHA256 h = true -> path h = [shard h; h].
Proof. intros Hh. unfold path. rewrite bool_decide_eq_false_2; [done|by apply isSHA256_nonempty]. Qed.

Lemma path_temp h fl dir : isSHA256 h = true -> path h <> temp_path fl dir.
Proof. intros Hh. rewrite path_sha by done. unfold temp_path. intros [= _ ->]. apply isSHA256_lower in Hh. done. Qed.

Lemma path_shard h dir : isSHA256 h = true -> path h <> [dir].
Proof. intros Hh. by rewrite path_sha. Qed.

Lemma path_inj h1 h2 : isSHA256 h1 = true -> isSHA256 h2 = true -> path h1 = path h2 -> h1 = h2.
Proof. intros H1 H2. rewrite !path_sha by done. congruence. Qed.

Lemma valid_ref ref : BlobRef_Valid ref = true ->
  ref = "" \/ ref = "sha256:" +:+ TrimPrefix ref "sha256:".
Proof.
  unfold BlobRef_Valid, TrimPrefix. case_bool_decide; [by left|]. right.
  destruct (HasPrefix ref "sha256:") eqn:Hp; [|done]. rewrite substring_drop by lia. clear -Hp.
  by apply HasPrefix_drop in Hp.
Qed.

(** ** The contents of a disk *)

(** Every blob path holds a file with that digest. *)
Definition intact (s : disk) : Prop :=
  forall h n, isSHA256 h = true -> s !! path h = Some n -> exists d, n = File d /\ sha256_hex d = h.

(** [s'] has the blobs of [s], and perhaps [data] as well. *)
Definition extends (data : string) (s s' : disk) : Prop :=
  forall h, isSHA256 h = true -> s' !! path h = s !! path h \/
    (h = sha256_hex data /\ s !! path h = None /\ s' !! path h = Some (File data)).

Definition same_blobs (s s' : disk) : Prop := forall h, isSHA256 h = true -> s' !! path h = s !! path h.

Lemma same_extends data s s' : same_blobs s s' -> extends data s s'.
Proof. intros Hs h Hh. left. by apply Hs. Qed.

Lemma same_refl s : same_blobs s s.
Proof. by intros h. Qed.

Lemma same_insert s s' p n : same_blobs s s' -> (forall h, isSHA256 h = true -> path h <> p) ->
  same_blobs s (<[p := n]> s').
Proof. intros Hs Hp h Hh. rewrite lookup_insert_ne; [by apply Hs|]. intros E. by apply (Hp h Hh). Qed.

Lemma same_delete s s' p : same_blobs s s' -> (forall h, isSHA256 h = true -> path h <> p) ->
  same_blobs s (delete p s').
Proof. intros Hs Hp h Hh. rewrite lookup_delete_ne; [by apply Hs|]. intros E. by apply (Hp h Hh). Qed.

Lemma extends_intact data s s' : intact s -> extends data s s' -> intact s'.
Proof.
  intros Hi He h n Hh Hn. destruct (He h Hh) as [E|(-> & _ & E)]; rewrite E in Hn.
  - by apply (Hi h).
  - simplify_eq. by eexists.
Qed.

(** What [Get] returns, on any disk. *)
Lemma Get_inv s ref d : Get s ref = Ok d ->
  ref = "sha256:" +:+ sha256_hex d /\ s !! path (sha256_hex d) = Some (File d).
Proof.
  unfold Get. destruct (BlobRef_Valid ref) eqn:Hv; [|done]. cbn [negb].
  destruct (s !! path (TrimPrefix ref "sha256:")) as [[data|]|] eqn:Hp; try done.
  destruct (_ != _) eqn:Hh; [done|]. intros [= ->]. to_prop.
  destruct (valid_ref ref Hv) as [->|Hr].
  - pose proof (isSHA256_nonempty _ (sha256_hex_shape d)). done.
  - rewrite Hh. by rewrite <-Hr.
Qed.

Lemma Get_file s d : s !! path (sha256_hex d) = Some (File d) -> Get s ("sha256:" +:+ sha256_hex d) = Ok d.
Proof.
  intros Hp. unfold Get. rewrite ref_valid, ref_trim, Hp by apply sha256_hex_shape. simpl.
  by rewrite bool_decide_eq_true_2.
Qed.

Lemma extends_Get data s s' ref d : extends data s s' -> Get s ref = Ok d -> Get s' ref = Ok d.
Proof.
  intros He [-> Hp]%Get_inv. apply Get_file.
  destruct (He (sha256_hex d) (sha256_hex_shape d)) as [->|(_ & E & _)]; [done|congruence].
Qed.

Lemma mkdir_same b s dir s1 : mkdir b s dir = Some s1 ->
  same_blobs s s1 /\ forall fl, s1 !! temp_path fl dir = s !! temp_path fl dir.
Proof.
  unfold mkdir. intros Hm. assert (s1 = <[[dir] := Dir]> s) as ->.
  { destruct b; [done|]. repeat case_match; congruence. }
  split; [apply same_insert; [apply same_refl|intros; by apply path_shard]|].
  intros fl. by rewrite lookup_insert_ne.
Qed.

Lemma same_cleanup fl s s' p : same_blobs s s' -> (forall h, isSHA256 h = true -> path h <> p) ->
  same_blobs s (cleanup fl p s').
Proof. unfold cleanup. destruct (remove_fails fl); [done|apply same_delete]. Qed.

Lemma cleanup_gone fl p s : remove_fails fl = false \/ false = true -> cleanup fl p s !! p = None.
Proof. unfold cleanup. intros [->|?]; [apply lookup_delete_eq|done]. Qed.

Ltac blobs := solve [repeat first
  [assumption | symmetry; assumption | reflexivity | apply same_refl | apply same_extends | apply same_cleanup | apply same_delete | apply same_insert | apply Forall_nil | apply Forall_cons_2]].

(** What a [Put] that reaches the disk does, whatever fails. *)
Lemma Put_trace fl s data : intact s ->
  Forall (extends data s) (Put fl s data).1 /\
  (remove_fails fl = false \/ is_ok (Put fl s data).2 = true ->
     put_disk fl s data !! temp_path fl (shard (sha256_hex data)) = s !! temp_path fl (shard (sha256_hex data))) /\
  match (Put fl s data).2 with
  | Ok ref => ref = "sha256:" +:+ sha256_hex data /\ is_file (put_disk fl s data) (path (sha256_hex data)) = true
  | Err _ => same_blobs s (put_disk fl s data)
  end.
Proof.
  intros Hi. unfold put_disk, Put. pose proof (sha256_hex_shape data) as Hh. set (h := sha256_hex data) in *.
  set (tmp := temp_path fl (shard h)).
  assert (forall h', isSHA256 h' = true -> path h' <> tmp) as Ht by (intros; by apply path_temp).
  unfold fileExists. destruct (stat_fails fl); [simpl; split_and!; [blobs|done|blobs]|].
  destruct (is_file s (path h)) eqn:Hf; [simpl; split_and!; [blobs|done..]|].
  destruct (mkdir _ s _) as [s1|] eqn:Hm; [|simpl; split_and!; [blobs|done|blobs]].
  apply mkdir_same in Hm as [Hs1 Hs1t]. specialize (Hs1t fl).
  destruct (create_fails fl || _) eqn:Hc; [simpl; split_and!; [blobs|done|blobs]|].
  apply orb_false_iff in Hc as [_ Hc]. to_prop.
  assert (s !! tmp = None) as Hnone by (unfold tmp; rewrite <-Hs1t; exact Hc).
  destruct (write_fails fl); [simpl; split_and!; [blobs|intros Hrm; rewrite Hnone; by apply cleanup_gone|blobs]|].
  destruct (sync_fails fl || _); [simpl; split_and!; [blobs|intros Hrm; rewrite Hnone; by apply cleanup_gone|blobs]|].
  unfold rename. destruct (rename_fails fl); [simpl; split_and!; [blobs|intros Hrm; rewrite Hnone; by apply cleanup_gone|blobs]|].
  assert (s !! path h = None) as Hp.
  { destruct (s !! path h) as [n|] eqn:E; [|done]. destruct (Hi h n Hh E) as (d & -> & _).
    unfold is_file in Hf. by rewrite E in Hf. }
  assert (same_blobs s (<[tmp := File data]> (<[tmp := File ""]> s1))) as Hs3 by blobs.
  rewrite (Hs3 h Hh), Hp. rewrite bool_decide_eq_false_2 by done. simpl.
  assert (forall s', same_blobs s s' -> extends data s (<[path h := File data]> s')) as Hx.
  { intros s' Hs' h' Hh'. destruct (decide (h' = h)) as [->|Hne].
    - right. by rewrite lookup_insert_eq.
    - left. rewrite lookup_insert_ne; [by apply Hs'|]. intros E. by apply Hne, eq_sym, path_inj. }
  assert (path h <> tmp) as Hpt by by apply Ht.
  assert (cleanup fl tmp (<[path h := File data]> (delete tmp (<[tmp := File data]> (<[tmp := File ""]> s1)))) =
          <[path h := File data]> (delete tmp (<[tmp := File data]> (<[tmp := File ""]> s1)))) as ->.
  { unfold cleanup. destruct (remove_fails fl); [done|]. apply delete_id. by rewrite lookup_insert_ne, lookup_delete_eq. }
  split_and!; [|intros _; by rewrite lookup_insert_ne, lookup_delete_eq|done|].
  - repeat apply Forall_cons_2; [blobs..| | |by apply Forall_nil]; apply Hx; blobs.
  - unfold is_file. by rewrite lookup_insert_eq.
Qed.

(** [C28] Storing a blob is atomic and never harms another. Whatever system calls
    fail and wherever a crash stops it, every disk on the way is intact, and
    every blob that could be read before reads the same; a [Put] that reports
    success leaves the blob readable with exactly its bytes (unless other bytes
    with the same SHA-256 are what the store holds), one that fails leaves all blobs
    as they were, and a temporary file stays behind only when the [Put] fails and so
    does the removal of the file. *)
Theorem put_crash_safe fl s data (Hi : intact s) :
  Forall (fun s' => intact s' /\ forall ref d, Get s ref = Ok d -> Get s' ref = Ok d) (Put fl s data).1 /\
  (remove_fails fl = false \/ is_ok (Put fl s data).2 = true ->
     put_disk fl s data !! temp_path fl (shard (sha256_hex data)) = s !! temp_path fl (shard (sha256_hex data))) /\
  match (Put fl s data).2 with
  | Ok ref => ref = "sha256:" +:+ sha256_hex data /\ exists d, Get (put_disk fl s data) ref = Ok d /\
              (d = data \/ collision_in [d; data])
  | Err _ => forall h, isSHA256 h = true -> put_disk fl s data !! path h = s !! path h
  end.
Proof.
  destruct (Put_trace fl s data Hi) as (Hall & Ht & Ho).
  assert (forall s', s' ∈ (Put fl s data).1 -> intact s') as Hint.
  { rewrite Forall_forall in Hall. intros s' Hs'. eapply extends_intact; [done|by apply Hall]. }
  split_and!; [|done|].
  - eapply Forall_impl; [exact Hall|]. intros s' He. split; [by eapply extends_intact|].
    intros ref d. by apply extends_Get with data.
  - destruct (Put fl s data).2 as [ref|]; [|exact Ho]. destruct Ho as [-> Hf]. split; [done|].
    assert (intact (put_disk fl s data)) as Hd.
    { unfold put_disk. destruct (Put fl s data).1 as [|s0 l] eqn:El; [done|]. apply Hint.
      apply list_elem_of_In. rewrite (app_removelast_last s (l := s0 :: l)) at 2 by done.
      apply in_or_app. right. by left. }
    unfold is_file in Hf. destruct (_ !! path _) as [n|] eqn:E; [|done].
    destruct (Hd _ _ (sha256_hex_shape data) E) as (d & -> & Hsha).
    exists d. rewrite <-Hsha. split; [apply Get_file; by rewrite Hsha|]. apply sha256_hex_eq; [done|in_list..].
Qed.

(** [Get] checks what it reads: on any disk whatever, bytes it returns have
    the requested digest and are those stored; a file with other bytes is
    reported as corrupt, and [Has] and [Stat] agree with it on what exists. *)
Theorem get_detects_corruption s h d (Hh : isSHA256 h = true) :
  (forall ref data, Get s ref = Ok data -> ref = "sha256:" +:+ sha256_hex data) /\
  (s !! path h = Some (File d) ->
   Get s ("sha256:" +:+ h) = (if sha256_hex d == h then Ok d else Err ErrCorruptBlob) /\
   Has s ("sha256:" +:+ h) = Ok true) /\
  (Get s ("sha256:" +:+ h) = Err ErrNotFound <-> s !! path h = None) /\
  (forall n, Stat n s ("sha256:" +:+ h) = Err ErrNotFound <-> s !! path h = None).
Proof.
  unfold Has, Stat. split_and!.
  - by intros ref data [-> _]%Get_inv.
  - intros Hp. unfold Get, fileExists, is_file. rewrite ref_valid, ref_trim, Hp by done. simpl.
    case_bool_decide; by split.
  - unfold Get. rewrite ref_valid, ref_trim by done. simpl.
    destruct (s !! path h) as [[|]|]; [|done..]. by case_bool_decide.
  - intros n. rewrite ref_valid, ref_trim by done. simpl. by destruct (s !! path h).
Qed.

(** [Put] trusts the file it finds. Once a blob's file is corrupt, storing
    the right bytes again reports success and changes nothing, so every read
    goes on failing: a corrupt blob cannot be repaired through the store. *)
Theorem put_keeps_corrupt_blob fl s data bad
    (Hfl : stat_fails fl = false) (Hp : s !! path (sha256_hex data) = Some (File bad))
    (Hbad : sha256_hex bad <> sha256_hex data) :
  (Put fl s data).2 = Ok ("sha256:" +:+ sha256_hex data) /\ put_disk fl s data = s /\
  Get (put_disk fl s data) ("sha256:" +:+ sha256_hex data) = Err ErrCorruptBlob.
Proof.
  unfold put_disk, Put, fileExists, is_file. rewrite Hfl, Hp. simpl. split_and!; [done..|].
  unfold Get. rewrite ref_valid, ref_trim, Hp by apply sha256_hex_shape. simpl.
  by rewrite bool_decide_eq_false_2.
Qed.

(** A directory at the path of a blob makes [Put] report success although
    nothing is stored: renaming over a directory is the only case of an existing
    target the rename refuses, and it is taken for another writer's success. *)
Theorem put_over_directory_reports_success s data suffix
    (Hp : s !! path (sha256_hex data) = Some Dir) (Hd : s !! [shard (sha256_hex data)] = Some Dir)
    (Ht : s !! temp_path (no_faults suffix) (shard (sha256_hex data)) = None) :
  (Put (no_faults suffix) s data).2 = Ok ("sha256:" +:+ sha256_hex data) /\
  Get (put_disk (no_faults suffix) s data) ("sha256:" +:+ sha256_hex data) = Err ErrIO.
Proof.
  pose proof (sha256_hex_shape data) as Hh. set (h := sha256_hex data) in *.
  pose proof (path_temp h (no_faults suffix) (shard h) Hh) as Hpt.
  unfold put_disk, Put. fold h. unfold fileExists, is_file, mkdir. rewrite Hp. cbn [stat_fails mkdir_fails no_faults].
  rewrite Hd. rewrite lookup_insert_ne by done. rewrite Ht. simpl.
  unfold rename, cleanup. cbn [rename_fails remove_fails no_faults].
  assert (forall h', isSHA256 h' = true -> path h' <> temp_path (no_faults suffix) (shard h))
    as Htp by (intros; by apply path_temp).
  assert (forall h', isSHA256 h' = true -> path h' <> [shard h]) as Hsp by (intros; by apply path_shard).
  set (t := temp_path (no_faults suffix) (shard h)) in *.
  assert (same_blobs s (<[t := File data]> (<[t := File ""]> (<[[shard h] := Dir]> s)))) as Hs3 by blobs.
  rewrite (Hs3 h Hh), Hp, bool_decide_eq_true_2 by done. simpl. split; [done|].
  unfold Get. rewrite ref_valid, ref_trim by done. cbn [negb].
  rewrite lookup_delete_ne by (by apply not_eq_sym, Htp). by rewrite (Hs3 h Hh), Hp.
Qed.
End Store.

(** ** A small store to evaluate *)
Module Demo.
#[local] Existing Instance checksum.

Definition broken (n : nat) : faults := Build_faults false false false (Nat.eqb n 1) false false (Nat.eqb n 2) (Nat.eqb n 2) "he" "x".

Definition store1 : disk := put_disk (no_faults "a") ∅ "hello".

Lemma intact_empty : intact ∅.
Proof. intros h n _ Hn. by rewrite lookup_empty in Hn. Qed.

Lemma put_crash_safe_witness :
  length (Put (broken 1) store1 "other").1 = 5%nat /\ (Put (broken 0) store1 "other").2 = Ok ("sha256:" +:+ sha256_hex "other") /\
  Forall (fun s' => intact s' /\ forall ref d, Get store1 ref = Ok d -> Get s' ref = Ok d) (Put (broken 1) store1 "other").1.
Proof.
  split; [vm_compute; reflexivity|]. split; [vm_compute; reflexivity|].
  assert (intact store1) as Hi.
  { destruct (Put_trace (no_faults "a") ∅ "hello" intact_empty) as (Hall & _ & _).
    rewrite Forall_forall in Hall. apply (extends_intact "hello" ∅ store1 intact_empty), Hall.
    unfold store1, put_disk. by_deciding. }
  exact (proj1 (put_crash_safe (broken 1) store1 "other" Hi)).
Defined.

Lemma get_detects_corruption_witness :
  Get (<[path (sha256_hex "hello") := File "hullo"]> store1) ("sha256:" +:+ sha256_hex "hello") = Err ErrCorruptBlob.
Proof.
  destruct (get_detects_corruption (<[path (sha256_hex "hello") := File "hullo"]> store1) (sha256_hex "hello") "hullo"
    (sha256_hex_shape "hello")) as (_ & H & _).
  destruct H as [H _]; [apply lookup_insert_eq|]. rewrite H. vm_compute. reflexivity.
Defined.

Lemma put_keeps_corrupt_blob_witness :
  Get (put_disk (no_faults "b") (<[path (sha256_hex "hello") := File "hullo"]> store1) "hello")
    ("sha256:" +:+ sha256_hex "hello") = Err ErrCorruptBlob.
Proof.
  apply (put_keeps_corrupt_blob (no_faults "b") (<[path (sha256_hex "hello") := File "hullo"]> store1) "hello" "hullo").
  - reflexivity.
  - apply lookup_insert_eq.
  - vm_compute. discriminate.
Defined.

Definition store2 : disk :=
  <[[shard (sha256_hex "hello")] := Dir]> (<[path (sha256_hex "hello") := Dir]> ∅).

Lemma put_over_directory_reports_success_witness :
  (Put (no_faults "b") store2 "hello").2 = Ok ("sha256:" +:+ sha256_hex "hello") /\
  Get (put_disk (no_faults "b") store2 "hello") ("sha256:" +:+ sha256_hex "hello") = Err ErrIO.
Proof.
  apply (put_over_directory_reports_success store2 "hello" "b"); vm_compute; reflexivity.
Defined.
End Demo.
End BlobStore.
