(* ===== verification/DecisionPolicy.v ===== *)
(** * DecisionPolicy: policies, ballots and the policy store

    Models [internal/decisionpolicy/types.go] and [digest.go]: the records and
    their JSON, the digests and attestations, [ParsePolicy], and the [Store] of
    registered and revoked policies. The reducer is in [DecisionReduce]. *)
From S2P Require Import Prelude GoStrings GoJson CanonicalJson Sha256 GoDecode.
From Stdlib Require Import Ascii.

Module DecisionPolicy.

Definition ReducerVersionV1 : string := "decisionpolicy-consensus-v1".
Definition ReceiptKindPolicySelection : string := "PolicySelectionReceipt".
Definition ReceiptKindQualifiedConsensus : string := "QualifiedConsensusReceipt".
Definition AuthorityPrefix : string := "qualified-consensus:".
Definition PolicyIDIrreversibleEmailV1 : string := "irreversible-email-v1".
Definition PolicyIDHumanRequiredV1 : string := "human-required-v1".
Definition EffectClassReversible : string := "reversible_computer_local".
Definition EffectClassIrreversible : string := "irreversible_external".
Definition HumanSeatAbsent : string := "absent".
Definition HumanSeatRequired : string := "required".
Definition HumanSeatOptional : string := "optional".
Definition HumanSeatPresent : string := "present".
Definition HumanSeatNotRequired : string := "not_required".
Definition VoteAccept : string := "accept".
Definition VoteReject : string := "reject".
Definition VoteAbstain : string := "abstain".
Definition ActuatorTrustedOutbox : string := "trusted_outbox".
Definition AttestationPrefix : string := "choir-ballot-attestation-v1:".

(** ** Policies *)
Record PolicyBudget := {
  Currency : Z; ExternalSends : Z; PromotionsOfThisSubject : Z; SendsOfThisSubject : Z }.

Record PolicyDispatchContract := {
  CrashWindow : string; DispatchIdempotencyKey : string; DispatchIntentReceipt : string;
  ProviderOutcome : slice string; RevocationCheckPoint : string; UncertainOutcomeReconciliation : string }.

Record PolicyDissent := { PolicyBlockingUnresolved : string; RecordedDissentAllowed : bool }.

Record PolicySeat := {
  CountsTowardQuorum : bool; Eligibility : string; PSeat_IndependenceDomain : string; PSeat_Kind : string;
  Profile : string; RecusedFrom : slice string; PSeat_SeatID : string }.

Record DomainQuorum := { AcceptMinimum : Z; RequiredPresent : bool }.

Record PolicyQuorum := {
  AbstentionCountsAgainstQuorum : bool; GlobalAcceptMinimum : Z;
  PerDomain : option (gmap string DomainQuorum); Weighting : string }.

Record PolicyReplacement := { Bench : slice string; EmptyBenchOnRequiredSeatLoss : string }.

Record PolicyTimeout := { Clock : string; DecisionWindowSpec : string }.

Record Policy := {
  PolicyID : string; Actuator : string; AdmissibleEvidence : slice string; BlastRadius : slice string;
  BlastRadiusOut : slice string; Budget : PolicyBudget; Capabilities : slice string;
  PolicyConsequenceReceipt : slice string; DispatchContract : PolicyDispatchContract; Dissent : PolicyDissent;
  EffectClass : string; EligibleSeats : slice PolicySeat; Expiry : string;
  ForbiddenCapabilities : slice string; HumanSeat : string; InadmissibleEvidence : slice string;
  IndependenceDomains : slice string; OwnerRevocation : bool; Privacy : string; Quorum : PolicyQuorum;
  Recovery : string; Recusal : string; Replacement : PolicyReplacement; Scope : string;
  SubjectBinding : slice string; Timeout : PolicyTimeout }.

Definition zero_budget : PolicyBudget := Build_PolicyBudget 0 0 0 0.
Definition zero_contract : PolicyDispatchContract := Build_PolicyDispatchContract "" "" "" None "" "".
Definition zero_seat : PolicySeat := Build_PolicySeat false "" "" "" "" None "".
Definition zero_domain : DomainQuorum := Build_DomainQuorum 0 false.
Definition zero_policy : Policy :=
  Build_Policy "" "" None None None zero_budget None None zero_contract (Build_PolicyDissent "" false)
    "" None "" None "" None None false "" (Build_PolicyQuorum false 0 None "") "" ""
    (Build_PolicyReplacement None "") "" None (Build_PolicyTimeout "" "").

(** *** Encoding *)
Definition budget_json (b : PolicyBudget) : json := JObj ([
  ("currency", JInt (Currency b)); ("external_sends", JInt (ExternalSends b));
  ("promotions_of_this_subject", JInt (PromotionsOfThisSubject b))]
  ++ omit_int "sends_of_this_subject" (SendsOfThisSubject b)).

Definition contract_json (c : PolicyDispatchContract) : json := JObj (
  omit_str "crash_window" (CrashWindow c) ++ omit_str "dispatch_idempotency_key" (DispatchIdempotencyKey c)
  ++ omit_str "dispatch_intent_receipt" (DispatchIntentReceipt c)
  ++ omit_slice "provider_outcome" (ProviderOutcome c)
  ++ omit_str "revocation_check_point" (RevocationCheckPoint c)
  ++ omit_str "uncertain_outcome_reconciliation" (UncertainOutcomeReconciliation c)).

Definition dissent_json (d : PolicyDissent) : json := JObj [
  ("policy_blocking_unresolved", JStr (PolicyBlockingUnresolved d));
  ("recorded_dissent_allowed", JBool (RecordedDissentAllowed d))].

Definition policy_seat_json (s : PolicySeat) : json := JObj [
  ("counts_toward_quorum", JBool (CountsTowardQuorum s)); ("eligibility", JStr (Eligibility s));
  ("independence_domain", JStr (PSeat_IndependenceDomain s)); ("kind", JStr (PSeat_Kind s));
  ("profile", JStr (Profile s)); ("recused_from", enc_strs (RecusedFrom s)); ("seat_id", JStr (PSeat_SeatID s))].

Definition domain_json (d : DomainQuorum) : json := JObj [
  ("accept_minimum", JInt (AcceptMinimum d)); ("required_present", JBool (RequiredPresent d))].

Definition quorum_json (q : PolicyQuorum) : json := JObj [
  ("abstention_counts_against_quorum", JBool (AbstentionCountsAgainstQuorum q));
  ("global_accept_minimum", JInt (GlobalAcceptMinimum q));
  ("per_domain", enc_map domain_json (PerDomain q)); ("weighting", JStr (Weighting q))].

(** [omitempty] has no effect on a struct, so the dispatch contract is always there. *)
Definition policy_json (p : Policy) : json := JObj [
  ("policy_id", JStr (PolicyID p)); ("actuator", JStr (Actuator p));
  ("admissible_evidence", enc_strs (AdmissibleEvidence p)); ("blast_radius", enc_strs (BlastRadius p));
  ("blast_radius_out", enc_strs (BlastRadiusOut p)); ("budget", budget_json (Budget p));
  ("capabilities", enc_strs (Capabilities p)); ("consequence_receipt", enc_strs (PolicyConsequenceReceipt p));
  ("dispatch_contract", contract_json (DispatchContract p)); ("dissent", dissent_json (Dissent p));
  ("effect_class", JStr (EffectClass p)); ("eligible_seats", enc_slice policy_seat_json (EligibleSeats p));
  ("expiry", JStr (Expiry p)); ("forbidden_capabilities", enc_strs (ForbiddenCapabilities p));
  ("human_seat", JStr (HumanSeat p)); ("inadmissible_evidence", enc_strs (InadmissibleEvidence p));
  ("independence_domains", enc_strs (IndependenceDomains p)); ("owner_revocation", JBool (OwnerRevocation p));
  ("privacy", JStr (Privacy p)); ("quorum", quorum_json (Quorum p)); ("recovery", JStr (Recovery p));
  ("recusal", JStr (Recusal p));
  ("replacement", JObj [("bench", enc_strs (Bench (Replacement p)));
     ("empty_bench_on_required_seat_loss", JStr (EmptyBenchOnRequiredSeatLoss (Replacement p)))]);
  ("scope", JStr (Scope p)); ("subject_binding", enc_strs (SubjectBinding p));
  ("timeout", JObj [("clock", JStr (Clock (Timeout p))); ("decision_window", JStr (DecisionWindowSpec (Timeout p)))])].

(** *** Decoding *)
Definition names_of (j : json) : list string := match j with JObj fs => map fst fs | _ => [] end.

Definition dec_strs : decoder (slice string) := dec_slice "" dec_string.

Definition budget_names : list string :=
  ["currency"; "external_sends"; "promotions_of_this_subject"; "sends_of_this_subject"].
Definition dec_budget : decoder PolicyBudget := fun b => dec_struct (fun fs =>
  let f := dec_field budget_names fs in
  c ← f "currency" dec_int (Currency b);
  e ← f "external_sends" dec_int (ExternalSends b);
  p ← f "promotions_of_this_subject" dec_int (PromotionsOfThisSubject b);
  s ← f "sends_of_this_subject" dec_int (SendsOfThisSubject b);
  Some (Build_PolicyBudget c e p s)) b.

Definition contract_names : list string :=
  ["crash_window"; "dispatch_idempotency_key"; "dispatch_intent_receipt"; "provider_outcome";
   "revocation_check_point"; "uncertain_outcome_reconciliation"].
Definition dec_contract : decoder PolicyDispatchContract := fun c => dec_struct (fun fs =>
  let fstr n := dec_field contract_names fs n dec_string in
  w ← fstr "crash_window" (CrashWindow c);
  k ← fstr "dispatch_idempotency_key" (DispatchIdempotencyKey c);
  i ← fstr "dispatch_intent_receipt" (DispatchIntentReceipt c);
  o ← dec_field contract_names fs "provider_outcome" dec_strs (ProviderOutcome c);
  r ← fstr "revocation_check_point" (RevocationCheckPoint c);
  u ← fstr "uncertain_outcome_reconciliation" (UncertainOutcomeReconciliation c);
  Some (Build_PolicyDispatchContract w k i o r u)) c.

Definition dec_dissent : decoder PolicyDissent := fun d => dec_struct (fun fs =>
  let names := ["policy_blocking_unresolved"; "recorded_dissent_allowed"] in
  b ← dec_field names fs "policy_blocking_unresolved" dec_string (PolicyBlockingUnresolved d);
  r ← dec_field names fs "recorded_dissent_allowed" dec_bool (RecordedDissentAllowed d);
  Some (Build_PolicyDissent b r)) d.

Definition seat_names : list string :=
  ["counts_toward_quorum"; "eligibility"; "independence_domain"; "kind"; "profile"; "recused_from"; "seat_id"].
Definition dec_policy_seat : decoder PolicySeat := fun s => dec_struct (fun fs =>
  let fstr n := dec_field seat_names fs n dec_string in
  c ← dec_field seat_names fs "counts_toward_quorum" dec_bool (CountsTowardQuorum s);
  e ← fstr "eligibility" (Eligibility s);
  d ← fstr "independence_domain" (PSeat_IndependenceDomain s);
  k ← fstr "kind" (PSeat_Kind s);
  p ← fstr "profile" (Profile s);
  r ← dec_field seat_names fs "recused_from" dec_strs (RecusedFrom s);
  i ← fstr "seat_id" (PSeat_SeatID s);
  Some (Build_PolicySeat c e d k p r i)) s.

Definition dec_domain : decoder DomainQuorum := fun q => dec_struct (fun fs =>
  let names := ["accept_minimum"; "required_present"] in
  a ← dec_field names fs "accept_minimum" dec_int (AcceptMinimum q);
  r ← dec_field names fs "required_present" dec_bool (RequiredPresent q);
  Some (Build_DomainQuorum a r)) q.

Definition quorum_names : list string :=
  ["abstention_counts_against_quorum"; "global_accept_minimum"; "per_domain"; "weighting"].
Definition dec_quorum : decoder PolicyQuorum := fun q => dec_struct (fun fs =>
  a ← dec_field quorum_names fs "abstention_counts_against_quorum" dec_bool (AbstentionCountsAgainstQuorum q);
  g ← dec_field quorum_names fs "global_accept_minimum" dec_int (GlobalAcceptMinimum q);
  d ← dec_field quorum_names fs "per_domain" (dec_map zero_domain dec_domain) (PerDomain q);
  w ← dec_field quorum_names fs "weighting" dec_string (Weighting q);
  Some (Build_PolicyQuorum a g d w)) q.

Definition dec_replacement : decoder PolicyReplacement := fun r => dec_struct (fun fs =>
  let names := ["bench"; "empty_bench_on_required_seat_loss"] in
  b ← dec_field names fs "bench" dec_strs (Bench r);
  e ← dec_field names fs "empty_bench_on_required_seat_loss" dec_string (EmptyBenchOnRequiredSeatLoss r);
  Some (Build_PolicyReplacement b e)) r.

Definition dec_timeout : decoder PolicyTimeout := fun t => dec_struct (fun fs =>
  let names := ["clock"; "decision_window"] in
  c ← dec_field names fs "clock" dec_string (Clock t);
  w ← dec_field names fs "decision_window" dec_string (DecisionWindowSpec t);
  Some (Build_PolicyTimeout c w)) t.

Definition policy_names : list string := names_of (policy_json zero_policy).

Definition dec_policy : decoder Policy := fun p => dec_struct (fun fs =>
  let fstr n := dec_field policy_names fs n dec_string in
  let fstrs n := dec_field policy_names fs n dec_strs in
  id ← fstr "policy_id" (PolicyID p);
  actuator ← fstr "actuator" (Actuator p);
  admissible ← fstrs "admissible_evidence" (AdmissibleEvidence p);
  radius ← fstrs "blast_radius" (BlastRadius p);
  radius_out ← fstrs "blast_radius_out" (BlastRadiusOut p);
  budget ← dec_field policy_names fs "budget" dec_budget (Budget p);
  caps ← fstrs "capabilities" (Capabilities p);
  consequence ← fstrs "consequence_receipt" (PolicyConsequenceReceipt p);
  contract ← dec_field policy_names fs "dispatch_contract" dec_contract (DispatchContract p);
  dissent ← dec_field policy_names fs "dissent" dec_dissent (Dissent p);
  effect ← fstr "effect_class" (EffectClass p);
  seats ← dec_field policy_names fs "eligible_seats" (dec_slice zero_seat dec_policy_seat) (EligibleSeats p);
  expiry ← fstr "expiry" (Expiry p);
  forbidden ← fstrs "forbidden_capabilities" (ForbiddenCapabilities p);
  human ← fstr "human_seat" (HumanSeat p);
  inadmissible ← fstrs "inadmissible_evidence" (InadmissibleEvidence p);
  domains ← fstrs "independence_domains" (IndependenceDomains p);
  revocation ← dec_field policy_names fs "owner_revocation" dec_bool (OwnerRevocation p);
  privacy ← fstr "privacy" (Privacy p);
  quorum ← dec_field policy_names fs "quorum" dec_quorum (Quorum p);
  recovery ← fstr "recovery" (Recovery p);
  recusal ← fstr "recusal" (Recusal p);
  replacement ← dec_field policy_names fs "replacement" dec_replacement (Replacement p);
  scope ← fstr "scope" (Scope p);
  binding ← fstrs "subject_binding" (SubjectBinding p);
  timeout ← dec_field policy_names fs "timeout" dec_timeout (Timeout p);
  Some (Build_Policy id actuator admissible radius radius_out budget caps consequence contract dissent effect
    seats expiry forbidden human inadmissible domains revocation privacy quorum recovery recusal replacement
    scope binding timeout)) p.

(** ** Subjects, manifests, selections, ballots and receipts *)
Record EffectSubject := {
  Subj_ComputerID : string; OperationID : string; BundleDigest : string; Subj_DesiredEventHead : string;
  Subj_EffectiveEventHead : string; Subj_PendingTransitionRef : string; Subj_DesiredStateCommitment : string;
  Subj_EffectiveStateCommitment : string; Recipient : string; PayloadDigest : string; Subj_Actuator : string;
  AcceptanceInbox : string; OwnerRecovery : bool; Subj_EffectClass : string; Subj_ExternalSends : Z }.

Definition subject_json (s : EffectSubject) : json := JObj ([
  ("computer_id", JStr (Subj_ComputerID s)); ("operation_id", JStr (OperationID s));
  ("bundle_digest", JStr (BundleDigest s)); ("desired_event_head", JStr (Subj_DesiredEventHead s));
  ("effective_event_head", JStr (Subj_EffectiveEventHead s));
  ("pending_transition_ref", JStr (Subj_PendingTransitionRef s));
  ("desired_state_commitment", JStr (Subj_DesiredStateCommitment s));
  ("effective_state_commitment", JStr (Subj_EffectiveStateCommitment s))]
  ++ omit_str "recipient" (Recipient s) ++ omit_str "payload_digest" (PayloadDigest s)
  ++ omit_str "actuator" (Subj_Actuator s) ++ omit_str "acceptance_inbox" (AcceptanceInbox s)
  ++ omit_bool "owner_recovery" (OwnerRecovery s) ++ omit_str "effect_class" (Subj_EffectClass s)
  ++ omit_int "external_sends" (Subj_ExternalSends s)).

Record Seat := {
  SeatID : string; IndependenceDomain : string; SeatKind : string; EligibilityProof : string; Recused : bool }.

Definition seat_json (s : Seat) : json := JObj [
  ("seat_id", JStr (SeatID s)); ("independence_domain", JStr (IndependenceDomain s)); ("kind", JStr (SeatKind s));
  ("eligibility_proof", JStr (EligibilityProof s)); ("recused", JBool (Recused s))].

Record SeatManifest := { Seats : slice Seat }.

Definition manifest_json (m : SeatManifest) : json := JObj [("seats", enc_slice seat_json (Seats m))].

Record PolicySelectionReceipt := {
  Sel_ReceiptKind : string; Sel_PolicyDigest : string; Sel_SeatManifestDigest : string; Sel_SubjectDigest : string;
  SelectedAtHead : string; SelectedSequence : Z; SelectionDigest : string }.

Definition selection_json (r : PolicySelectionReceipt) : json := JObj ([
  ("receipt_kind", JStr (Sel_ReceiptKind r)); ("policy_digest", JStr (Sel_PolicyDigest r));
  ("seat_manifest_digest", JStr (Sel_SeatManifestDigest r)); ("subject_digest", JStr (Sel_SubjectDigest r));
  ("selected_at_head", JStr (SelectedAtHead r)); ("selected_sequence", JInt (SelectedSequence r))]
  ++ omit_str "selection_digest" (SelectionDigest r)).

Record BallotAttestation := {
  BallotID : string; Ballot_SeatID : string; EligibilityProofDigest : string; Ballot_IndependenceDomain : string;
  Ballot_PolicyDigest : string; Ballot_SeatManifestDigest : string; Ballot_SubjectDigest : string;
  PolicySelectionDigest : string; Vote : string; WindowID : string; SignerProvenance : string;
  Attestation : string; BallotDigest : string }.

Definition ballot_json (b : BallotAttestation) : json := JObj ([
  ("ballot_id", JStr (BallotID b)); ("seat_id", JStr (Ballot_SeatID b));
  ("eligibility_proof_digest", JStr (EligibilityProofDigest b));
  ("independence_domain", JStr (Ballot_IndependenceDomain b)); ("policy_digest", JStr (Ballot_PolicyDigest b));
  ("seat_manifest_digest", JStr (Ballot_SeatManifestDigest b)); ("subject_digest", JStr (Ballot_SubjectDigest b));
  ("policy_selection_digest", JStr (PolicySelectionDigest b)); ("vote", JStr (Vote b));
  ("window_id", JStr (WindowID b)); ("signer_provenance", JStr (SignerProvenance b))]
  ++ omit_str "attestation" (Attestation b) ++ omit_str "ballot_digest" (BallotDigest b)).

Record QuorumEvaluation := { GlobalAccepts : Z; DomainAccepts : option (gmap string Z); Met : bool }.

Record DecisionWindow := { StartedAt : string; ExpiresAt : string }.

Record QualifiedConsensusReceipt := {
  Rcpt_ReceiptKind : string; Rcpt_PolicyID : string; Rcpt_PolicyDigest : string; Rcpt_SubjectDigest : string;
  EligibleSeatsDigest : string; Rcpt_SelectionDigest : string; Ballots : slice BallotAttestation;
  Evaluation : QuorumEvaluation; DissentDisposition : string; HumanSeatState : string; Window : DecisionWindow;
  ReducerVersion : string; ReceiptDigest : string }.

Definition receipt_json (r : QualifiedConsensusReceipt) : json := JObj ([
  ("receipt_kind", JStr (Rcpt_ReceiptKind r)); ("policy_id", JStr (Rcpt_PolicyID r));
  ("policy_digest", JStr (Rcpt_PolicyDigest r)); ("subject_digest", JStr (Rcpt_SubjectDigest r));
  ("eligible_seats_digest", JStr (EligibleSeatsDigest r)); ("selection_digest", JStr (Rcpt_SelectionDigest r));
  ("ballots", enc_slice ballot_json (Ballots r));
  ("quorum_evaluation", JObj [("global_accepts", JInt (GlobalAccepts (Evaluation r)));
     ("domain_accepts", enc_map JInt (DomainAccepts (Evaluation r))); ("met", JBool (Met (Evaluation r)))]);
  ("dissent_disposition", JStr (DissentDisposition r)); ("human_seat_state", JStr (HumanSeatState r));
  ("window", JObj [("started_at", JStr (StartedAt (Window r))); ("expires_at", JStr (ExpiresAt (Window r)))]);
  ("reducer_version", JStr (ReducerVersion r))] ++ omit_str "receipt_digest" (ReceiptDigest r)).

(** The copies the digests are taken of. *)
Definition without_selection_digest (r : PolicySelectionReceipt) : PolicySelectionReceipt :=
  Build_PolicySelectionReceipt (Sel_ReceiptKind r) (Sel_PolicyDigest r) (Sel_SeatManifestDigest r)
    (Sel_SubjectDigest r) (SelectedAtHead r) (SelectedSequence r) "".
Definition with_attestation (b : BallotAttestation) (attestation digest : string) : BallotAttestation :=
  Build_BallotAttestation (BallotID b) (Ballot_SeatID b) (EligibilityProofDigest b) (Ballot_IndependenceDomain b)
    (Ballot_PolicyDigest b) (Ballot_SeatManifestDigest b) (Ballot_SubjectDigest b) (PolicySelectionDigest b)
    (Vote b) (WindowID b) (SignerProvenance b) attestation digest.
Definition with_receipt_digest (r : QualifiedConsensusReceipt) (digest : string) : QualifiedConsensusReceipt :=
  Build_QualifiedConsensusReceipt (Rcpt_ReceiptKind r) (Rcpt_PolicyID r) (Rcpt_PolicyDigest r)
    (Rcpt_SubjectDigest r) (EligibleSeatsDigest r) (Rcpt_SelectionDigest r) (Ballots r) (Evaluation r)
    (DissentDisposition r) (HumanSeatState r) (Window r) (ReducerVersion r) digest.

Inductive policy_error :=
  | ErrNoPolicy | ErrRevokedPolicy | ErrMissingSelection | ErrBallotNotJoined | ErrMissingRequiredSeat
  | ErrBelowQuorum | ErrUnresolvedDissent | ErrSeatDropped | ErrIndependenceFabricated
  | ErrReversiblePolicyIrreversibleSubject | ErrHumanSeatAbsent | ErrSubjectMismatch | ErrOwnerRecovery
  | ErrBallotAttestation | ErrWindow | ErrBounds | ErrInvalidReceipt | ErrSelectionAfterOutputs
  | ErrUnknownReducer | ErrParse | ErrCanonical.

Section Digests.
Context {sh : Sha256}.

Definition CanonicalDigest (v : json) : res policy_error string :=
  match CanonicalJSON v with Ok body => Ok (sha256_hex body) | Err _ => Err ErrCanonical end.

Definition Policy_Digest (p : Policy) := CanonicalDigest (policy_json p).
Definition Manifest_Digest (m : SeatManifest) := CanonicalDigest (manifest_json m).
Definition Subject_Digest (s : EffectSubject) := CanonicalDigest (subject_json s).
Definition Selection_Digest (r : PolicySelectionReceipt) :=
  CanonicalDigest (selection_json (without_selection_digest r)).

Definition attestationPreimage (b : BallotAttestation) : res policy_error string :=
  match CanonicalJSON (ballot_json (with_attestation b "" "")) with
  | Ok body => Ok body | Err _ => Err ErrCanonical end.

Definition ComputeAttestation (b : BallotAttestation) : res policy_error string :=
  let? pre := attestationPreimage b in Ok (sha256_hex (AttestationPrefix +:+ pre)).

Definition Ballot_Digest (b : BallotAttestation) :=
  CanonicalDigest (ballot_json (with_attestation b (Attestation b) "")).

Definition Sign (b : BallotAttestation) : res policy_error BallotAttestation :=
  let? attestation := ComputeAttestation b in
  let b := with_attestation b attestation (BallotDigest b) in
  let? digest := Ballot_Digest b in
  Ok (with_attestation b attestation digest).

Definition VerifyAttestation (b : BallotAttestation) : res policy_error unit :=
  let? want := ComputeAttestation b in
  refuse Attestation b != want with ErrBallotAttestation ;;
  let? digest := Ballot_Digest b in
  refuse BallotDigest b != digest with ErrBallotAttestation ;;
  refuse negb (isSHA256 (EligibilityProofDigest b)) || blank (SignerProvenance b)
         || blank (WindowID b) || blank (BallotID b) with ErrBallotAttestation ;;
  refuse negb ((Vote b == VoteAccept) || (Vote b == VoteReject) || (Vote b == VoteAbstain))
  with ErrBallotAttestation ;;
  Ok tt.

Definition Receipt_Digest (r : QualifiedConsensusReceipt) :=
  CanonicalDigest (receipt_json (with_receipt_digest r "")).

Definition Seal (r : QualifiedConsensusReceipt) : res policy_error QualifiedConsensusReceipt :=
  let? digest := Receipt_Digest r in Ok (with_receipt_digest r digest).

Definition VerifyDigest (r : QualifiedConsensusReceipt) : res policy_error unit :=
  refuse Rcpt_ReceiptKind r != ReceiptKindQualifiedConsensus with ErrInvalidReceipt ;;
  refuse ReducerVersion r != ReducerVersionV1 with ErrUnknownReducer ;;
  let? digest := Receipt_Digest r in
  refuse ReceiptDigest r != digest with ErrInvalidReceipt ;;
  Ok tt.

(** ** The store of policies *)
Definition ParsePolicy (raw : string) : res policy_error Policy :=
  match parse raw with
  | None => Err ErrParse
  | Some j =>
    match dec_policy zero_policy j with
    | None => Err ErrParse
    | Some policy =>
      refuse blank (PolicyID policy) || blank (EffectClass policy) with ErrNoPolicy ;; Ok policy
    end
  end.

Record Store := { policies : gmap string string; revoked : gset string }.

Definition NewStore : Store := Build_Store ∅ ∅.

(** The store after a successful [Put], and the digest it returns. *)
Definition Put (s : Store) (raw : string) : res policy_error (Store * string) :=
  let raw := TrimSpace raw in
  let? policy := ParsePolicy raw in
  let fileDigest := sha256_hex raw in
  let? structDigest := Policy_Digest policy in
  let ps := <[fileDigest := raw]> (policies s) in
  let ps := if structDigest != fileDigest then <[structDigest := raw]> ps else ps in
  Ok (Build_Store ps (revoked s), fileDigest).

Definition Get (s : Store) (digest : string) : res policy_error (Policy * string) :=
  match policies s !! digest with
  | None => Err ErrNoPolicy
  | Some raw =>
    refuse bool_decide (digest ∈ revoked s) with ErrRevokedPolicy ;;
    let? policy := ParsePolicy raw in Ok (policy, raw)
  end.

Definition Revoke (s : Store) (digest : string) : Store := Build_Store (policies s) ({[digest]} ∪ revoked s).

Definition Known (s : Store) (digest : string) : bool := bool_decide (is_Some (policies s !! digest)).

(** ** Attestations *)

Lemma with_attestation_twice b a1 d1 a2 d2 : with_attestation (with_attestation b a1 d1) a2 d2 = with_attestation b a2 d2.
Proof. done. Qed.

(** A signed ballot passes the verification of its attestation. *)
Lemma Sign_verifies b b' :
  Sign b = Ok b' -> ComputeAttestation b' = Ok (Attestation b') /\ Ballot_Digest b' = Ok (BallotDigest b').
Proof.
  unfold Sign. destruct (ComputeAttestation b) as [a|] eqn:Ha; [|done].
  destruct (Ballot_Digest _) as [d|] eqn:Hd; [|done]. intros Hs. apply Ok_inj in Hs as <-. split.
  - trans (Ok a : res policy_error string); [|done]. rewrite <-Ha. unfold ComputeAttestation, attestationPreimage. by rewrite !with_attestation_twice.
  - trans (Ok d : res policy_error string); [|done]. rewrite <-Hd. unfold Ballot_Digest.
    by rewrite !with_attestation_twice.
Qed.

(** [Put] then [Get] gives back the policy, under both of its digests. *)
Lemma Put_inv s raw s' digest :
  Put s raw = Ok (s', digest) ->
  exists policy structDigest, ParsePolicy (TrimSpace raw) = Ok policy /\ Policy_Digest policy = Ok structDigest /\
    digest = sha256_hex (TrimSpace raw) /\ revoked s' = revoked s /\
    policies s' !! digest = Some (TrimSpace raw) /\ policies s' !! structDigest = Some (TrimSpace raw).
Proof.
  unfold Put. destruct (ParsePolicy _) as [policy|] eqn:Hp; [|done].
  destruct (Policy_Digest policy) as [sd|] eqn:Hd; [|done]. intros [= <- <-].
  exists policy, sd. simpl. split_and!; try done.
  - case_bool_decide as E; simpl; [by rewrite lookup_insert_eq|].
    rewrite lookup_insert_ne by congruence. by rewrite lookup_insert_eq.
  - case_bool_decide as E; simpl; [rewrite E|]; by rewrite lookup_insert_eq.
Qed.

Lemma Get_ok s digest raw policy :
  policies s !! digest = Some raw -> digest ∉ revoked s -> ParsePolicy raw = Ok policy ->
  Get s digest = Ok (policy, raw).
Proof. intros Hr Hn Hp. unfold Get. rewrite Hr, bool_decide_eq_false_2 by done. by rewrite Hp. Qed.

(** A policy that was stored can be had under two digests, that of its text
    and that of its contents, and revoking it under the one returned by [Put]
    does not revoke it under the other: it stays in force there. *)
Theorem revoke_one_digest_leaves_the_other s raw s' digest policy structDigest
    (Hput : Put s raw = Ok (s', digest)) (Hp : ParsePolicy (TrimSpace raw) = Ok policy)
    (Hd : Policy_Digest policy = Ok structDigest)
    (Hne : structDigest <> digest) (Hnr : structDigest ∉ revoked s) :
  Get (Revoke s' digest) digest = Err ErrRevokedPolicy /\
  Get (Revoke s' digest) structDigest = Ok (policy, TrimSpace raw).
Proof.
  apply Put_inv in Hput as (p & sd & Hp' & Hd' & -> & Hrev & Hf & Hs).
  rewrite Hp in Hp'. apply Ok_inj in Hp' as <-. rewrite Hd in Hd'. apply Ok_inj in Hd' as <-. split.
  - unfold Get, Revoke. simpl. rewrite Hf, bool_decide_eq_true_2; [done|set_solver].
  - apply Get_ok; [exact Hs| |exact Hp]. unfold Revoke. cbn [revoked]. rewrite Hrev. set_solver.
Qed.
End Digests.

(** ** A small policy to evaluate *)
Module Demo.
#[local] Existing Instance checksum.

Definition seat (id domain : string) : PolicySeat := Build_PolicySeat true "any" domain "agent_profile" "p" None id.

Definition policy : Policy :=
  Build_Policy "demo" "" None None None zero_budget None None zero_contract (Build_PolicyDissent "refuse" true)
    EffectClassReversible (Some [seat "s1" "verification"; seat "s2" "verification"]) "" None HumanSeatAbsent None None
    true "owner"
    (Build_PolicyQuorum true 2 (Some {["verification" := Build_DomainQuorum 2 false]}) "equal") "" ""
    (Build_PolicyReplacement None "refuse") "" None (Build_PolicyTimeout "utc" "PT30M").

Definition raw : string := marshal (policy_json policy).

Definition stored : Store * string := Eval vm_compute in ok_or (NewStore, "") (Put NewStore raw).
Definition digest : string := Eval vm_compute in ok_or "" (Policy_Digest policy).

Lemma put_ok : Put NewStore raw = Ok (stored.1, stored.2).
Proof. vm_compute. reflexivity. Qed.
Lemma parse_ok : ParsePolicy (TrimSpace raw) = Ok policy.
Proof. vm_compute. reflexivity. Qed.
Lemma digest_ok : Policy_Digest policy = Ok digest.
Proof. vm_compute. reflexivity. Qed.

Lemma revoke_one_digest_leaves_the_other_witness :
  digest <> stored.2 /\ is_ok (Get (Revoke stored.1 stored.2) stored.2) = false /\
  Get (Revoke stored.1 stored.2) digest = Ok (policy, TrimSpace raw).
Proof.
  assert (digest <> stored.2) as Hne by (vm_compute; discriminate).
  assert (digest ∉ revoked NewStore) as Hnr by by_deciding.
  destruct (revoke_one_digest_leaves_the_other NewStore raw stored.1 stored.2 policy digest put_ok parse_ok
    digest_ok Hne Hnr) as [H1 H2].
  split; [exact Hne|]. split; [rewrite H1; reflexivity|exact H2].
Defined.
End Demo.
End DecisionPolicy.
