(* ===== verification/DecisionReduce.v ===== *)
(** * DecisionReduce: the reducer of qualified consensus

    Models [internal/decisionpolicy/reduce.go]. [Reduce] is split where the code
    changes subject: what is admitted before the ballots ([prepare]), one turn of
    the loop over the ballots ([count_ballot]), the checks on the tally
    ([close_tally]) and the receipt. *)
From S2P Require Import Prelude GoStrings GoTime GoJson CanonicalJson Sha256 GoDecode DecisionPolicy.
From Stdlib Require Import Ascii.
Import DecisionPolicy.

Module DecisionReduce.

Definition Irreversible (s : EffectSubject) : bool :=
  (Subj_EffectClass s == EffectClassIrreversible) || negb (blank (Recipient s)) || negb (blank (PayloadDigest s))
  || (Subj_Actuator s == ActuatorTrustedOutbox) || negb (blank (AcceptanceInbox s))
  || (0 <? Subj_ExternalSends s)%Z.

(** ** [parseDecisionWindow] *)

(** [fmt.Sscanf(spec, "PT%dM", &minutes)]: blanks after PT are skipped (a newline
    among them is an error), a sign is accepted, and what follows the M is not
    looked at. *)
Definition skip_blanks (l : list ascii) : list ascii :=
  trim (fun a => space1 a && negb (code a =? 10)%N) space2 space3 l.

Fixpoint span_digits (l : list ascii) : list ascii * list ascii :=
  match l with
  | a :: l' => if is_digit a then let '(d, r) := span_digits l' in (a :: d, r) else ([], l)
  | [] => ([], [])
  end.

Definition scan_minutes (spec : string) : option Z :=
  let l := skip_blanks (drop 2 (chars spec)) in
  let '(sign, l) := match l with
                    | a :: l' => if Ascii.eqb a "-" || Ascii.eqb a "+" then ([a], l') else ([], l)
                    | [] => ([], [])
                    end in
  let '(ds, rest) := span_digits l in
  match ds, rest with
  | _ :: _, "M"%char :: _ => ParseInt (of_chars (sign ++ ds))
  | _, _ => None
  end.

Definition HasSuffix (s suffix : string) : bool :=
  HasPrefix (of_chars (rev (chars s))) (of_chars (rev (chars suffix))).

(** A [time.Duration] is an int64 of nanoseconds, and its product wraps. *)
Definition parseDecisionWindow (spec : string) : res policy_error Z :=
  let spec := TrimSpace spec in
  if spec == "PT30M" then Ok (30 * minute)%Z
  else if HasPrefix spec "PT" && HasSuffix spec "M" then
    match scan_minutes spec with
    | Some minutes => if (0 <? minutes)%Z then Ok (wrap_i64 (minutes * minute)) else Err ErrWindow
    | None => Err ErrWindow
    end
  else Err ErrWindow.

(** ** Bounds and manifests *)
Definition containsString (values : slice string) (want : string) : bool :=
  existsb (fun v => v == want) (items values).

Definition refuseBounds (policy : Policy) (subject : EffectSubject) : res policy_error unit :=
  let sends := ExternalSends (Budget policy) in
  refuse (sends =? 0)%Z && (0 <? Subj_ExternalSends subject)%Z with ErrBounds ;;
  refuse (0 <? sends)%Z && (sends <? Subj_ExternalSends subject)%Z with ErrBounds ;;
  refuse containsString (ForbiddenCapabilities policy) "outbox.send"
         && (Subj_Actuator subject == ActuatorTrustedOutbox) with ErrBounds ;;
  refuse containsString (InadmissibleEvidence policy) "owner_recovery_checkpoint" && OwnerRecovery subject
  with ErrOwnerRecovery ;;
  refuse (EffectClass policy == EffectClassIrreversible)
         && (blank (Recipient subject) || negb (isSHA256 (PayloadDigest subject))
             || (Subj_Actuator subject != ActuatorTrustedOutbox) || blank (AcceptanceInbox subject))
  with ErrBounds ;;
  Ok tt.

(** A map filled by a loop: the last seat of an identifier stays. *)
Definition policy_seats (policy : Policy) : gmap string PolicySeat :=
  foldl (fun m s => <[PSeat_SeatID s := s]> m) ∅ (items (EligibleSeats policy)).
Definition manifest_seats (manifest : SeatManifest) : gmap string Seat :=
  foldl (fun m s => <[SeatID s := s]> m) ∅ (items (Seats manifest)).

Fixpoint check_seats (policyIDs : gmap string PolicySeat) (seen : gset string) (seats : list Seat)
    : res policy_error (gset string) :=
  match seats with
  | [] => Ok seen
  | seat :: seats =>
    refuse bool_decide (SeatID seat ∈ seen) with ErrIndependenceFabricated ;;
    refuse Recused seat with ErrSeatDropped ;;
    match policyIDs !! SeatID seat with
    | None => Err ErrMissingRequiredSeat
    | Some policySeat =>
      refuse (IndependenceDomain seat != PSeat_IndependenceDomain policySeat)
             || (SeatKind seat != PSeat_Kind policySeat) with ErrIndependenceFabricated ;;
      refuse blank (EligibilityProof seat) with ErrBallotAttestation ;;
      check_seats policyIDs ({[SeatID seat]} ∪ seen) seats
    end
  end.

Definition validateManifest (policy : Policy) (manifest : SeatManifest) : res policy_error unit :=
  refuse negb (length (items (Seats manifest)) =? length (items (EligibleSeats policy)))%nat
  with ErrMissingRequiredSeat ;;
  let? seen := check_seats (policy_seats policy) ∅ (items (Seats manifest)) in
  refuse existsb (fun s => negb (bool_decide (PSeat_SeatID s ∈ seen))) (items (EligibleSeats policy))
  with ErrMissingRequiredSeat ;;
  Ok tt.

(** ** The reduction *)
Record ConsensusInput := {
  In_Policy : Policy; In_Manifest : SeatManifest; In_Subject : EffectSubject;
  In_Selection : PolicySelectionReceipt; In_Ballots : slice BallotAttestation; In_Now : string }.

(** What is fixed before the ballots are counted. *)
Record frame := {
  fr_policy : Policy; policyDigest : string; manifestDigest : string; subjectDigest : string;
  selectionDigest : string; startedAt : Time; expiresAt : Time }.

Section Reduce.
Context {sh : Sha256}.

Definition check_selection (selection : PolicySelectionReceipt) (policyDigest manifestDigest subjectDigest : string)
    : res policy_error string :=
  refuse Sel_ReceiptKind selection != ReceiptKindPolicySelection with ErrMissingSelection ;;
  refuse (Sel_PolicyDigest selection != policyDigest) || (Sel_SeatManifestDigest selection != manifestDigest)
         || (Sel_SubjectDigest selection != subjectDigest) with ErrSubjectMismatch ;;
  refuse negb (isSHA256 (SelectedAtHead selection)) || (SelectedSequence selection =? 0)%Z
  with ErrSelectionAfterOutputs ;;
  let? selectionDigest := Selection_Digest selection in
  refuse (SelectionDigest selection != "") && (SelectionDigest selection != selectionDigest)
  with ErrMissingSelection ;;
  Ok selectionDigest.

Definition prepare (store : Store) (input : ConsensusInput) : res policy_error frame :=
  let trimmed := TrimSpace (Sel_PolicyDigest (In_Selection input)) in
  let? policyDigest := (if trimmed == "" then Policy_Digest (In_Policy input) else Ok trimmed) in
  let? got := Get store policyDigest in
  let policy := got.1 in
  refuse (PolicyID policy == "")
         || ((PolicyID (In_Policy input) != "") && (PolicyID (In_Policy input) != PolicyID policy))
  with ErrNoPolicy ;;
  refuse OwnerRecovery (In_Subject input) with ErrOwnerRecovery ;;
  refuse (EffectClass policy == EffectClassReversible) && Irreversible (In_Subject input)
  with ErrReversiblePolicyIrreversibleSubject ;;
  let? _ := refuseBounds policy (In_Subject input) in
  let? subjectDigest := Subject_Digest (In_Subject input) in
  let? manifestDigest := Manifest_Digest (In_Manifest input) in
  let? _ := validateManifest policy (In_Manifest input) in
  let? selectionDigest := check_selection (In_Selection input) policyDigest manifestDigest subjectDigest in
  match parse_utc (TrimSpace (In_Now input)) with
  | None => Err ErrWindow
  | Some now =>
    let? window := parseDecisionWindow (DecisionWindowSpec (Timeout policy)) in
    let startedAt := Truncate now microsecond in
    Ok {| fr_policy := policy; policyDigest := policyDigest; manifestDigest := manifestDigest;
          subjectDigest := subjectDigest; selectionDigest := selectionDigest;
          startedAt := startedAt; expiresAt := (startedAt + window)%Z |}
  end.

(** Signers of a ballot for an authoring seat. *)
Definition authorSigners (seats : gmap string PolicySeat) (ballots : list BallotAttestation) : gset string :=
  list_to_set (map SignerProvenance (List.filter (fun b =>
    match seats !! Ballot_SeatID b with
    | Some s => PSeat_IndependenceDomain s == "authoring"
    | None => false
    end) ballots)).

Record tally := {
  seenBallot : gset string; signerDomain : gmap string string; accepts : Z;
  domainAccepts : gmap string Z; blockingDissent : bool; humanPresent : bool; requiredPresent : gset string }.

Definition zero_tally : tally := Build_tally ∅ ∅ 0 ∅ false false ∅.

(** The checks on one ballot that do not depend on the others, and the seat of
    the policy it is for. *)
Definition admit_ballot (fr : frame) (manifest : SeatManifest) (b : BallotAttestation)
    : res policy_error (Seat * PolicySeat) :=
  let? _ := VerifyAttestation b in
  refuse (Ballot_PolicyDigest b != policyDigest fr) || (Ballot_SeatManifestDigest b != manifestDigest fr)
         || (Ballot_SubjectDigest b != subjectDigest fr) || (PolicySelectionDigest b != selectionDigest fr)
  with ErrBallotNotJoined ;;
  refuse WindowID b != selectionDigest fr with ErrWindow ;;
  match manifest_seats manifest !! Ballot_SeatID b with
  | None => Err ErrMissingRequiredSeat
  | Some seat =>
    refuse Recused seat with ErrSeatDropped ;;
    match policy_seats (fr_policy fr) !! Ballot_SeatID b with
    | None => Err ErrMissingRequiredSeat
    | Some policySeat =>
      refuse (Ballot_IndependenceDomain b != IndependenceDomain seat)
             || (Ballot_IndependenceDomain b != PSeat_IndependenceDomain policySeat)
      with ErrIndependenceFabricated ;;
      Ok (seat, policySeat)
    end
  end.

(** The checks after the one on the signer's domain. *)
Definition recusal_ok (fr : frame) (authors : gset string) (b : BallotAttestation) (policySeat : PolicySeat) : bool :=
  negb (containsString (RecusedFrom policySeat) (Ballot_IndependenceDomain b)) &&
  negb (bool_decide (SignerProvenance b ∈ authors) &&
        match policy_seats (fr_policy fr) !! "cosuper-author" with
        | Some author => containsString (RecusedFrom author) (Ballot_IndependenceDomain b)
        | None => false
        end).

Definition count_vote (policy : Policy) (b : BallotAttestation) (seat : Seat) (policySeat : PolicySeat) (t : tally)
    : tally :=
  let counts := CountsTowardQuorum policySeat in
  let accept := (Vote b == VoteAccept) && counts in
  {| seenBallot := {[BallotID b]} ∪ seenBallot t;
     signerDomain := <[SignerProvenance b := Ballot_IndependenceDomain b]> (signerDomain t);
     accepts := if accept then (accepts t + 1)%Z else accepts t;
     domainAccepts := if accept
                      then <[Ballot_IndependenceDomain b :=
                               (default 0 (domainAccepts t !! Ballot_IndependenceDomain b) + 1)%Z]> (domainAccepts t)
                      else domainAccepts t;
     blockingDissent := blockingDissent t
       || ((Vote b != VoteAccept) && (Vote b == VoteReject) && counts
           && (PolicyBlockingUnresolved (Dissent policy) == "refuse"));
     humanPresent := humanPresent t || (SeatKind seat == "owner_human") || (PSeat_Kind policySeat == "owner_human");
     requiredPresent := if counts then {[Ballot_SeatID b]} ∪ requiredPresent t else requiredPresent t |}.

Definition count_ballot (fr : frame) (manifest : SeatManifest) (authors : gset string) (t : tally)
    (b : BallotAttestation) : res policy_error tally :=
  refuse bool_decide (BallotID b ∈ seenBallot t) with ErrBallotAttestation ;;
  let? admitted := admit_ballot fr manifest b in
  let '(seat, policySeat) := admitted in
  refuse (match signerDomain t !! SignerProvenance b with
          | Some prevDomain => prevDomain != Ballot_IndependenceDomain b
          | None => false
          end) with ErrIndependenceFabricated ;;
  refuse negb (recusal_ok fr authors b policySeat) with ErrIndependenceFabricated ;;
  Ok (count_vote (fr_policy fr) b seat policySeat t).

Fixpoint count_ballots (fr : frame) (manifest : SeatManifest) (authors : gset string) (t : tally)
    (bs : list BallotAttestation) : res policy_error tally :=
  match bs with
  | [] => Ok t
  | b :: bs => let? t' := count_ballot fr manifest authors t b in count_ballots fr manifest authors t' bs
  end.

Definition domain_rules (policy : Policy) : gmap string DomainQuorum := default ∅ (PerDomain (Quorum policy)).

Definition human_state (policy : Policy) (present : bool) : res policy_error string :=
  let h := HumanSeat policy in
  if h == HumanSeatRequired then refuse negb present with ErrHumanSeatAbsent ;; Ok HumanSeatPresent
  else if h == HumanSeatAbsent then refuse present with ErrBounds ;; Ok HumanSeatAbsent
  else if h == HumanSeatOptional then Ok (if present then HumanSeatPresent else HumanSeatAbsent)
  else Ok HumanSeatNotRequired.

Definition close_tally (policy : Policy) (t : tally) : res policy_error string :=
  refuse blockingDissent t with ErrUnresolvedDissent ;;
  refuse existsb (fun s =>
           RequiredPresent (default zero_domain (domain_rules policy !! PSeat_IndependenceDomain s))
           && CountsTowardQuorum s && negb (bool_decide (PSeat_SeatID s ∈ requiredPresent t)))
         (items (EligibleSeats policy)) with ErrMissingRequiredSeat ;;
  refuse (accepts t <? GlobalAcceptMinimum (Quorum policy))%Z with ErrBelowQuorum ;;
  refuse existsb (fun dr => (default 0 (domainAccepts t !! dr.1) <? AcceptMinimum dr.2)%Z)
         (map_to_list (domain_rules policy)) with ErrBelowQuorum ;;
  human_state policy (humanPresent t).

Definition build_receipt (fr : frame) (ballots : slice BallotAttestation) (t : tally) (humanState : string)
    : QualifiedConsensusReceipt := {|
  Rcpt_ReceiptKind := ReceiptKindQualifiedConsensus;
  Rcpt_PolicyID := PolicyID (fr_policy fr);
  Rcpt_PolicyDigest := policyDigest fr;
  Rcpt_SubjectDigest := subjectDigest fr;
  EligibleSeatsDigest := manifestDigest fr;
  Rcpt_SelectionDigest := selectionDigest fr;
  Ballots := copy_slice ballots;
  Evaluation := {| GlobalAccepts := accepts t; DomainAccepts := Some (domainAccepts t); Met := true |};
  DissentDisposition := "resolved_none_blocking";
  HumanSeatState := humanState;
  Window := {| StartedAt := format_rfc3339nano (startedAt fr); ExpiresAt := format_rfc3339nano (expiresAt fr) |};
  ReducerVersion := ReducerVersionV1;
  ReceiptDigest := "" |}.

(** A nil store is [None]. *)
Definition Reduce (store : option Store) (input : ConsensusInput) : res policy_error QualifiedConsensusReceipt :=
  match store with
  | None => Err ErrNoPolicy
  | Some store =>
    let? fr := prepare store input in
    let ballots := items (In_Ballots input) in
    let authors := authorSigners (policy_seats (fr_policy fr)) ballots in
    let? t := count_ballots fr (In_Manifest input) authors zero_tally ballots in
    let? humanState := close_tally (fr_policy fr) t in
    Seal (build_receipt fr (In_Ballots input) t humanState)
  end.

Definition Verify (store : option Store) (input : ConsensusInput) (receipt : QualifiedConsensusReceipt)
    : res policy_error unit :=
  let? got := Reduce store input in
  let? _ := VerifyDigest receipt in
  refuse ReceiptDigest got != ReceiptDigest receipt with ErrInvalidReceipt ;;
  let? subjectDigest := Subject_Digest (In_Subject input) in
  refuse Rcpt_SubjectDigest receipt != subjectDigest with ErrSubjectMismatch ;;
  Ok tt.

Definition AuthorityRef (receipt : QualifiedConsensusReceipt) : string :=
  AuthorityPrefix +:+ TrimSpace (ReceiptDigest receipt).

Definition ReceiptDigestFromAuthority (authorityRef : string) : option string :=
  let digest := TrimPrefix (TrimSpace authorityRef) AuthorityPrefix in
  if (digest == "") || (digest == TrimSpace authorityRef) || negb (isSHA256 digest) then None else Some digest.

Record ConsensusBundle := {
  Bun_Manifest : SeatManifest; Bun_Subject : EffectSubject; Bun_Selection : PolicySelectionReceipt;
  Bun_Ballots : slice BallotAttestation; Bun_Now : string }.

Definition ReduceBundle (store : option Store) (bundle : ConsensusBundle)
    : res policy_error QualifiedConsensusReceipt :=
  match store with
  | None => Err ErrNoPolicy
  | Some s =>
    let? got := Get s (TrimSpace (Sel_PolicyDigest (Bun_Selection bundle))) in
    Reduce store (Build_ConsensusInput got.1 (Bun_Manifest bundle) (Bun_Subject bundle) (Bun_Selection bundle)
      (Bun_Ballots bundle) (Bun_Now bundle))
  end.

(** ** Counting *)
Section Count.
Context (fr : frame) (manifest : SeatManifest) (authors : gset string).

(** What a ballot counts as, read off the policy and the manifest. *)
Definition counting (b : BallotAttestation) : bool :=
  match policy_seats (fr_policy fr) !! Ballot_SeatID b with Some s => CountsTowardQuorum s | None => false end.
Definition accepting (b : BallotAttestation) : bool := (Vote b == VoteAccept) && counting b.
Definition accepting_in (d : string) (b : BallotAttestation) : bool :=
  accepting b && (Ballot_IndependenceDomain b == d).
Definition rejecting (b : BallotAttestation) : bool := (Vote b == VoteReject) && counting b.
Definition from_human (b : BallotAttestation) : bool :=
  match manifest_seats manifest !! Ballot_SeatID b, policy_seats (fr_policy fr) !! Ballot_SeatID b with
  | Some s, Some ps => (SeatKind s == "owner_human") || (PSeat_Kind ps == "owner_human")
  | _, _ => false
  end.

Definition votes (f : BallotAttestation -> bool) (bs : list BallotAttestation) : Z :=
  Z.of_nat (length (List.filter f bs)).

Lemma votes_cons f b bs : votes f (b :: bs) = ((if f b then 1 else 0) + votes f bs)%Z.
Proof. unfold votes. simpl. destruct (f b); simpl; lia. Qed.

(** An admitted ballot is attested, joined to the selection and for a seat that
    the manifest and the policy agree on. *)
Record joined (b : BallotAttestation) : Prop := {
  j_attested : VerifyAttestation b = Ok tt;
  j_policy : Ballot_PolicyDigest b = policyDigest fr;
  j_manifest : Ballot_SeatManifestDigest b = manifestDigest fr;
  j_subject : Ballot_SubjectDigest b = subjectDigest fr;
  j_selection : PolicySelectionDigest b = selectionDigest fr;
  j_window : WindowID b = selectionDigest fr;
  j_seat : exists s ps, manifest_seats manifest !! Ballot_SeatID b = Some s /\ Recused s = false /\
    policy_seats (fr_policy fr) !! Ballot_SeatID b = Some ps /\
    Ballot_IndependenceDomain b = IndependenceDomain s /\
    Ballot_IndependenceDomain b = PSeat_IndependenceDomain ps /\
    recusal_ok fr authors b ps = true;
}.

Definition same_domain (t : tally) (b : BallotAttestation) : Prop :=
  forall d, signerDomain t !! SignerProvenance b = Some d -> d = Ballot_IndependenceDomain b.

Lemma count_ballot_inv t b t' :
  count_ballot fr manifest authors t b = Ok t' <->
  joined b /\ BallotID b ∉ seenBallot t /\ same_domain t b /\
  exists s ps, manifest_seats manifest !! Ballot_SeatID b = Some s /\
    policy_seats (fr_policy fr) !! Ballot_SeatID b = Some ps /\ t' = count_vote (fr_policy fr) b s ps t.
Proof.
  unfold count_ballot, admit_ballot, same_domain. split.
  - case_bool_decide as Hseen; [done|].
    destruct (VerifyAttestation b) as [[]|] eqn:Hv; [|done].
    destruct (_ || _) eqn:Hj; [done|]. destruct (WindowID b != _) eqn:Hw; [done|].
    destruct (manifest_seats manifest !! _) as [s|] eqn:Hs; [|done].
    destruct (Recused s) eqn:Hr; [done|].
    destruct (policy_seats _ !! _) as [ps|] eqn:Hps; [|done].
    destruct ((Ballot_IndependenceDomain b != _) || _) eqn:Hd; [done|].
    destruct (match signerDomain t !! _ with Some _ => _ | None => _ end) eqn:Hsig; [done|].
    destruct (negb (recusal_ok _ _ _ _)) eqn:Hrec; [done|]. intros [= <-]. to_prop.
    split; [|split; [done|split]].
    + split; try done. exists s, ps. done.
    + intros d Hd'. rewrite Hd' in Hsig. by to_prop.
    + by exists s, ps.
  - intros ([Hv Hp Hm Hsu Hse Hw (s & ps & Hs & Hr & Hps & Hd1 & Hd2 & Hrec)] & Hseen & Hsig &
            s' & ps' & Hs' & Hps' & ->). simplify_eq.
    rewrite bool_decide_eq_false_2 by done. rewrite Hv, Hp, Hm, Hsu, Hse, Hw, Hs, Hr, Hps.
    rewrite <-Hd1, <-Hd2. rewrite !(bool_decide_eq_true_2 (_ = _)) by done. simpl.
    rewrite Hrec. simpl. destruct (signerDomain t !! _) as [d|] eqn:E; [|done].
    rewrite (Hsig d eq_refl), bool_decide_eq_true_2 by done. done.
Qed.

(** What a run over the ballots found and left. *)
Record counted (t : tally) (bs : list BallotAttestation) (t' : tally) : Prop := {
  c_joined : Forall joined bs;
  c_nodup : NoDup (BallotID <$> bs);
  c_fresh : forall b, b ∈ bs -> BallotID b ∉ seenBallot t;
  c_seen : forall id, id ∈ seenBallot t' <-> id ∈ seenBallot t \/ id ∈ BallotID <$> bs;
  c_signer : forall b, b ∈ bs -> signerDomain t' !! SignerProvenance b = Some (Ballot_IndependenceDomain b);
  c_signer_old : forall s d, signerDomain t !! s = Some d -> signerDomain t' !! s = Some d;
  c_accepts : accepts t' = (accepts t + votes accepting bs)%Z;
  c_domain : forall d, default 0%Z (domainAccepts t' !! d) =
    (default 0%Z (domainAccepts t !! d) + votes (accepting_in d) bs)%Z;
  c_dissent : blockingDissent t' = blockingDissent t ||
    (existsb rejecting bs && (PolicyBlockingUnresolved (Dissent (fr_policy fr)) == "refuse"));
  c_human : humanPresent t' = humanPresent t || existsb from_human bs;
  c_present : forall id, id ∈ requiredPresent t' <->
    id ∈ requiredPresent t \/ exists b, b ∈ bs /\ counting b = true /\ Ballot_SeatID b = id;
}.

Lemma count_vote_accepts b s ps t :
  policy_seats (fr_policy fr) !! Ballot_SeatID b = Some ps ->
  accepts (count_vote (fr_policy fr) b s ps t) = (accepts t + if accepting b then 1 else 0)%Z /\
  forall d, default 0%Z (domainAccepts (count_vote (fr_policy fr) b s ps t) !! d) =
    (default 0%Z (domainAccepts t !! d) + if accepting_in d b then 1 else 0)%Z.
Proof.
  intros Hps. unfold accepting_in, accepting, counting. rewrite Hps. simpl.
  destruct ((Vote b == VoteAccept) && CountsTowardQuorum ps); simpl; [|split; [|intros d]; lia].
  split; [done|]. intros d. case_bool_decide as Hd.
  - subst d. by rewrite lookup_insert_eq.
  - rewrite lookup_insert_ne by done. lia.
Qed.

Lemma count_vote_dissent b s ps t :
  policy_seats (fr_policy fr) !! Ballot_SeatID b = Some ps ->
  blockingDissent (count_vote (fr_policy fr) b s ps t) =
    blockingDissent t || (rejecting b && (PolicyBlockingUnresolved (Dissent (fr_policy fr)) == "refuse")).
Proof.
  intros Hps. unfold rejecting, counting. rewrite Hps. simpl. f_equal.
  destruct (Vote b == VoteReject) eqn:Hr; [|by rewrite andb_false_r]. to_prop. rewrite Hr. done.
Qed.

Lemma count_ballots_counted t bs t' :
  count_ballots fr manifest authors t bs = Ok t' -> counted t bs t'.
Proof.
  revert t. induction bs as [|b bs IH]; intros t Hc.
  - apply Ok_inj in Hc as ->. split; try done; simpl; try (intros; set_solver); try (intros; unfold votes; simpl; lia).
    + constructor.
    + by rewrite orb_false_r.
    + by rewrite orb_false_r.
  - simpl in Hc. destruct (count_ballot _ _ _ t b) as [t1|] eqn:Hb; [|done].
    apply count_ballot_inv in Hb as (Hj & Hseen & Hdom & s & ps & Hs & Hps & ->).
    destruct (IH _ Hc) as [Hjs Hnd Hfr Hse Hsig Hso Hac Hda Hdi Hhu Hpr].
    destruct (count_vote_accepts b s ps t Hps) as [Ha Had].
    rewrite (count_vote_dissent b s ps t Hps) in Hdi. simpl in Hfr, Hse, Hso, Hhu, Hpr.
    split; csimpl.
    + by constructor.
    + constructor; [|done]. intros (b' & Hb' & Hin)%list_elem_of_fmap.
      apply (Hfr b' Hin). rewrite <-Hb'. set_solver.
    + intros b' [->|Hb']%elem_of_cons; [done|]. specialize (Hfr b' Hb'). set_solver.
    + intros id. rewrite Hse, elem_of_cons, elem_of_union, elem_of_singleton. tauto.
    + intros b' [->|Hb']%elem_of_cons; [|by apply Hsig]. apply Hso. by rewrite lookup_insert_eq.
    + intros sg d Hd. apply Hso. destruct (decide (sg = SignerProvenance b)) as [->|].
      * rewrite lookup_insert_eq. by rewrite (Hdom d Hd).
      * by rewrite lookup_insert_ne.
    + rewrite Hac, Ha, votes_cons. lia.
    + intros d. rewrite Hda, Had, votes_cons. lia.
    + rewrite Hdi. by destruct (blockingDissent t), (rejecting b), (existsb rejecting bs), (_ == "refuse").
    + rewrite Hhu. unfold from_human at 2. rewrite Hs, Hps. by rewrite <-!orb_assoc.
    + intros id. rewrite Hpr. assert (counting b = CountsTowardQuorum ps) as Hcb by (unfold counting; by rewrite Hps).
      destruct (CountsTowardQuorum ps); split.
      * intros [[->%elem_of_singleton|?]%elem_of_union|(b' & ? & ? & ?)]; [right; exists b|by left|right; exists b'];
          split_and!; try done; set_solver.
      * intros [?|(b' & [->|Hb']%elem_of_cons & ? & <-)]; [set_solver..|]. right. by exists b'.
      * intros [?|(b' & ? & ? & ?)]; [by left|right; exists b']. split_and!; try done. set_solver.
      * intros [?|(b' & [->|Hb']%elem_of_cons & ? & ?)]; [by left|congruence|]. right. by exists b'.
Qed.

(** *** The order of the ballots *)
Lemma count_vote_swap a b sa pa sb pb t :
  (SignerProvenance a = SignerProvenance b -> Ballot_IndependenceDomain a = Ballot_IndependenceDomain b) ->
  count_vote (fr_policy fr) a sa pa (count_vote (fr_policy fr) b sb pb t) =
  count_vote (fr_policy fr) b sb pb (count_vote (fr_policy fr) a sa pa t).
Proof.
  intros Hsig. unfold count_vote. cbn. f_equal.
  - set_solver.
  - destruct (decide (SignerProvenance a = SignerProvenance b)) as [E|].
    + by rewrite E, (Hsig E), !insert_insert_eq.
    + by apply insert_insert_ne.
  - destruct (_ && CountsTowardQuorum pa), (_ && CountsTowardQuorum pb); lia.
  - destruct ((Vote a == _) && _), ((Vote b == _) && _); try done.
    destruct (decide (Ballot_IndependenceDomain a = Ballot_IndependenceDomain b)) as [->|Hne]; [done|].
    rewrite (lookup_insert_ne _ (Ballot_IndependenceDomain b)), (lookup_insert_ne _ (Ballot_IndependenceDomain a)) by done.
    by apply insert_insert_ne.
  - destruct (blockingDissent t); [done|]. simpl. apply orb_comm.
  - destruct (humanPresent t); [done|]. simpl.
    by destruct (SeatKind sa == _), (PSeat_Kind pa == _), (SeatKind sb == _), (PSeat_Kind pb == _).
  - destruct (CountsTowardQuorum pa), (CountsTowardQuorum pb); set_solver.
Qed.

Lemma count_ballot_swap t a b t1 t2 :
  count_ballot fr manifest authors t a = Ok t1 -> count_ballot fr manifest authors t1 b = Ok t2 ->
  exists t1', count_ballot fr manifest authors t b = Ok t1' /\ count_ballot fr manifest authors t1' a = Ok t2.
Proof.
  intros (Ja & Sa & Da & sa & pa & Hsa & Hpa & ->)%count_ballot_inv.
  intros (Jb & Sb & Db & sb & pb & Hsb & Hpb & ->)%count_ballot_inv. simpl in Sb.
  assert (SignerProvenance a = SignerProvenance b -> Ballot_IndependenceDomain a = Ballot_IndependenceDomain b) as Hsig.
  { intros E. apply Db. simpl. by rewrite E, lookup_insert_eq. }
  exists (count_vote (fr_policy fr) b sb pb t). split; apply count_ballot_inv.
  - split; [done|]. split; [set_solver|]. split; [|by exists sb, pb].
    intros d Hd. destruct (decide (SignerProvenance a = SignerProvenance b)) as [E|].
    + rewrite <-(Hsig E). apply Da. by rewrite E.
    + apply Db. simpl. by rewrite lookup_insert_ne.
  - split; [done|]. split; [simpl; set_solver|]. split.
    + intros d. simpl. destruct (decide (SignerProvenance b = SignerProvenance a)) as [E|].
      * rewrite E, lookup_insert_eq. intros [= <-]. by rewrite Hsig.
      * rewrite lookup_insert_ne by done. apply Da.
    + exists sa, pa. split_and!; [done..|]. symmetry. by apply count_vote_swap.
Qed.

Lemma count_ballots_perm bs1 bs2 : bs1 ≡ₚ bs2 -> forall t t',
  count_ballots fr manifest authors t bs1 = Ok t' -> count_ballots fr manifest authors t bs2 = Ok t'.
Proof.
  induction 1 as [|b bs1 bs2 _ IH|a b bs|bs1 bs2 bs3 _ IH1 _ IH2]; intros t t'; simpl.
  - done.
  - destruct (count_ballot _ _ _ t b); [apply IH|done].
  - destruct (count_ballot _ _ _ t b) as [t1|] eqn:Hb; [|done].
    destruct (count_ballot _ _ _ t1 a) as [t2|] eqn:Ha; [|done].
    destruct (count_ballot_swap t b a t1 t2 Hb Ha) as (t1' & -> & ->). done.
  - intros Hc. by apply IH2, IH1.
Qed.

(** Counting one more ballot at the end. *)
Lemma count_ballots_snoc bs b t :
  count_ballots fr manifest authors t (bs ++ [b]) =
  (let? t' := count_ballots fr manifest authors t bs in count_ballot fr manifest authors t' b).
Proof.
  revert t. induction bs as [|a bs IH]; intros t; simpl.
  - by destruct (count_ballot _ _ _ t b).
  - by destruct (count_ballot _ _ _ t a).
Qed.
End Count.

Lemma authorSigners_perm seats bs1 bs2 : bs1 ≡ₚ bs2 -> authorSigners seats bs1 = authorSigners seats bs2.
Proof. intros Hp. unfold authorSigners. apply list_to_set_perm_L, Permutation_map, filter_perm, Hp. Qed.

(** ** Receipts *)
Lemma integral_enc_slice {A} (enc : A -> json) l :
  (forall x, integral (enc x) = true) -> integral (enc_slice enc l) = true.
Proof.
  intros Henc. destruct l as [l|]; [|done]. simpl. rewrite forallb_map. apply forallb_forall. auto.
Qed.

Lemma integral_enc_map {A} (enc : A -> json) m :
  (forall x, integral (enc x) = true) -> integral (enc_map enc m) = true.
Proof.
  intros Henc. destruct m as [m|]; [|done]. simpl. rewrite forallb_map. apply forallb_forall.
  intros kv _. apply Henc.
Qed.

Lemma integral_app fs1 fs2 :
  integral (JObj (fs1 ++ fs2)) = integral (JObj fs1) && integral (JObj fs2).
Proof. simpl. apply forallb_app. Qed.

Lemma integral_omit_str k v : integral (JObj (omit_str k v)) = true.
Proof. unfold omit_str. by case_bool_decide. Qed.

Lemma integral_ballot b : integral (ballot_json b) = true.
Proof. unfold ballot_json. by rewrite !integral_app, !integral_omit_str. Qed.

Lemma integral_receipt r : integral (receipt_json r) = true.
Proof.
  unfold receipt_json. rewrite integral_app, integral_omit_str, andb_true_r. cbn [integral forallb snd].
  rewrite integral_JInt, integral_enc_slice by apply integral_ballot.
  by rewrite integral_enc_map by apply integral_JInt.
Qed.

Lemma Receipt_Digest_total r : exists d, Receipt_Digest r = Ok d.
Proof.
  unfold Receipt_Digest, CanonicalDigest.
  destruct (CanonicalJSON_total _ (integral_receipt (with_receipt_digest r ""))) as [body ->]. by eexists.
Qed.

Lemma Seal_ok r : exists d, Receipt_Digest r = Ok d /\ Seal r = Ok (with_receipt_digest r d).
Proof. destruct (Receipt_Digest_total r) as [d Hd]. exists d. unfold Seal. by rewrite Hd. Qed.

Lemma Seal_VerifyDigest r r' :
  Rcpt_ReceiptKind r = ReceiptKindQualifiedConsensus -> ReducerVersion r = ReducerVersionV1 ->
  Seal r = Ok r' -> VerifyDigest r' = Ok tt.
Proof.
  intros Hk Hv Hs. destruct (Seal_ok r) as (d & Hd & Hs'). rewrite Hs in Hs'. apply Ok_inj in Hs' as ->.
  assert (Receipt_Digest (with_receipt_digest r d) = Ok d) as Hd'.
  { rewrite <-Hd. unfold Receipt_Digest. done. }
  unfold VerifyDigest. rewrite Hd'. cbn [Rcpt_ReceiptKind ReducerVersion with_receipt_digest ReceiptDigest].
  by rewrite Hk, Hv, !bool_decide_eq_true_2.
Qed.

(** ** The reduction as a whole *)
Lemma Reduce_inv store input r :
  Reduce (Some store) input = Ok r <->
  exists fr t h,
    prepare store input = Ok fr /\
    count_ballots fr (In_Manifest input) (authorSigners (policy_seats (fr_policy fr)) (items (In_Ballots input)))
      zero_tally (items (In_Ballots input)) = Ok t /\
    close_tally (fr_policy fr) t = Ok h /\ Seal (build_receipt fr (In_Ballots input) t h) = Ok r.
Proof.
  unfold Reduce. split.
  - destruct (prepare store input) as [fr|]; [|done]. destruct (count_ballots _ _ _ _ _) as [t|] eqn:Ht; [|done].
    destruct (close_tally _ t) as [h|] eqn:Hh; [|done]. intros Hs. by exists fr, t, h.
  - intros (fr & t & h & -> & Hc & Hh & Hs). by rewrite Hc, Hh.
Qed.

(** What [prepare] checked. *)
Record prepared (store : Store) (input : ConsensusInput) (fr : frame) : Prop := {
  p_policy : exists raw, Get store (policyDigest fr) = Ok (fr_policy fr, raw);
  p_subject : Subject_Digest (In_Subject input) = Ok (subjectDigest fr);
  p_manifest : Manifest_Digest (In_Manifest input) = Ok (manifestDigest fr);
  p_selection : Selection_Digest (In_Selection input) = Ok (selectionDigest fr);
  p_joined : Sel_PolicyDigest (In_Selection input) = policyDigest fr /\
    Sel_SeatManifestDigest (In_Selection input) = manifestDigest fr /\
    Sel_SubjectDigest (In_Selection input) = subjectDigest fr;
  p_seats : validateManifest (fr_policy fr) (In_Manifest input) = Ok tt;
  p_recovery : OwnerRecovery (In_Subject input) = false;
  p_class : EffectClass (fr_policy fr) = EffectClassReversible -> Irreversible (In_Subject input) = false;
  p_bounds : refuseBounds (fr_policy fr) (In_Subject input) = Ok tt;
}.

Lemma prepare_prepared store input fr : prepare store input = Ok fr -> prepared store input fr.
Proof.
  unfold prepare. destruct (if _ == "" then _ else _) as [pd|] eqn:Hpd; [|done].
  destruct (Get store pd) as [[policy raw]|] eqn:Hg; [|done]. cbn [fst].
  destruct (_ || _); [done|]. destruct (OwnerRecovery _) eqn:Ho; [done|].
  destruct (_ && _) eqn:Hc; [done|]. destruct (refuseBounds _ _) as [[]|] eqn:Hb; [|done].
  destruct (Subject_Digest _) as [sd|] eqn:Hsd; [|done]. destruct (Manifest_Digest _) as [md|] eqn:Hmd; [|done].
  destruct (validateManifest _ _) as [[]|] eqn:Hv; [|done].
  destruct (check_selection _ _ _ _) as [seld|] eqn:Hsel; [|done].
  destruct (parse_utc _) as [now|]; [|done]. destruct (parseDecisionWindow _) as [w|]; [|done].
  intros Hr. apply Ok_inj in Hr as <-. unfold check_selection in Hsel.
  destruct (_ != ReceiptKindPolicySelection); [done|]. destruct (_ || _) eqn:Hj; [done|].
  destruct (negb (isSHA256 _) || _); [done|]. destruct (Selection_Digest _) as [sel|] eqn:Hse; [|done].
  destruct (_ && _) in Hsel; [done|]. apply Ok_inj in Hsel as ->. to_prop. split; simpl; try done.
  - by exists raw.
  - intros He. rewrite He in Hc. by rewrite bool_decide_eq_true_2 in Hc.
Qed.

(** What [close_tally] checked. *)
Lemma close_tally_inv policy t h :
  close_tally policy t = Ok h ->
  blockingDissent t = false /\
  (forall s, s ∈ items (EligibleSeats policy) ->
     RequiredPresent (default zero_domain (domain_rules policy !! PSeat_IndependenceDomain s)) = true ->
     CountsTowardQuorum s = true -> PSeat_SeatID s ∈ requiredPresent t) /\
  (GlobalAcceptMinimum (Quorum policy) <= accepts t)%Z /\
  (forall d rule, domain_rules policy !! d = Some rule -> (AcceptMinimum rule <= default 0 (domainAccepts t !! d))%Z) /\
  human_state policy (humanPresent t) = Ok h.
Proof.
  unfold close_tally. destruct (blockingDissent t); [done|].
  destruct (existsb _ _) eqn:Hreq; [done|]. destruct (_ <? _)%Z eqn:Hg; [done|].
  destruct (existsb _ _) eqn:Hd in |- *; [done|]. intros Hh. to_prop. split_and!; try done.
  - intros s Hs Hr Hc. destruct (decide (PSeat_SeatID s ∈ requiredPresent t)) as [|Hn]; [done|].
    rewrite <-not_true_iff_false, existsb_exists in Hreq. destruct Hreq. exists s.
    rewrite Hr, Hc, bool_decide_eq_false_2 by done. split; [by apply list_elem_of_In|done].
  - intros d rule Hr. destruct (Z.ltb_spec (default 0 (domainAccepts t !! d)) (AcceptMinimum rule))%Z as [Hlt|]; [|done].
    rewrite <-not_true_iff_false, existsb_exists in Hd. destruct Hd. exists (d, rule).
    split; [by apply list_elem_of_In, elem_of_map_to_list|]. by apply Z.ltb_lt.
Qed.

(** What a successful reduction establishes. *)
Record qualified (store : Store) (input : ConsensusInput) (fr : frame) (r : QualifiedConsensusReceipt) : Prop := {
  q_prepared : prepared store input fr;
  q_digests : Rcpt_PolicyDigest r = policyDigest fr /\ Rcpt_SubjectDigest r = subjectDigest fr /\
    EligibleSeatsDigest r = manifestDigest fr /\ Rcpt_SelectionDigest r = selectionDigest fr;
  q_ballots : Forall (joined fr (In_Manifest input)
    (authorSigners (policy_seats (fr_policy fr)) (items (In_Ballots input)))) (items (In_Ballots input));
  q_distinct : NoDup (BallotID <$> items (In_Ballots input));
  q_one_domain : forall b1 b2, b1 ∈ items (In_Ballots input) -> b2 ∈ items (In_Ballots input) ->
    SignerProvenance b1 = SignerProvenance b2 -> Ballot_IndependenceDomain b1 = Ballot_IndependenceDomain b2;
  q_dissent : PolicyBlockingUnresolved (Dissent (fr_policy fr)) = "refuse" ->
    Forall (fun b => rejecting fr b = false) (items (In_Ballots input));
  q_present : forall s, s ∈ items (EligibleSeats (fr_policy fr)) -> CountsTowardQuorum s = true ->
    RequiredPresent (default zero_domain (domain_rules (fr_policy fr) !! PSeat_IndependenceDomain s)) = true ->
    exists b, b ∈ items (In_Ballots input) /\ Ballot_SeatID b = PSeat_SeatID s;
  q_quorum : (GlobalAcceptMinimum (Quorum (fr_policy fr)) <= votes (accepting fr) (items (In_Ballots input)))%Z /\
    forall d rule, domain_rules (fr_policy fr) !! d = Some rule ->
      (AcceptMinimum rule <= votes (accepting_in fr d) (items (In_Ballots input)))%Z;
  q_human : (HumanSeat (fr_policy fr) = HumanSeatRequired ->
       existsb (from_human fr (In_Manifest input)) (items (In_Ballots input)) = true) /\
    (HumanSeat (fr_policy fr) = HumanSeatAbsent ->
       existsb (from_human fr (In_Manifest input)) (items (In_Ballots input)) = false);
  q_accepts : GlobalAccepts (Evaluation r) = votes (accepting fr) (items (In_Ballots input));
  q_sealed : VerifyDigest r = Ok tt;
}.

Lemma Seal_fields r r' : Seal r = Ok r' -> exists d, r' = with_receipt_digest r d.
Proof. destruct (Seal_ok r) as (d & _ & ->). intros Hs. apply Ok_inj in Hs as <-. by exists d. Qed.

Lemma human_state_inv policy present h :
  human_state policy present = Ok h ->
  (HumanSeat policy = HumanSeatRequired -> present = true) /\ (HumanSeat policy = HumanSeatAbsent -> present = false).
Proof.
  unfold human_state. intros Hh. split; intros E; rewrite E in Hh; destruct present; done.
Qed.

Lemma reduce_qualified store input r : Reduce (Some store) input = Ok r ->
  exists fr, qualified store input fr r /\ forall fr', prepare store input = Ok fr' -> fr = fr'.
Proof.
  intros (fr & t & h & Hp & Hc & Hcl & Hs)%Reduce_inv. exists fr.
  split; [|intros fr' Hp'; rewrite Hp in Hp'; by apply Ok_inj in Hp'].
  pose proof (prepare_prepared _ _ _ Hp) as Hprep.
  apply count_ballots_counted in Hc as [Hj Hnd _ _ Hsig _ Hac Hda Hdi Hhu Hpr]. simpl in Hac, Hda, Hdi, Hhu, Hpr.
  apply close_tally_inv in Hcl as (Hb & Hreq & Hg & Hd & Hh). rewrite Hdi in Hb.
  apply human_state_inv in Hh. rewrite Hhu in Hh.
  pose proof (Seal_VerifyDigest (build_receipt fr (In_Ballots input) t h) r eq_refl eq_refl Hs) as Hv. apply Seal_fields in Hs as [d ->].
  split; try done.
  - intros b1 b2 H1 H2 E. apply Hsig in H1, H2. congruence.
  - intros E. rewrite E, bool_decide_eq_true_2, andb_true_r in Hb by done. apply Forall_forall.
    intros b Hin%list_elem_of_In. apply not_true_iff_false. intros Hrej.
    apply not_true_iff_false in Hb. apply Hb, existsb_exists. by exists b.
  - intros s Hs Hcs Hrs. destruct (proj1 (Hpr _) (Hreq s Hs Hrs Hcs)) as [?|(b & Hin & _ & Hid)];
      [set_solver|by exists b].
  - split; [lia|]. intros dm rule Hrule. specialize (Hd dm rule Hrule). rewrite Hda in Hd.
    rewrite lookup_empty in Hd. exact Hd.
Qed.

(** [C20] A consensus receipt is only ever issued for a qualified decision: the
    policy is registered and not revoked, the selection, the manifest and the
    subject are the ones the receipt names, the subject is within the policy's
    class and bounds and no owner recovery; every ballot is attested, joined to
    that selection and for a seat not recused that the manifest and the policy
    put in the ballot's domain; ballot identifiers are distinct and no signer
    votes in two domains; no seat that counts rejects when the policy refuses
    unresolved dissent; every required seat voted; the accepting ballots reach
    the global and every domain minimum; the human seat is there when required
    and not when forbidden; and the receipt carries its own digest. *)
Theorem reduce_sound store input r (Hr : Reduce (Some store) input = Ok r) :
  exists fr, qualified store input fr r.
Proof. destruct (reduce_qualified store input r Hr) as (fr & Hq & _). by exists fr. Qed.

(** The input with other ballots, or read at another time. *)
Definition with_ballots (input : ConsensusInput) (bs : slice BallotAttestation) : ConsensusInput :=
  Build_ConsensusInput (In_Policy input) (In_Manifest input) (In_Subject input) (In_Selection input) bs (In_Now input).
Definition with_now (input : ConsensusInput) (now : string) : ConsensusInput :=
  Build_ConsensusInput (In_Policy input) (In_Manifest input) (In_Subject input) (In_Selection input)
    (In_Ballots input) now.

(** All of a receipt but the list of ballots and the digest over it. *)
Definition outcome (r : QualifiedConsensusReceipt) :=
  (Rcpt_PolicyID r, Rcpt_PolicyDigest r, Rcpt_SubjectDigest r, EligibleSeatsDigest r, Rcpt_SelectionDigest r,
   Evaluation r, HumanSeatState r, Window r).

Lemma reduce_perm store input bs r :
  items (In_Ballots input) ≡ₚ items bs -> Reduce (Some store) input = Ok r ->
  exists r', Reduce (Some store) (with_ballots input bs) = Ok r' /\ outcome r' = outcome r.
Proof.
  intros Hperm (fr & t & h & Hp & Hc & Hcl & Hs)%Reduce_inv.
  destruct (Seal_ok (build_receipt fr bs t h)) as (d & _ & Hs').
  exists (with_receipt_digest (build_receipt fr bs t h) d). split.
  - apply Reduce_inv. exists fr, t, h. split; [exact Hp|]. split; [|by split]. simpl.
    rewrite <-(authorSigners_perm _ _ _ Hperm). by eapply count_ballots_perm.
  - apply Seal_fields in Hs as [d' ->]. done.
Qed.

(** [C37] The order in which ballots arrive decides nothing: two lists with the
    same ballots are both refused or both yield receipts with the same policy,
    subject, quorum evaluation, human seat and window. *)
Theorem reduce_order_independent store input bs (Hperm : items (In_Ballots input) ≡ₚ items bs) :
  match Reduce (Some store) input with
  | Ok r => exists r', Reduce (Some store) (with_ballots input bs) = Ok r' /\ outcome r' = outcome r
  | Err _ => is_ok (Reduce (Some store) (with_ballots input bs)) = false
  end.
Proof.
  destruct (Reduce (Some store) input) as [r|e] eqn:Hr; [by apply reduce_perm|].
  destruct (Reduce _ (with_ballots _ _)) as [r'|] eqn:Hr'; [|done].
  apply (reduce_perm store (with_ballots input bs) (In_Ballots input)) in Hr' as (r & Hr2 & _); [|by symmetry].
  replace (with_ballots _ _) with input in Hr2 by (by destruct input). congruence.
Qed.

(** ** Voting twice *)

(** A second ballot of the same seat: everything but the identifier and the
    digests over it is repeated. *)
Record repeats (b b' : BallotAttestation) : Prop := {
  r_seat : Ballot_SeatID b' = Ballot_SeatID b;
  r_domain : Ballot_IndependenceDomain b' = Ballot_IndependenceDomain b;
  r_policy : Ballot_PolicyDigest b' = Ballot_PolicyDigest b;
  r_manifest : Ballot_SeatManifestDigest b' = Ballot_SeatManifestDigest b;
  r_subject : Ballot_SubjectDigest b' = Ballot_SubjectDigest b;
  r_selection : PolicySelectionDigest b' = PolicySelectionDigest b;
  r_vote : Vote b' = Vote b;
  r_window : WindowID b' = WindowID b;
  r_signer : SignerProvenance b' = SignerProvenance b;
}.

Lemma authorSigners_repeat seats bs b b' :
  b ∈ bs -> repeats b b' -> authorSigners seats (bs ++ [b']) = authorSigners seats bs.
Proof.
  intros Hin Hrep. unfold authorSigners. rewrite List.filter_app, map_app, list_to_set_app_L. simpl.
  rewrite (r_seat _ _ Hrep). destruct (match seats !! _ with Some _ => _ | None => _ end) eqn:E;
    simpl; [|set_solver]. rewrite (r_signer _ _ Hrep).
  assert (SignerProvenance b ∈ map SignerProvenance (List.filter (fun b =>
    match seats !! Ballot_SeatID b with
    | Some s => PSeat_IndependenceDomain s == "authoring"
    | None => false
    end) bs)); [|set_solver].
  apply list_elem_of_In, in_map, filter_In. split; [by apply list_elem_of_In|done].
Qed.

Lemma joined_repeat fr manifest authors b b' :
  joined fr manifest authors b -> repeats b b' -> VerifyAttestation b' = Ok tt -> joined fr manifest authors b'.
Proof.
  intros [_ H1 H2 H3 H4 H5 (s & ps & H6 & H7 & H8 & H9 & H10 & H11)] [R1 R2 R3 R4 R5 R6 R7 R8 R9] Hv.
  split; try congruence. exists s, ps. rewrite R1, R2. split_and!; try done.
  unfold recusal_ok in *. by rewrite R2, R9.
Qed.

Lemma close_tally_repeat fr t b s ps h :
  close_tally (fr_policy fr) t = Ok h ->
  policy_seats (fr_policy fr) !! Ballot_SeatID b = Some ps ->
  (rejecting fr b = true -> PolicyBlockingUnresolved (Dissent (fr_policy fr)) <> "refuse") ->
  ((SeatKind s == "owner_human") || (PSeat_Kind ps == "owner_human") = true -> humanPresent t = true) ->
  close_tally (fr_policy fr) (count_vote (fr_policy fr) b s ps t) = Ok h.
Proof.
  intros (Hb & Hreq & Hg & Hd & Hh)%close_tally_inv Hps Hrej Hhum.
  destruct (count_vote_accepts fr b s ps t Hps) as [Hac Had].
  unfold close_tally. rewrite (count_vote_dissent fr b s ps t Hps), Hb. simpl orb.
  destruct (rejecting fr b && _) eqn:E.
  { apply andb_true_iff in E as [E1 E2]. to_prop. by destruct (Hrej E1). }
  replace (existsb _ (items (EligibleSeats (fr_policy fr)))) with false; cycle 1.
  { symmetry. apply not_true_iff_false. rewrite existsb_exists. intros (sx & Hin & Hx).
    rewrite !andb_true_iff in Hx. destruct Hx as [[Hr Hc] Hn]. to_prop. apply Hn.
    assert (PSeat_SeatID sx ∈ requiredPresent t) by (apply Hreq; [by apply list_elem_of_In|done..]).
    simpl. destruct (CountsTowardQuorum ps); set_solver. }
  rewrite Hac. rewrite (proj2 (Z.ltb_ge _ _)) by (destruct (accepting fr b); lia).
  replace (existsb _ (map_to_list _)) with false; cycle 1.
  { symmetry. apply not_true_iff_false. rewrite existsb_exists. intros ([d rule] & Hin & Hx).
    cbn [fst snd] in Hx. rewrite Had in Hx. apply Z.ltb_lt in Hx.
    apply list_elem_of_In, elem_of_map_to_list in Hin. specialize (Hd d rule Hin).
    destruct (accepting_in fr d b); lia. }
  rewrite <-Hh. f_equal. simpl. rewrite <-orb_assoc.
  destruct (_ || _) eqn:E2; [by rewrite Hhum|by rewrite orb_false_r].
Qed.

(** A quorum counts ballots, not seats. From any accepted decision, repeating
    the ballot of one seat under a new ballot identifier is accepted again, and
    raises the count of accepts by one if the seat counts and accepts: one seat
    and one signer can make up the votes a minimum asks of several. *)
Theorem repeated_vote_counts store input r b b'
    (Hr : Reduce (Some store) input = Ok r) (Hb : b ∈ items (In_Ballots input))
    (Hrep : repeats b b') (Hv : VerifyAttestation b' = Ok tt)
    (Hnew : BallotID b' ∉ BallotID <$> items (In_Ballots input)) :
  exists r', Reduce (Some store) (with_ballots input (Some (items (In_Ballots input) ++ [b']))) = Ok r' /\
    exists fr, qualified store input fr r /\
      GlobalAccepts (Evaluation r') = (GlobalAccepts (Evaluation r) + if accepting fr b then 1 else 0)%Z.
Proof.
  destruct (proj1 (Reduce_inv _ _ _) Hr) as (fr & t & h & Hp & Hc & Hcl & Hs).
  pose proof (count_ballots_counted _ _ _ _ _ _ Hc) as Hcount.
  destruct Hcount as [Hj Hnd _ Hse Hsig _ Hac _ Hdi Hhu _].
  rewrite Forall_forall in Hj. pose proof (joined_repeat _ _ _ _ _ (Hj b Hb) Hrep Hv) as Hj'.
  destruct (j_seat _ _ _ _ Hj') as (s & ps & Hs' & _ & Hps & _).
  set (t' := count_vote (fr_policy fr) b' s ps t).
  assert (count_ballot fr (In_Manifest input) (authorSigners (policy_seats (fr_policy fr)) (items (In_Ballots input)))
    t b' = Ok t') as Hc'.
  { apply count_ballot_inv. split; [done|]. split.
    - rewrite Hse. simpl. set_solver.
    - split; [|by exists s, ps]. intros d. rewrite (r_signer _ _ Hrep), (Hsig b Hb). intros [= <-].
      symmetry. apply (r_domain _ _ Hrep). }
  assert (close_tally (fr_policy fr) t' = Ok h) as Hcl'.
  { apply close_tally_repeat; try done.
    - intros Hrej E. apply close_tally_inv in Hcl as [Hbd _]. rewrite Hdi, E in Hbd. simpl in Hbd.
      rewrite andb_true_r in Hbd. apply not_true_iff_false in Hbd. apply Hbd.
      apply existsb_exists. exists b. split; [by apply list_elem_of_In|].
      unfold rejecting, counting in *. by rewrite <-(r_seat _ _ Hrep), <-(r_vote _ _ Hrep).
    - intros Hk. rewrite Hhu. simpl. apply existsb_exists. exists b. split; [by apply list_elem_of_In|].
      unfold from_human. by rewrite <-(r_seat _ _ Hrep), Hs', Hps. }
  destruct (Seal_ok (build_receipt fr (Some (items (In_Ballots input) ++ [b'])) t' h)) as (d & _ & Hseal).
  eexists. split.
  - apply Reduce_inv. exists fr, t', h. split; [exact Hp|]. split; [|split; [exact Hcl'|exact Hseal]]. simpl.
    rewrite (authorSigners_repeat _ _ b b' Hb Hrep), count_ballots_snoc, Hc. exact Hc'.
  - destruct (reduce_qualified store input r Hr) as (fr' & Hq & Hfr'). exists fr'. split; [done|].
    rewrite (Hfr' fr Hp). apply Seal_fields in Hs as [d' ->].
    change (accepts t' = (accepts t + if accepting fr b then 1 else 0)%Z). unfold t'.
    rewrite (proj1 (count_vote_accepts fr b' s ps t Hps)). f_equal.
    unfold accepting, counting. by rewrite (r_seat _ _ Hrep), (r_vote _ _ Hrep).
Qed.

(** ** The decision window *)

(** A window is a positive number of minutes up to 153722867, exactly; beyond
    that the nanoseconds overflow int64, and for the next 153722867 values the
    window is negative: the decision expires before it starts. *)
Theorem decision_window_bounds spec w (Hw : parseDecisionWindow spec = Ok w) :
  is_i64 w /\ exists n, (0 < n)%Z /\ w = wrap_i64 (n * minute) /\
    ((n <= 153722867)%Z -> w = (n * minute)%Z) /\
    ((153722867 < n <= 307445734)%Z -> (w < 0)%Z).
Proof.
  unfold parseDecisionWindow in Hw.
  assert (exists n, (0 < n)%Z /\ w = wrap_i64 (n * minute)) as (n & Hn & ->).
  { destruct (_ == "PT30M"); [apply Ok_inj in Hw as <-; by exists 30%Z|].
    destruct (_ && _); [|done]. destruct (scan_minutes _) as [n|]; [|done].
    destruct (Z.ltb_spec 0 n); [|done]. apply Ok_inj in Hw as <-. by exists n. }
  split; [apply wrap_i64_range|]. exists n. unfold wrap_i64, minute, second. split_and!; [done..| |].
  - intros Hle. rewrite Z.mod_small by lia. lia.
  - intros Hgt. assert ((n * (60 * 1000000000) + 2 ^ 63) mod 2 ^ 64 = n * (60 * 1000000000) + 2 ^ 63 - 2 ^ 64)%Z; [|lia].
    symmetry. apply (Z.mod_unique_pos _ _ 1); lia.
Qed.

(** A frame opened at another time. *)
Definition reframe (fr : frame) (started expires : Time) : frame :=
  Build_frame (fr_policy fr) (policyDigest fr) (manifestDigest fr) (subjectDigest fr) (selectionDigest fr)
    started expires.

Lemma count_ballot_reframe fr started expires manifest authors t b :
  count_ballot (reframe fr started expires) manifest authors t b = count_ballot fr manifest authors t b.
Proof.
  unfold count_ballot, admit_ballot, recusal_ok, reframe.
  cbn [fr_policy policyDigest manifestDigest subjectDigest selectionDigest]. reflexivity.
Qed.

Lemma count_ballots_reframe fr started expires manifest authors t bs :
  count_ballots (reframe fr started expires) manifest authors t bs = count_ballots fr manifest authors t bs.
Proof.
  revert t. induction bs as [|b bs IH]; intros t; [done|]. cbn [count_ballots].
  rewrite count_ballot_reframe.
  destruct (count_ballot fr manifest authors t b); [apply IH|done].
Qed.

Lemma prepare_with_now store input fr now :
  prepare store input = Ok fr -> is_Some (parse_utc (TrimSpace now)) ->
  exists started expires, prepare store (with_now input now) = Ok (reframe fr started expires).
Proof.
  intros Hp [t Ht]. unfold prepare in *. cbn [with_now In_Policy In_Manifest In_Subject In_Selection In_Now].
  rewrite Ht. destruct (if _ == "" then _ else _) as [pd|]; [|done].
  destruct (Get store pd) as [[policy raw]|]; [|done]. cbn [fst] in *.
  destruct (_ || _); [done|]. destruct (OwnerRecovery _); [done|]. destruct (_ && _); [done|].
  destruct (refuseBounds _ _); [|done]. destruct (Subject_Digest _); [|done].
  destruct (Manifest_Digest _); [|done]. destruct (validateManifest _ _); [|done].
  destruct (check_selection _ _ _ _); [|done]. destruct (parse_utc (TrimSpace (In_Now input))); [|done].
  destruct (parseDecisionWindow _); [|done]. apply Ok_inj in Hp as <-. by eexists _, _.
Qed.

(** The decision window is recorded and never enforced: ballots accepted at one
    time are accepted with the same outcome whenever they are presented, since
    the window starts when [Reduce] reads the clock. *)
Theorem reduce_ignores_window store input r now
    (Hr : Reduce (Some store) input = Ok r) (Hnow : is_Some (parse_utc (TrimSpace now))) :
  exists r', Reduce (Some store) (with_now input now) = Ok r' /\ Evaluation r' = Evaluation r /\
    HumanSeatState r' = HumanSeatState r /\ Ballots r' = Ballots r.
Proof.
  apply Reduce_inv in Hr as (fr & t & h & Hp & Hc & Hcl & Hs).
  destruct (prepare_with_now _ _ _ now Hp Hnow) as (st & ex & Hp').
  set (fr' := reframe fr st ex) in Hp'.
  destruct (Seal_ok (build_receipt fr' (In_Ballots input) t h)) as (d & _ & Hs').
  eexists. split.
  - apply Reduce_inv. exists fr', t, h. split; [exact Hp'|].
    split; [unfold fr'; rewrite count_ballots_reframe; exact Hc|]. split; [exact Hcl|exact Hs'].
  - apply Seal_fields in Hs as [d' ->]. done.
Qed.
End Reduce.

(** ** A small decision to evaluate *)
Module Demo.
#[local] Existing Instance checksum.

Definition subject : EffectSubject := Build_EffectSubject "c" "op" "" "" "" "" "" "" "" "" "" "" false "" 0.
Definition manifest : SeatManifest :=
  Build_SeatManifest (Some [Build_Seat "s1" "verification" "agent_profile" "proof" false;
                            Build_Seat "s2" "verification" "agent_profile" "proof" false]).
Definition policy_digest : string := Eval vm_compute in DecisionPolicy.Demo.stored.2.
Definition manifest_digest : string := Eval vm_compute in ok_or "" (Manifest_Digest manifest).
Definition subject_digest : string := Eval vm_compute in ok_or "" (Subject_Digest subject).
Definition head_digest : string := Eval vm_compute in sha256_hex "head".
Definition selection : PolicySelectionReceipt :=
  Build_PolicySelectionReceipt ReceiptKindPolicySelection policy_digest manifest_digest subject_digest head_digest 7 "".
Definition selection_digest : string := Eval vm_compute in ok_or "" (Selection_Digest selection).
Definition proof_digest : string := Eval vm_compute in sha256_hex "proof".

Definition unsigned (id seat signer : string) : BallotAttestation :=
  Build_BallotAttestation id seat proof_digest "verification" policy_digest manifest_digest subject_digest
    selection_digest VoteAccept selection_digest signer "" "".
Definition ballot (id seat signer : string) : BallotAttestation :=
  ok_or (unsigned id seat signer) (Sign (unsigned id seat signer)).
Definition ballot1 : BallotAttestation := Eval vm_compute in ballot "b1" "s1" "x".
Definition ballot2 : BallotAttestation := Eval vm_compute in ballot "b2" "s2" "y".

Definition input (bs : list BallotAttestation) : ConsensusInput :=
  Build_ConsensusInput zero_policy manifest subject selection (Some bs) "2026-01-02T03:04:05Z".

Definition ballots : list BallotAttestation := [ballot1; ballot2].
Definition empty_receipt : QualifiedConsensusReceipt :=
  build_receipt (Build_frame zero_policy "" "" "" "" 0 0) None zero_tally "".
Definition receipt : QualifiedConsensusReceipt :=
  Eval vm_compute in ok_or empty_receipt (Reduce (Some DecisionPolicy.Demo.stored.1) (input ballots)).

Lemma reduce_ok : Reduce (Some DecisionPolicy.Demo.stored.1) (input ballots) = Ok receipt.
Proof. vm_compute. reflexivity. Qed.

(** One seat alone does not reach the minimum of two. *)
Example below_quorum : Reduce (Some DecisionPolicy.Demo.stored.1) (input [ballot1]) = Err ErrBelowQuorum.
Proof. vm_compute. reflexivity. Qed.

(** The same seat voting twice does. *)
Example one_seat_twice :
  is_ok (Reduce (Some DecisionPolicy.Demo.stored.1) (input [ballot1; ballot "b2" "s1" "x"])) = true.
Proof. vm_compute. reflexivity. Qed.

Lemma reduce_sound_witness :
  GlobalAccepts (Evaluation receipt) = 2%Z /\ exists fr, qualified DecisionPolicy.Demo.stored.1 (input ballots) fr receipt.
Proof.
  split; [vm_compute; reflexivity|]. exact (reduce_sound DecisionPolicy.Demo.stored.1 (input ballots) receipt reduce_ok).
Defined.

Lemma reduce_order_independent_witness :
  exists r', Reduce (Some DecisionPolicy.Demo.stored.1) (with_ballots (input ballots) (Some (reverse ballots))) = Ok r' /\
    outcome r' = outcome receipt.
Proof.
  assert (items (In_Ballots (input ballots)) ≡ₚ items (Some (reverse ballots))) as Hp.
  { symmetry. apply reverse_Permutation. }
  pose proof (reduce_order_independent DecisionPolicy.Demo.stored.1 (input ballots) (Some (reverse ballots)) Hp) as H.
  rewrite reduce_ok in H. exact H.
Defined.

Definition again : BallotAttestation := Eval vm_compute in ballot "b3" "s1" "x".

Lemma again_repeats : repeats ballot1 again.
Proof. split; vm_compute; reflexivity. Qed.

Lemma repeated_vote_counts_witness :
  exists r', Reduce (Some DecisionPolicy.Demo.stored.1) (with_ballots (input ballots) (Some (ballots ++ [again]))) = Ok r' /\
    exists fr, qualified DecisionPolicy.Demo.stored.1 (input ballots) fr receipt /\
      GlobalAccepts (Evaluation r') =
        (GlobalAccepts (Evaluation receipt) + if accepting fr ballot1 then 1 else 0)%Z.
Proof.
  assert (ballot1 ∈ items (In_Ballots (input ballots))) as Hin by (unfold ballots; simpl; left).
  assert (VerifyAttestation again = Ok tt) as Hv by (vm_compute; reflexivity).
  assert (BallotID again ∉ BallotID <$> items (In_Ballots (input ballots))) as Hnew by by_deciding.
  exact (repeated_vote_counts DecisionPolicy.Demo.stored.1 (input ballots) receipt _ again reduce_ok Hin again_repeats Hv Hnew).
Defined.

Definition huge_window : Z := ok_or 0%Z (parseDecisionWindow "PT153722868M").

Lemma decision_window_bounds_witness :
  is_ok (parseDecisionWindow "PT153722868M") = true /\ (huge_window < 0)%Z /\ is_i64 huge_window.
Proof.
  split; [vm_compute; reflexivity|]. split; [vm_compute; reflexivity|].
  exact (proj1 (decision_window_bounds "PT153722868M" huge_window eq_refl)).
Defined.

Lemma reduce_ignores_window_witness :
  exists r', Reduce (Some DecisionPolicy.Demo.stored.1) (with_now (input ballots) "2099-01-01T00:00:00Z") = Ok r' /\
    Evaluation r' = Evaluation receipt.
Proof.
  assert (is_Some (parse_utc (TrimSpace "2099-01-01T00:00:00Z"))) as Hnow by (eexists; vm_compute; reflexivity).
  destruct (reduce_ignores_window DecisionPolicy.Demo.stored.1 (input ballots) receipt "2099-01-01T00:00:00Z" reduce_ok Hnow)
    as (r' & Hr & He & _).
  exists r'. split; [exact Hr|exact He].
Defined.
End Demo.
End DecisionReduce.
