(* ===== verification/TrustedOutbox.v ===== *)
(** * TrustedOutbox: dispatching an irreversible effect

    Models [internal/trustedoutbox/outbox.go]. [Dispatch] holds the outbox's mutex
    twice, around the two ends of the provider call: [begin_dispatch] is what it
    does up to the call, [finish_dispatch] what it does after. The interleavings
    of several dispatches with each other and with [Reconcile] are the runs of a
    step relation; the provider is anything that answers. *)
From S2P Require Import Prelude GoStrings GoTime GoJson CanonicalJson Sha256 GoDecode DecisionPolicy DecisionReduce.
From Stdlib Require Import Ascii.
Import DecisionPolicy DecisionReduce.

Module TrustedOutbox.

Inductive outbox_error :=
  | ErrModeOff | ErrNotArmed | ErrMissingIntent | ErrUnknownOutcome | ErrRejected | ErrRevoked
  | ErrOutboxSubject | ErrNotIrreversible | ErrPartialSuccess | ErrPolicy (e : policy_error).

Definition ProviderAccepted : string := "accepted".
Definition ProviderRejected : string := "rejected".
Definition ProviderUnknown : string := "unknown".
Definition ReceiptIntent : string := "DispatchIntentReceipt".
Definition ReceiptConsequence : string := "ConsequenceReceipt".
Definition SelfDevelopmentModeOff : string := "off".

(** What is handed to the provider. *)
Record Intent := {
  I_ComputerID : string; I_OperationID : string; I_Recipient : string; I_Payload : string;
  I_PayloadDigest : string; I_AcceptanceInbox : string; I_Actuator : string; I_PolicyDigest : string;
  I_ReceiptDigest : string; I_IdempotencyKey : string }.

(** Errors are their texts; [None] is nil. *)
Record ProviderResult := { Outcome : string; ProviderDeliveryID : string; ResultErr : option string }.

Record IntentReceipt := {
  IR_ReceiptKind : string; IR_IdempotencyKey : string; IR_SubjectDigest : string; IR_PayloadDigest : string;
  IR_Recipient : string; IR_PolicyDigest : string; IR_ReceiptDigest : string; IR_RecordedAt : string;
  IR_Digest : string }.

Definition intent_json (r : IntentReceipt) : json := JObj ([
  ("receipt_kind", JStr (IR_ReceiptKind r)); ("idempotency_key", JStr (IR_IdempotencyKey r));
  ("subject_digest", JStr (IR_SubjectDigest r)); ("payload_digest", JStr (IR_PayloadDigest r));
  ("recipient", JStr (IR_Recipient r)); ("policy_digest", JStr (IR_PolicyDigest r));
  ("consensus_receipt_digest", JStr (IR_ReceiptDigest r)); ("recorded_at", JStr (IR_RecordedAt r))]
  ++ omit_str "digest" (IR_Digest r)).

Record ConsequenceReceipt := {
  CR_ReceiptKind : string; CR_IdempotencyKey : string; IntentDigest : string; CR_ProviderOutcome : string;
  CR_ProviderDeliveryID : string; CR_PayloadDigest : string; CR_Recipient : string; CR_AcceptanceInbox : string;
  CR_UncertainOutcomeReconciliation : string; CR_CrashWindow : string; CompensationIntent : string;
  Greened : bool; CR_RecordedAt : string; CR_Digest : string }.

Definition consequence_json (r : ConsequenceReceipt) : json := JObj ([
  ("receipt_kind", JStr (CR_ReceiptKind r)); ("idempotency_key", JStr (CR_IdempotencyKey r));
  ("intent_digest", JStr (IntentDigest r)); ("provider_outcome", JStr (CR_ProviderOutcome r))]
  ++ omit_str "provider_delivery_id" (CR_ProviderDeliveryID r)
  ++ [("payload_digest", JStr (CR_PayloadDigest r)); ("recipient", JStr (CR_Recipient r));
      ("acceptance_inbox", JStr (CR_AcceptanceInbox r))]
  ++ omit_str "uncertain_outcome_reconciliation" (CR_UncertainOutcomeReconciliation r)
  ++ omit_str "crash_window" (CR_CrashWindow r)
  ++ omit_str "compensation_intent_if_correction_required" (CompensationIntent r)
  ++ [("greened", JBool (Greened r)); ("recorded_at", JStr (CR_RecordedAt r))]
  ++ omit_str "digest" (CR_Digest r)).

Record Outbox := {
  Revoked : gset string;
  intents : gmap string IntentReceipt;
  consequences : gmap string ConsequenceReceipt;
  acceptedOrphan : gmap string ProviderResult }.

Definition New : Outbox := Build_Outbox ∅ ∅ ∅ ∅.

Definition set_consequence (o : Outbox) (key : string) (c : ConsequenceReceipt) : Outbox :=
  Build_Outbox (Revoked o) (intents o) (<[key := c]> (consequences o)) (acceptedOrphan o).
Definition set_intent (o : Outbox) (key : string) (i : IntentReceipt) : Outbox :=
  Build_Outbox (Revoked o) (<[key := i]> (intents o)) (consequences o) (acceptedOrphan o).
Definition set_orphan (o : Outbox) (key : string) (r : ProviderResult) : Outbox :=
  Build_Outbox (Revoked o) (intents o) (consequences o) (<[key := r]> (acceptedOrphan o)).

(** The provider of the outbox: none, the recording one, or a live one, which
    must be armed. *)
Inductive provider := NoProvider | Recording | Live (armed : bool).

Record DispatchRequest := {
  Mode : string; Input : ConsensusInput; Receipt : QualifiedConsensusReceipt; Payload : string; Now : string }.

Section Outbox.
Context {sh : Sha256}.

Definition mustJSON (v : json) : string := match CanonicalJSON v with Ok body => body | Err _ => "{}" end.

Definition seal_intent (r : IntentReceipt) : IntentReceipt :=
  Build_IntentReceipt (IR_ReceiptKind r) (IR_IdempotencyKey r) (IR_SubjectDigest r) (IR_PayloadDigest r)
    (IR_Recipient r) (IR_PolicyDigest r) (IR_ReceiptDigest r) (IR_RecordedAt r)
    (sha256_hex (mustJSON (intent_json (Build_IntentReceipt (IR_ReceiptKind r) (IR_IdempotencyKey r)
       (IR_SubjectDigest r) (IR_PayloadDigest r) (IR_Recipient r) (IR_PolicyDigest r) (IR_ReceiptDigest r)
       (IR_RecordedAt r) "")))).

Definition with_digest (r : ConsequenceReceipt) (digest : string) : ConsequenceReceipt :=
  Build_ConsequenceReceipt (CR_ReceiptKind r) (CR_IdempotencyKey r) (IntentDigest r) (CR_ProviderOutcome r)
    (CR_ProviderDeliveryID r) (CR_PayloadDigest r) (CR_Recipient r) (CR_AcceptanceInbox r)
    (CR_UncertainOutcomeReconciliation r) (CR_CrashWindow r) (CompensationIntent r) (Greened r)
    (CR_RecordedAt r) digest.

Definition seal_consequence (r : ConsequenceReceipt) : ConsequenceReceipt :=
  with_digest r (sha256_hex (mustJSON (consequence_json (with_digest r "")))).

Definition exactSubjectKey (subject : EffectSubject) : res outbox_error string :=
  match Subject_Digest subject with Ok digest => Ok ("outbox:" +:+ digest) | Err e => Err (ErrPolicy e) end.

(** A dispatch between the two critical sections. *)
Record pending := { d_key : string; d_intent : IntentReceipt; d_request : DispatchRequest; d_now : string }.

Definition the_subject (req : DispatchRequest) : EffectSubject := In_Subject (Input req).

Definition provider_intent (d : pending) : Intent :=
  let subject := the_subject (d_request d) in
  Build_Intent (Subj_ComputerID subject) (OperationID subject) (Recipient subject) (Payload (d_request d))
    (PayloadDigest subject) (AcceptanceInbox subject) (Subj_Actuator subject)
    (Rcpt_PolicyDigest (Receipt (d_request d))) (ReceiptDigest (Receipt (d_request d))) (d_key d).

(** The checks before the first critical section, and the key of the subject. *)
Definition authorize (o : Outbox) (store : option Store) (req : DispatchRequest) : res outbox_error string :=
  match store with
  | None => Err (ErrPolicy ErrNoPolicy)
  | Some _ =>
    refuse blank (Mode req) || (Mode req == SelfDevelopmentModeOff) with ErrModeOff ;;
    let? _ := res_map_err ErrPolicy (Verify store (Input req) (Receipt req)) in
    refuse (Rcpt_PolicyID (Receipt req) != PolicyIDIrreversibleEmailV1)
           && (Rcpt_PolicyID (Receipt req) != PolicyIDHumanRequiredV1) with ErrNotIrreversible ;;
    refuse negb (Irreversible (the_subject req)) with ErrNotIrreversible ;;
    refuse sha256_hex (Payload req) != PayloadDigest (the_subject req) with ErrOutboxSubject ;;
    refuse bool_decide (Rcpt_PolicyDigest (Receipt req) ∈ Revoked o) with ErrRevoked ;;
    exactSubjectKey (the_subject req)
  end.

(** Up to the provider call: a recorded consequence, or the call to make. *)
Definition begin_dispatch (o : Outbox) (store : option Store) (prov : provider) (clock : string)
    (req : DispatchRequest) : Outbox * res outbox_error (ConsequenceReceipt + pending) :=
  match authorize o store req with
  | Err e => (o, Err e)
  | Ok key =>
    let now := if TrimSpace (Now req) == "" then clock else TrimSpace (Now req) in
    match consequences o !! key with
    | Some existing => (o, Ok (inl existing))
    | None =>
      let subject := the_subject req in
      let intent := seal_intent (Build_IntentReceipt ReceiptIntent key (Rcpt_SubjectDigest (Receipt req))
        (PayloadDigest subject) (Recipient subject) (Rcpt_PolicyDigest (Receipt req))
        (ReceiptDigest (Receipt req)) now "") in
      let o := set_intent o key intent in
      match prov with
      | NoProvider | Live false => (o, Err ErrNotArmed)
      | Recording | Live true => (o, Ok (inr (Build_pending key intent req now)))
      end
    end
  end.

(** The outcome [Dispatch] makes of what [Send] returned. *)
Definition settle (result : ProviderResult) (sendErr : option string) : ProviderResult :=
  let result := match sendErr with
                | Some e => if Outcome result == ""
                            then Build_ProviderResult ProviderUnknown (ProviderDeliveryID result) (Some e)
                            else result
                | None => result
                end in
  if Outcome result == "" then Build_ProviderResult ProviderUnknown (ProviderDeliveryID result) (ResultErr result)
  else result.

Definition crash_note : string :=
  "if process dies after provider acceptance and before consequence persistence, reconciliation must find or compensate the send".

Definition consequence_of (d : pending) (result : ProviderResult) (reconciliation compensation : string)
    (greened : bool) : ConsequenceReceipt :=
  let subject := the_subject (d_request d) in
  Build_ConsequenceReceipt ReceiptConsequence (d_key d) (IR_Digest (d_intent d)) (Outcome result)
    (ProviderDeliveryID result) (PayloadDigest subject) (Recipient subject) (AcceptanceInbox subject)
    reconciliation crash_note compensation greened (d_now d) "".

(** A result with an error carries its receipt too. *)
Inductive dispatched := Done (c : ConsequenceReceipt) | Failed (c : option ConsequenceReceipt) (e : outbox_error).

Definition finish_dispatch (o : Outbox) (d : pending) (result : ProviderResult) : Outbox * dispatched :=
  let key := d_key d in
  match consequences o !! key with
  | Some existing => (o, Done existing)
  | None =>
    match intents o !! key with
    | None => (o, Failed None ErrMissingIntent)
    | Some _ =>
      if Outcome result == ProviderAccepted then
        let cons := seal_consequence (consequence_of d result "" "" true) in
        (set_consequence o key cons, Done cons)
      else if Outcome result == ProviderRejected then
        let cons := seal_consequence (consequence_of d result "" "none; provider rejected before delivery" false) in
        (set_consequence o key cons, Failed (Some cons) ErrRejected)
      else if Outcome result == ProviderUnknown then
        let cons := seal_consequence (consequence_of d result "required" "" false) in
        (set_orphan (set_consequence o key cons) key result, Failed (Some cons) ErrUnknownOutcome)
      else (o, Failed (Some (consequence_of d result "" "" false)) ErrPartialSuccess)
    end
  end.

(** [Dispatch] with nothing between its critical sections. *)
Definition Dispatch (o : Outbox) (store : option Store) (prov : provider) (clock : string)
    (send : Intent -> ProviderResult * option string) (req : DispatchRequest) : Outbox * dispatched :=
  match begin_dispatch o store prov clock req with
  | (o, Err e) => (o, Failed None e)
  | (o, Ok (inl existing)) => (o, Done existing)
  | (o, Ok (inr d)) =>
    let '(result, sendErr) := send (provider_intent d) in finish_dispatch o d (settle result sendErr)
  end.

(** A test hook of the code. *)
Definition SimulateCrashAfterAccept (o : Outbox) (key : string) (result : ProviderResult) : Outbox :=
  Build_Outbox (Revoked o) (intents o) (delete key (consequences o)) (<[key := result]> (acceptedOrphan o)).

Definition Reconcile (o : Outbox) (clock : string) (key : string) : Outbox * dispatched :=
  match consequences o !! key with
  | Some existing => (o, Done existing)
  | None =>
    match intents o !! key with
    | None => (o, Failed None ErrMissingIntent)
    | Some intent =>
      let cons outcome delivery reconciliation compensation greened :=
        seal_consequence (Build_ConsequenceReceipt ReceiptConsequence key (IR_Digest intent) outcome delivery
          (IR_PayloadDigest intent) (IR_Recipient intent) "" reconciliation
          "reconciled after provider-accepted / persistence-missing window" compensation greened clock "") in
      match acceptedOrphan o !! key with
      | Some orphan =>
        if Outcome orphan == ProviderAccepted then
          let c := cons ProviderAccepted (ProviderDeliveryID orphan) "" "" true in
          (set_consequence o key c, Done c)
        else
          let c := cons ProviderUnknown "" "required"
                     "compensation_or_new_forward_action; restore does not unsend" false in
          (set_consequence o key c, Failed (Some c) ErrUnknownOutcome)
      | None =>
          let c := cons ProviderUnknown "" "required"
                     "compensation_or_new_forward_action; restore does not unsend" false in
          (set_consequence o key c, Failed (Some c) ErrUnknownOutcome)
      end
    end
  end.
End Outbox.

(** ** The recording provider *)
Record RecordingProvider := { Sends : list Intent; Result : ProviderResult }.

Definition RecordingProvider_Send (p : RecordingProvider) (intent : Intent)
    : RecordingProvider * (ProviderResult * option string) :=
  let result :=
    if Outcome (Result p) == "" then
      Build_ProviderResult ProviderAccepted
        (if ProviderDeliveryID (Result p) == "" then "recording:" +:+ I_IdempotencyKey intent
         else ProviderDeliveryID (Result p)) (ResultErr (Result p))
    else Result p in
  (Build_RecordingProvider (Sends p ++ [intent]) result, (result, ResultErr result)).

(** ** Interleavings *)
Section Runs.
Context {sh : Sha256} (prov : provider).

(** The outbox, the dispatches before and after their provider call, and the
    calls made, in order, with what they settled to. *)
Record system := {
  ob : Outbox; running : list pending; answered : list (pending * ProviderResult);
  sent : list (Intent * ProviderResult) }.

Definition initial : system := Build_system New [] [] [].

(** One critical section, one provider call, or a revocation. The store of
    policies may be another one every time. *)
Inductive step : system -> system -> Prop :=
  | step_begin s store clock req o' d :
      begin_dispatch (ob s) store prov clock req = (o', Ok (inr d)) ->
      step s (Build_system o' (d :: running s) (answered s) (sent s))
  | step_answer_known s store clock req o' c :
      begin_dispatch (ob s) store prov clock req = (o', Ok (inl c)) ->
      step s (Build_system o' (running s) (answered s) (sent s))
  | step_refuse s store clock req o' e :
      begin_dispatch (ob s) store prov clock req = (o', Err e) ->
      step s (Build_system o' (running s) (answered s) (sent s))
  | step_send s l1 d l2 result err :
      running s = l1 ++ d :: l2 ->
      step s (Build_system (ob s) (l1 ++ l2) ((d, settle result err) :: answered s)
                (sent s ++ [(provider_intent d, settle result err)]))
  | step_finish s l1 d r l2 o' out :
      answered s = l1 ++ (d, r) :: l2 -> finish_dispatch (ob s) d r = (o', out) ->
      step s (Build_system o' (running s) (l1 ++ l2) (sent s))
  | step_reconcile s clock key o' out :
      Reconcile (ob s) clock key = (o', out) ->
      step s (Build_system o' (running s) (answered s) (sent s))
  | step_revoke s policy :
      step s (Build_system (Build_Outbox ({[policy]} ∪ Revoked (ob s)) (intents (ob s)) (consequences (ob s))
                (acceptedOrphan (ob s))) (running s) (answered s) (sent s)).

Inductive later : system -> system -> Prop :=
  | later_refl s : later s s
  | later_step s1 s2 s3 : later s1 s2 -> step s2 s3 -> later s1 s3.

Definition reachable (s : system) : Prop := later initial s.

(** A dispatch that passed every check. *)
Definition authorized (d : pending) : Prop :=
  exists o store, authorize o store (d_request d) = Ok (d_key d).

Lemma begin_inv o store clock req o' r :
  begin_dispatch o store prov clock req = (o', r) ->
  match r with
  | Err e => consequences o' = consequences o /\ acceptedOrphan o' = acceptedOrphan o /\
      (forall k, is_Some (intents o !! k) -> is_Some (intents o' !! k))
  | Ok (inl c) => o' = o /\ exists key, authorize o store req = Ok key /\ consequences o !! key = Some c
  | Ok (inr d) => authorize o store req = Ok (d_key d) /\ d_request d = req /\
      consequences o !! d_key d = None /\ o' = set_intent o (d_key d) (d_intent d)
  end.
Proof.
  unfold begin_dispatch. destruct (authorize o store req) as [key|e] eqn:Ha; [|by intros [= <- <-]].
  destruct (consequences o !! key) as [c|] eqn:Hc; [intros [= <- <-]; split; [done|by exists key]|].
  destruct prov as [| |[]]; intros [= <- <-]; try done; simpl; split_and!; try done; intros k Hk;
    (destruct (decide (k = key)) as [->|]; [by rewrite lookup_insert_eq|by rewrite lookup_insert_ne]).
Qed.

Lemma finish_inv o d r o' out :
  finish_dispatch o d r = (o', out) ->
  intents o' = intents o /\
  (o' = o \/
   exists c, consequences o !! d_key d = None /\ consequences o' = <[d_key d := c]> (consequences o) /\
     CR_IdempotencyKey c = d_key d /\ (Greened c = true -> Outcome r = ProviderAccepted) /\
     (acceptedOrphan o' = acceptedOrphan o \/
      (Outcome r = ProviderUnknown /\ acceptedOrphan o' = <[d_key d := r]> (acceptedOrphan o)))).
Proof.
  unfold finish_dispatch. destruct (consequences o !! d_key d) as [c|] eqn:Hc; [intros [= <- <-]; auto|].
  destruct (intents o !! d_key d); [|intros [= <- <-]; auto].
  case_bool_decide as E1; [intros [= <- <-]; split; [done|]; right; eexists; split_and!; eauto|].
  case_bool_decide as E2; [intros [= <- <-]; split; [done|]; right; eexists; split_and!; eauto; done|].
  case_bool_decide as E3; [|intros [= <- <-]; auto].
  intros [= <- <-]. split; [done|]. right. eexists. split_and!; eauto. done.
Qed.

Lemma reconcile_inv o clock key o' out :
  Reconcile o clock key = (o', out) ->
  intents o' = intents o /\ acceptedOrphan o' = acceptedOrphan o /\
  (o' = o \/
   exists c, consequences o !! key = None /\ consequences o' = <[key := c]> (consequences o) /\
     CR_IdempotencyKey c = key /\
     (Greened c = true -> exists r, acceptedOrphan o !! key = Some r /\ Outcome r = ProviderAccepted)).
Proof.
  unfold Reconcile. destruct (consequences o !! key) as [c|] eqn:Hc; [intros [= <- <-]; auto|].
  destruct (intents o !! key); [|intros [= <- <-]; auto].
  destruct (acceptedOrphan o !! key) as [r|] eqn:Hr; [case_bool_decide as E|]; intros [= <- <-];
    (split; [done|]; split; [done|]); right; eexists; split_and!; eauto; done.
Qed.

Definition recorded (s : system) (key : string) : Prop := is_Some (intents (ob s) !! key).
Definition accepted_call (s : system) (key : string) : Prop :=
  exists i r, (i, r) ∈ sent s /\ I_IdempotencyKey i = key /\ Outcome r = ProviderAccepted.

Record inv (s : system) : Prop := {
  i_running : forall d, d ∈ running s -> authorized d /\ recorded s (d_key d);
  i_answered : forall d r, (d, r) ∈ answered s ->
    authorized d /\ recorded s (d_key d) /\ (provider_intent d, r) ∈ sent s;
  i_sent : forall i r, (i, r) ∈ sent s ->
    exists d, authorized d /\ i = provider_intent d /\ recorded s (d_key d);
  i_cons : forall k c, consequences (ob s) !! k = Some c ->
    CR_IdempotencyKey c = k /\ (Greened c = true -> accepted_call s k);
  i_orphan : forall k r, acceptedOrphan (ob s) !! k = Some r -> Outcome r = ProviderUnknown;
}.

(** The invariant for a step that only records intents and consequences. *)
Lemma inv_outbox s o' :
  inv s -> (forall k, recorded s k -> is_Some (intents o' !! k)) ->
  (forall k c, consequences o' !! k = Some c -> CR_IdempotencyKey c = k /\ (Greened c = true -> accepted_call s k)) ->
  (forall k r, acceptedOrphan o' !! k = Some r -> Outcome r = ProviderUnknown) ->
  inv (Build_system o' (running s) (answered s) (sent s)).
Proof.
  intros [H1 H2 H3 H4 H5] Hr Hc Ho. split; simpl; unfold recorded; simpl.
  - intros d Hd. destruct (H1 d Hd). auto.
  - intros d r Hd. destruct (H2 d r Hd) as (? & ? & ?). auto.
  - intros i r Hi. destruct (H3 i r Hi) as (d & ? & ? & ?). eauto.
  - exact Hc.
  - exact Ho.
Qed.

Lemma inv_fewer s l1 l2 :
  inv s -> (forall d, d ∈ l1 -> d ∈ running s) -> (forall p, p ∈ l2 -> p ∈ answered s) ->
  inv (Build_system (ob s) l1 l2 (sent s)).
Proof. intros [H1 H2 H3 H4 H5] Hl1 Hl2. split; simpl; auto. Qed.

Ltac in_list Hl := rewrite Hl; rewrite ?elem_of_app, ?elem_of_cons in *; tauto.

Lemma dispatch_step_inv s s' : inv s -> step s s' -> inv s'.
Proof.
  intros Hinv Hst. pose proof Hinv as [H1 H2 H3 H4 H5].
  destruct Hst as [s store clock req o' d Hb|s store clock req o' c Hb|s store clock req o' e Hb
    |s l1 d l2 result err Hl|s l1 d r l2 o' out Hl Hf|s clock key o' out Hr|s policy].
  - apply begin_inv in Hb as (Ha & Hreq & _ & ->).
    assert (inv (Build_system (set_intent (ob s) (d_key d) (d_intent d)) (running s) (answered s) (sent s)))
      as [G1 G2 G3 G4 G5].
    { apply inv_outbox; simpl; [done| |done..]. intros k Hk. destruct (decide (k = d_key d)) as [->|];
        [by rewrite lookup_insert_eq|by rewrite lookup_insert_ne]. }
    split; simpl in *; auto. intros d' [->|Hd']%elem_of_cons; [|by apply G1]. split.
    + exists (ob s), store. by rewrite Hreq.
    + unfold recorded. simpl. by rewrite lookup_insert_eq.
  - apply begin_inv in Hb as (-> & _). by apply inv_outbox.
  - apply begin_inv in Hb as (Hc & Ho & Hi).
    apply inv_outbox; [exact Hinv|exact Hi|rewrite Hc; exact H4|rewrite Ho; exact H5].
  - destruct (H1 d) as [Ha Hrec]; [by in_list Hl|]. split; simpl.
    + intros d' Hd'. apply H1. in_list Hl.
    + intros d' r [[= -> ->]|Hd']%elem_of_cons; [split_and!; [done..|]|].
      * apply elem_of_app. right. by apply list_elem_of_singleton.
      * destruct (H2 d' r Hd') as (? & ? & ?). split_and!; [done..|]. apply elem_of_app. by left.
    + intros i r [Hi|Hi]%elem_of_app; [by apply (H3 i r)|]. apply list_elem_of_singleton in Hi as [= -> ->]. by exists d.
    + intros k c Hk. destruct (H4 k c Hk) as [Hkey Hg]. split; [done|]. intros (i & r & Hir & ?)%Hg.
      exists i, r. split; [simpl; apply elem_of_app; by left|done].
    + exact H5.
  - destruct (H2 d r) as (Ha & Hrec & Hsent); [by in_list Hl|].
    apply finish_inv in Hf as (Hi & Hcases).
    assert (inv (Build_system o' (running s) (answered s) (sent s))) as Hinv'.
    { apply inv_outbox; [done|by rewrite Hi|..].
      - destruct Hcases as [->|(c & _ & -> & Hkey & Hgr & _)]; [done|].
        intros k c' [[<- <-]|[_ Hk]]%lookup_insert_Some; [|by apply H4]. split; [done|]. intros Hg%Hgr.
        exists (provider_intent d), r. done.
      - destruct Hcases as [->|(c & _ & _ & _ & _ & [->|[Hu ->]])]; [done..|].
        intros k r' [[<- <-]|[_ Hk]]%lookup_insert_Some; [done|by apply (H5 k)]. }
    apply (inv_fewer (Build_system o' (running s) (answered s) (sent s))); [done|done|]. simpl. intros p Hp. in_list Hl.
  - apply reconcile_inv in Hr as (Hi & Ho & Hcases). apply inv_outbox; [done|by rewrite Hi| |by rewrite Ho].
    destruct Hcases as [->|(c & _ & -> & Hkey & Hgr)]; [done|].
    intros k c' [[<- <-]|[_ Hk]]%lookup_insert_Some; [|by apply H4]. split; [done|].
    intros (r & Hr & Hacc)%Hgr. rewrite (H5 _ _ Hr) in Hacc. done.
  - by apply inv_outbox.
Qed.

Lemma initial_inv : inv initial.
Proof. split; simpl; intros *; try (intros ?%elem_of_nil; done); by rewrite lookup_empty. Qed.

Lemma later_inv s s' : inv s -> later s s' -> inv s'.
Proof. intros Hi Hl. induction Hl; [done|]. eapply dispatch_step_inv; [by apply IHHl|done]. Qed.

Lemma step_consequence s s' k c :
  consequences (ob s) !! k = Some c -> step s s' -> consequences (ob s') !! k = Some c.
Proof.
  intros Hk Hst. destruct Hst as [s store clock req o' d Hb|s store clock req o' c' Hb|s store clock req o' e Hb
    |s l1 d l2 result err Hl|s l1 d r l2 o' out Hl Hf|s clock key o' out Hr|s policy]; simpl; try done.
  - by apply begin_inv in Hb as (_ & _ & _ & ->).
  - by apply begin_inv in Hb as (-> & _).
  - by apply begin_inv in Hb as (-> & _).
  - apply finish_inv in Hf as (_ & [->|(c' & Hn & -> & _)]); [done|].
    rewrite lookup_insert_ne; [done|]. intros E. congruence.
  - apply reconcile_inv in Hr as (_ & _ & [->|(c' & Hn & -> & _)]); [done|].
    rewrite lookup_insert_ne; [done|]. intros E. congruence.
Qed.

Lemma later_consequence s s' k c :
  consequences (ob s) !! k = Some c -> later s s' -> consequences (ob s') !! k = Some c.
Proof. intros Hk Hl. induction Hl; [done|]. eapply step_consequence; [by apply IHHl|done]. Qed.

Lemma authorize_inv o store req key :
  authorize o store req = Ok key ->
  blank (Mode req) = false /\ Mode req <> SelfDevelopmentModeOff /\
  Verify store (Input req) (Receipt req) = Ok tt /\
  (Rcpt_PolicyID (Receipt req) = PolicyIDIrreversibleEmailV1 \/ Rcpt_PolicyID (Receipt req) = PolicyIDHumanRequiredV1) /\
  Irreversible (the_subject req) = true /\ sha256_hex (Payload req) = PayloadDigest (the_subject req) /\
  Rcpt_PolicyDigest (Receipt req) ∉ Revoked o /\ exactSubjectKey (the_subject req) = Ok key.
Proof.
  unfold authorize. destruct store as [store|]; [|done].
  destruct (blank (Mode req)) eqn:Hb; [done|]. destruct (Mode req == _) eqn:Hm; [done|]. cbn [orb].
  destruct (Verify _ _ _) as [[]|]; [|done]. cbn [res_map_err].
  destruct (_ && _) eqn:Hp; [done|]. destruct (Irreversible _) eqn:Hi; [|done]. cbn [negb].
  destruct (sha256_hex (Payload req) != PayloadDigest (the_subject req)) eqn:Hd; [done|]. destruct (bool_decide (_ ∈ _)) eqn:Hrev; [done|]. intros Hk. to_prop.
  split_and!; try done. apply andb_false_iff in Hp as [Hp|Hp]; to_prop; auto.
Qed.

(** [C21] Whatever dispatches, reconciliations and revocations interleave, the
    provider is only ever called for a request in a mode that is not off, with a
    consensus receipt that the policy store verifies for that very input, issued
    under one of the two irreversible policies, not revoked at the check, for an
    irreversible subject; with exactly the payload whose digest the subject
    names, to its recipient and inbox, under the key of the subject; and with the
    intent recorded first. *)
Theorem dispatch_authorized s i r (Hs : reachable s) (Hsent : (i, r) ∈ sent s) :
  exists o store req, let subject := the_subject req in
    Verify store (Input req) (Receipt req) = Ok tt /\ Mode req <> SelfDevelopmentModeOff /\
    (Rcpt_PolicyID (Receipt req) = PolicyIDIrreversibleEmailV1 \/
     Rcpt_PolicyID (Receipt req) = PolicyIDHumanRequiredV1) /\
    Irreversible subject = true /\ Rcpt_PolicyDigest (Receipt req) ∉ Revoked o /\
    I_Payload i = Payload req /\ sha256_hex (I_Payload i) = PayloadDigest subject /\
    I_Recipient i = Recipient subject /\ I_AcceptanceInbox i = AcceptanceInbox subject /\
    exactSubjectKey subject = Ok (I_IdempotencyKey i) /\ is_Some (intents (ob s) !! I_IdempotencyKey i).
Proof.
  pose proof (later_inv _ _ initial_inv Hs) as Hinv.
  destruct (i_sent s Hinv i r Hsent) as (d & (o & store & Ha) & -> & Hrec).
  apply authorize_inv in Ha as (_ & Hm & Hv & Hp & Hi & Hd & Hrev & Hk).
  exists o, store, (d_request d). simpl. done.
Qed.

(** [C30] A recorded outcome is final: in every later state it is still there, every
    dispatch of that subject that passes the checks returns it without calling
    the provider, so does [Reconcile], and it is green only if a call of the
    provider for that key was answered with acceptance. *)
Theorem dispatch_outcome_final s s' k c
    (Hs : reachable s) (Hc : consequences (ob s) !! k = Some c) (Hl : later s s') :
  consequences (ob s') !! k = Some c /\ (Greened c = true -> accepted_call s k) /\
  (forall clock, Reconcile (ob s') clock k = (ob s', Done c)) /\
  (forall store clock req, authorize (ob s') store req = Ok k ->
     begin_dispatch (ob s') store prov clock req = (ob s', Ok (inl c))).
Proof.
  pose proof (later_inv _ _ initial_inv Hs) as Hinv. pose proof (later_consequence _ _ _ _ Hc Hl) as Hc'.
  split_and!; [done|by apply (i_cons s Hinv)| |].
  - intros clock. unfold Reconcile. by rewrite Hc'.
  - intros store clock req Ha. unfold begin_dispatch. by rewrite Ha, Hc'.
Qed.

Definition armed : bool := match prov with Recording | Live true => true | _ => false end.

Lemma begin_new o store clock req key :
  armed = true -> authorize o store req = Ok key -> consequences o !! key = None ->
  exists d, begin_dispatch o store prov clock req = (set_intent o key (d_intent d), Ok (inr d)) /\ d_key d = key /\
    d_request d = req.
Proof.
  unfold armed, begin_dispatch. intros Harm -> ->. destruct prov as [| |[]]; try done;
    refine (ex_intro _ (Build_pending _ _ _ _) _); split_and!; reflexivity.
Qed.

Lemma authorize_intent o store req key k i :
  authorize o store req = Ok key -> authorize (set_intent o k i) store req = Ok key.
Proof. done. Qed.

(** Two dispatches of one subject at the same time send twice: the mutex is
    not held during the provider call, and nothing but a recorded outcome stops
    the second. The provider gets the same intent, with the same idempotency
    key, two times. *)
Theorem concurrent_dispatch_sends_twice store req key r1 r2
    (Harm : armed = true) (Ha : authorize New store req = Ok key) :
  exists s i, reachable s /\ sent s = [(i, settle r1 None); (i, settle r2 None)] /\ I_IdempotencyKey i = key.
Proof.
  destruct (begin_new New store "" req key Harm Ha eq_refl) as (d1 & Hb1 & Hk1 & Hq1).
  destruct (begin_new (set_intent New key (d_intent d1)) store "" req key Harm (authorize_intent _ _ _ _ _ _ Ha) eq_refl)
    as (d2 & Hb2 & Hk2 & Hq2).
  set (o2 := set_intent (set_intent New key (d_intent d1)) key (d_intent d2)) in *.
  exists (Build_system o2 [] [(d1, settle r2 None); (d2, settle r1 None)]
    ([(provider_intent d2, settle r1 None)] ++ [(provider_intent d1, settle r2 None)])), (provider_intent d2).
  assert (provider_intent d1 = provider_intent d2) as Heq by (unfold provider_intent; congruence).
  split; [|rewrite Heq; done].
  eapply later_step; [eapply later_step; [eapply later_step; [eapply later_step; [apply later_refl|]|]|]|].
  - eapply step_begin. exact Hb1.
  - eapply step_begin. exact Hb2.
  - apply (step_send _ [] d2 [d1] r1 None). done.
  - apply (step_send (Build_system o2 [d1] [(d2, settle r1 None)] [(provider_intent d2, settle r1 None)]) [] d1 [] r2 None).
    done.
Qed.

(** An outcome the code does not recognise is not recorded at all, so the next
    dispatch of the subject calls the provider again. *)
Theorem unrecognised_outcome_sends_again o store clock req d r
    (Harm : armed = true) (Hb : begin_dispatch o store prov clock req = (set_intent o (d_key d) (d_intent d), Ok (inr d)))
    (Ho : Outcome r <> ProviderAccepted /\ Outcome r <> ProviderRejected /\ Outcome r <> ProviderUnknown) :
  let o' := set_intent o (d_key d) (d_intent d) in
  (finish_dispatch o' d r).1 = o' /\
  exists d', begin_dispatch o' store prov clock req = (set_intent o' (d_key d') (d_intent d'), Ok (inr d')) /\
    provider_intent d' = provider_intent d.
Proof.
  destruct Ho as (H1 & H2 & H3). apply begin_inv in Hb as (Ha & Hq & Hn & _). cbn zeta. split.
  - unfold finish_dispatch. simpl. rewrite Hn, lookup_insert_eq.
    by rewrite !bool_decide_eq_false_2.
  - destruct (begin_new (set_intent o (d_key d) (d_intent d)) store clock req (d_key d) Harm
      (authorize_intent _ _ _ _ _ _ Ha) Hn) as (d' & Hb' & Hk & Hq').
    exists d'. rewrite Hk. split; [done|]. unfold provider_intent. congruence.
Qed.

(** In the program's own runs [Reconcile] never finds an acceptance: it returns
    what is recorded, or records the outcome as unknown for good. *)
Theorem reconcile_never_greens s clock key o' c
    (Hs : reachable s) (Hr : Reconcile (ob s) clock key = (o', Done c)) :
  o' = ob s /\ consequences (ob s) !! key = Some c.
Proof.
  pose proof (later_inv _ _ initial_inv Hs) as Hinv. unfold Reconcile in Hr.
  destruct (consequences (ob s) !! key) as [c'|]; [by simplify_eq|].
  destruct (intents (ob s) !! key); [|done]. destruct (acceptedOrphan (ob s) !! key) as [r|] eqn:Ho; [|done].
  rewrite (i_orphan s Hinv key r Ho) in Hr. done.
Qed.
End Runs.

(** ** A small dispatch to evaluate *)
Module Demo.
#[local] Existing Instance checksum.

Definition policy : Policy :=
  Build_Policy PolicyIDIrreversibleEmailV1 "" None None None (Build_PolicyBudget 0 1 0 0) None None zero_contract
    (Build_PolicyDissent "refuse" true) EffectClassIrreversible (Some [DecisionPolicy.Demo.seat "s1" "verification"])
    "" None HumanSeatAbsent None None true "owner"
    (Build_PolicyQuorum true 1 (Some {["verification" := Build_DomainQuorum 1 true]}) "equal") "" ""
    (Build_PolicyReplacement None "refuse") "" None (Build_PolicyTimeout "utc" "PT60M").
Definition stored : Store * string := Eval vm_compute in ok_or (NewStore, "") (Put NewStore (marshal (policy_json policy))).

Definition body_digest : string := Eval vm_compute in sha256_hex "hi".
Definition subject : EffectSubject :=
  Build_EffectSubject "c" "op" "" "" "" "" "" "" "to" body_digest ActuatorTrustedOutbox "inbox" false "" 1.
Definition manifest : SeatManifest :=
  Build_SeatManifest (Some [Build_Seat "s1" "verification" "agent_profile" "proof" false]).
Definition manifest_digest : string := Eval vm_compute in ok_or "" (Manifest_Digest manifest).
Definition subject_digest : string := Eval vm_compute in ok_or "" (Subject_Digest subject).
Definition selection : PolicySelectionReceipt :=
  Build_PolicySelectionReceipt ReceiptKindPolicySelection stored.2 manifest_digest subject_digest
    DecisionReduce.Demo.head_digest 7 "".
Definition selection_digest : string := Eval vm_compute in ok_or "" (Selection_Digest selection).
Definition unsigned : BallotAttestation :=
  Build_BallotAttestation "b1" "s1" DecisionReduce.Demo.proof_digest "verification" stored.2 manifest_digest subject_digest
    selection_digest VoteAccept selection_digest "x" "" "".
Definition ballot : BallotAttestation := Eval vm_compute in ok_or unsigned (Sign unsigned).
Definition input : ConsensusInput :=
  Build_ConsensusInput zero_policy manifest subject selection (Some [ballot]) "2026-01-02T03:04:05Z".
Definition receipt : QualifiedConsensusReceipt :=
  Eval vm_compute in ok_or DecisionReduce.Demo.empty_receipt (Reduce (Some stored.1) input).
Definition request : DispatchRequest := Build_DispatchRequest "on" input receipt "hi" "2026-01-02T03:04:05Z".
Definition key : string := Eval vm_compute in ok_or "" (exactSubjectKey subject).

Lemma authorize_ok : authorize New (Some stored.1) request = Ok key.
Proof. vm_compute. reflexivity. Qed.

Definition yes : ProviderResult := Build_ProviderResult ProviderAccepted "id" None.
Definition no_pending : pending :=
  Build_pending "" (Build_IntentReceipt "" "" "" "" "" "" "" "" "") request "".
Definition begun : Outbox * res outbox_error (ConsequenceReceipt + pending) :=
  Eval vm_compute in begin_dispatch New (Some stored.1) Recording "" request.
Definition call_of (r : res outbox_error (ConsequenceReceipt + pending)) : pending :=
  match r with Ok (inr d) => d | _ => no_pending end.
Definition call : pending := call_of begun.2.
Lemma begun_ok : begin_dispatch New (Some stored.1) Recording "" request = (begun.1, Ok (inr call)).
Proof. vm_compute. reflexivity. Qed.

Definition finished : Outbox * dispatched := Eval vm_compute in finish_dispatch begun.1 call (settle yes None).
Definition consequence_or (d : ConsequenceReceipt) (r : dispatched) : ConsequenceReceipt :=
  match r with Done c => c | Failed _ _ => d end.
Definition consequence : ConsequenceReceipt :=
  consequence_or (consequence_of no_pending yes "" "" false) finished.2.

Definition asked : system := Build_system begun.1 [] [(call, settle yes None)] [(provider_intent call, settle yes None)].
Definition settled : system := Build_system finished.1 [] [] [(provider_intent call, settle yes None)].

Lemma asked_reachable : reachable Recording asked.
Proof.
  eapply later_step; [eapply later_step; [apply later_refl|]|].
  - apply (step_begin Recording initial (Some stored.1) "" request). exact begun_ok.
  - apply (step_send Recording (Build_system begun.1 [call] [] []) [] call [] yes None). reflexivity.
Qed.

Lemma settled_reachable : reachable Recording settled.
Proof.
  eapply later_step; [exact asked_reachable|].
  apply (step_finish Recording asked [] call (settle yes None) [] finished.1 finished.2); [reflexivity|].
  apply surjective_pairing.
Qed.

Lemma dispatch_authorized_witness :
  exists o store req, Verify store (Input req) (Receipt req) = Ok tt /\
    sha256_hex (I_Payload (provider_intent call)) = PayloadDigest (the_subject req) /\ Revoked o = Revoked o.
Proof.
  assert ((provider_intent call, settle yes None) ∈ sent settled) as Hin by (simpl; left).
  destruct (dispatch_authorized Recording settled (provider_intent call) (settle yes None) settled_reachable Hin)
    as (o & store & req & H1 & _ & _ & _ & _ & _ & H7 & _).
  exists o, store, req. split; [exact H1|]. split; [exact H7|reflexivity].
Defined.

Lemma consequence_recorded : consequences (ob settled) !! key = Some consequence.
Proof. vm_compute. reflexivity. Qed.

Lemma dispatch_outcome_final_witness :
  Greened consequence = true /\ accepted_call settled key /\
  Reconcile (ob settled) "now" key = (ob settled, Done consequence).
Proof.
  destruct (dispatch_outcome_final Recording settled settled key consequence settled_reachable consequence_recorded
    (later_refl Recording settled)) as (_ & Hg & Hr & _).
  assert (Greened consequence = true) as Hgr by (vm_compute; reflexivity).
  split; [exact Hgr|]. split; [exact (Hg Hgr)|exact (Hr "now")].
Defined.

Lemma concurrent_dispatch_sends_twice_witness :
  exists s i, reachable Recording s /\ sent s = [(i, settle yes None); (i, settle yes None)] /\
    I_IdempotencyKey i = key.
Proof. exact (concurrent_dispatch_sends_twice Recording (Some stored.1) request key yes yes eq_refl authorize_ok). Defined.
End Demo.
End TrustedOutbox.
