(* ===== verification/Solitaire.v ===== *)
(** * Solitaire: the rules engine of the solitaire application

    Models [internal/solitaire/card.go] and [engine.go]. The random source of the
    shuffle, the clock and the fresh identifiers are arguments. Slices of the
    state are lists with the top card last; the piles never share memory, so a
    move is a function on states. *)
From S2P Require Import Prelude GoStrings GoTime.
From Stdlib Require Import Ascii.

(** [math/rand/v2]: a generator made from two seeds, and [uint64n], a draw below
    a bound, which is what [Shuffle] uses. *)
Class Rand := {
  rand_state : Type;
  NewPCG : Z -> Z -> rand_state;
  uint64n : rand_state -> nat -> nat * rand_state;
  uint64n_below : forall s n, (0 < n)%nat -> ((uint64n s n).1 < n)%nat;
}.

Module Solitaire.

(** ** Cards *)
Inductive Suit := SuitSpades | SuitHearts | SuitDiamonds | SuitClubs | SuitOther (s : string).
Inductive Color := ColorBlack | ColorRed.

#[export] Instance Suit_eq_dec : EqDecision Suit.
Proof. solve_decision. Defined.
#[export] Instance Color_eq_dec : EqDecision Color.
Proof. solve_decision. Defined.

Definition suit_color (s : Suit) : Color :=
  match s with SuitHearts | SuitDiamonds => ColorRed | _ => ColorBlack end.

Record Card := { CardSuit : Suit; Rank : Z; FaceUp : bool }.

#[export] Instance Card_eq_dec : EqDecision Card.
Proof. solve_decision. Defined.

Definition turn (up : bool) (c : Card) : Card := Build_Card (CardSuit c) (Rank c) up.

Definition NewStandardDeck : list Card :=
  concat (map (fun s => map (fun r => Build_Card s (Z.of_nat r) false) (seq 1 13))
    [SuitSpades; SuitHearts; SuitDiamonds; SuitClubs]).

Definition swap {A} (l : list A) (i j : nat) : list A :=
  match l !! i, l !! j with
  | Some a, Some b => <[i := b]> (<[j := a]> l)
  | _, _ => l
  end.

Section Shuffle.
Context {rd : Rand}.

(** [r.Shuffle(n, swap)]: for i from n-1 down to 1, swap i with a draw below i+1. *)
Fixpoint shuffle_down {A} (i : nat) (r : rand_state) (l : list A) : list A :=
  match i with
  | O => l
  | S i' => let '(j, r') := uint64n r (S i) in shuffle_down i' r' (swap l i j)
  end.

(** [entropy] is what [crypto/rand] gives for a zero seed. *)
Definition ShuffleDeck (deck : list Card) (seed entropy : Z) : list Card * Z :=
  let seed := if (seed =? 0)%Z then (if (entropy =? 0)%Z then 1%Z else entropy) else seed in
  (shuffle_down (pred (length deck)) (NewPCG seed (Z.lxor seed 6148914691236517205)) deck, seed).
End Shuffle.

(** ** Games *)
Inductive GameStatus := StatusInProgress | StatusWon | StatusAbandoned | StatusOther (s : string).

#[export] Instance GameStatus_eq_dec : EqDecision GameStatus.
Proof. solve_decision. Defined.

Record GameState := {
  GameID : string; OwnerID : string; ComputerID : string; Status : GameStatus; DeckSeed : Z;
  Tableau : list (list Card); Foundations : list (list Card); Stock : list Card; Waste : list Card;
  Score : Z; MovesCount : Z; CreatedAt : Time; UpdatedAt : Time }.

Inductive MoveType :=
  | MoveDrawStock | MoveRecycleWaste | MoveWasteToTableau | MoveWasteToFound | MoveTableauToFound
  | MoveTableauToTable | MoveFoundToTableau | MoveOther (s : string).

Record MoveRequest := { Type_ : MoveType; FromPile : Z; ToPile : Z; CardCount : Z }.

Record MoveRecord := {
  MoveID : string; Rec_GameID : string; Rec_OwnerID : string; Rec_ComputerID : string; MoveSeq : Z;
  MoveType_ : MoveType; Rec_FromPile : string; Rec_ToPile : string; Cards : list Card; Rec_CreatedAt : Time }.

Inductive move_error :=
  | ErrNotInProgress | ErrStockEmpty | ErrRecycle | ErrWasteEmpty | ErrColumn | ErrFoundation | ErrSource
  | ErrIllegal | ErrCount | ErrFaceDown | ErrUnsupported.

(** [card] turned up at the end of the cards of a column. *)
Fixpoint turn_last (l : list Card) : list Card :=
  match l with
  | [] => []
  | [c] => [turn true c]
  | c :: l => c :: turn_last l
  end.

(** Columns of 1, 2, ... cards off the deck, and the rest of it. *)
Fixpoint deal (cols : list nat) (deck : list Card) : list (list Card) * list Card :=
  match cols with
  | [] => ([], deck)
  | col :: cols =>
    let '(tableau, rest) := deal cols (drop (S col) deck) in
    (turn_last (take (S col) deck) :: tableau, rest)
  end.

Definition NewGame {rd : Rand} (ownerID computerID : string) (seed entropy : Z) (uuid : string) (now : Time) : GameState :=
  let '(deck, effectiveSeed) := ShuffleDeck NewStandardDeck seed entropy in
  let '(tableau, rest) := deal (seq 0 7) deck in
  {| GameID := "game-" +:+ uuid; OwnerID := ownerID; ComputerID := computerID; Status := StatusInProgress;
     DeckSeed := effectiveSeed; Tableau := tableau; Foundations := [[]; []; []; []];
     Stock := map (turn false) rest; Waste := []; Score := 0; MovesCount := 0; CreatedAt := now; UpdatedAt := now |}.

(** ** Moves *)
Definition CanMoveToTableau (card : Card) (targetColumn : list Card) : bool :=
  match last targetColumn with
  | None => (Rank card =? 13)%Z
  | Some top =>
    if negb (FaceUp top) then false
    else (Rank top =? Rank card + 1)%Z && (suit_color (CardSuit top) != suit_color (CardSuit card))
  end.

Definition CanMoveToFoundation (card : Card) (foundation : list Card) : bool :=
  match last foundation with
  | None => (Rank card =? 1)%Z
  | Some top => (Rank card =? Rank top + 1)%Z
  end.

(** All but the last card. *)
Definition front (l : list Card) : list Card := take (pred (length l)) l.

(** Turn the new top card of a column up, and whether it was down. *)
Definition flip (l : list Card) : list Card * bool :=
  match last l with
  | Some top => if FaceUp top then (l, false) else (turn_last l, true)
  | None => (l, false)
  end.

(** The state a successful move leaves, with the piles' names and the cards of
    its record. The index arguments are within the arrays once checked. *)
Definition outcome : Type := GameState * string * string * list Card.

Definition with_piles (g : GameState) (tableau foundations : list (list Card)) (stock waste : list Card) (gain : Z)
    : GameState :=
  Build_GameState (GameID g) (OwnerID g) (ComputerID g) (Status g) (DeckSeed g) tableau foundations stock waste
    (wrap_i64 (Score g + gain)) (MovesCount g) (CreatedAt g) (UpdatedAt g).

Definition pile (l : list (list Card)) (i : Z) : list Card := default [] (l !! Z.to_nat i).
Definition set_pile (l : list (list Card)) (i : Z) (p : list Card) : list (list Card) := <[Z.to_nat i := p]> l.
Definition outside (i max : Z) : bool := (i <? 0)%Z || (max <? i)%Z.
Definition column_name (i : Z) : string := "tableau_" +:+ itoa i.
Definition foundation_name (i : Z) : string := "foundation_" +:+ itoa i.

Definition draw_stock (g : GameState) : res move_error outcome :=
  match last (Stock g) with
  | None => Err ErrStockEmpty
  | Some card =>
    Ok (with_piles g (Tableau g) (Foundations g) (front (Stock g)) (Waste g ++ [turn true card]) 0,
        "stock", "waste", [turn true card])
  end.

Definition recycle_waste (g : GameState) : res move_error outcome :=
  refuse negb (bool_decide (Stock g = [])) with ErrRecycle ;;
  refuse bool_decide (Waste g = []) with ErrWasteEmpty ;;
  Ok (with_piles g (Tableau g) (Foundations g) (Stock g ++ map (turn false) (rev (Waste g))) [] 0,
      "waste", "stock", []).

Definition waste_to_tableau (g : GameState) (req : MoveRequest) : res move_error outcome :=
  match last (Waste g) with
  | None => Err ErrWasteEmpty
  | Some card =>
    refuse outside (ToPile req) 6 with ErrColumn ;;
    refuse negb (CanMoveToTableau card (pile (Tableau g) (ToPile req))) with ErrIllegal ;;
    Ok (with_piles g (set_pile (Tableau g) (ToPile req) (pile (Tableau g) (ToPile req) ++ [card])) (Foundations g)
          (Stock g) (front (Waste g)) 5, "waste", column_name (ToPile req), [card])
  end.

Definition waste_to_foundation (g : GameState) (req : MoveRequest) : res move_error outcome :=
  match last (Waste g) with
  | None => Err ErrWasteEmpty
  | Some card =>
    refuse outside (ToPile req) 3 with ErrFoundation ;;
    refuse negb (CanMoveToFoundation card (pile (Foundations g) (ToPile req))) with ErrIllegal ;;
    Ok (with_piles g (Tableau g) (set_pile (Foundations g) (ToPile req) (pile (Foundations g) (ToPile req) ++ [card]))
          (Stock g) (front (Waste g)) 10, "waste", foundation_name (ToPile req), [card])
  end.

Definition tableau_to_foundation (g : GameState) (req : MoveRequest) : res move_error outcome :=
  refuse outside (FromPile req) 6 with ErrSource ;;
  let col := pile (Tableau g) (FromPile req) in
  match last col with
  | None => Err ErrSource
  | Some card =>
    refuse outside (ToPile req) 3 with ErrFoundation ;;
    refuse negb (CanMoveToFoundation card (pile (Foundations g) (ToPile req))) with ErrIllegal ;;
    let '(col', flipped) := flip (front col) in
    Ok (with_piles g (set_pile (Tableau g) (FromPile req) col')
          (set_pile (Foundations g) (ToPile req) (pile (Foundations g) (ToPile req) ++ [card]))
          (Stock g) (Waste g) (if flipped then 15 else 10),
        column_name (FromPile req), foundation_name (ToPile req), [card])
  end.

Definition tableau_to_tableau (g : GameState) (req : MoveRequest) (count : Z) : res move_error outcome :=
  refuse outside (FromPile req) 6 || bool_decide (pile (Tableau g) (FromPile req) = []) with ErrSource ;;
  refuse outside (ToPile req) 6 || (FromPile req =? ToPile req)%Z with ErrColumn ;;
  let src := pile (Tableau g) (FromPile req) in
  refuse (Z.of_nat (length src) <? count)%Z with ErrCount ;;
  let splitIdx := (length src - Z.to_nat count)%nat in
  let movingCards := drop splitIdx src in
  match head movingCards with
  | None => Err ErrCount
  | Some first =>
    refuse negb (FaceUp first) with ErrFaceDown ;;
    refuse negb (CanMoveToTableau first (pile (Tableau g) (ToPile req))) with ErrIllegal ;;
    let '(src', flipped) := flip (take splitIdx src) in
    Ok (with_piles g (set_pile (set_pile (Tableau g) (FromPile req) src') (ToPile req)
                        (pile (Tableau g) (ToPile req) ++ movingCards)) (Foundations g)
          (Stock g) (Waste g) (if flipped then 5 else 0),
        column_name (FromPile req), column_name (ToPile req), movingCards)
  end.

Definition play (g : GameState) (req : MoveRequest) (count : Z) : res move_error outcome :=
  match Type_ req with
  | MoveDrawStock => draw_stock g
  | MoveRecycleWaste => recycle_waste g
  | MoveWasteToTableau => waste_to_tableau g req
  | MoveWasteToFound => waste_to_foundation g req
  | MoveTableauToFound => tableau_to_foundation g req
  | MoveTableauToTable => tableau_to_tableau g req count
  | MoveFoundToTableau | MoveOther _ => Err ErrUnsupported
  end.

Definition won (g : GameState) : bool := forallb (fun f => Nat.eqb (length f) 13) (Foundations g).

Definition bump (g : GameState) : GameState :=
  Build_GameState (GameID g) (OwnerID g) (ComputerID g) (Status g) (DeckSeed g) (Tableau g) (Foundations g)
    (Stock g) (Waste g) (Score g) (wrap_i64 (MovesCount g + 1)) (CreatedAt g) (UpdatedAt g).

Definition close (g : GameState) (now : Time) : GameState :=
  Build_GameState (GameID g) (OwnerID g) (ComputerID g) (if won g then StatusWon else Status g) (DeckSeed g)
    (Tableau g) (Foundations g) (Stock g) (Waste g) (Score g) (MovesCount g) (CreatedAt g) now.

Definition ApplyMove (g : GameState) (req : MoveRequest) (uuid : string) (now : Time)
    : GameState * res move_error MoveRecord :=
  if Status g != StatusInProgress then (g, Err ErrNotInProgress) else
  let count := if (CardCount req <=? 0)%Z then 1%Z else CardCount req in
  let g := bump g in
  match play g req count with
  | Err e => (g, Err e)
  | Ok (g', from, to, cards) =>
    (close g' now,
     Ok (Build_MoveRecord ("move-" +:+ uuid) (GameID g) (OwnerID g) (ComputerID g) (MovesCount g) (Type_ req)
           from to cards now))
  end.

(** ** Shuffling and dealing *)
Lemma list_delete_insert_eq {A} (l : list A) i x : delete i (<[i := x]> l) = delete i l.
Proof. revert i. induction l as [|a l IH]; intros [|i]; try done. simpl. f_equal. apply IH. Qed.

Lemma swap_Permutation {A} (l : list A) i j : swap l i j ≡ₚ l.
Proof.
  unfold swap. destruct (l !! i) as [a|] eqn:Hi; [|done]. destruct (l !! j) as [b|] eqn:Hj; [|done].
  destruct (decide (i = j)) as [->|Hne].
  - simplify_eq. by rewrite list_insert_insert_eq, list_insert_id.
  - assert (<[j := a]> l !! i = Some a) as Hi' by (by rewrite list_lookup_insert_ne).
    pose proof (lookup_lt_Some _ _ _ Hi) as Li. pose proof (lookup_lt_Some _ _ _ Hj) as Lj.
    pose proof (delete_Permutation _ _ _ Hi') as P1.
    assert (<[j := a]> l ≡ₚ a :: delete j l) as P2.
    { rewrite (delete_Permutation (<[j := a]> l) j a) by (by rewrite list_lookup_insert_eq).
      by rewrite list_delete_insert_eq. }
    assert (<[i := b]> (<[j := a]> l) ≡ₚ b :: delete i (<[j := a]> l)) as P3.
    { rewrite (delete_Permutation _ i b) at 1 by (rewrite list_lookup_insert_eq; [done|by rewrite length_insert]).
      by rewrite list_delete_insert_eq. }
    rewrite P3. rewrite P1 in P2. apply Permutation_cons_inv in P2. rewrite P2.
    by rewrite <-(delete_Permutation l j b).
Qed.

Section Games.
Context {rd : Rand}.

Lemma shuffle_down_Permutation {A} i r (l : list A) : shuffle_down i r l ≡ₚ l.
Proof.
  revert r l. induction i as [|i IH]; intros r l; [done|]. cbn [shuffle_down].
  destruct (uint64n r (S (S i))) as [j r']. rewrite IH. apply swap_Permutation.
Qed.

Definition face (c : Card) : Suit * Z := (CardSuit c, Rank c).
Definition faces (l : list Card) : list (Suit * Z) := map face l.

Lemma faces_app l1 l2 : faces (l1 ++ l2) = faces l1 ++ faces l2.
Proof. apply map_app. Qed.

Lemma faces_turn up l : faces (map (turn up) l) = faces l.
Proof. unfold faces. rewrite map_map. done. Qed.

Lemma turn_last_snoc l c : turn_last (l ++ [c]) = l ++ [turn true c].
Proof. induction l as [|a [|b l] IH]; simpl in *; [done|done|by rewrite IH]. Qed.

Lemma faces_turn_last l : faces (turn_last l) = faces l.
Proof. destruct l as [|c l _] using rev_ind; [done|]. by rewrite turn_last_snoc, !faces_app. Qed.

Lemma faces_flip l : faces (flip l).1 = faces l.
Proof. unfold flip. destruct (last l) as [c|]; [|done]. destruct (FaceUp c); [done|apply faces_turn_last]. Qed.

Lemma deal_faces cols deck :
  faces (concat (deal cols deck).1) ++ faces (deal cols deck).2 = faces deck.
Proof.
  revert deck. induction cols as [|col cols IH]; intros deck; [done|]. simpl.
  specialize (IH (drop (S col) deck)). destruct (deal cols (drop (S col) deck)) as [t r]. simpl in *.
  rewrite faces_app, faces_turn_last, <-(assoc_L (++)), IH, <-faces_app, take_drop. done.
Qed.

Lemma deal_length cols deck : length (deal cols deck).1 = length cols.
Proof.
  revert deck. induction cols as [|col cols IH]; intros deck; [done|]. simpl.
  specialize (IH (drop (S col) deck)). destruct (deal cols _). simpl in *. by rewrite IH.
Qed.

(** ** Columns *)
Definition down (c : Card) : Prop := FaceUp c = false.
Definition up (c : Card) : Prop := FaceUp c = true.

(** [b] may lie on [a]. *)
Definition fits (a b : Card) : Prop := Rank a = (Rank b + 1)%Z /\ suit_color (CardSuit a) <> suit_color (CardSuit b).

(** Face-down cards below a face-up run. *)
Inductive column : list Card -> Prop :=
  | column_nil : column []
  | column_start l c : Forall down l -> up c -> column (l ++ [c])
  | column_snoc l a b : column (l ++ [a]) -> up b -> fits a b -> column (l ++ [a; b]).

Fixpoint chain (a : Card) (l : list Card) : Prop :=
  match l with [] => True | b :: l => up b /\ fits a b /\ chain b l end.

Lemma last_default {A} (y : A) l d1 d2 : List.last (y :: l) d1 = List.last (y :: l) d2.
Proof. revert y. induction l as [|z l IH]; intros y; [done|]. apply (IH z). Qed.

Lemma chain_snoc a l b : chain a l -> up b -> fits (List.last l a) b -> chain a (l ++ [b]).
Proof.
  revert a. induction l as [|x l IH]; intros a; simpl; [done|]. intros (Hx & Hf & Hc) Hb Hl.
  split_and!; [done..|]. apply IH; [done..|]. destruct l as [|y l]; [done|]. rewrite (last_default y l x a) in *. exact Hl.
Qed.

Lemma column_last l c : column (l ++ [c]) -> up c.
Proof.
  intros Hc. inversion Hc as [H|l' c' _ Hu H|l' a b _ Hu _ H].
  - by destruct l.
  - by apply app_inj_tail in H as [_ ->].
  - change (l' ++ [a; b]) with (l' ++ [a] ++ [b]) in H. rewrite (assoc_L (++)) in H. by apply app_inj_tail in H as [_ ->].
Qed.

Lemma column_inv l c : column (l ++ [c]) ->
  up c /\ (Forall down l \/ exists l' a, l = l' ++ [a] /\ column l /\ fits a c).
Proof.
  intros Hc. split; [by eapply column_last|]. inversion Hc as [H|l' c' Hd _ H|l' a b Hcol _ Hf H].
  - by destruct l.
  - apply app_inj_tail in H as [-> ->]. by left.
  - change (l' ++ [a; b]) with (l' ++ [a] ++ [b]) in H. rewrite (assoc_L (++)) in H.
    apply app_inj_tail in H as [<- ->]. right. by exists l', a.
Qed.

(** Taking the top card off and turning the next one up. *)
Lemma column_flip l c : column (l ++ [c]) -> column (flip l).1.
Proof.
  intros [_ [Hd|(l' & a & -> & Hc & _)]]%column_inv; unfold flip.
  - destruct l as [|x l _] using rev_ind; [constructor|]. rewrite last_snoc.
    apply Forall_app in Hd as [Hd Hx]. apply Forall_inv in Hx. unfold down in Hx. rewrite Hx. simpl.
    rewrite turn_last_snoc. by constructor.
  - rewrite last_snoc. rewrite (column_last _ _ Hc). done.
Qed.

(** A face-up card of a column starts a run that reaches its end. *)
Lemma column_split l c m : column (l ++ c :: m) -> up c -> column (l ++ [c]) /\ chain c m.
Proof.
  intros Hc Hu. revert Hc. induction m as [|b m IH] using rev_ind; intros Hc; [done|].
  change (c :: m ++ [b]) with ((c :: m) ++ [b]) in Hc. rewrite (assoc_L (++)) in Hc.
  apply column_inv in Hc as [Hb [Hd|(l' & a & He & Hc & Hf)]].
  - apply Forall_app in Hd as [_ Hd]. apply Forall_inv in Hd. unfold up, down in *. congruence.
  - destruct (IH Hc) as [H1 H2]. split; [done|]. apply chain_snoc; [done..|].
    destruct m as [|y m _] using rev_ind; simpl.
    + by apply app_inj_tail in He as [_ ->].
    + change (c :: m ++ [y]) with ((c :: m) ++ [y]) in He. rewrite (assoc_L (++)) in He.
      apply app_inj_tail in He as [_ ->]. by rewrite last_last.
Qed.

Lemma column_extend l a m : column (l ++ [a]) -> chain a m -> column (l ++ a :: m).
Proof.
  revert l a. induction m as [|b m IH]; intros l a Hc; [done|]. intros (Hb & Hf & Hm).
  change (l ++ a :: b :: m) with (l ++ [a] ++ b :: m). rewrite (assoc_L (++)). apply IH; [|done].
  rewrite <-(assoc_L (++)). by constructor.
Qed.

(** Cards that may be placed keep a column. *)
Lemma column_place dest a m :
  column dest -> CanMoveToTableau a dest = true -> up a -> chain a m -> column (dest ++ a :: m).
Proof.
  intros Hd Hcan Hu Hm. unfold CanMoveToTableau in Hcan.
  destruct dest as [|t dest _] using rev_ind; [by apply (column_extend []), Hm; apply (column_start [])|].
  rewrite last_snoc in Hcan. destruct (FaceUp t) eqn:Ht; [|done]. simpl in Hcan.
  apply andb_true_iff in Hcan as [Hr Hs]. apply Z.eqb_eq in Hr. to_prop.
  apply column_extend; [|done]. rewrite <-(assoc_L (++)). by constructor.
Qed.

(** The ranks count up from the ace; the suits are not looked at, as the code does not. *)
Definition ranks_from_ace (l : list Card) : Prop := map Rank l = map Z.of_nat (seq 1 (length l)).

Lemma foundation_place f c : ranks_from_ace f -> CanMoveToFoundation c f = true -> ranks_from_ace (f ++ [c]).
Proof.
  unfold ranks_from_ace, CanMoveToFoundation. intros Hf Hc. rewrite map_app, length_app, seq_app, map_app, Hf.
  f_equal. simpl. f_equal. destruct f as [|t f _] using rev_ind; [by apply Z.eqb_eq in Hc|].
  rewrite last_snoc in Hc. apply Z.eqb_eq in Hc. rewrite length_app in *. simpl in *.
  rewrite map_app, seq_app, map_app in Hf. apply app_inj_tail in Hf as [_ Ht]. simpl in Ht. rewrite Hc, Ht. lia.
Qed.

(** ** Piles *)
Lemma set_pile_Permutation (ls : list (list Card)) i p :
  (i < length ls)%nat ->
  faces (concat (<[i := p]> ls)) ++ faces (default [] (ls !! i)) ≡ₚ faces (concat ls) ++ faces p.
Proof.
  intros Hi. revert i Hi. induction ls as [|l ls IH]; intros [|i] Hi; simpl in *; [lia..| |].
  - rewrite !faces_app, Permutation_app_comm, <-(assoc_L (++)). apply Permutation_app_head, Permutation_app_comm.
  - rewrite !faces_app, <-!(assoc_L (++)). apply Permutation_app_head, IH. lia.
Qed.

Lemma inside_index i max : outside i (Z.of_nat max) = false -> (Z.to_nat i < S max)%nat.
Proof. unfold outside. intros Ho. to_prop. lia. Qed.

Lemma snoc_of_last (l : list Card) c : last l = Some c -> l = front l ++ [c].
Proof.
  destruct l as [|x l _] using rev_ind; [done|]. rewrite last_snoc. intros [= ->].
  unfold front. rewrite length_app. simpl. rewrite Nat.add_comm. simpl. by rewrite take_app_length.
Qed.

Definition all_cards (g : GameState) : list Card :=
  concat (Tableau g) ++ concat (Foundations g) ++ Stock g ++ Waste g.

(** What holds of every game. *)
Record game_ok (g : GameState) : Prop := {
  ok_tableau : length (Tableau g) = 7%nat;
  ok_foundations : length (Foundations g) = 4%nat;
  ok_cards : faces (all_cards g) ≡ₚ faces NewStandardDeck;
  ok_columns : Forall column (Tableau g);
  ok_ranks : Forall ranks_from_ace (Foundations g);
  ok_stock : Forall down (Stock g);
  ok_waste : Forall up (Waste g);
}.

Lemma pile_column g i : game_ok g -> column (pile (Tableau g) i).
Proof.
  intros Hg. unfold pile. destruct (_ !! _) as [l|] eqn:E; [|constructor]. simpl.
  pose proof (ok_columns g Hg) as Hc. rewrite Forall_lookup in Hc. by eapply Hc.
Qed.

Lemma pile_foundation g i : game_ok g -> ranks_from_ace (pile (Foundations g) i).
Proof.
  intros Hg. unfold pile. destruct (_ !! _) as [l|] eqn:E; [|done]. simpl.
  pose proof (ok_ranks g Hg) as Hc. rewrite Forall_lookup in Hc. by eapply Hc.
Qed.

(** How often a face occurs; permutations are equalities of counts. *)
Definition cnt (l : list Card) (x : Suit * Z) : nat := count_occ (decide_rel (=)) (faces l) x.

Lemma cnt_app l1 l2 x : cnt (l1 ++ l2) x = (cnt l1 x + cnt l2 x)%nat.
Proof. unfold cnt. by rewrite faces_app, count_occ_app. Qed.

Lemma cnt_faces l1 l2 x : faces l1 = faces l2 -> cnt l1 x = cnt l2 x.
Proof. unfold cnt. by intros ->. Qed.

Lemma cnt_turn up l x : cnt (map (turn up) l) x = cnt l x.
Proof. apply cnt_faces, faces_turn. Qed.

Lemma cnt_rev l x : cnt (rev l) x = cnt l x.
Proof.
  unfold cnt. apply Permutation_count_occ. unfold faces. rewrite map_rev. symmetry. apply Permutation_rev.
Qed.

Lemma cnt_flip l x : cnt (flip l).1 x = cnt l x.
Proof. apply cnt_faces, faces_flip. Qed.

Lemma faces_cnt l1 l2 : faces l1 ≡ₚ faces l2 <-> forall x, cnt l1 x = cnt l2 x.
Proof. apply Permutation_count_occ. Qed.

Lemma cnt_set_pile ls i max p x :
  length ls = S max -> outside i (Z.of_nat max) = false ->
  (cnt (concat (set_pile ls i p)) x + cnt (pile ls i) x = cnt (concat ls) x + cnt p x)%nat.
Proof.
  intros Hl Ho%inside_index. unfold set_pile, pile. rewrite <-!cnt_app.
  apply faces_cnt. rewrite !faces_app. apply set_pile_Permutation. lia.
Qed.

Lemma pile_set_pile_ne ls i j max p :
  outside i (Z.of_nat max) = false -> outside j (Z.of_nat max) = false -> i <> j ->
  pile (set_pile ls i p) j = pile ls j.
Proof.
  unfold outside, pile, set_pile. intros Hi Hj Hne. to_prop. rewrite list_lookup_insert_ne; [done|lia].
Qed.

Lemma Forall_set_pile (P : list Card -> Prop) ls i p : Forall P ls -> P p -> Forall P (set_pile ls i p).
Proof. intros Hf Hp. by apply Forall_insert. Qed.

(** The invariant after a change of the piles that keeps the count of each face. *)
Lemma with_piles_ok g t f st w gain :
  game_ok g -> length t = 7%nat -> length f = 4%nat ->
  (forall x, cnt (concat t ++ concat f ++ st ++ w) x = cnt (all_cards g) x) ->
  Forall column t -> Forall ranks_from_ace f -> Forall down st -> Forall up w ->
  game_ok (with_piles g t f st w gain).
Proof.
  intros Hg Ht Hf Hc Hct Hff Hst Hw. split; simpl; try done. unfold all_cards. simpl.
  rewrite <-(ok_cards g Hg). by apply faces_cnt.
Qed.

Ltac counting := intros; unfold all_cards; rewrite ?cnt_app, ?cnt_turn, ?cnt_rev; try lia.

Lemma draw_stock_ok g g' x y z : game_ok g -> draw_stock g = Ok (g', x, y, z) -> game_ok g'.
Proof.
  intros Hg Hp. pose proof Hg as [H1 H2 H3 H4 H5 H6 H7]. unfold draw_stock in Hp.
  destruct (last (Stock g)) as [c|] eqn:Hl; [|done]. apply snoc_of_last in Hl.
  injection Hp as <- _ _ _. rewrite Hl in H6. apply Forall_app in H6 as [H6 _].
  apply with_piles_ok; try done.
  - counting. rewrite Hl at 2. rewrite cnt_app. rewrite (cnt_faces [turn true c] [c]) by done. lia.
  - apply Forall_app. split; [done|]. by repeat constructor.
Qed.

Lemma recycle_waste_ok g g' x y z : game_ok g -> recycle_waste g = Ok (g', x, y, z) -> game_ok g'.
Proof.
  intros Hg Hp. pose proof Hg as [H1 H2 H3 H4 H5 H6 H7]. unfold recycle_waste in Hp.
  destruct (negb (bool_decide (Stock g = []))); [done|]. destruct (bool_decide (Waste g = [])); [done|].
  injection Hp as <- _ _ _. apply with_piles_ok; try done.
  - counting. unfold cnt at 5. simpl. lia.
  - apply Forall_app. split; [done|]. by apply Forall_map, Forall_true.
Qed.

(** The counts after [card], off the waste or a column, is put on pile [to] of [ls]. *)
Lemma cnt_put ls to max c x :
  length ls = S max -> outside to (Z.of_nat max) = false ->
  cnt (concat (set_pile ls to (pile ls to ++ [c]))) x = (cnt (concat ls) x + cnt [c] x)%nat.
Proof. intros Hl Ho. pose proof (cnt_set_pile ls to max (pile ls to ++ [c]) x Hl Ho) as E. rewrite cnt_app in E. lia. Qed.

Lemma length_set_pile ls i p : length (set_pile ls i p) = length ls.
Proof. apply length_insert. Qed.

Lemma waste_to_tableau_ok g req g' x y z : game_ok g -> waste_to_tableau g req = Ok (g', x, y, z) -> game_ok g'.
Proof.
  intros Hg Hp. pose proof Hg as [H1 H2 H3 H4 H5 H6 H7]. unfold waste_to_tableau in Hp.
  destruct (last (Waste g)) as [c|] eqn:Hl; [|done]. apply snoc_of_last in Hl.
  destruct (outside (ToPile req) 6) eqn:Ho; [done|].
  destruct (CanMoveToTableau c (pile (Tableau g) (ToPile req))) eqn:Hcan; [|done].
  injection Hp as <- _ _ _. rewrite Hl in H7. apply Forall_app in H7 as [H7 Hu]. apply Forall_inv in Hu.
  apply with_piles_ok; try done.
  - by rewrite length_set_pile.
  - counting. rewrite (cnt_put _ _ 6) by done. rewrite Hl at 2. rewrite cnt_app. lia.
  - apply Forall_set_pile; [done|]. by apply column_place; [apply pile_column|..].
Qed.

Lemma waste_to_foundation_ok g req g' x y z : game_ok g -> waste_to_foundation g req = Ok (g', x, y, z) -> game_ok g'.
Proof.
  intros Hg Hp. pose proof Hg as [H1 H2 H3 H4 H5 H6 H7]. unfold waste_to_foundation in Hp.
  destruct (last (Waste g)) as [c|] eqn:Hl; [|done]. apply snoc_of_last in Hl.
  destruct (outside (ToPile req) 3) eqn:Ho; [done|].
  destruct (CanMoveToFoundation c (pile (Foundations g) (ToPile req))) eqn:Hcan; [|done].
  injection Hp as <- _ _ _. rewrite Hl in H7. apply Forall_app in H7 as [H7 Hu].
  apply with_piles_ok; try done.
  - by rewrite length_set_pile.
  - counting. rewrite (cnt_put _ _ 3) by done. rewrite Hl at 2. rewrite cnt_app. lia.
  - apply Forall_set_pile; [done|]. by apply foundation_place; [apply pile_foundation|].
Qed.

Lemma tableau_to_foundation_ok g req g' x y z :
  game_ok g -> tableau_to_foundation g req = Ok (g', x, y, z) -> game_ok g'.
Proof.
  intros Hg Hp. pose proof Hg as [H1 H2 H3 H4 H5 H6 H7]. unfold tableau_to_foundation in Hp. cbn zeta in Hp.
  destruct (outside (FromPile req) 6) eqn:Hfrom; [done|].
  destruct (last (pile (Tableau g) (FromPile req))) as [c|] eqn:Hl; [|done]. apply snoc_of_last in Hl.
  destruct (outside (ToPile req) 3) eqn:Ho; [done|].
  destruct (CanMoveToFoundation c (pile (Foundations g) (ToPile req))) eqn:Hcan; [|done]. cbn [negb] in Hp.
  destruct (flip (front (pile (Tableau g) (FromPile req)))) as [col flipped] eqn:Hf. injection Hp as <- _ _ _.
  assert (col = (flip (front (pile (Tableau g) (FromPile req)))).1) as -> by (by rewrite Hf).
  apply with_piles_ok; try done.
  - by rewrite length_set_pile.
  - by rewrite length_set_pile.
  - counting. rewrite (cnt_put _ _ 3) by done.
    pose proof (cnt_set_pile (Tableau g) (FromPile req) 6 (flip (front (pile (Tableau g) (FromPile req)))).1 x0 H1 Hfrom) as E.
    rewrite cnt_flip in E. rewrite Hl in E at 2. rewrite cnt_app in E. lia.
  - apply Forall_set_pile; [done|]. apply (column_flip _ c). rewrite <-Hl. by apply pile_column.
  - apply Forall_set_pile; [done|]. by apply foundation_place; [apply pile_foundation|].
Qed.

Lemma tableau_to_tableau_ok g req count g' x y z :
  (0 < count)%Z -> game_ok g -> tableau_to_tableau g req count = Ok (g', x, y, z) -> game_ok g'.
Proof.
  intros Hcount Hg Hp. pose proof Hg as [H1 H2 H3 H4 H5 H6 H7]. unfold tableau_to_tableau in Hp. cbn zeta in Hp.
  set (src := pile (Tableau g) (FromPile req)) in *.
  destruct (outside (FromPile req) 6 || bool_decide (src = [])) eqn:Hfrom; [done|].
  destruct (outside (ToPile req) 6 || (FromPile req =? ToPile req)%Z) eqn:Hto; [done|].
  apply orb_false_iff in Hfrom as [Hfrom _]. apply orb_false_iff in Hto as [Hto Hne]. apply Z.eqb_neq in Hne.
  set (k := (length src - Z.to_nat count)%nat) in *.
  destruct (Z.of_nat (length src) <? count)%Z; [done|].
  destruct (drop k src) as [|first m] eqn:Hd; [done|]. cbn [head] in Hp.
  destruct (FaceUp first) eqn:Hup; [|done].
  destruct (CanMoveToTableau first (pile (Tableau g) (ToPile req))) eqn:Hcan; [|done]. cbn [negb] in Hp.
  destruct (flip (take k src)) as [col flipped] eqn:Hf. injection Hp as <- _ _ _.
  pose proof (take_drop k src) as Hsrc. rewrite Hd in Hsrc.
  destruct (column_split (take k src) first m) as [Hcol Hchain]; [rewrite Hsrc; by apply pile_column|done|].
  assert (col = (flip (take k src)).1) as -> by (by rewrite Hf).
  apply with_piles_ok; try done.
  - by rewrite !length_set_pile.
  - counting.
    pose proof (cnt_set_pile (Tableau g) (FromPile req) 6 (flip (take k src)).1 x0 H1 Hfrom) as E1.
    pose proof (cnt_set_pile (set_pile (Tableau g) (FromPile req) (flip (take k src)).1) (ToPile req) 6
      (pile (Tableau g) (ToPile req) ++ first :: m) x0 ltac:(by rewrite length_set_pile) Hto) as E2.
    rewrite (pile_set_pile_ne _ _ _ 6) in E2 by done. fold src in E1. rewrite <-Hsrc in E1 at 2.
    rewrite cnt_flip in E1. rewrite cnt_app in E1, E2. lia.
  - apply Forall_set_pile; [apply Forall_set_pile; [done|by eapply column_flip]|].
    by apply column_place; [apply pile_column|..].
Qed.

Lemma play_ok g req count g' x y z :
  (0 < count)%Z -> game_ok g -> play g req count = Ok (g', x, y, z) -> game_ok g'.
Proof.
  unfold play. destruct (Type_ req); intros Hc Hg; try done.
  - by apply draw_stock_ok.
  - by apply recycle_waste_ok.
  - by apply waste_to_tableau_ok.
  - by apply waste_to_foundation_ok.
  - by apply tableau_to_foundation_ok.
  - by apply tableau_to_tableau_ok.
Qed.

(** ** From the first deal on *)
Lemma deal_columns cols deck : Forall down deck -> Forall column (deal cols deck).1 /\ Forall down (deal cols deck).2.
Proof.
  revert deck. induction cols as [|col cols IH]; intros deck Hd; [by repeat constructor|]. simpl.
  destruct (IH (drop (S col) deck) (Forall_drop _ _ _ Hd)) as [H1 H2].
  destruct (deal cols (drop (S col) deck)) as [t r]. split; [|done]. constructor; [|done].
  pose proof (Forall_take _ (S col) _ Hd) as Hk.
  destruct (take (S col) deck) as [|c l _] using rev_ind; [constructor|]. rewrite turn_last_snoc.
  apply Forall_app in Hk as [Hk _]. by constructor.
Qed.

Lemma standard_deck_down : Forall down NewStandardDeck.
Proof. apply (bool_decide_unpack _). vm_compute. done. Qed.

Lemma new_game_ok ownerID computerID seed entropy uuid now : game_ok (NewGame ownerID computerID seed entropy uuid now).
Proof.
  unfold NewGame, ShuffleDeck. set (r := NewPCG _ _).
  pose proof (shuffle_down_Permutation (pred (length NewStandardDeck)) r NewStandardDeck) as Hp.
  set (deck := shuffle_down _ r NewStandardDeck) in *. clearbody deck.
  assert (Forall down deck) as Hd by (rewrite Hp; apply standard_deck_down).
  pose proof (deal_columns (seq 0 7) deck Hd) as [Hc Hr].
  pose proof (deal_faces (seq 0 7) deck) as Hf. pose proof (deal_length (seq 0 7) deck) as Hl.
  destruct (deal (seq 0 7) deck) as [t rest]. cbn [fst snd] in *.
  split; cbn [Tableau Foundations Stock Waste]; [exact Hl|done| |exact Hc|by repeat constructor| |constructor].
  - unfold all_cards. cbn [Tableau Foundations Stock Waste].
    change (concat [[]; []; []; []]) with (@nil Card). rewrite app_nil_r, app_nil_l, faces_app, faces_turn, Hf.
    apply Permutation_map, Hp.
  - by apply Forall_map, Forall_true.
Qed.

(** The status of a game nobody abandoned. *)
Record status_ok (g : GameState) : Prop := {
  status_live : Status g = StatusInProgress \/ Status g = StatusWon;
  status_won : Status g = StatusWon <-> won g = true;
}.

Lemma apply_move_ok g req uuid now : game_ok g -> game_ok (ApplyMove g req uuid now).1.
Proof.
  intros Hg. unfold ApplyMove. destruct (negb _); [done|].
  assert (game_ok (bump g)) as Hb by (destruct Hg; by split).
  destruct (play (bump g) req _) as [[[[g' x] y] z]|e] eqn:Hp; [|done].
  apply play_ok in Hp; [|destruct (CardCount req <=? 0)%Z eqn:E; lia|done]. destruct Hp; by split.
Qed.

Lemma won_bump g : won (bump g) = won g.
Proof. done. Qed.

Lemma play_status g req count g' x y z : play g req count = Ok (g', x, y, z) -> Status g' = Status g.
Proof.
  unfold play, draw_stock, recycle_waste, waste_to_tableau, waste_to_foundation, tableau_to_foundation,
    tableau_to_tableau. cbn zeta.
  destruct (Type_ req); repeat case_match; intros Hp; try discriminate Hp; injection Hp as <- _ _ _; done.
Qed.

Lemma apply_move_status g req uuid now : status_ok g -> status_ok (ApplyMove g req uuid now).1.
Proof.
  intros Hg. unfold ApplyMove. destruct (bool_decide (Status g = StatusInProgress)) eqn:Hs; [|done].
  apply bool_decide_eq_true in Hs. cbn [negb].
  assert (won g = false) as Hw.
  { apply not_true_is_false. intros Hw%(status_won g Hg). congruence. }
  destruct (play (bump g) req _) as [[[[g' x] y] z]|e] eqn:Hp.
  - apply play_status in Hp. cbn [fst]. unfold close. change (Status (bump g)) with (Status g) in Hp.
    rewrite Hs in Hp.
    split; cbn [Status]; change (won (Build_GameState _ _ _ _ _ _ _ _ _ _ _ _ _)) with (won g').
    + destruct (won g'); [by right|by left].
    + destruct (won g'); [done|]. by rewrite Hp.
  - cbn [fst]. split; [by left|]. change (Status g = StatusWon <-> won g = true). by rewrite Hs, Hw.
Qed.

(** Games after any sequence of requests, refused ones included. *)
Inductive reachable : GameState -> Prop :=
  | reach_new o c s e u t : reachable (NewGame o c s e u t)
  | reach_move g req u t : reachable g -> reachable (ApplyMove g req u t).1.

(** [C34] Every game that starts with [NewGame] and goes through [ApplyMove], whatever
    is asked of it, holds exactly the 52 cards of a standard deck, in seven columns of
    face-down cards under a descending run of alternating colours, four foundations
    whose ranks count up from the ace (of any suits: the code omits the check of the
    suit, see [foundation_ignores_suit]), a face-down stock and a face-up waste; and its
    status is "won" exactly when every foundation holds 13 cards. *)
Theorem game_invariant g : reachable g -> game_ok g /\ status_ok g.
Proof.
  induction 1 as [o c s e u t|g req u t _ [IH1 IH2]].
  - split; [apply new_game_ok|]. unfold NewGame. destruct (ShuffleDeck NewStandardDeck s e) as [deck seed].
    destruct (deal (seq 0 7) deck) as [tab rest]. split; [by left|done].
  - by split; [apply apply_move_ok|apply apply_move_status].
Qed.

(** A request that [ApplyMove] refuses leaves every pile, the score, the status and
    the time of the game as they were: only the count of moves goes up, and not even that
    when the game is not in progress. *)
Theorem refused_move_only_counts g req uuid now e :
  (ApplyMove g req uuid now).2 = Err e ->
  (ApplyMove g req uuid now).1 = (if bool_decide (Status g = StatusInProgress) then bump g else g).
Proof.
  unfold ApplyMove. destruct (bool_decide (Status g = StatusInProgress)); cbn [negb]; [|done].
  by destruct (play (bump g) req _) as [[[[g' x] y] z]|e'].
Qed.

(** A foundation takes a card of any suit: whether a card may be placed depends
    on ranks alone. *)
Theorem foundation_ignores_suit card card' f f' :
  Rank card = Rank card' -> map Rank f = map Rank f' -> CanMoveToFoundation card f = CanMoveToFoundation card' f'.
Proof.
  intros Hr Hf. unfold CanMoveToFoundation.
  assert (Rank <$> last f = Rank <$> last f') as Hl by (rewrite <-!fmap_last; exact (f_equal last Hf)).
  rewrite Hr. by destruct (last f), (last f'); simplify_eq/=; congruence.
Qed.
End Games.

(** ** Games with a generator that always draws 0 *)
Module Demo.

#[local] Instance zero_rand : Rand.
Proof.
  refine {| rand_state := unit; NewPCG _ _ := tt; uint64n _ _ := (0%nat, tt) |}. intros s n Hn. exact Hn.
Defined.

Definition at0 : Time := 0%Z.
Definition ask (t : MoveType) (from to count : Z) : MoveRequest := Build_MoveRequest t from to count.
Definition g0 : GameState := NewGame "alice" "computer-1" 7 0 "1" at0.
Definition step (g : GameState) (r : MoveRequest) : GameState := (ApplyMove g r "m" at0).1.
Definition ok (g : GameState) (r : MoveRequest) : bool :=
  match (ApplyMove g r "m" at0).2 with Ok _ => true | Err _ => false end.

(** Twenty-four draws empty the stock, and the waste goes back under it. *)
Definition drawn : GameState := Nat.iter 24 (fun g => step g (ask MoveDrawStock 0 0 0)) g0.

Example stock_drawn : (length (Stock drawn), length (Waste drawn), MovesCount drawn) = (0%nat, 24%nat, 24%Z).
Proof. vm_compute. done. Qed.

Example recycled : map (fun c => (Rank c, FaceUp c)) (Stock (step drawn (ask MoveRecycleWaste 0 0 0)))
  = map (fun c => (Rank c, FaceUp c)) (Stock g0).
Proof. vm_compute. done. Qed.

Lemma reach_drawn n : reachable (Nat.iter n (fun g => step g (ask MoveDrawStock 0 0 0)) g0).
Proof. induction n as [|n IH]; [apply reach_new|]. cbn [Nat.iter nat_rect]. by apply reach_move. Qed.

Lemma game_invariant_witness : game_ok drawn /\ status_ok drawn.
Proof. exact (game_invariant drawn (reach_drawn 24)). Defined.

Lemma refused_move_only_counts_witness : step g0 (ask MoveRecycleWaste 0 0 0) = bump g0.
Proof. apply (refused_move_only_counts g0 (ask MoveRecycleWaste 0 0 0) "m" at0 ErrRecycle). vm_compute. reflexivity. Defined.

(** The two of hearts goes on the ace of spades. *)
Lemma foundation_ignores_suit_witness :
  CanMoveToFoundation (Build_Card SuitHearts 2 true) [Build_Card SuitSpades 1 true] = true.
Proof.
  rewrite (foundation_ignores_suit (Build_Card SuitHearts 2 true) (Build_Card SuitSpades 2 true)
    [Build_Card SuitSpades 1 true] [Build_Card SuitSpades 1 true] eq_refl eq_refl). reflexivity.
Defined.

(** The rules refuse to take a card back from a foundation. *)
Example foundation_to_tableau : ok g0 (ask MoveFoundToTableau 0 0 0) = false.
Proof. vm_compute. done. Qed.
End Demo.
End Solitaire.
