(* ===== verification/CircuitBreaker.v ===== *)
(** * CircuitBreaker: the breaker in front of a dependency

    Models [internal/health/circuit_breaker.go]. Every method holds the mutex from
    start to end, so it is one function on the state; the clock ([cfg.Now]) is an
    argument. What runs between [Allow] and the [done] it hands out belongs to the
    caller, so calls in flight are part of the system whose steps are the methods.
    The type of states is an int of which the code only ever stores three values. *)
From S2P Require Import Prelude GoTime.
From Stdlib Require Import Ascii.

Module CircuitBreaker.
Local Open Scope Z_scope.

Inductive State := StateClosed | StateOpen | StateHalfOpen.

#[export] Instance State_eq_dec : EqDecision State.
Proof. solve_decision. Defined.

Definition State_String (s : State) : string :=
  match s with StateClosed => "closed" | StateOpen => "open" | StateHalfOpen => "half-open" end.

Record BreakerConfig := {
  FailureThreshold : Z; OpenTimeout : Z; HalfOpenMaxProbes : Z; SuccessThreshold : Z }.

Definition withDefaults (c : BreakerConfig) : BreakerConfig := {|
  FailureThreshold := if FailureThreshold c <=? 0 then 5 else FailureThreshold c;
  OpenTimeout := if OpenTimeout c <=? 0 then 30 * second else OpenTimeout c;
  HalfOpenMaxProbes := if HalfOpenMaxProbes c <=? 0 then 1 else HalfOpenMaxProbes c;
  SuccessThreshold := if SuccessThreshold c <=? 0 then 1 else SuccessThreshold c |}.

Record CircuitBreaker := {
  cfg : BreakerConfig; state : State; consecutiveFails : Z; consecutiveWins : Z; openedAt : Time;
  probesInflight : Z }.

Definition NewCircuitBreaker (c : BreakerConfig) : CircuitBreaker :=
  Build_CircuitBreaker (withDefaults c) StateClosed 0 0 0 0.

(** ** The methods *)
Definition openLocked (now : Time) (b : CircuitBreaker) : CircuitBreaker :=
  Build_CircuitBreaker (cfg b) StateOpen (consecutiveFails b) (consecutiveWins b) now 0.

Definition closeLocked (b : CircuitBreaker) : CircuitBreaker :=
  Build_CircuitBreaker (cfg b) StateClosed 0 0 (openedAt b) 0.

Definition maybeHalfOpenLocked (now : Time) (b : CircuitBreaker) : CircuitBreaker :=
  if state b != StateOpen then b
  else if OpenTimeout (cfg b) <=? Sub now (openedAt b)
       then Build_CircuitBreaker (cfg b) StateHalfOpen (consecutiveFails b) 0 (openedAt b) 0
       else b.

Definition with_probes (b : CircuitBreaker) (n : Z) : CircuitBreaker :=
  Build_CircuitBreaker (cfg b) (state b) (consecutiveFails b) (consecutiveWins b) (openedAt b) n.

Definition get_State (now : Time) (b : CircuitBreaker) : CircuitBreaker * State :=
  let b := maybeHalfOpenLocked now b in (b, state b).

(** Whether a call may proceed. *)
Definition Allow (now : Time) (b : CircuitBreaker) : CircuitBreaker * bool :=
  let b := maybeHalfOpenLocked now b in
  match state b with
  | StateOpen => (b, false)
  | StateHalfOpen =>
    if HalfOpenMaxProbes (cfg b) <=? probesInflight b then (b, false)
    else (with_probes b (wrap_i64 (probesInflight b + 1)), true)
  | StateClosed => (b, true)
  end.

Definition recordSuccessLocked (b : CircuitBreaker) : CircuitBreaker :=
  let b := Build_CircuitBreaker (cfg b) (state b) 0 (consecutiveWins b) (openedAt b) (probesInflight b) in
  let won := Build_CircuitBreaker (cfg b) (state b) 0 (wrap_i64 (consecutiveWins b + 1)) (openedAt b)
               (probesInflight b) in
  match state b with
  | StateHalfOpen =>
    if (SuccessThreshold (cfg b) <=? consecutiveWins won) || (HalfOpenMaxProbes (cfg b) =? 1)
    then closeLocked won else won
  | StateClosed => won
  | StateOpen => b
  end.

Definition recordFailureLocked (now : Time) (b : CircuitBreaker) : CircuitBreaker :=
  let b := Build_CircuitBreaker (cfg b) (state b) (wrap_i64 (consecutiveFails b + 1)) 0 (openedAt b)
             (probesInflight b) in
  match state b with
  | StateHalfOpen => openLocked now b
  | StateClosed => if FailureThreshold (cfg b) <=? consecutiveFails b then openLocked now b else b
  | StateOpen => Build_CircuitBreaker (cfg b) StateOpen (consecutiveFails b) 0 now (probesInflight b)
  end.

(** A call that ends in the half-open state gives its probe slot back. *)
Definition release (b : CircuitBreaker) : CircuitBreaker :=
  if state b == StateHalfOpen
  then let n := wrap_i64 (probesInflight b - 1) in with_probes b (if n <? 0 then 0 else n)
  else b.

(** The [done] of a call: [ok] says that its error was nil. *)
Definition doneLocked (now : Time) (ok : bool) (b : CircuitBreaker) : CircuitBreaker :=
  let b := release b in if ok then recordSuccessLocked b else recordFailureLocked now b.

Definition RecordSuccess (b : CircuitBreaker) : CircuitBreaker := recordSuccessLocked (release b).
Definition RecordFailure (now : Time) (b : CircuitBreaker) : CircuitBreaker := recordFailureLocked now (release b).

(** [Execute] with nothing between its two critical sections: [fn] is run at most
    once, [None] is its nil error, and an error of the breaker is [inl]. *)
Definition Execute {E} (now : Time) (fn : unit -> option E * Time) (b : CircuitBreaker)
    : CircuitBreaker * (unit + option E) :=
  let '(b, allowed) := Allow now b in
  if negb allowed then (b, inl tt)
  else let '(err, later) := fn tt in
       (doneLocked later (match err with None => true | Some _ => false end) b, inr err).

Record Snapshot_ := {
  Snap_State : State; ConsecutiveFails : Z; ConsecutiveWins : Z; OpenedAt : option Time }.

Definition Snapshot (now : Time) (b : CircuitBreaker) : CircuitBreaker * Snapshot_ :=
  let b := maybeHalfOpenLocked now b in
  (b, {| Snap_State := state b; ConsecutiveFails := consecutiveFails b; ConsecutiveWins := consecutiveWins b;
         OpenedAt := if (state b == StateOpen) && negb (IsZero (openedAt b)) then Some (openedAt b) else None |}).

Definition Reset (b : CircuitBreaker) : CircuitBreaker := closeLocked b.

(** ** The system: the breaker, the calls it let through, and the clock

    A call in flight is the period in which it was let through; a new period
    starts whenever the state of the breaker changes. *)
Record system := { breaker : CircuitBreaker; calls : list nat; period : nat; clock : Time }.

Inductive op :=
  | OpState | OpAllow | OpDone (i : nat) (ok : bool) | OpRecordSuccess | OpRecordFailure | OpSnapshot | OpReset.

Definition start (c : BreakerConfig) (now : Time) : system := Build_system (NewCircuitBreaker c) [] 0 now.

(** The breaker after an operation, and the calls in flight with those let
    through marked by [None]. The end of a call that is not there is no operation. *)
Definition apply_op (now : Time) (o : op) (s : system) : CircuitBreaker * list (option nat) :=
  let b := breaker s in
  let same := Some <$> calls s in
  match o with
  | OpState => ((get_State now b).1, same)
  | OpAllow => let '(b, allowed) := Allow now b in (b, if allowed then None :: same else same)
  | OpDone i ok =>
    match calls s !! i with
    | Some _ => (doneLocked now ok b, Some <$> delete i (calls s))
    | None => (b, same)
    end
  | OpRecordSuccess => (RecordSuccess b, same)
  | OpRecordFailure => (RecordFailure now b, same)
  | OpSnapshot => ((Snapshot now b).1, same)
  | OpReset => (Reset b, same)
  end.

Definition exec (now : Time) (o : op) (s : system) : system :=
  let '(b, cs) := apply_op now o s in
  let p := if state b == state (breaker s) then period s else S (period s) in
  Build_system b (default p <$> cs) p now.

Definition run (s : system) (ops : list (Time * op)) : system := foldl (fun s to => exec to.1 to.2 s) s ops.

(** The times of a run do not go back. *)
Fixpoint timely (now : Time) (ops : list (Time * op)) : Prop :=
  match ops with
  | [] => True
  | (t, _) :: ops => now <= t /\ timely t ops
  end.

(** ** The invariant *)
Record config_ok (c : BreakerConfig) : Prop := {
  ok_failures : 1 <= FailureThreshold c < 2 ^ 63;
  ok_timeout : 1 <= OpenTimeout c < 2 ^ 63;
  ok_probes : 1 <= HalfOpenMaxProbes c < 2 ^ 63;
  ok_successes : 1 <= SuccessThreshold c < 2 ^ 63;
}.

Record config_range (c : BreakerConfig) : Prop := {
  range_failures : is_i64 (FailureThreshold c);
  range_timeout : is_i64 (OpenTimeout c);
  range_probes : is_i64 (HalfOpenMaxProbes c);
  range_successes : is_i64 (SuccessThreshold c);
}.

Lemma withDefaults_ok c : config_range c -> config_ok (withDefaults c).
Proof.
  intros [? ? ? ?]. unfold is_i64 in *. split; simpl;
    match goal with |- context [if ?b then _ else _] => destruct b eqn:E end; unfold second; to_prop; lia.
Qed.

Record breaker_ok (b : CircuitBreaker) : Prop := {
  ok_cfg : config_ok (cfg b);
  ok_state : match state b with
             | StateClosed => probesInflight b = 0 /\ 0 <= consecutiveFails b < FailureThreshold (cfg b)
             | StateOpen => probesInflight b = 0
             | StateHalfOpen => 0 <= probesInflight b <= HalfOpenMaxProbes (cfg b) /\
                 0 <= consecutiveWins b < SuccessThreshold (cfg b) /\
                 (HalfOpenMaxProbes (cfg b) = 1 -> consecutiveWins b = 0)
             end;
}.

Lemma new_ok c : config_range c -> breaker_ok (NewCircuitBreaker c).
Proof. intros Hc. pose proof (withDefaults_ok c Hc) as Hd. split; [done|]. destruct Hd.
  unfold NewCircuitBreaker. cbn [state probesInflight consecutiveFails cfg]. lia. Qed.

Lemma maybe_ok now b : breaker_ok b -> breaker_ok (maybeHalfOpenLocked now b).
Proof.
  intros Hb. pose proof Hb as [Hc Hs]. pose proof Hc as [? ? ? ?]. unfold maybeHalfOpenLocked.
  destruct (state b != StateOpen); [done|]. destruct (OpenTimeout (cfg b) <=? Sub now (openedAt b)); [|done].
  split; [done|]. simpl. lia.
Qed.

Lemma maybe_cases now b :
  maybeHalfOpenLocked now b = b \/
  state b = StateOpen /\ OpenTimeout (cfg b) <= Sub now (openedAt b) /\
  maybeHalfOpenLocked now b =
    Build_CircuitBreaker (cfg b) StateHalfOpen (consecutiveFails b) 0 (openedAt b) 0.
Proof.
  unfold maybeHalfOpenLocked. destruct (bool_decide (state b = StateOpen)) eqn:Hs; [|by left].
  destruct (OpenTimeout (cfg b) <=? Sub now (openedAt b)) eqn:Ht; [|by left].
  right. to_prop. done.
Qed.

Lemma allow_ok now b : breaker_ok b -> breaker_ok (Allow now b).1.
Proof.
  intros Hb%(maybe_ok now). unfold Allow. set (b' := maybeHalfOpenLocked now b) in *. clearbody b'.
  destruct (state b') eqn:Hs; [done..|]. destruct (HalfOpenMaxProbes (cfg b') <=? probesInflight b') eqn:Hp; [done|].
  destruct Hb as [Hc Hb]. pose proof Hc as [? ? ? ?]. rewrite Hs in Hb. split; [done|]. simpl. rewrite Hs. to_prop.
  rewrite wrap_i64_small by (unfold is_i64; lia). lia.
Qed.

Lemma release_ok b : breaker_ok b -> breaker_ok (release b).
Proof.
  intros Hb. unfold release. destruct (bool_decide (state b = StateHalfOpen)) eqn:Hs; [|done]. to_prop.
  destruct Hb as [Hc Hb]. pose proof Hc as [? ? ? ?]. rewrite Hs in Hb. split; [done|]. cbn [state with_probes].
  rewrite Hs. cbn [probesInflight consecutiveWins cfg with_probes].
  rewrite wrap_i64_small by (unfold is_i64; lia). destruct (probesInflight b - 1 <? 0) eqn:E; to_prop; lia.
Qed.

Lemma success_ok b : breaker_ok b -> breaker_ok (recordSuccessLocked b).
Proof.
  intros [Hc Hb]. pose proof Hc as [? ? ? ?]. unfold recordSuccessLocked. cbn [state cfg consecutiveWins].
  destruct (state b) eqn:Hs; [split; [done|]; simpl; lia|by split|].
  rewrite wrap_i64_small by (unfold is_i64; lia).
  match goal with |- context [if ?x then _ else _] => destruct x eqn:E end; (split; [done|]); simpl in *; [lia|].
  to_prop. lia.
Qed.

Lemma failure_ok now b : breaker_ok b -> breaker_ok (recordFailureLocked now b).
Proof.
  intros [Hc Hb]. pose proof Hc as [? ? ? ?]. unfold recordFailureLocked. cbn [state cfg consecutiveFails].
  destruct (state b) eqn:Hs; [|by split; simpl|by split; simpl].
  rewrite wrap_i64_small by (unfold is_i64; lia).
  destruct (FailureThreshold (cfg b) <=? consecutiveFails b + 1) eqn:E; (split; [done|]); simpl; to_prop; lia.
Qed.

Lemma apply_op_ok now o s : breaker_ok (breaker s) -> breaker_ok (apply_op now o s).1.
Proof.
  intros Hb. pose proof (ok_cfg _ Hb) as Hc. destruct o as [| |i ok| | | |]; cbn [apply_op].
  - by apply maybe_ok.
  - pose proof (allow_ok now _ Hb) as Ha. by destruct (Allow now (breaker s)).
  - destruct (calls s !! i); [|done]. unfold doneLocked.
    destruct ok; [apply success_ok|apply failure_ok]; by apply release_ok.
  - apply success_ok. by apply release_ok.
  - apply failure_ok. by apply release_ok.
  - by apply maybe_ok.
  - destruct Hc. split; [done|]. simpl. lia.
Qed.

Lemma breaker_exec now o s : breaker (exec now o s) = (apply_op now o s).1.
Proof. unfold exec. by destruct (apply_op now o s). Qed.

(** In every state the methods can reach, whatever the interleaving of calls and
    their ends: at most [HalfOpenMaxProbes] probe slots are taken and none outside
    half-open; a closed breaker has counted fewer failures in a row than its
    threshold; and a half-open one fewer successes than it needs to close. *)
Theorem breaker_invariant c now ops : config_range c -> breaker_ok (breaker (run (start c now) ops)).
Proof.
  intros Hc. unfold run. assert (breaker_ok (breaker (start c now))) as Hb by (by apply new_ok).
  revert Hb. generalize (start c now). induction ops as [|[t o] ops IH]; intros s Hb; [done|].
  cbn [foldl]. apply IH. rewrite breaker_exec. by apply apply_op_ok.
Qed.

(** ** When it opens *)
Definition outcomes (b : CircuitBreaker) (os : list (Time * bool)) : CircuitBreaker :=
  foldl (fun b to => doneLocked to.1 to.2 b) b os.

(** [k] failures in a row. *)
Definition has_run (k : nat) (l : list bool) : Prop := exists pre post, l = pre ++ replicate k false ++ post.

Lemma has_run_short k f : (f < k)%nat -> ~ has_run k (replicate f false).
Proof.
  intros Hf (pre & post & He%(f_equal length)). rewrite !length_app, !length_replicate in He. lia.
Qed.

Lemma has_run_true k f l : (f < k)%nat -> has_run k (replicate f false ++ true :: l) <-> has_run k l.
Proof.
  intros Hf. split.
  - intros (pre & post & He). assert (S f <= length pre)%nat as Hlen.
    { destruct (decide (S f <= length pre)%nat) as [|Hlt]; [done|]. exfalso.
      assert ((replicate f false ++ true :: l) !! f = Some true) as H1.
      { rewrite lookup_app_r; rewrite length_replicate; [|lia]. by rewrite Nat.sub_diag. }
      rewrite He, lookup_app_r, lookup_app_l in H1 by (rewrite ?length_replicate; lia).
      apply lookup_replicate in H1 as [H1 _]. done. }
    exists (drop (S f) pre), post. apply (f_equal (drop (S f))) in He. rewrite (drop_app_le pre) in He by done.
    rewrite <-He, drop_app_ge, length_replicate by (rewrite length_replicate; lia).
    by replace (S f - f)%nat with 1%nat by lia.
  - intros (pre & post & ->). exists (replicate f false ++ true :: pre), post. by rewrite <-(assoc_L (++)).
Qed.

Lemma has_run_more k l m : has_run k l -> has_run k (l ++ m).
Proof. intros (pre & post & ->). exists pre, (post ++ m). by rewrite <-!(assoc_L (++)). Qed.

Lemma release_closed b : state b <> StateHalfOpen -> release b = b.
Proof. intros Hs. unfold release. by rewrite bool_decide_eq_false_2. Qed.

Lemma done_open now ok b : state b = StateOpen ->
  state (doneLocked now ok b) = StateOpen /\ cfg (doneLocked now ok b) = cfg b /\
  openedAt (doneLocked now ok b) = if ok then openedAt b else now.
Proof.
  intros Hs. unfold doneLocked. rewrite release_closed by congruence.
  destruct ok; unfold recordSuccessLocked, recordFailureLocked; cbn [state]; by rewrite Hs.
Qed.

Lemma outcomes_open os b : state b = StateOpen -> state (outcomes b os) = StateOpen.
Proof.
  revert b. induction os as [|[t ok] os IH]; intros b Hs; [done|]. cbn [outcomes foldl]. apply IH.
  by apply done_open.
Qed.

Lemma done_closed now ok b : state b = StateClosed ->
  doneLocked now ok b =
    if ok then Build_CircuitBreaker (cfg b) StateClosed 0 (wrap_i64 (consecutiveWins b + 1)) (openedAt b) (probesInflight b)
    else if FailureThreshold (cfg b) <=? wrap_i64 (consecutiveFails b + 1)
    then Build_CircuitBreaker (cfg b) StateOpen (wrap_i64 (consecutiveFails b + 1)) 0 now 0
    else Build_CircuitBreaker (cfg b) StateClosed (wrap_i64 (consecutiveFails b + 1)) 0 (openedAt b) (probesInflight b).
Proof.
  intros Hs. unfold doneLocked. rewrite release_closed by congruence.
  destruct ok; unfold recordSuccessLocked, recordFailureLocked; cbn [state]; rewrite Hs; [done|].
  cbn [cfg consecutiveFails]. by destruct (FailureThreshold (cfg b) <=? _).
Qed.

Lemma outcomes_closed os b (f : nat) :
  config_ok (cfg b) -> state b = StateClosed -> consecutiveFails b = Z.of_nat f ->
  Z.of_nat f < FailureThreshold (cfg b) ->
  let b' := outcomes b os in
  (state b' = StateOpen <-> has_run (Z.to_nat (FailureThreshold (cfg b))) (replicate f false ++ map snd os)) /\
  (state b' = StateOpen \/ state b' = StateClosed).
Proof.
  revert b f. induction os as [|[t ok] os IH]; intros b f Hc Hs Hf Hlt; pose proof (ok_failures _ Hc); cbn [map snd].
  - rewrite app_nil_r. cbn [outcomes foldl]. rewrite Hs. split; [|by right].
    split; [done|]. intros Hr. exfalso. by apply (has_run_short (Z.to_nat (FailureThreshold (cfg b))) f); [lia|].
  - unfold outcomes. cbn [foldl fst snd]. rewrite done_closed by done. destruct ok.
    + destruct (IH (Build_CircuitBreaker (cfg b) StateClosed 0 (wrap_i64 (consecutiveWins b + 1)) (openedAt b)
        (probesInflight b)) 0%nat) as [IH1 IH2]; try done; [simpl; lia|]. cbn [cfg] in IH1.
      rewrite has_run_true by lia. done.
    + rewrite Hf. rewrite wrap_i64_small by (unfold is_i64; lia).
      destruct (FailureThreshold (cfg b) <=? Z.of_nat f + 1) eqn:E; to_prop.
      * assert (state (outcomes (Build_CircuitBreaker (cfg b) StateOpen (Z.of_nat f + 1) 0 t 0) os) = StateOpen)
          as Ho by (by apply outcomes_open).
        split; [|by left]. split; [|done]. intros _. exists [], (map snd os).
        replace (Z.to_nat (FailureThreshold (cfg b))) with (f + 1)%nat by lia.
        rewrite replicate_add. simpl. by rewrite <-(assoc_L (++)).
      * destruct (IH (Build_CircuitBreaker (cfg b) StateClosed (Z.of_nat f + 1) 0 (openedAt b)
          (probesInflight b)) (S f)) as [IH1 IH2]; try done; [simpl; lia..|]. cbn [cfg] in IH1.
        split; [|done]. unfold outcomes in IH1. rewrite IH1. by rewrite replicate_S_end, <-(assoc_L (++)).
Qed.

(** A new breaker whose calls end with the outcomes [os] is open exactly when
    somewhere among them there were [FailureThreshold] failures in a row, and closed
    otherwise. *)
Theorem opens_on_run_of_failures c os :
  config_range c ->
  let b := outcomes (NewCircuitBreaker c) os in
  (state b = StateOpen <-> has_run (Z.to_nat (FailureThreshold (withDefaults c))) (map snd os)) /\
  (state b = StateOpen \/ state b = StateClosed).
Proof.
  intros Hc%withDefaults_ok. pose proof Hc as [? ? ? ?].
  apply (outcomes_closed os (NewCircuitBreaker c) 0); try done. cbn [NewCircuitBreaker cfg]. lia.
Qed.

(** ** Open until the timeout *)
Lemma open_until now b : config_ok (cfg b) -> state b = StateOpen ->
  maybeHalfOpenLocked now b =
    if openedAt b + OpenTimeout (cfg b) <=? now
    then Build_CircuitBreaker (cfg b) StateHalfOpen (consecutiveFails b) 0 (openedAt b) 0 else b.
Proof.
  intros [? ? ? ?] Hs. unfold maybeHalfOpenLocked, Sub. rewrite bool_decide_eq_true_2 by done. cbn [negb].
  destruct (OpenTimeout (cfg b) <=? _) eqn:E1, (openedAt b + OpenTimeout (cfg b) <=? now) eqn:E2; try done; to_prop; lia.
Qed.

(** An open breaker before the end of its timeout: what an operation may do. *)
Record still_open (s s' : system) : Prop := {
  so_cfg : cfg (breaker s') = cfg (breaker s);
  so_state : state (breaker s') = StateOpen;
  so_opened : openedAt (breaker s) <= openedAt (breaker s') <= clock s';
  so_calls : calls s' `sublist_of` calls s;
}.

Lemma exec_still_open now o s :
  config_ok (cfg (breaker s)) -> state (breaker s) = StateOpen -> openedAt (breaker s) <= clock s -> clock s <= now ->
  now < openedAt (breaker s) + OpenTimeout (cfg (breaker s)) -> o <> OpReset -> still_open s (exec now o s).
Proof.
  intros Hc Hs Ho Ht Hnow Hr. unfold exec. pose proof (open_until now _ Hc Hs) as Hm.
  destruct (openedAt (breaker s) + OpenTimeout (cfg (breaker s)) <=? now) eqn:E; [to_prop; lia|]. clear E.
  assert (release (breaker s) = breaker s) as Hrel by (apply release_closed; congruence).
  assert (forall p : nat, default p <$> (Some <$> calls s) = calls s) as Hsame.
  { intros p. rewrite <-list_fmap_compose. apply list_fmap_id. }
  destruct o as [| |i ok| | | |]; cbn [apply_op]; try done.
  - unfold get_State. rewrite Hm. split; cbn; rewrite ?Hsame; try done; lia.
  - unfold Allow. rewrite Hm, Hs. split; cbn; rewrite ?Hsame; try done; lia.
  - destruct (calls s !! i) eqn:Hi.
    + pose proof (done_open now ok _ Hs) as (H1 & H2 & H3). split; cbn; try done.
      * rewrite H3. destruct ok; lia.
      * rewrite <-list_fmap_compose, list_fmap_id. apply sublist_delete.
    + split; cbn; rewrite ?Hsame; try done; lia.
  - unfold RecordSuccess. rewrite Hrel. unfold recordSuccessLocked. rewrite Hs.
    split; cbn; rewrite ?Hsame, ?Hs; try done; lia.
  - unfold RecordFailure. rewrite Hrel. unfold recordFailureLocked. cbn [state]. rewrite Hs.
    split; cbn; rewrite ?Hsame; try done; lia.
  - unfold Snapshot. rewrite Hm. split; cbn; rewrite ?Hsame; try done; lia.
Qed.


(** ** Probe slots *)
Definition probes (s : system) : nat := length (List.filter (Nat.eqb (period s)) (calls s)).

(** An operation in half-open that ends a call ends one of the probes: no call
    outlives the period in which it was let through into a half-open one, and
    outcomes are not recorded by hand. *)
Definition orderly (s : system) (o : op) : Prop :=
  state (breaker s) = StateHalfOpen ->
  match o with
  | OpDone i _ => forall p, calls s !! i = Some p -> p = period s
  | OpRecordSuccess | OpRecordFailure => False
  | _ => True
  end.

Inductive orderly_run (c : BreakerConfig) (now : Time) : system -> Prop :=
  | orderly_start : orderly_run c now (start c now)
  | orderly_step s t o : orderly_run c now s -> orderly s o -> orderly_run c now (exec t o s).

Record slots_ok (s : system) : Prop := {
  slots_old : Forall (fun p => (p <= period s)%nat) (calls s);
  slots_count : state (breaker s) = StateHalfOpen -> probesInflight (breaker s) = Z.of_nat (probes s);
}.

Lemma filter_none p cs : Forall (fun q => (q < p)%nat) cs -> List.filter (Nat.eqb p) cs = [].
Proof.
  induction 1 as [|q cs Hq _ IH]; [done|]. simpl. destruct (Nat.eqb p q) eqn:E; [apply Nat.eqb_eq in E; lia|done].
Qed.

Lemma filter_delete p (cs : list nat) i : cs !! i = Some p ->
  length (List.filter (Nat.eqb p) cs) = S (length (List.filter (Nat.eqb p) (delete i cs))).
Proof. intros Hi. rewrite (delete_Permutation _ _ _ Hi) at 1. simpl. by rewrite Nat.eqb_refl. Qed.

(** A call let through in the period it starts, and one that ends. *)
Lemma exec_slots t o s b cs :
  apply_op t o s = (b, cs) -> slots_ok s ->
  (forall q, Some q ∈ cs -> q ∈ calls s) ->
  (state b = StateHalfOpen -> state (breaker s) = StateHalfOpen ->
   probesInflight b = Z.of_nat (length (List.filter (Nat.eqb (period s)) (default (period s) <$> cs)))) ->
  (state b = StateHalfOpen -> state (breaker s) <> StateHalfOpen ->
   probesInflight b = Z.of_nat (length (List.filter (fun q => bool_decide (q = None)) cs))) ->
  slots_ok (exec t o s).
Proof.
  intros Ho [Hold Hcount] Hsub Hsame Hnew. unfold exec. rewrite Ho.
  assert (forall p, (period s <= p)%nat -> Forall (fun q => (q <= p)%nat) (default p <$> cs)) as Hle.
  { intros p Hp. apply Forall_fmap, Forall_forall. intros [q|] Hin; [|simpl; lia]. simpl.
    apply Hsub in Hin. rewrite Forall_forall in Hold. specialize (Hold q Hin). simpl in Hold. lia. }
  destruct (bool_decide (state b = state (breaker s))) eqn:E; to_prop; split; cbn [calls period breaker].
  - apply Hle. lia.
  - intros Hh. unfold probes. cbn [calls period]. apply Hsame; congruence.
  - apply Hle. lia.
  - intros Hh. unfold probes. cbn [calls period]. rewrite Hnew by congruence. f_equal.
    clear Ho Hsame Hnew Hle. induction cs as [|[q|] cs IH]; [done| |].
    + cbn [fmap list_fmap default from_option id List.filter]. rewrite bool_decide_eq_false_2 by done.
      assert (q <= period s)%nat as Hq.
      { rewrite Forall_forall in Hold. apply Hold, Hsub. by left. }
      destruct (Nat.eqb (S (period s)) q) eqn:Eq; [apply Nat.eqb_eq in Eq; lia|]. apply IH.
      intros q' Hq'. apply Hsub. by right.
    + cbn [fmap list_fmap default from_option id List.filter]. rewrite bool_decide_eq_true_2 by done. rewrite Nat.eqb_refl.
      cbn [length]. f_equal. apply IH. intros q' Hq'. apply Hsub. by right.
Qed.

Lemma default_some (p : nat) (cs : list nat) : default p <$> (Some <$> cs) = cs.
Proof. rewrite <-list_fmap_compose. apply list_fmap_id. Qed.

Lemma filter_some (cs : list nat) : List.filter (fun q => bool_decide (q = None)) (Some <$> cs) = [].
Proof. by induction cs. Qed.

Lemma elem_of_same q (cs : list nat) : Some q ∈ Some <$> cs -> q ∈ cs.
Proof. by intros (q' & [= ->] & Hin)%list_elem_of_fmap. Qed.

(** Operations that let nothing through and end nothing. *)
Lemma exec_slots_same t o s b :
  apply_op t o s = (b, Some <$> calls s) -> slots_ok s ->
  (state b = StateHalfOpen ->
   state (breaker s) = StateHalfOpen /\ probesInflight b = probesInflight (breaker s) \/
   state (breaker s) <> StateHalfOpen /\ probesInflight b = 0) ->
  slots_ok (exec t o s).
Proof.
  intros Ho Hs Hb. eapply exec_slots; [exact Ho|done|intros q; by apply elem_of_same| |].
  - intros Hh Hh'. rewrite default_some. destruct (Hb Hh) as [[_ ->]|[? _]]; [by apply Hs|done].
  - intros Hh Hh'. rewrite filter_some. by destruct (Hb Hh) as [[? _]|[_ ->]].
Qed.

Lemma maybe_slots now b : state (maybeHalfOpenLocked now b) = StateHalfOpen ->
  state b = StateHalfOpen /\ probesInflight (maybeHalfOpenLocked now b) = probesInflight b \/
  state b <> StateHalfOpen /\ probesInflight (maybeHalfOpenLocked now b) = 0.
Proof.
  destruct (maybe_cases now b) as [->|(Hs & _ & ->)]; [by left|]. intros _. right. by rewrite Hs.
Qed.

Lemma success_half b : state (recordSuccessLocked b) = StateHalfOpen ->
  state b = StateHalfOpen /\ probesInflight (recordSuccessLocked b) = probesInflight b.
Proof.
  unfold recordSuccessLocked. cbn [state cfg consecutiveWins]. destruct (state b) eqn:Hs; [done..|].
  match goal with |- context [if ?x then _ else _] => destruct x end; done.
Qed.

Lemma failure_half now b : state (recordFailureLocked now b) <> StateHalfOpen.
Proof.
  unfold recordFailureLocked. cbn [state cfg consecutiveFails]. destruct (state b) eqn:Hs; [|done..].
  by destruct (FailureThreshold (cfg b) <=? _).
Qed.

Lemma release_state b : state (release b) = state b.
Proof. unfold release. by destruct (state b == StateHalfOpen). Qed.

Lemma allow_slots t s : breaker_ok (breaker s) -> slots_ok s -> slots_ok (exec t OpAllow s).
Proof.
  intros Hb Hs. pose proof (maybe_ok t _ Hb) as Hb'. pose proof (maybe_slots t (breaker s)) as Hm.
  destruct (Allow t (breaker s)) as [b allowed] eqn:Ha. unfold Allow in Ha.
  destruct allowed; cycle 1.
  { eapply exec_slots_same; [cbn [apply_op]; unfold Allow; by rewrite Ha|done|].
    assert (b = maybeHalfOpenLocked t (breaker s)) as ->; [|exact Hm].
    destruct (state (maybeHalfOpenLocked t (breaker s))); [done|congruence|].
    destruct (HalfOpenMaxProbes _ <=? _); congruence. }
  assert (apply_op t OpAllow s = (b, None :: (Some <$> calls s))) as Ho.
  { cbn [apply_op]. unfold Allow. by rewrite Ha. }
  destruct (state (maybeHalfOpenLocked t (breaker s))) eqn:E; simplify_eq.
  - eapply exec_slots; [exact Ho|done|intros q; rewrite elem_of_cons; intros [?|?]; [done|by apply elem_of_same]|..];
      congruence.
  - destruct (HalfOpenMaxProbes _ <=? _) eqn:Hp; [done|]. injection Ha as <-. to_prop.
    destruct Hb' as [[_ _ Hmax _] Hst]. rewrite E in Hst.
    assert (wrap_i64 (probesInflight (maybeHalfOpenLocked t (breaker s)) + 1) =
      probesInflight (maybeHalfOpenLocked t (breaker s)) + 1) as Hw by (apply wrap_i64_small; unfold is_i64; lia).
    eapply exec_slots; [exact Ho|done|intros q; rewrite elem_of_cons; intros [?|?]; [done|by apply elem_of_same]|..].
    + intros _ Hh. cbn [probesInflight with_probes]. rewrite Hw. destruct (Hm eq_refl) as [[_ ->]|[? _]]; [|done].
      cbn [fmap list_fmap default from_option id List.filter]. rewrite Nat.eqb_refl. rewrite default_some.
      rewrite (slots_count s Hs Hh). unfold probes. simpl. lia.
    + intros _ Hh. cbn [probesInflight with_probes]. rewrite Hw. destruct (Hm eq_refl) as [[? _]|[_ ->]]; [done|].
      cbn [List.filter]. rewrite bool_decide_eq_true_2, filter_some by done. done.
Qed.

Lemma done_slots t i ok s : breaker_ok (breaker s) -> orderly s (OpDone i ok) -> slots_ok s ->
  slots_ok (exec t (OpDone i ok) s).
Proof.
  intros Hb Hord Hs. destruct (calls s !! i) as [p|] eqn:Hi; cycle 1.
  { eapply exec_slots_same; [cbn [apply_op]; by rewrite Hi|done|]. intros Hh. by left. }
  assert (forall q, Some q ∈ Some <$> delete i (calls s) -> q ∈ calls s) as Hsub.
  { intros q Hq%elem_of_same. eapply elem_of_submseteq; [exact Hq|]. apply sublist_submseteq, sublist_delete. }
  assert (state (doneLocked t ok (breaker s)) = StateHalfOpen ->
    state (breaker s) = StateHalfOpen /\
    probesInflight (doneLocked t ok (breaker s)) = probesInflight (release (breaker s))) as Hd.
  { unfold doneLocked. destruct ok; intros Hh; [|by destruct (failure_half t (release (breaker s)))].
    apply success_half in Hh as [Hh ?]. by rewrite release_state in Hh. }
  eapply exec_slots; [cbn [apply_op]; by rewrite Hi|done|exact Hsub| |].
  - intros Hh Hh'. destruct (Hd Hh) as [_ ->]. rewrite default_some.
    pose proof (slots_count s Hs Hh') as Hc. unfold orderly in Hord. rewrite Hi in Hord.
    pose proof (Hord Hh' p eq_refl) as ->. unfold probes in Hc. rewrite (filter_delete (period s) _ i Hi) in Hc.
    destruct Hb as [[_ _ Hmax _] Hst]. rewrite Hh' in Hst.
    unfold release. rewrite bool_decide_eq_true_2 by done. cbn [probesInflight with_probes].
    rewrite wrap_i64_small by (unfold is_i64; lia).
    destruct (probesInflight (breaker s) - 1 <? 0) eqn:E; to_prop; lia.
  - intros Hh Hh'. by destruct (Hd Hh).
Qed.

Lemma orderly_slots t o s : breaker_ok (breaker s) -> orderly s o -> slots_ok s -> slots_ok (exec t o s).
Proof.
  intros Hb Ho Hs. destruct o as [| |i ok| | | |].
  - eapply exec_slots_same; [done|done|]. apply maybe_slots.
  - by apply allow_slots.
  - by apply done_slots.
  - eapply exec_slots_same; [done|done|]. intros Hh. apply success_half in Hh as [Hh _].
    rewrite release_state in Hh. by destruct (Ho Hh).
  - eapply exec_slots_same; [done|done|]. intros Hh. by destruct (failure_half t (release (breaker s))).
  - eapply exec_slots_same; [done|done|]. apply maybe_slots.
  - by eapply exec_slots_same.
Qed.

(** When no call outlives the period in which it was let through into a half-open
    one, the probe count of a half-open breaker is the number of its probes in flight,
    so there are never more than [HalfOpenMaxProbes]. *)
Theorem probes_bounded c now s :
  config_range c -> orderly_run c now s -> state (breaker s) = StateHalfOpen ->
  probesInflight (breaker s) = Z.of_nat (probes s) /\
  Z.of_nat (probes s) <= HalfOpenMaxProbes (cfg (breaker s)).
Proof.
  intros Hc Hr Hh. assert (breaker_ok (breaker s) /\ slots_ok s) as [[_ Hst] Hs].
  { clear Hh. induction Hr as [|s t o _ [IH1 IH2] Ho].
    - split; [by apply new_ok|]. by split.
    - split; [rewrite breaker_exec; by apply apply_op_ok|by apply orderly_slots]. }
  pose proof (slots_count s Hs Hh) as Hn. rewrite Hh in Hst. split; [done|lia].
Qed.

(** When every probe slot of a half-open breaker is taken, it refuses all calls and
    stays as it is at any later time, until a call ends, an outcome is recorded or it is
    reset: a probe whose [done] is never run blocks the dependency for ever. *)
Theorem taken_slots_block s ops :
  state (breaker s) = StateHalfOpen -> HalfOpenMaxProbes (cfg (breaker s)) <= probesInflight (breaker s) ->
  Forall (fun to => to.2 = OpAllow \/ to.2 = OpState \/ to.2 = OpSnapshot) ops ->
  breaker (run s ops) = breaker s /\ calls (run s ops) = calls s.
Proof.
  intros Hs Hp Hops. revert s Hs Hp. induction Hops as [|[t o] ops Ho _ IH]; intros s Hs Hp; [done|].
  change (run s ((t, o) :: ops)) with (run (exec t o s) ops).
  assert (maybeHalfOpenLocked t (breaker s) = breaker s) as Hm.
  { unfold maybeHalfOpenLocked. by rewrite Hs. }
  assert (breaker (exec t o s) = breaker s /\ calls (exec t o s) = calls s) as [E1 E2].
  { assert (apply_op t o s = (breaker s, Some <$> calls s)) as E.
    { destruct Ho as [Ho|[Ho|Ho]]; cbn in Ho; subst o; cbn [apply_op]; unfold get_State, Snapshot, Allow;
        rewrite Hm; [|done..]. rewrite Hs.
      destruct (HalfOpenMaxProbes (cfg (breaker s)) <=? probesInflight (breaker s)) eqn:E; [done|to_prop; lia]. }
    unfold exec. rewrite E. cbn [breaker calls]. by rewrite default_some. }
  destruct (IH (exec t o s)) as [F1 F2]; [by rewrite E1..|]. by rewrite F1, F2.
Qed.

(** ** A breaker that opens after two failures, for ten nanoseconds *)
Module Demo.

Definition small : BreakerConfig := Build_BreakerConfig 2 10 1 1.
Definition at0 : system := start small 0.

Lemma small_range : config_range small.
Proof. by split. Qed.

Definition failing : list (Time * op) := [(1, OpAllow); (2, OpRecordFailure); (3, OpRecordFailure)].
Definition opened : system := run at0 failing.

Lemma breaker_invariant_witness : breaker_ok (breaker opened).
Proof. exact (breaker_invariant small 0 failing small_range). Defined.

Lemma opens_on_run_of_failures_witness :
  state (outcomes (NewCircuitBreaker small) [(1, false); (2, true); (3, false); (4, false); (5, true)]) = StateOpen.
Proof.
  apply (opens_on_run_of_failures small [(1, false); (2, true); (3, false); (4, false); (5, true)] small_range).
  exists [false; true], [true]. reflexivity.
Defined.


(** The timeout over, one probe is let through and the next call is not. *)
Definition probing : system := run opened [(13, OpDone 0 true); (14, OpAllow)].

Lemma probing_orderly : orderly_run small 0 probing.
Proof.
  unfold probing, opened, at0, failing, run. cbn [foldl fst snd].
  repeat (apply orderly_step; [|by vm_compute]). apply orderly_start.
Qed.

Lemma probes_bounded_witness : probesInflight (breaker probing) = Z.of_nat (probes probing).
Proof. apply (probes_bounded small 0 probing small_range probing_orderly). vm_compute. reflexivity. Defined.

Lemma taken_slots_block_witness : calls (run probing [(15, OpAllow); (1000, OpAllow)]) = calls probing.
Proof.
  apply (taken_slots_block probing [(15, OpAllow); (1000, OpAllow)]); [reflexivity|vm_compute; done|].
  repeat constructor.
Defined.

(** A call let through before the breaker opened, whose success arrives while it is
    half-open, closes it: the only probe has not returned yet. *)
Lemma stale_success_closes :
  let s := run opened [(14, OpAllow); (15, OpDone 1 true)] in
  state (breaker s) = StateClosed /\ calls s = [2%nat] /\
  state (breaker (run opened [(14, OpAllow)])) = StateHalfOpen /\ calls (run opened [(14, OpAllow)]) = [2%nat; 0%nat].
Proof. vm_compute. done. Qed.

(** With two slots, the end of such a call lets a third probe in. *)
Lemma stale_call_frees_slot :
  let s := run (start (Build_BreakerConfig 2 10 2 2) 0)
    ((1, OpAllow) :: failing ++ [(14, OpAllow); (15, OpAllow); (16, OpDone 2 true); (17, OpAllow)]) in
  state (breaker s) = StateHalfOpen /\ probes s = 3%nat /\ HalfOpenMaxProbes (cfg (breaker s)) = 2.
Proof. vm_compute. done. Qed.
End Demo.
End CircuitBreaker.
