(* ===== verification/RateLimiter.v ===== *)
(** * RateLimiter: request quotas of the gateway

    Models [internal/gateway/ratelimit.go]: a window and a count for each computer.
    Every method holds the mutex, so it is one function on the state; the clock is an
    argument, and readings within one process do not go back. *)
From S2P Require Import Prelude GoTime.

Module RateLimiter.
Local Open Scope Z_scope.

Definition DefaultRateLimitMaxRequests : Z := 60.
Definition DefaultRateLimitWindowSize : Z := 1 * minute.

Record RateLimiterConfig := { MaxRequests : Z; WindowSize : Z }.

Definition Resolve (c : RateLimiterConfig) : RateLimiterConfig := {|
  MaxRequests := if MaxRequests c <=? 0 then DefaultRateLimitMaxRequests else MaxRequests c;
  WindowSize := if WindowSize c <=? 0 then DefaultRateLimitWindowSize else WindowSize c |}.

Record tokenBucket := { windowStart : Time; count : Z }.

Record PerAutoputerRateLimiter := { buckets : gmap string tokenBucket; maxReqs : Z; window : Z }.

Definition NewPerAutoputerRateLimiter (maxReqs window : Z) : PerAutoputerRateLimiter :=
  Build_PerAutoputerRateLimiter ∅ maxReqs window.

Definition set_bucket (rl : PerAutoputerRateLimiter) (computerID : string) (b : tokenBucket) : PerAutoputerRateLimiter :=
  Build_PerAutoputerRateLimiter (<[computerID := b]> (buckets rl)) (maxReqs rl) (window rl).

Definition expired (rl : PerAutoputerRateLimiter) (now : Time) (b : tokenBucket) : bool :=
  window rl <=? Sub now (windowStart b).

Definition record (now : Time) (computerID : string) (dryRun : bool) (rl : PerAutoputerRateLimiter)
    : PerAutoputerRateLimiter * bool :=
  let fresh := if dryRun then (rl, true) else (set_bucket rl computerID (Build_tokenBucket now 1), true) in
  match buckets rl !! computerID with
  | None => fresh
  | Some b =>
    if expired rl now b then fresh
    else if maxReqs rl <=? count b then (rl, false)
    else if dryRun then (rl, true)
    else (set_bucket rl computerID (Build_tokenBucket (windowStart b) (wrap_i64 (count b + 1))), true)
  end.

Definition Allow (now : Time) (computerID : string) (rl : PerAutoputerRateLimiter) : PerAutoputerRateLimiter * bool :=
  record now computerID false rl.

Definition Record_ (now : Time) (computerID : string) (rl : PerAutoputerRateLimiter) : PerAutoputerRateLimiter * bool :=
  record now computerID false rl.

(** Requests used, the limit, and the time to the end of the window. *)
Definition Status (now : Time) (computerID : string) (rl : PerAutoputerRateLimiter) : Z * Z * Z :=
  match buckets rl !! computerID with
  | None => (0, maxReqs rl, window rl)
  | Some b =>
    let elapsed := Sub now (windowStart b) in
    if window rl <=? elapsed then (0, maxReqs rl, window rl)
    else (count b, maxReqs rl, wrap_i64 (window rl - elapsed))
  end.

Definition RemoveBucket (computerID : string) (rl : PerAutoputerRateLimiter) : PerAutoputerRateLimiter :=
  Build_PerAutoputerRateLimiter (delete computerID (buckets rl)) (maxReqs rl) (window rl).

(** ** Requests over time *)

(** The answers to a list of requests, in order. *)
Fixpoint answers (rl : PerAutoputerRateLimiter) (reqs : list (Time * string)) : list (Time * string * bool) :=
  match reqs with
  | [] => []
  | (now, id) :: reqs => let '(rl', ok) := Allow now id rl in (now, id, ok) :: answers rl' reqs
  end.

Fixpoint forward (now : Time) (reqs : list (Time * string)) : Prop :=
  match reqs with
  | [] => True
  | (t, _) :: reqs => now <= t /\ forward t reqs
  end.

(** When the requests of a computer were let through. *)
Definition let_through (id : string) (as_ : list (Time * string * bool)) : list Time :=
  omap (fun a => if (a.1.2 == id) && a.2 then Some a.1.1 else None) as_.

(** How many of [ts] lie in [from, to). *)
Definition within (from to : Time) (ts : list Time) : Z :=
  Z.of_nat (length (List.filter (fun t => (from <=? t) && (t <? to)) ts)).

Lemma within_app a b ts us : within a b (ts ++ us) = within a b ts + within a b us.
Proof. unfold within. rewrite List.filter_app, length_app. lia. Qed.

Lemma within_one a b t : within a b [t] = if (a <=? t) && (t <? b) then 1 else 0.
Proof. unfold within. simpl. by destruct ((a <=? t) && (t <? b)). Qed.

Lemma within_nonneg a b ts : 0 <= within a b ts.
Proof. unfold within. lia. Qed.

Lemma within_cons a b t ts : within a b (t :: ts) = (if (a <=? t) && (t <? b) then 1 else 0) + within a b ts.
Proof. change (t :: ts) with ([t] ++ ts). by rewrite within_app, within_one. Qed.

(** Split an interval, and cut it where the list ends. *)
Lemma within_split a b c ts : a <= b <= c -> within a c ts = within a b ts + within b c ts.
Proof.
  intros Hle. induction ts as [|t ts IH]; [done|]. rewrite !within_cons, IH.
  destruct (a <=? t) eqn:E1, (t <? c) eqn:E2, (t <? b) eqn:E3, (b <=? t) eqn:E4; to_prop; simpl; lia.
Qed.

Lemma within_none a b ts : Forall (fun t => t < a) ts -> within a b ts = 0.
Proof.
  induction 1 as [|t ts Ht _ IH]; [done|]. rewrite within_cons, IH.
  destruct (a <=? t) eqn:E; to_prop; simpl; lia.
Qed.

Lemma within_mono a a' b b' ts : a' <= a -> b <= b' -> within a b ts <= within a' b' ts.
Proof.
  intros Ha Hb. induction ts as [|t ts IH]; [done|]. rewrite !within_cons.
  destruct (a <=? t) eqn:E1, (t <? b) eqn:E2, (a' <=? t) eqn:E3, (t <? b') eqn:E4; to_prop; simpl; lia.
Qed.

(** ** The quota of one computer *)
Section Quota.
Context (n w : Z) (id : string) (Hn : 1 <= n < 2 ^ 63) (Hw : 1 <= w < 2 ^ 63).

(** What a bucket says of the times [ts] that were let through until [now]. *)
Record bucket_ok (b : tokenBucket) (now : Time) (ts : list Time) : Prop := {
  b_start : windowStart b <= now;
  b_count : 1 <= count b <= n;
  b_past : Forall (fun t => t < now + 1 /\ t < windowStart b + w) ts;
  b_used : within (windowStart b) (now + 1) ts = count b;
  b_after : within (windowStart b + 1) (now + 1) ts <= count b - 1;
  b_before : forall t, windowStart b - w < t <= windowStart b -> within t (windowStart b) ts <= n - 1;
  b_bound : forall t, within t (t + w) ts <= 2 * n - 1;
}.

Record quota (rl : PerAutoputerRateLimiter) (now : Time) (ts : list Time) : Prop := {
  q_max : maxReqs rl = n;
  q_window : window rl = w;
  q_bucket : match buckets rl !! id with None => ts = [] | Some b => bucket_ok b now ts end;
}.

Lemma past_before (b : tokenBucket) now ts :
  Forall (fun t => t < now + 1 /\ t < windowStart b + w) ts -> Forall (fun t => t < now + 1) ts.
Proof. intros H. eapply Forall_impl; [exact H|]. by intros t [? _]. Qed.

(** What came in from [a] on, up to any later point. *)
Lemma past_within (b : tokenBucket) now ts a c :
  Forall (fun t => t < now + 1 /\ t < windowStart b + w) ts -> a <= now + 1 <= c ->
  within a c ts = within a (now + 1) ts.
Proof.
  intros H Hle. rewrite (within_split a (now + 1) c) by done.
  rewrite (within_none (now + 1)) by (by eapply past_before). lia.
Qed.

Lemma bucket_wait b now now' ts : bucket_ok b now ts -> now <= now' -> bucket_ok b now' ts.
Proof.
  intros [Hs Hc Hp Hu Ha Hb Hd] Hle. split; try done; [lia| | |].
  - eapply Forall_impl; [exact Hp|]. intros t [? ?]. split; lia.
  - rewrite (past_within b now) by (done || lia). done.
  - rewrite (past_within b now) by (done || lia). done.
Qed.

Lemma bucket_new now : bucket_ok (Build_tokenBucket now 1) now [now].
Proof.
  split; cbn [windowStart count]; try lia.
  - repeat constructor; lia.
  - rewrite within_one. rewrite (proj2 (Z.leb_le _ _)), (proj2 (Z.ltb_lt _ _)) by lia. done.
  - rewrite within_one. destruct (now + 1 <=? now) eqn:E; to_prop; simpl; lia.
  - intros t Ht. rewrite within_one. destruct (now <? now) eqn:E; to_prop; [lia|]. rewrite andb_false_r. lia.
  - intros t. rewrite within_one. destruct (_ && _); lia.
Qed.

(** One more request in the window of the bucket. *)
Lemma bucket_take b now ts :
  bucket_ok b now ts -> now - windowStart b < w -> count b < n ->
  bucket_ok (Build_tokenBucket (windowStart b) (count b + 1)) now (ts ++ [now]).
Proof.
  intros [Hs Hc Hp Hu Ha Hb Hd] Hin Hlt. split; cbn [windowStart count]; try lia.
  - apply Forall_app. split; [done|]. repeat constructor; lia.
  - rewrite within_app, within_one, Hu. rewrite (proj2 (Z.leb_le _ _)), (proj2 (Z.ltb_lt _ _)) by lia. done.
  - rewrite within_app, within_one. destruct (_ && _); lia.
  - intros t Ht. rewrite within_app, within_one. specialize (Hb t Ht).
    destruct (now <? windowStart b) eqn:E; to_prop; [lia|]. rewrite andb_false_r. lia.
  - intros t. rewrite within_app, within_one. specialize (Hd t).
    destruct (t <=? now) eqn:E1; [|simpl; lia]. destruct (now <? t + w) eqn:E2; [|simpl; lia]. to_prop. simpl.
    rewrite (past_within b now) by (done || lia).
    destruct (decide (t <= windowStart b)) as [Hts|Hts].
    + rewrite (within_split t (windowStart b)) by lia. rewrite Hu. specialize (Hb t ltac:(lia)). lia.
    + pose proof (within_mono t (windowStart b) (now + 1) (now + 1) ts ltac:(lia) ltac:(lia)). lia.
Qed.

(** The first request after the window of the bucket. *)
Lemma bucket_renew b now ts :
  bucket_ok b now ts -> w <= now - windowStart b -> bucket_ok (Build_tokenBucket now 1) now (ts ++ [now]).
Proof.
  intros [Hs Hc Hp Hu Ha Hb Hd] Hout.
  assert (Forall (fun t => t < now) ts) as Hnow by (eapply Forall_impl; [exact Hp|]; intros t [? ?]; lia).
  assert (forall t c, now - w < t -> now <= c -> within t c ts <= n - 1) as Hrest.
  { intros t c Ht Hc'. pose proof (within_mono t (windowStart b + 1) c (Z.max c (now + 1)) ts ltac:(lia) ltac:(lia)).
    rewrite (past_within b now ts (windowStart b + 1)) in H by (done || lia). lia. }
  split; cbn [windowStart count]; try lia.
  - apply Forall_app. split; [|by repeat constructor; lia]. eapply Forall_impl; [exact Hnow|]. intros t Ht. simpl in Ht. split; lia.
  - rewrite within_app, within_none by done. apply bucket_new.
  - rewrite within_app, within_none by (eapply Forall_impl; [exact Hnow|]; intros t Ht; simpl in Ht; lia).
    pose proof (b_after _ _ _ (bucket_new now)) as H. exact H.
  - intros t Ht. rewrite within_app, within_one. pose proof (Hrest t now ltac:(lia) ltac:(lia)).
    destruct (now <? now) eqn:E; to_prop; [lia|]. rewrite andb_false_r. lia.
  - intros t. rewrite within_app, within_one. specialize (Hd t).
    destruct (t <=? now) eqn:E1; [|simpl; lia]. destruct (now <? t + w) eqn:E2; [|simpl; lia]. to_prop. simpl.
    pose proof (Hrest t (t + w) ltac:(lia) ltac:(lia)). lia.
Qed.

(** One request. *)
Lemma quota_request rl now now' ts id' :
  quota rl now ts -> now <= now' ->
  let '(rl', ok) := Allow now' id' rl in
  quota rl' now' (ts ++ (if (id' == id) && ok then [now'] else [])) /\
  (id' = id -> ok = false -> n <= within (now' - w + 1) (now' + 1) ts).
Proof.
  intros [Hm Hwin Hb] Hle. unfold Allow, record, expired. rewrite Hm, Hwin.
  destruct (decide (id' = id)) as [->|Hne]; cycle 1.
  { rewrite bool_decide_eq_false_2 by done. cbn [andb]. rewrite app_nil_r.
    assert (forall b, quota (set_bucket rl id' b) now' ts) as Hset.
    { intros b. split; [done..|]. cbn [buckets set_bucket]. rewrite lookup_insert_ne by done.
      destruct (buckets rl !! id); [by eapply bucket_wait|done]. }
    assert (quota rl now' ts) as Hid.
    { split; [done..|]. destruct (buckets rl !! id); [by eapply bucket_wait|done]. }
    destruct (buckets rl !! id') as [b|]; [|done].
    destruct (w <=? Sub now' (windowStart b)); [done|]. by destruct (n <=? count b). }
  rewrite bool_decide_eq_true_2 by done. cbn [andb].
  destruct (buckets rl !! id) as [b|] eqn:E; cycle 1.
  { subst ts. split; [|done]. split; [done..|]. cbn [buckets set_bucket]. rewrite lookup_insert_eq. apply bucket_new. }
  pose proof (bucket_wait b now now' ts Hb Hle) as Hb'. pose proof Hb' as [Hs Hc Hp Hu _ _ _].
  assert ((w <=? Sub now' (windowStart b)) = (w <=? now' - windowStart b)) as ->.
  { unfold Sub. destruct (w <=? now' - windowStart b) eqn:F; [apply Z.leb_le|apply Z.leb_gt]; to_prop; lia. }
  destruct (w <=? now' - windowStart b) eqn:F; to_prop.
  { split; [|done]. split; [done..|]. cbn [buckets set_bucket]. rewrite lookup_insert_eq. by apply (bucket_renew b). }
  destruct (n <=? count b) eqn:G; to_prop.
  - rewrite app_nil_r. split; [split; [done..|]; by rewrite E|]. intros _ _.
    pose proof (within_mono (windowStart b) (now' - w + 1) (now' + 1) (now' + 1) ts ltac:(lia) ltac:(lia)). lia.
  - split; [|done]. split; [done..|]. cbn [buckets set_bucket]. rewrite lookup_insert_eq.
    rewrite wrap_i64_small by (unfold is_i64; lia). by apply bucket_take.
Qed.

Lemma quota_answers rl now ts reqs :
  quota rl now ts -> forward now reqs ->
  exists rl' now', quota rl' now' (ts ++ let_through id (answers rl reqs)).
Proof.
  revert rl now ts. induction reqs as [|[t id'] reqs IH]; intros rl now ts Hq Hf.
  - exists rl, now. cbn. by rewrite app_nil_r.
  - destruct Hf as [Hle Hf]. cbn [answers]. pose proof (quota_request rl now t ts id' Hq Hle) as Hr.
    destruct (Allow t id' rl) as [rl' ok]. destruct Hr as [Hr _].
    destruct (IH _ _ _ Hr Hf) as (rl'' & now'' & Hq''). exists rl'', now''.
    unfold let_through in *. cbn [omap list_omap fst snd].
    destruct ((id' == id) && ok); [|by rewrite app_nil_r in Hq'']. by rewrite <-(assoc_L (++)) in Hq''.
Qed.

Lemma quota_new t0 : quota (NewPerAutoputerRateLimiter n w) t0 [].
Proof. by split. Qed.

End Quota.

(** [C33] A limiter for [n] requests per window of length [w] lets at most [2 n - 1]
    requests of a computer through in any interval of length [w], wherever it starts:
    the windows are fixed, so this is not [n]. *)
Theorem interval_bound n w t0 id reqs t :
  1 <= n < 2 ^ 63 -> 1 <= w < 2 ^ 63 -> forward t0 reqs ->
  within t (t + w) (let_through id (answers (NewPerAutoputerRateLimiter n w) reqs)) <= 2 * n - 1.
Proof.
  intros Hn Hw Hf.
  destruct (quota_answers n w id Hn Hw _ _ _ _ (quota_new n w id t0) Hf) as (rl & now & [_ _ Hb]).
  cbn [app] in Hb. destruct (buckets rl !! id) as [b|]; [by apply Hb|]. rewrite Hb. unfold within. simpl. lia.
Qed.

(** The limiter after some requests. *)
Definition after (rl : PerAutoputerRateLimiter) (reqs : list (Time * string)) : PerAutoputerRateLimiter :=
  foldl (fun rl r => (Allow r.1 r.2 rl).1) rl reqs.

Lemma quota_after n w id rl now ts reqs :
  1 <= n < 2 ^ 63 -> 1 <= w < 2 ^ 63 -> quota n w id rl now ts -> forward now reqs ->
  quota n w id (after rl reqs) (List.last (map fst reqs) now) (ts ++ let_through id (answers rl reqs)).
Proof.
  intros Hn Hw. revert rl now ts. induction reqs as [|[t id'] reqs IH]; intros rl now ts Hq Hf.
  - cbn. by rewrite app_nil_r.
  - destruct Hf as [Hle Hf]. pose proof (quota_request n w id Hn Hw rl now t ts id' Hq Hle) as Hr.
    cbn [answers after foldl fst snd]. destruct (Allow t id' rl) as [rl' ok]. destruct Hr as [Hr _].
    pose proof (IH _ _ _ Hr Hf) as H. unfold let_through in *. cbn [omap list_omap fst snd].
    rewrite <-(assoc_L (++)) in H.
    assert (List.last (map fst ((t, id') :: reqs)) now = List.last (map fst reqs) t) as ->.
    { cbn [map fst]. destruct (map fst reqs) as [|x l]; [done|].
      change (List.last (x :: l) now = List.last (x :: l) t). clear. revert x. induction l; intros x; [done|]. apply IHl. }
    by destruct ((id' == id) && ok).
Qed.

(** A request is refused only when [n] requests of the computer were let through in
    the window's length before it. *)
Theorem refused_only_when_used n w t0 id reqs t :
  1 <= n < 2 ^ 63 -> 1 <= w < 2 ^ 63 -> forward t0 (reqs ++ [(t, id)]) ->
  let rl := NewPerAutoputerRateLimiter n w in
  (Allow t id (after rl reqs)).2 = false ->
  n <= within (t - w + 1) (t + 1) (let_through id (answers rl reqs)).
Proof.
  intros Hn Hw Hf rl Hr.
  assert (forward t0 reqs /\ List.last (map fst reqs) t0 <= t) as [Hf' Hle].
  { clear Hr. revert t0 Hf. induction reqs as [|[x y] reqs IH]; intros t0 Hf; [by destruct Hf|].
    destruct Hf as [H1 H2]. destruct (IH x H2) as [H3 H4]. split; [done|]. cbn [map fst].
    destruct (map fst reqs) as [|z l]; [done|]. change (List.last (z :: l) t0 <= t).
    replace (List.last (z :: l) t0) with (List.last (z :: l) x); [done|].
    clear. revert z. induction l; intros z; [done|]. apply IHl. }
  pose proof (quota_after n w id rl t0 [] reqs Hn Hw (quota_new n w id t0) Hf') as Hq.
  pose proof (quota_request n w id Hn Hw _ _ t _ id Hq Hle) as H.
  destruct (Allow t id (after rl reqs)) as [rl' ok]. cbn in Hr. by apply H.
Qed.

(** What a computer is answered depends on its own requests only: the requests of
    others neither use up its quota nor reset it. *)
Theorem answers_isolated rl id reqs :
  List.filter (fun a => a.1.2 == id) (answers rl reqs) = answers rl (List.filter (fun r => r.2 == id) reqs).
Proof.
  assert (forall rl rl', buckets rl !! id = buckets rl' !! id -> maxReqs rl = maxReqs rl' -> window rl = window rl' ->
    List.filter (fun a => a.1.2 == id) (answers rl reqs) = answers rl' (List.filter (fun r => r.2 == id) reqs)) as H;
    [|by apply H].
  induction reqs as [|[t id'] reqs IH]; intros rl1 rl2 Hb Hm Hw; [done|]. cbn [answers List.filter snd].
  destruct (decide (id' = id)) as [->|Hne].
  - rewrite (bool_decide_eq_true_2 (id = id)) by done. cbn [answers].
    unfold Allow, record, expired. rewrite <-Hb, <-Hm, <-Hw.
    assert (forall b : tokenBucket, buckets (set_bucket rl1 id b) !! id = buckets (set_bucket rl2 id b) !! id) as Hset.
    { intros b. cbn. by rewrite !lookup_insert_eq. }
    destruct (buckets rl1 !! id) as [b|] eqn:E;
      [destruct (window rl1 <=? Sub t (windowStart b)); [|destruct (maxReqs rl1 <=? count b)]|];
      cbn [List.filter fst snd]; rewrite bool_decide_eq_true_2 by done; f_equal; apply IH; by rewrite ?E.
  - rewrite (bool_decide_eq_false_2 (id' = id)) by done.
    destruct (Allow t id' rl1) as [rl' ok] eqn:Ha. cbn [List.filter fst snd].
    rewrite bool_decide_eq_false_2 by done.
    assert (buckets rl' !! id = buckets rl1 !! id /\ maxReqs rl' = maxReqs rl1 /\ window rl' = window rl1)
      as (E1 & E2 & E3).
    { assert (forall b, buckets (set_bucket rl1 id' b) !! id = buckets rl1 !! id) as Hset
        by (intros b; cbn; by rewrite lookup_insert_ne).
      unfold Allow, record in Ha. destruct (buckets rl1 !! id') as [b|];
        [destruct (expired rl1 t b); [|destruct (maxReqs rl1 <=? count b)]|]; injection Ha as <- <-;
        rewrite ?Hset; done. }
    apply IH; congruence.
Qed.

(** ** Witnesses *)
Module Demo.

(** A first request opens the window; the rest of its quota and all of the next one
    go through around its end. *)
Definition burst (n w : Z) : list (Time * string) :=
  (0, "c") :: replicate (Z.to_nat n - 1) (w - 1, "c") ++ replicate (Z.to_nat n) (w, "c").

Definition default : RateLimiterConfig := Resolve (Build_RateLimiterConfig 0 0).

(** With the default configuration, 119 requests within one nanosecond. *)
Lemma burst_reaches_bound :
  within (60 * second - 1) (60 * second + 1)
    (let_through "c" (answers (NewPerAutoputerRateLimiter (MaxRequests default) (WindowSize default))
                        (burst (MaxRequests default) (WindowSize default)))) = 119.
Proof. vm_compute. reflexivity. Qed.

Lemma interval_bound_witness :
  within 9 19 (let_through "c" (answers (NewPerAutoputerRateLimiter 2 10) (burst 2 10))) <= 3.
Proof. apply (interval_bound 2 10 0 "c" (burst 2 10) 9); [done|done|vm_compute; done]. Defined.

Lemma refused_only_when_used_witness :
  2 <= within (-5) 5 (let_through "c" (answers (NewPerAutoputerRateLimiter 2 10) [(0, "c"); (1, "d"); (3, "c")])).
Proof.
  apply (refused_only_when_used 2 10 0 "c" [(0, "c"); (1, "d"); (3, "c")] 4); [done|done|vm_compute; done|].
  vm_compute. reflexivity.
Defined.
End Demo.
End RateLimiter.
