(* ===== verification/Warmness.v ===== *)
(** * Warmness: which idle computers the host may hibernate

    Models [internal/vmctl/warmness_policy.go] with the records of
    [internal/vmctl/ownership.go] it reads. Pointers that may be nil are options. *)
From S2P Require Import Prelude GoStrings GoTime.
From Stdlib Require Import Ascii.

Module Warmness.
Local Open Scope Z_scope.

(** ** The ownership records *)
Definition VMState := string.
Definition VMStateActive : VMState := "active".
Definition VMKind := string.
Definition WarmnessClass := string.
Definition WarmnessClassPublicPlatform : WarmnessClass := "public_platform".
Definition WarmnessClassPrimary : WarmnessClass := "primary".
Definition WarmnessClassPremiumAlwaysOn : WarmnessClass := "premium_always_on".
Definition WarmnessClassCriticalProtected : WarmnessClass := "critical_protected".

Record MaintenanceHold := { Reason : string; HeldBy : string; HeldAt : Time }.

Record VMOwnership := {
  VMID : string; ComputerID : string; UserID : string; DesktopID : string; Kind : VMKind;
  Own_WarmnessClass : WarmnessClass; ComputerURL : string; Own_State : VMState; CreatedAt : Time;
  LastActiveAt : Time; AutoputerCredential : string; Epoch : Z; StoppedBy : string;
  HoldStatus : option MaintenanceHold; Actuator : string; DivergenceStatus : string; PlatformBaseRef : string }.

Definition IsReady (o : VMOwnership) : bool := Own_State o == VMStateActive.
Definition IsHeld (o : option VMOwnership) : bool :=
  match o with None => false | Some o => bool_decide (is_Some (HoldStatus o)) end.

(** ** The policy *)
Definition PrimaryKeepaliveModeOff : string := "off".
Definition PrimaryKeepaliveModeUnderCapacity : string := "under-capacity".

(** A nil map is [None]. *)
Record WarmnessPolicyConfig := { PrimaryKeepaliveMode : string; AlwaysOnUserIDs : option (gmap string bool) }.

Definition DefaultWarmnessPolicyConfig : WarmnessPolicyConfig :=
  Build_WarmnessPolicyConfig PrimaryKeepaliveModeOff (Some ∅).

(** [strings.ToLower] as a comparison with ASCII text sees it: beside the ASCII letters,
    U+0130 and U+212A are the runes whose lower case is ASCII. *)
Fixpoint lower_chars (l : list ascii) : list ascii :=
  match l with
  | [] => []
  | a :: l' =>
    if in_range 65 90 a then byte_of (code a + 32) :: lower_chars l' else
    match l' with
    | b :: l'' =>
      if ((code a =? 196) && (code b =? 176))%N then "i"%char :: lower_chars l'' else
      match l'' with
      | c :: l''' =>
        if ((code a =? 226) && (code b =? 132) && (code c =? 170))%N then "k"%char :: lower_chars l'''
        else a :: lower_chars l'
      | [] => a :: lower_chars l'
      end
    | [] => a :: lower_chars l'
    end
  end.
Definition ToLower (s : string) : string := of_chars (lower_chars (chars s)).

Definition normalizeWarmnessPolicyConfig (cfg : WarmnessPolicyConfig) : WarmnessPolicyConfig :=
  let mode := TrimSpace (ToLower (PrimaryKeepaliveMode cfg)) in
  {| PrimaryKeepaliveMode :=
       if bool_decide (mode ∈ ["under_capacity"; "under capacity"; "keep-primary"; "keep_primary";
                               PrimaryKeepaliveModeUnderCapacity])
       then PrimaryKeepaliveModeUnderCapacity else PrimaryKeepaliveModeOff;
     AlwaysOnUserIDs := Some (foldl (fun m kv =>
       let userID := TrimSpace kv.1 in if (userID != "") && kv.2 then <[userID := true]> m else m) ∅
       (map_to_list (default ∅ (AlwaysOnUserIDs cfg)))) |}.

Record WarmnessPolicyConfigSummary := { Sum_PrimaryKeepaliveMode : string; AlwaysOnUserCount : Z }.

Definition warmnessPolicySummary (cfg : WarmnessPolicyConfig) : WarmnessPolicyConfigSummary :=
  let cfg := normalizeWarmnessPolicyConfig cfg in
  Build_WarmnessPolicyConfigSummary (PrimaryKeepaliveMode cfg)
    (Z.of_nat (size (default ∅ (AlwaysOnUserIDs cfg)))).

Definition warmnessClassForOwnership (own : option VMOwnership) (cfg : WarmnessPolicyConfig) : WarmnessClass :=
  match own with
  | None => ""
  | Some own =>
    let cfg := normalizeWarmnessPolicyConfig cfg in
    if default false (default ∅ (AlwaysOnUserIDs cfg) !! TrimSpace (UserID own)) then WarmnessClassPremiumAlwaysOn
    else if bool_decide (Own_WarmnessClass own ∈ [WarmnessClassPremiumAlwaysOn; WarmnessClassPrimary;
                           WarmnessClassCriticalProtected; WarmnessClassPublicPlatform])
    then Own_WarmnessClass own else WarmnessClassPrimary
  end.

Definition warmnessPriority (class : WarmnessClass) : Z :=
  if class == WarmnessClassPrimary then 20
  else if class == WarmnessClassPublicPlatform then 30
  else if class == WarmnessClassPremiumAlwaysOn then 90
  else if class == WarmnessClassCriticalProtected then 100
  else 50.

Definition warmnessClassProtected (class : WarmnessClass) : bool :=
  (class == WarmnessClassPublicPlatform) || (class == WarmnessClassPremiumAlwaysOn)
  || (class == WarmnessClassCriticalProtected).

Record WarmnessHealthSummary := {
  Health_Policy : WarmnessPolicyConfigSummary; ByClass : gmap string Z; ActiveByClass : gmap string Z;
  IdleEligibleByClass : gmap string Z }.

(** [m[k]++] *)
Definition incr (k : string) (m : gmap string Z) : gmap string Z := <[k := default 0 (m !! k) + 1]> m.

Definition count_classes (cfg : WarmnessPolicyConfig) (owns : list (option VMOwnership)) (m : gmap string Z)
    : gmap string Z :=
  foldl (fun m own => match own with
                      | None => m
                      | Some _ => let class := warmnessClassForOwnership own cfg in
                                  if class == "" then m else incr class m
                      end) m owns.

Definition is_active (own : option VMOwnership) : bool :=
  match own with Some o => Own_State o == VMStateActive | None => false end.

Definition warmnessSummary (cfg : WarmnessPolicyConfig) (ownerships idleEligible : list (option VMOwnership))
    : WarmnessHealthSummary :=
  let cfg := normalizeWarmnessPolicyConfig cfg in
  {| Health_Policy := warmnessPolicySummary cfg;
     ByClass := count_classes cfg ownerships ∅;
     ActiveByClass := count_classes cfg (List.filter is_active ownerships) ∅;
     IdleEligibleByClass := count_classes cfg idleEligible ∅ |}.

(** ** Idle candidates *)
Record idleOwnershipCandidate := { own : VMOwnership; class : WarmnessClass; priority : Z; idle : Z }.

(** What the loop makes of one record. [pressure] is the pressure flag of the host sample. *)
Definition candidate_of (cfg : WarmnessPolicyConfig) (pressure : bool) (idleTimeout : Z) (now : Time)
    (o : option VMOwnership) : option idleOwnershipCandidate :=
  match o with
  | None => None
  | Some own =>
    if Own_State own != VMStateActive then None else
    if IsHeld o then None else
    if IsZero (LastActiveAt own) then None else
    let idle := Sub now (LastActiveAt own) in
    if idle <=? idleTimeout then None else
    let class := warmnessClassForOwnership o cfg in
    if warmnessClassProtected class then None else
    if (class == WarmnessClassPrimary) && (PrimaryKeepaliveMode cfg == PrimaryKeepaliveModeUnderCapacity)
       && negb pressure then None else
    Some (Build_idleOwnershipCandidate own class (warmnessPriority class) idle)
  end.

Definition candidate_less (left right : idleOwnershipCandidate) : bool :=
  if negb (priority left =? priority right) then priority left <? priority right
  else if negb (idle left =? idle right) then idle right <? idle left
  else String.ltb (VMID (own left)) (VMID (own right)).

Definition idleOwnershipCandidates (ownerships : list (option VMOwnership)) (cfg : WarmnessPolicyConfig)
    (pressure : bool) (idleTimeout : Z) (now : Time) : list idleOwnershipCandidate :=
  let cfg := normalizeWarmnessPolicyConfig cfg in
  let candidates := sort_slice candidate_less (omap (candidate_of cfg pressure idleTimeout now) ownerships) in
  if (PrimaryKeepaliveMode cfg == PrimaryKeepaliveModeUnderCapacity) && pressure
     && existsb (fun c => class c != WarmnessClassPrimary) candidates
  then List.filter (fun c => class c != WarmnessClassPrimary) candidates
  else candidates.

(** ** Normalization *)
Definition enabled_step (m : gmap string bool) (kv : string * bool) : gmap string bool :=
  let userID := TrimSpace kv.1 in if (userID != "") && kv.2 then <[userID := true]> m else m.

Lemma enabled_lookup l m k :
  foldl enabled_step m l !! k = Some true <->
  m !! k = Some true \/ k <> "" /\ exists k', TrimSpace k' = k /\ (k', true) ∈ l.
Proof.
  revert m. induction l as [|[k0 b] l IH]; intros m; cbn [foldl].
  - split; [by left|]. intros [|(_ & k' & _ & []%not_elem_of_nil)]. done.
  - rewrite IH. unfold enabled_step at 1. cbn [fst snd].
    assert ((if (TrimSpace k0 != "") && b then <[TrimSpace k0 := true]> m else m) !! k = Some true <->
      m !! k = Some true \/ k <> "" /\ TrimSpace k0 = k /\ b = true) as ->.
    { destruct (decide (TrimSpace k0 = "")) as [E|E]; [rewrite bool_decide_eq_true_2 by done|rewrite bool_decide_eq_false_2 by done];
        cbn [negb andb]; [split; [by left|]; intros [|(? & <- & _)]; done|].
      destruct b; [|split; [by left|]; intros [|(_ & _ & ?)]; done].
      destruct (decide (TrimSpace k0 = k)) as [<-|Hne]; [rewrite lookup_insert_eq|rewrite lookup_insert_ne by done].
      - split; [intros _; by right|done].
      - split; [by left|]. intros [|(_ & ? & _)]; done. }
    setoid_rewrite elem_of_cons. split.
    + intros [[?|(? & ? & ->)]|(? & k' & ? & ?)]; [by left|right; split; [done|]..]; [exists k0|exists k']; auto.
    + intros [?|(? & k' & ? & [[= -> <-]|?])]; [by left; left|left; right; auto|right]. eauto.
Qed.

Lemma enabled_true l m k b : (forall k b, m !! k = Some b -> b = true) -> foldl enabled_step m l !! k = Some b -> b = true.
Proof.
  revert m. induction l as [|[k0 b0] l IH]; intros m Hm; [apply Hm|]. cbn [foldl]. apply IH.
  intros k' b'. unfold enabled_step. cbn [fst snd]. destruct ((TrimSpace k0 != "") && b0); [|apply Hm].
  rewrite lookup_insert_Some. intros [[_ <-]|[_ ?]]; [done|by eapply Hm].
Qed.

Definition enabled_ids (cfg : WarmnessPolicyConfig) : gmap string bool := default ∅ (AlwaysOnUserIDs cfg).

(** The users that are always on after normalization. *)
Lemma normalized_lookup cfg k :
  enabled_ids (normalizeWarmnessPolicyConfig cfg) !! k = Some true <->
  k <> "" /\ exists k', TrimSpace k' = k /\ enabled_ids cfg !! k' = Some true.
Proof.
  unfold enabled_ids at 1. cbn [normalizeWarmnessPolicyConfig AlwaysOnUserIDs default from_option id].
  change (foldl _ ∅ _) with (foldl enabled_step ∅ (map_to_list (enabled_ids cfg))). rewrite enabled_lookup.
  rewrite lookup_empty. setoid_rewrite elem_of_map_to_list. split; [intros [|?]; done|by right].
Qed.

Lemma normalized_true cfg k b : enabled_ids (normalizeWarmnessPolicyConfig cfg) !! k = Some b -> b = true.
Proof.
  unfold enabled_ids at 1. cbn [normalizeWarmnessPolicyConfig AlwaysOnUserIDs default from_option id].
  change (foldl _ ∅ _) with (foldl enabled_step ∅ (map_to_list (enabled_ids cfg))).
  apply enabled_true. intros k' b'. by rewrite lookup_empty.
Qed.

(** Normalizing again changes nothing: the code normalizes at every use. *)
Lemma normalize_idempotent cfg :
  normalizeWarmnessPolicyConfig (normalizeWarmnessPolicyConfig cfg) = normalizeWarmnessPolicyConfig cfg.
Proof.
  set (n := normalizeWarmnessPolicyConfig cfg).
  assert (PrimaryKeepaliveMode (normalizeWarmnessPolicyConfig n) = PrimaryKeepaliveMode n) as H1.
  { unfold n, normalizeWarmnessPolicyConfig. cbn [PrimaryKeepaliveMode].
    match goal with |- context [TrimSpace (ToLower (if ?b then _ else _))] => generalize b end.
    intros []; vm_compute; reflexivity. }
  assert (enabled_ids (normalizeWarmnessPolicyConfig n) = enabled_ids n) as H2.
  { apply map_eq. intros k. apply option_eq. intros b.
    destruct (decide (b = true)) as [->|Hb].
    - rewrite normalized_lookup. unfold n. setoid_rewrite normalized_lookup. split.
      + intros (Hk & k' & <- & _ & k'' & <- & Hl). rewrite TrimSpace_idemp in *. eauto.
      + intros (Hk & k' & <- & Hl). split; [done|]. exists (TrimSpace k'). rewrite TrimSpace_idemp. eauto.
    - split; intros H; destruct Hb; by eapply normalized_true. }
  assert (AlwaysOnUserIDs (normalizeWarmnessPolicyConfig n) = Some (enabled_ids (normalizeWarmnessPolicyConfig n)) /\
    AlwaysOnUserIDs n = Some (enabled_ids n)) as [H3 H4] by done.
  rewrite H2, <-H4 in H3. clear H2 H4. clearbody n.
  destruct (normalizeWarmnessPolicyConfig n), n. cbn in *. congruence.
Qed.

(** ** The candidates *)

(** What the sweeper may hibernate: an active computer that is not held, was used once
    and not within the timeout, is in no protected class, and, when primary computers
    are kept under capacity, only under pressure. *)
Record hibernatable (cfg : WarmnessPolicyConfig) (pressure : bool) (idleTimeout : Z) (now : Time) (own : VMOwnership)
    : Prop := {
  h_active : Own_State own = VMStateActive;
  h_free : HoldStatus own = None;
  h_used : LastActiveAt own <> 0;
  h_idle : idleTimeout < Sub now (LastActiveAt own);
  h_class : warmnessClassForOwnership (Some own) cfg = WarmnessClassPrimary;
  h_pressure : PrimaryKeepaliveMode cfg = PrimaryKeepaliveModeUnderCapacity -> pressure = true;
}.

Lemma class_cases own cfg :
  In (warmnessClassForOwnership (Some own) cfg)
    [WarmnessClassPremiumAlwaysOn; WarmnessClassPrimary; WarmnessClassCriticalProtected; WarmnessClassPublicPlatform].
Proof.
  unfold warmnessClassForOwnership. destruct (default false _); [by left|].
  case_bool_decide as H; [by apply list_elem_of_In|]. right. by left.
Qed.

(** The classes of ownerships that are not protected are one. *)
Lemma unprotected_primary own cfg :
  warmnessClassProtected (warmnessClassForOwnership (Some own) cfg) = false ->
  warmnessClassForOwnership (Some own) cfg = WarmnessClassPrimary.
Proof. by destruct (class_cases own cfg) as [<-|[<-|[<-|[<-|[]]]]]. Qed.

Lemma candidate_of_spec cfg pressure T now o c :
  candidate_of cfg pressure T now o = Some c <->
  exists own, o = Some own /\ hibernatable cfg pressure T now own /\
    c = Build_idleOwnershipCandidate own WarmnessClassPrimary 20 (Sub now (LastActiveAt own)).
Proof.
  destruct o as [o|]; cbn [candidate_of]; [|split; [done|]; by intros (? & ? & _)]. split.
  - destruct (bool_decide (Own_State o = VMStateActive)) eqn:H1; [|done]. cbn [negb].
    destruct (IsHeld (Some o)) eqn:H2; [done|]. destruct (IsZero (LastActiveAt o)) eqn:H3; [done|].
    destruct (Sub now (LastActiveAt o) <=? T) eqn:H4; [done|].
    destruct (warmnessClassProtected (warmnessClassForOwnership (Some o) cfg)) eqn:H5; [done|].
    apply unprotected_primary in H5. rewrite H5.
    destruct (_ && _ && negb pressure) eqn:H6; [done|]. intros [= <-]. exists o. split; [done|]. split; [|done].
    unfold IsZero in H3. cbn [IsHeld] in H2. to_prop. split; try done.
    + by apply eq_None_not_Some.
    + intros Hm. destruct pressure; [done|]. rewrite Hm in H6. by vm_compute in H6.
  - intros (own & [= <-] & [H1 H2 H3 H4 H5 H6] & ->). rewrite H1, H5, bool_decide_eq_true_2 by done.
    cbn [negb IsHeld]. rewrite H2. rewrite bool_decide_eq_false_2 by (by intros [? ?]).
    unfold IsZero. rewrite (proj2 (Z.eqb_neq _ _) H3). rewrite (proj2 (Z.leb_gt _ _) H4).
    change (warmnessClassProtected WarmnessClassPrimary) with false. cbn [negb].
    destruct (bool_decide (PrimaryKeepaliveMode cfg = _)) eqn:E; [|by rewrite andb_false_r].
    apply bool_decide_eq_true in E. rewrite (H6 E). by rewrite andb_false_r.
Qed.

(** The filter on lower classes never has anything to do. *)
Lemma candidates_unfiltered owns cfg pressure T now :
  idleOwnershipCandidates owns cfg pressure T now =
  sort_slice candidate_less (omap (candidate_of (normalizeWarmnessPolicyConfig cfg) pressure T now) owns).
Proof.
  unfold idleOwnershipCandidates. set (cs := sort_slice _ _).
  assert (existsb (fun c => class c != WarmnessClassPrimary) cs = false) as ->; [|by rewrite andb_false_r].
  apply not_true_is_false. intros (c & Hc & Hne)%existsb_exists. apply list_elem_of_In in Hc. unfold cs in Hc.
  rewrite elem_of_sort_slice in Hc. apply list_elem_of_omap in Hc as (o & _ & Ho).
  apply candidate_of_spec in Ho as (? & _ & _ & ->). by vm_compute in Hne.
Qed.

(** The sweeper's candidates are exactly the hibernatable computers: no held,
    protected or recently used one, no primary one that is kept while there is room,
    and none of the others left out. *)
Theorem idle_candidates_exact owns cfg pressure T now o :
  o ∈ own <$> idleOwnershipCandidates owns cfg pressure T now <->
  Some o ∈ owns /\ hibernatable (normalizeWarmnessPolicyConfig cfg) pressure T now o.
Proof.
  rewrite candidates_unfiltered, list_elem_of_fmap. setoid_rewrite elem_of_sort_slice.
  setoid_rewrite list_elem_of_omap. split.
  - intros (c & -> & o' & Hin & (own & -> & Hh & ->)%candidate_of_spec). done.
  - intros [Hin Hh]. eexists. split; [|exists (Some o); split; [exact Hin|]; apply candidate_of_spec; eauto]. done.
Qed.

(** ** Their order *)
Definition candidate_key (c : idleOwnershipCandidate) : Z * (Z * string) := (priority c, (- idle c, VMID (own c))).
Definition key_ltb : Z * (Z * string) -> Z * (Z * string) -> bool := pair_ltb Z.ltb (pair_ltb Z.ltb String.ltb).

#[export] Instance key_ltb_strict : StrictOrderB key_ltb.
Proof. apply _. Qed.

Lemma candidate_less_key a b : candidate_less a b = key_less candidate_key key_ltb a b.
Proof.
  unfold key_less, key_ltb, candidate_key, pair_ltb, candidate_less. cbn [fst snd].
  destruct (Z.eqb_spec (priority a) (priority b)) as [->|E1]; [rewrite bool_decide_eq_true_2 by done|by rewrite bool_decide_eq_false_2].
  cbn [negb]. destruct (Z.eqb_spec (idle a) (idle b)) as [->|E2]; [by rewrite bool_decide_eq_true_2|].
  rewrite bool_decide_eq_false_2 by lia. cbn [negb].
  destruct (Z.ltb_spec (idle b) (idle a)), (Z.ltb_spec (- idle a) (- idle b)); try done; lia.
Qed.

Lemma sort_candidates l : sort_slice candidate_less l = sort_slice (key_less candidate_key key_ltb) l.
Proof.
  pose proof (sort_slice_map id (key_less candidate_key key_ltb) candidate_less l candidate_less_key) as H.
  by rewrite !map_id in H.
Qed.

Lemma candidate_ids cfg pressure T now owns :
  (VMID ∘ own <$> omap (candidate_of cfg pressure T now) owns) `sublist_of` (VMID <$> omap id owns).
Proof.
  induction owns as [|o owns IH]; [done|]. cbn [omap list_omap].
  destruct (candidate_of cfg pressure T now o) as [c|] eqn:E.
  - apply candidate_of_spec in E as (own & -> & _ & ->). cbn. by constructor.
  - destruct o as [o|]; cbn; [by constructor|done].
Qed.

Lemma candidate_keys_nodup cfg pressure T now owns :
  NoDup (VMID <$> omap id owns) -> NoDup (candidate_key <$> omap (candidate_of cfg pressure T now) owns).
Proof.
  intros Hnd. apply (NoDup_fmap_1 (fun k : Z * (Z * string) => k.2.2)). rewrite <-list_fmap_compose.
  eapply sublist_NoDup; [exact Hnd|]. apply candidate_ids.
Qed.

Definition idlest_first (a b : idleOwnershipCandidate) : Prop :=
  idle b < idle a \/ idle a = idle b /\ String.ltb (VMID (own a)) (VMID (own b)) = true.

(** The registry keeps its ownerships in a map. Whatever order it yields them in, the
    sweeper works through the same list: the longest idle computer first, those equally
    idle by identifier. *)
Theorem idle_candidates_order owns owns' cfg pressure T now :
  owns ≡ₚ owns' -> NoDup (VMID <$> omap id owns) ->
  idleOwnershipCandidates owns cfg pressure T now = idleOwnershipCandidates owns' cfg pressure T now /\
  StronglySorted idlest_first (idleOwnershipCandidates owns cfg pressure T now).
Proof.
  intros Hp Hnd. rewrite !candidates_unfiltered, !sort_candidates. split.
  - apply sort_slice_perm; [apply _|by apply candidate_keys_nodup|by rewrite Hp].
  - set (f := candidate_of (normalizeWarmnessPolicyConfig cfg) pressure T now).
    pose proof (sort_slice_key_sorted candidate_key key_ltb (omap f owns)
      (candidate_keys_nodup _ _ _ _ _ Hnd)) as Hs.
    assert (Forall (fun c => priority c = 20) (sort_slice (key_less candidate_key key_ltb) (omap f owns))) as Hprio.
    { apply Forall_forall. intros c Hc. rewrite elem_of_sort_slice in Hc.
      apply list_elem_of_omap in Hc as (o & _ & Ho). by apply candidate_of_spec in Ho as (? & _ & _ & ->). }
    unfold key_sorted in Hs. induction Hs as [|c l _ IH Hc]; [constructor|].
    apply Forall_cons in Hprio as [Hcp Hl]. constructor; [by apply IH|].
    rewrite Forall_forall in Hc, Hl |- *. intros d Hd. specialize (Hc d Hd). specialize (Hl d Hd).
    unfold key_less, key_ltb, candidate_key, pair_ltb in Hc. cbn [fst snd] in Hc.
    rewrite Hcp, Hl in Hc. rewrite bool_decide_eq_true_2 in Hc by done. cbn [negb] in Hc. unfold idlest_first.
    destruct (bool_decide (- idle c = - idle d)) eqn:E; cbn [negb] in Hc; to_prop; [right; split; [lia|done]|left; lia].
Qed.

(** ** Witnesses *)
Module Demo.

Definition vm (id user : string) (state : VMState) (last : Time) : VMOwnership :=
  Build_VMOwnership id ("c-" +:+ id) user "primary" "interactive" "" "" state 1 last "" 1 "" None "" "" "".
Definition owns : list (option VMOwnership) :=
  [Some (vm "vm-1" "alice" "active" 100); Some (vm "vm-2" "bob" "active" 50); Some (vm "vm-3" " vip" "active" 50);
   Some (vm "vm-4" "dora" "stopped" 50)].
Definition cfg : WarmnessPolicyConfig := Build_WarmnessPolicyConfig "Off" (Some {["vip " := true]}).

Lemma idle_candidates_order_witness :
  map (VMID ∘ own) (idleOwnershipCandidates (rev owns) cfg false 10 200) = ["vm-2"; "vm-1"].
Proof.
  destruct (idle_candidates_order owns (rev owns) cfg false 10 200) as [<- _].
  - apply (Permutation_rev owns).
  - by_deciding.
  - vm_compute. reflexivity.
Defined.

(** U+212A, the Kelvin sign, counts as a k. *)
Example kelvin_mode :
  PrimaryKeepaliveMode (normalizeWarmnessPolicyConfig (Build_WarmnessPolicyConfig
    (of_chars (map byte_of [226; 132; 170]%N) +:+ "eep_Primary ") None)) = PrimaryKeepaliveModeUnderCapacity.
Proof. vm_compute. reflexivity. Qed.
End Demo.
End Warmness.
