(* ===== verification/CapsuleBundle.v ===== *)
(** * CapsuleBundle: from the changes of a capsule to an effect bundle

    Models [internal/capsule/transaction/classifier.go] and [builder.go] with the
    types of [internal/capsule/types.go] they use. [sort.Slice] is the sort of the
    prelude; maps are [gmap]s, and their loops run over any order of their keys
    where the code's do. *)
From S2P Require Import Prelude GoStrings GoJson CanonicalJson JsonRoundTrip Sha256 GoDecode.
From Stdlib Require Import Ascii.

Module CapsuleBundle.
Local Open Scope Z_scope.

(** ** Changes *)
Inductive ChangeKind := ChangeAdded | ChangeModified | ChangeDeleted | ChangeOther (n : Z).

Definition ChangeKind_String (k : ChangeKind) : string :=
  match k with
  | ChangeAdded => "added" | ChangeModified => "modified" | ChangeDeleted => "deleted" | ChangeOther _ => "unknown"
  end.

(** [os.FileMode] is a uint32. *)
Record FileChange := { Change_Path : string; Change_Kind : ChangeKind; Change_Mode : Z }.

#[export] Instance ChangeKind_eq_dec : EqDecision ChangeKind.
Proof. solve_decision. Defined.
#[export] Instance FileChange_eq_dec : EqDecision FileChange.
Proof. solve_decision. Defined.

(** [FileMode.String]: the letters of the type bits, then the nine permission bits. *)
Definition mode_bits (m : Z) (from : Z) (letters : list ascii) (unset : list ascii) : list ascii :=
  concat (imap (fun i c => if Z.testbit m (from - Z.of_nat i) then [c] else unset) letters).
Definition FileMode_String (m : Z) : string :=
  let kind := mode_bits m 31 (chars "dalTLDpSugct?") [] in
  of_chars ((match kind with [] => ["-"%char] | _ => kind end) ++ mode_bits m 8 (chars "rwxrwxrwx") ["-"%char]).

(** ** [path] *)
Definition slash : ascii := "/"%char.

Fixpoint drop_slashes (l : list ascii) : list ascii :=
  match l with a :: l' => if Ascii.eqb a slash then drop_slashes l' else l | [] => [] end.
Fixpoint until_slash (l : list ascii) : list ascii :=
  match l with a :: l' => if Ascii.eqb a slash then [] else a :: until_slash l' | [] => [] end.

(** [path.Base], on the reversed bytes. *)
Definition Base (p : string) : string :=
  if p == "" then "." else
  let l := rev (until_slash (drop_slashes (rev (chars p)))) in
  match l with [] => "/" | _ => of_chars l end.

(** [path.Match] for patterns of stars and plain characters, the only ones of the
    classifier: a star is any run of characters other than a slash. *)
Fixpoint match_chars (pattern : list ascii) : list ascii -> bool :=
  match pattern with
  | [] => fun name => match name with [] => true | _ => false end
  | p :: pattern' =>
    if Ascii.eqb p "*" then
      fix star (name : list ascii) : bool :=
        match_chars pattern' name ||
        match name with a :: name' => negb (Ascii.eqb a slash) && star name' | [] => false end
    else fun name => match name with a :: name' => Ascii.eqb a p && match_chars pattern' name' | [] => false end
  end.
Definition path_Match (pattern name : string) : bool := match_chars (chars pattern) (chars name).

(** ** The classifier *)
Definition LedgerKind := Z.
Definition LedgerVM : LedgerKind := 0.
Definition LedgerDolt : LedgerKind := 1.
Definition LedgerSource : LedgerKind := 2.
Definition LedgerBlob : LedgerKind := 3.
Definition LedgerArtifact : LedgerKind := 4.
Definition LedgerRoute : LedgerKind := 5.
Definition LedgerUnknown : LedgerKind := 6.

Definition LedgerKind_String (k : LedgerKind) : string :=
  match k with
  | 0 => "VM" | 1 => "Dolt" | 2 => "Source" | 3 => "Blob" | 4 => "Artifact" | 5 => "Route" | 6 => "Unknown"
  | _ => "LedgerKind(" +:+ itoa k +:+ ")"
  end.

Record PathPattern := { Prefix : string; Glob : string }.

Definition Match (p : PathPattern) (filePath : string) : bool :=
  (if (Prefix p != "") && negb (HasPrefix filePath (Prefix p)) then false else
   if (Glob p != "") && negb (path_Match (Glob p) (Base filePath)) then false else true).

Record Classifier := { Version : string; Rules : gmap LedgerKind (list PathPattern); Ignore : list PathPattern }.

Definition prefixes (l : list string) : list PathPattern := map (fun p => Build_PathPattern p "") l.
Definition globs (l : list string) : list PathPattern := map (fun g => Build_PathPattern "" g) l.

Definition NewClassifier : Classifier := {|
  Version := "v1";
  Rules := {[LedgerVM := prefixes ["/boot"; "/lib/modules"; "/etc/systemd"; "/usr/lib"; "/usr/share"];
             LedgerDolt := prefixes ["/var/lib/dolt"];
             LedgerSource := prefixes ["/home/user/src"; "/workspace"; "/root/src"];
             LedgerBlob := prefixes ["/var/lib/blob"];
             LedgerArtifact := prefixes ["/var/lib/artifact"];
             LedgerRoute := prefixes ["/etc/choir/route"]]};
  Ignore := prefixes ["/tmp/"; "/run"; "/var/log"; "/var/cache"; "/dev"; "/proc"; "/sys"]
            ++ globs ["*.cache"; "*.tmp"; "*.log"] |}.

Record ClassifyResult := {
  Res_Version : string; Groups : gmap LedgerKind (list FileChange); Ignored : list FileChange;
  Unknown : list FileChange; Res_Digest : string }.

Definition isIgnored (c : Classifier) (filePath : string) : bool := existsb (fun p => Match p filePath) (Ignore c).

Definition sortedLedgerKinds : list LedgerKind :=
  [LedgerDolt; LedgerBlob; LedgerArtifact; LedgerRoute; LedgerSource; LedgerVM].

(** The first kind, in that order, one of whose patterns matches. *)
Definition classifyPath (c : Classifier) (filePath : string) : LedgerKind :=
  default LedgerUnknown (List.find (fun kind =>
    existsb (fun p => Match p filePath) (default [] (Rules c !! kind))) sortedLedgerKinds).

Definition path_less (a b : FileChange) : bool := String.ltb (Change_Path a) (Change_Path b).

Section Digests.
Context {sh : Sha256}.

Definition change_text (c : FileChange) : string :=
  Change_Path c +:+ ":" +:+ ChangeKind_String (Change_Kind c) +:+ ":" +:+ FileMode_String (Change_Mode c).

Definition concat_strings (l : list string) : string := foldr String.append "" l.

(** What is hashed. *)
Definition digest_text (version : string) (groups : gmap LedgerKind (list FileChange)) : string :=
  version +:+ concat_strings (map (fun kind =>
    match groups !! kind with
    | None => ""
    | Some changes => LedgerKind_String kind +:+ concat_strings (map change_text changes)
    end) [LedgerVM; LedgerDolt; LedgerSource; LedgerBlob; LedgerArtifact; LedgerRoute]).

Definition computeDigest (r : ClassifyResult) : string := sha256_hex (digest_text (Res_Version r) (Groups r)).

Definition classify_one (c : Classifier) (r : ClassifyResult) (change : FileChange) : ClassifyResult :=
  if isIgnored c (Change_Path change) then
    Build_ClassifyResult (Res_Version r) (Groups r) (Ignored r ++ [change]) (Unknown r) ""
  else
    let kind := classifyPath c (Change_Path change) in
    if kind =? LedgerUnknown then
      Build_ClassifyResult (Res_Version r) (Groups r) (Ignored r) (Unknown r ++ [change]) ""
    else
      Build_ClassifyResult (Res_Version r) (<[kind := default [] (Groups r !! kind) ++ [change]]> (Groups r))
        (Ignored r) (Unknown r) "".

Definition Classify (c : Classifier) (changes : list FileChange) : ClassifyResult :=
  let r := foldl (classify_one c) (Build_ClassifyResult (Version c) ∅ [] [] "") changes in
  let r := Build_ClassifyResult (Res_Version r) (sort_slice path_less <$> Groups r)
             (sort_slice path_less (Ignored r)) (sort_slice path_less (Unknown r)) "" in
  Build_ClassifyResult (Res_Version r) (Groups r) (Ignored r) (Unknown r) (computeDigest r).

Definition HasUnknown (r : ClassifyResult) : bool := negb (bool_decide (Unknown r = [])).

(** Map keys that are integers are written as decimal strings, sorted. *)
Definition pattern_json (p : PathPattern) : json := JObj [("Prefix", JStr (Prefix p)); ("Glob", JStr (Glob p))].
Definition classifier_json (c : Classifier) : json := JObj [
  ("version", JStr (Version c));
  ("rules", JObj (sort_slice (fun a b => String.ltb a.1 b.1)
     (map (fun kv => (itoa kv.1, JArr (map pattern_json kv.2))) (map_to_list (Rules c)))));
  ("ignore", JArr (map pattern_json (Ignore c)))].
Definition RulesDigest (c : Classifier) : string := sha256_hex (marshal (classifier_json c)).

(** ** The bundle *)
Record ChangeRecord := { Rec_Path : string; Rec_Kind : string; Rec_Mode : Z }.

Definition change_record_json (r : ChangeRecord) : json := JObj [
  ("path", JStr (Rec_Path r)); ("kind", JStr (Rec_Kind r)); ("mode", JInt (Rec_Mode r))].

Record FrozenReleaseFile := { Frozen_Path : string; SHA256 : string; Frozen_Mode : Z }.

Definition frozen_json (f : FrozenReleaseFile) : json := JObj [
  ("path", JStr (Frozen_Path f)); ("sha256", JStr (SHA256 f)); ("mode", JInt (Frozen_Mode f))].

Record CapsuleEffectBundle := {
  BundleVersion : Z; ComputerID : string; BaseEventHead : string; TrajectoryRef : string;
  CapsuleIdentity : string; CapabilityPolicyDigest : string; SourceTreeRef : string;
  OrderedFileEffects : slice ChangeRecord; GeneratedArtifactRefs : slice string; BuildRecipeRef : string;
  RuntimeArtifactRef : string; TestReceipts : slice string; VerifierReceipts : slice string;
  DependencyToolchainRefs : slice string; ResourceReceipts : slice string; ContentDigest : string;
  ClassifierV : string; ClassifierDigest : string; Bundle_Groups : option (gmap string (slice ChangeRecord));
  Bundle_Ignored : slice ChangeRecord; Bundle_Unknown : slice ChangeRecord; Rejected : bool;
  RejectReason : string; RuntimeFiles : slice FrozenReleaseFile }.

Definition enc_changes (s : slice ChangeRecord) : json := enc_slice change_record_json s.

Definition bundle_json (r : CapsuleEffectBundle) : json := JObj ([
  ("bundle_version", JInt (BundleVersion r)); ("computer_id", JStr (ComputerID r));
  ("base_event_head", JStr (BaseEventHead r)); ("trajectory_ref", JStr (TrajectoryRef r));
  ("capsule_identity", JStr (CapsuleIdentity r)); ("capability_policy_digest", JStr (CapabilityPolicyDigest r));
  ("source_tree_ref", JStr (SourceTreeRef r)); ("ordered_file_effects", enc_changes (OrderedFileEffects r));
  ("generated_artifact_refs", enc_strs (GeneratedArtifactRefs r)); ("build_recipe_ref", JStr (BuildRecipeRef r));
  ("runtime_artifact_ref", JStr (RuntimeArtifactRef r)); ("test_receipts", enc_strs (TestReceipts r));
  ("verifier_receipts", enc_strs (VerifierReceipts r));
  ("dependency_toolchain_refs", enc_strs (DependencyToolchainRefs r));
  ("resource_receipts", enc_strs (ResourceReceipts r)); ("content_digest", JStr (ContentDigest r));
  ("classifier_version", JStr (ClassifierV r)); ("classifier_digest", JStr (ClassifierDigest r));
  ("groups", enc_map enc_changes (Bundle_Groups r)); ("ignored", enc_changes (Bundle_Ignored r))]
  ++ (match items (Bundle_Unknown r) with [] => [] | l => [("unknown", JArr (map change_record_json l))] end)
  ++ [("rejected", JBool (Rejected r))] ++ omit_str "reject_reason" (RejectReason r)
  ++ [("runtime_files", enc_slice frozen_json (RuntimeFiles r))]).

Definition toChangeRecords (changes : list FileChange) : slice ChangeRecord :=
  match changes with
  | [] => None
  | _ => Some (map (fun c => Build_ChangeRecord (Change_Path c) (ChangeKind_String (Change_Kind c))
                               (wrap_u32 (Change_Mode c))) changes)
  end.

Definition effect_less (a b : ChangeRecord) : bool :=
  if Rec_Path a == Rec_Path b then String.ltb (Rec_Kind a) (Rec_Kind b) else String.ltb (Rec_Path a) (Rec_Path b).

Definition BuildBundleFromDiff (c : Classifier) (capsuleID : string) (changes : list FileChange) : CapsuleEffectBundle :=
  let result := Classify c changes in
  {| BundleVersion := 1; ComputerID := ""; BaseEventHead := ""; TrajectoryRef := ""; CapsuleIdentity := capsuleID;
     CapabilityPolicyDigest := ""; SourceTreeRef := "";
     OrderedFileEffects := sort_slice effect_less <$> toChangeRecords changes;
     GeneratedArtifactRefs := None; BuildRecipeRef := ""; RuntimeArtifactRef := ""; TestReceipts := None;
     VerifierReceipts := None; DependencyToolchainRefs := None; ResourceReceipts := None; ContentDigest := "";
     ClassifierV := Res_Version result; ClassifierDigest := Res_Digest result;
     Bundle_Groups := Some (foldl (fun m kv => <[LedgerKind_String kv.1 := toChangeRecords kv.2]> m) ∅
                              (map_to_list (Groups result)));
     Bundle_Ignored := toChangeRecords (Ignored result); Bundle_Unknown := toChangeRecords (Unknown result);
     Rejected := HasUnknown result;
     RejectReason := if HasUnknown result
                     then "unknown paths rejected at commit time: " +:+ itoa (Z.of_nat (length (Unknown result)))
                          +:+ " paths"
                     else "";
     RuntimeFiles := None |}.

(** The payload of the content digest: detached fields cleared. *)
Definition payload (r : CapsuleEffectBundle) : CapsuleEffectBundle := {|
  BundleVersion := BundleVersion r; ComputerID := ComputerID r; BaseEventHead := BaseEventHead r;
  TrajectoryRef := TrajectoryRef r; CapsuleIdentity := CapsuleIdentity r;
  CapabilityPolicyDigest := CapabilityPolicyDigest r; SourceTreeRef := SourceTreeRef r;
  OrderedFileEffects := OrderedFileEffects r; GeneratedArtifactRefs := GeneratedArtifactRefs r;
  BuildRecipeRef := BuildRecipeRef r; RuntimeArtifactRef := RuntimeArtifactRef r; TestReceipts := TestReceipts r;
  VerifierReceipts := Some []; DependencyToolchainRefs := DependencyToolchainRefs r;
  ResourceReceipts := ResourceReceipts r; ContentDigest := ""; ClassifierV := ClassifierV r;
  ClassifierDigest := ClassifierDigest r; Bundle_Groups := Bundle_Groups r; Bundle_Ignored := Bundle_Ignored r;
  Bundle_Unknown := Bundle_Unknown r; Rejected := Rejected r; RejectReason := RejectReason r;
  RuntimeFiles := RuntimeFiles r |}.

Definition ComputeContentDigest (r : CapsuleEffectBundle) : res canonical_error string :=
  let? raw := CanonicalJSON (bundle_json (payload r)) in Ok (sha256_hex raw).

Definition validExecutionRef (ref : string) : bool :=
  HasPrefix ref "capsule-exec:sha256:" && isSHA256 (TrimPrefix ref "capsule-exec:sha256:").
Definition validExecutionRefs (refs : slice string) : bool :=
  negb (bool_decide (items refs = [])) && forallb validExecutionRef (items refs).

(** What follows the last colon, if there is one and it is not the first byte. *)
Fixpoint after_last_colon (l : list ascii) : option (list ascii) :=
  match l with
  | [] => None
  | a :: l => match after_last_colon l with
              | Some t => Some t
              | None => if Ascii.eqb a ":" then Some l else None
              end
  end.

Definition validImmutableRef (ref : string) : bool :=
  let ref := TrimSpace ref in
  isSHA256 ref ||
  match chars ref with
  | [] => false
  | _ :: tail => match after_last_colon tail with Some t => isSHA256 (of_chars t) | None => false end
  end.
Definition validImmutableRefs (refs : slice string) : bool :=
  negb (bool_decide (items refs = [])) && forallb validImmutableRef (items refs).

Definition prefixed_digest (prefix ref : string) : bool := HasPrefix ref prefix && isSHA256 (TrimPrefix ref prefix).

(** Whether [Validate] returns no error. *)
Definition Validate (r : CapsuleEffectBundle) (final : bool) : bool :=
  match ComputeContentDigest r with
  | Err _ => false
  | Ok contentDigest =>
    (BundleVersion r =? 1) && negb (blank (ComputerID r)) && isSHA256 (BaseEventHead r)
    && negb (blank (TrajectoryRef r)) && negb (blank (CapsuleIdentity r)) && isSHA256 (CapabilityPolicyDigest r)
    && prefixed_digest "source-tree:sha256:" (SourceTreeRef r)
    && prefixed_digest "runtime-artifact:sha256:" (RuntimeArtifactRef r)
    && validExecutionRef (BuildRecipeRef r) && negb (bool_decide (items (OrderedFileEffects r) = []))
    && validImmutableRefs (GeneratedArtifactRefs r) && validExecutionRefs (TestReceipts r)
    && validExecutionRefs (DependencyToolchainRefs r) && validImmutableRefs (ResourceReceipts r)
    && negb (bool_decide (items (RuntimeFiles r) = [])) && negb (Rejected r)
    && (ContentDigest r == contentDigest)
    && (negb final || validImmutableRefs (VerifierReceipts r))
  end.
End Digests.

(** ** What classification does *)
Section Classification.
Context {sh : Sha256} (c : Classifier).

(** Where a change goes: its ledger, [LedgerUnknown], or nowhere. *)
Definition place (change : FileChange) : option LedgerKind :=
  if isIgnored c (Change_Path change) then None else Some (classifyPath c (Change_Path change)).

Definition placed (p : option LedgerKind) (changes : list FileChange) : list FileChange :=
  List.filter (fun x => place x == p) changes.

Lemma placed_app p l1 l2 : placed p (l1 ++ l2) = placed p l1 ++ placed p l2.
Proof. apply List.filter_app. Qed.

Lemma placed_snoc p l x : placed p (l ++ [x]) = placed p l ++ if place x == p then [x] else [].
Proof. rewrite placed_app. done. Qed.

Definition group_of (l : list FileChange) : option (list FileChange) := match l with [] => None | _ => Some l end.

Lemma group_of_snoc l x : group_of (l ++ [x]) = Some (l ++ [x]).
Proof. by destruct l. Qed.

Lemma default_group l : default [] (group_of l) = l.
Proof. by destruct l. Qed.

Lemma sorted_group l : default [] (sort_slice path_less <$> group_of l) ≡ₚ l.
Proof. destruct l; [done|]. apply sort_slice_Permutation. Qed.

Lemma classify_loop changes :
  let r := foldl (classify_one c) (Build_ClassifyResult (Version c) ∅ [] [] "") changes in
  Res_Version r = Version c /\ Ignored r = placed None changes /\
  Unknown r = placed (Some LedgerUnknown) changes /\
  forall k : LedgerKind, Groups r !! k = if k =? LedgerUnknown then None else group_of (placed (Some k) changes).
Proof.
  induction changes as [|x changes IH] using rev_ind.
  - split_and!; try done. intros k. cbn. by destruct (k =? LedgerUnknown).
  - rewrite foldl_snoc. cbv zeta in *. destruct (foldl _ _ changes) as [v g ig un d].
    cbn [Res_Version Groups Ignored Unknown] in IH. destruct IH as (-> & -> & -> & Hg).
    setoid_rewrite placed_snoc. unfold classify_one, place. cbn [Groups Ignored Unknown Res_Version].
    destruct (isIgnored c (Change_Path x)); cbn [Groups Ignored Unknown Res_Version].
    + split_and!; [done..|by rewrite app_nil_r|]. intros k. by rewrite Hg, app_nil_r.
    + destruct (classifyPath c (Change_Path x) =? LedgerUnknown) eqn:Ek;
        cbn [Groups Ignored Unknown Res_Version]; (split_and!; [done|by rewrite app_nil_r|..]).
      * apply Z.eqb_eq in Ek. by rewrite Ek.
      * intros k. rewrite Hg. destruct (k =? LedgerUnknown) eqn:Hk; [done|]. to_prop.
        rewrite bool_decide_eq_false_2 by congruence. by rewrite app_nil_r.
      * apply Z.eqb_neq in Ek. rewrite bool_decide_eq_false_2 by congruence. by rewrite app_nil_r.
      * intros k. destruct (decide (classifyPath c (Change_Path x) = k)) as [<-|Hne].
        -- rewrite lookup_insert_eq, Hg, Ek. rewrite bool_decide_eq_true_2 by done. rewrite group_of_snoc.
           by rewrite default_group.
        -- rewrite lookup_insert_ne by done. rewrite bool_decide_eq_false_2 by congruence. by rewrite app_nil_r.
Qed.

(** The places of a list that has each once split the changes. *)
Lemma concat_one (x : FileChange) (f : option LedgerKind -> list FileChange) p ps :
  NoDup ps -> p ∈ ps ->
  concat (map (fun q => (if p == q then [x] else []) ++ f q) ps) ≡ₚ x :: concat (map f ps).
Proof.
  induction ps as [|q ps IH]; intros Hnd Hin; [by apply not_elem_of_nil in Hin|].
  apply NoDup_cons in Hnd as [Hq Hnd]. cbn [map concat]. destruct (decide (p = q)) as [->|Hne].
  - rewrite bool_decide_eq_true_2 by done. cbn [app]. constructor. apply Permutation_app_head.
    rewrite (map_ext_in _ f); [done|]. intros r Hr. apply list_elem_of_In in Hr.
    by rewrite bool_decide_eq_false_2 by congruence.
  - rewrite bool_decide_eq_false_2 by done. apply elem_of_cons in Hin as [?|Hin]; [done|].
    rewrite IH by done. cbn [app]. by rewrite Permutation_middle.
Qed.

Lemma placed_partition changes ps :
  NoDup ps -> (forall x, x ∈ changes -> place x ∈ ps) -> concat (map (fun p => placed p changes) ps) ≡ₚ changes.
Proof.
  intros Hnd. induction changes as [|x changes IH]; intros Hin.
  - clear. by induction ps.
  - rewrite (map_ext (fun p => placed p (x :: changes)) (fun q => (if place x == q then [x] else []) ++ placed q changes)).
    + rewrite (concat_one x (fun p => placed p changes)) by (done || (apply Hin; by left)).
      constructor. apply IH. intros y Hy. apply Hin. by right.
    + intros q. unfold placed. cbn [List.filter]. by destruct (place x == q).
Qed.

Definition places : list (option LedgerKind) := None :: Some LedgerUnknown :: map Some sortedLedgerKinds.

Lemma place_in x : place x ∈ places.
Proof.
  unfold place, places. destruct (isIgnored c (Change_Path x)); [by left|]. right. unfold classifyPath.
  destruct (List.find _ sortedLedgerKinds) as [k|] eqn:Hf; [right|by left].
  apply find_some in Hf as [Hin _]. apply list_elem_of_In, in_map, Hin.
Qed.

(** Classification is exact: every change is either ignored, unknown or in the group
    of the first ledger, in the fixed order, one of whose rules matches its path; each
    list is sorted by path, a ledger without changes has no group, and nothing is lost. *)
Theorem classify_exact changes :
  let r := Classify c changes in
  Ignored r = sort_slice path_less (placed None changes) /\
  Unknown r = sort_slice path_less (placed (Some LedgerUnknown) changes) /\
  (forall k : LedgerKind, Groups r !! k =
     if k =? LedgerUnknown then None else sort_slice path_less <$> group_of (placed (Some k) changes)) /\
  Ignored r ++ Unknown r ++ concat (map (fun k => default [] (Groups r !! k)) sortedLedgerKinds) ≡ₚ changes.
Proof.
  pose proof (classify_loop changes) as H. cbv zeta in H. unfold Classify. cbv zeta.
  destruct (foldl _ _ changes) as [v g ig un d]. cbn [Res_Version Groups Ignored Unknown] in *.
  destruct H as (_ & -> & -> & Hg).
  assert (forall k : LedgerKind, (sort_slice path_less <$> g) !! k =
    if k =? LedgerUnknown then None else sort_slice path_less <$> group_of (placed (Some k) changes)) as Hk.
  { intros k. rewrite lookup_fmap, Hg. by destruct (k =? LedgerUnknown). }
  split; [done|]. split; [done|]. split; [exact Hk|].
  rewrite !sort_slice_Permutation.
  etrans; [|apply (placed_partition changes places); [by_deciding|intros x _; apply place_in]].
  unfold places. cbn [map concat]. rewrite map_map. do 2 apply Permutation_app_head.
  assert (forall ks, Forall (fun k => k <> LedgerUnknown) ks ->
    concat (map (fun k => default [] ((sort_slice path_less <$> g) !! k)) ks) ≡ₚ
    concat (map (fun k => placed (Some k) changes) ks)) as Hks; [|apply Hks; by_deciding].
  induction 1 as [|k ks Hne _ IH]; [done|]. cbn [map concat]. rewrite IH. apply Permutation_app_tail.
  rewrite Hk. apply Z.eqb_neq in Hne. rewrite Hne. apply sorted_group.
Qed.

Lemma Classify_eta changes :
  let r := Classify c changes in
  r = Build_ClassifyResult (Version c) (Groups r) (Ignored r) (Unknown r) (sha256_hex (digest_text (Version c) (Groups r))).
Proof.
  pose proof (classify_loop changes) as H. cbv zeta in H. unfold Classify, computeDigest. cbv zeta.
  cbn [Res_Version Groups Ignored Unknown]. by destruct H as (-> & _).
Qed.

Lemma placed_perm p l1 l2 : l1 ≡ₚ l2 -> placed p l1 ≡ₚ placed p l2.
Proof. apply filter_perm. Qed.

Lemma placed_nodup p l : NoDup (Change_Path <$> l) -> NoDup (Change_Path <$> placed p l).
Proof.
  intros Hnd. eapply sublist_NoDup; [exact Hnd|]. unfold placed.
  clear. induction l as [|x l IH]; [done|]. cbn [List.filter]. destruct (place x == p); cbn; by constructor.
Qed.

Lemma sort_placed p l1 l2 : l1 ≡ₚ l2 -> NoDup (Change_Path <$> l1) ->
  sort_slice path_less (placed p l1) = sort_slice path_less (placed p l2).
Proof.
  intros Hp Hnd. apply (sort_slice_perm Change_Path String.ltb); [by apply placed_nodup|by apply placed_perm].
Qed.

Lemma Classify_perm l1 l2 : l1 ≡ₚ l2 -> NoDup (Change_Path <$> l1) -> Classify c l1 = Classify c l2.
Proof.
  intros Hp Hnd. rewrite (Classify_eta l1), (Classify_eta l2).
  destruct (classify_exact l1) as (-> & -> & H1 & _), (classify_exact l2) as (-> & -> & H2 & _).
  assert (Groups (Classify c l1) = Groups (Classify c l2)) as ->; [|by f_equal; apply sort_placed].
  apply map_eq. intros k. rewrite H1, H2. destruct (k =? LedgerUnknown); [done|].
  pose proof (sort_placed (Some k) l1 l2 Hp Hnd) as Hs. pose proof (placed_perm (Some k) l1 l2 Hp) as Hq.
  unfold group_of. destruct (placed (Some k) l1) as [|x l]; destruct (placed (Some k) l2) as [|y l']; [reflexivity|..].
  - by apply Permutation_nil_cons in Hq.
  - symmetry in Hq. by apply Permutation_nil_cons in Hq.
  - cbn [fmap option_fmap option_map]. by rewrite Hs.
Qed.

Definition effect_key (r : ChangeRecord) : string * string := (Rec_Path r, Rec_Kind r).

Lemma effect_less_key a b : effect_less a b = key_less effect_key (pair_ltb String.ltb String.ltb) a b.
Proof.
  unfold effect_less, key_less, pair_ltb, effect_key. cbn [fst snd]. by destruct (bool_decide (Rec_Path a = Rec_Path b)).
Qed.

Lemma sort_effects l : sort_slice effect_less l = sort_slice (key_less effect_key (pair_ltb String.ltb String.ltb)) l.
Proof.
  pose proof (sort_slice_map id (key_less effect_key (pair_ltb String.ltb String.ltb)) effect_less l effect_less_key) as H.
  by rewrite !map_id in H.
Qed.

Definition record_of (x : FileChange) : ChangeRecord :=
  Build_ChangeRecord (Change_Path x) (ChangeKind_String (Change_Kind x)) (wrap_u32 (Change_Mode x)).

Lemma ordered_effects l1 l2 : l1 ≡ₚ l2 -> NoDup (Change_Path <$> l1) ->
  sort_slice effect_less <$> toChangeRecords l1 = sort_slice effect_less <$> toChangeRecords l2.
Proof.
  intros Hp Hnd.
  assert (sort_slice effect_less (map record_of l1) = sort_slice effect_less (map record_of l2)) as Hs.
  { rewrite !sort_effects. apply (sort_slice_perm effect_key (pair_ltb String.ltb String.ltb));
      [|by apply Permutation_map].
    apply (NoDup_fmap_1 fst). rewrite <-list_fmap_compose. change (map record_of l1) with (record_of <$> l1).
    rewrite <-list_fmap_compose. exact Hnd. }
  unfold toChangeRecords. destruct l1 as [|x l1], l2 as [|y l2]; try done.
  - by apply Permutation_nil_cons in Hp.
  - symmetry in Hp. by apply Permutation_nil_cons in Hp.
  - cbn [fmap option_fmap option_map]. f_equal. exact Hs.
Qed.

Lemma Validate_not_rejected r final : Validate r final = true -> Rejected r = false.
Proof.
  unfold Validate. destruct (ComputeContentDigest r) as [d|]; [|discriminate].
  rewrite !andb_true_iff. intros (((_ & H) & _) & _). by apply negb_true_iff in H.
Qed.

Lemma bundle_perm id l1 l2 : l1 ≡ₚ l2 -> NoDup (Change_Path <$> l1) ->
  BuildBundleFromDiff c id l1 = BuildBundleFromDiff c id l2.
Proof.
  intros Hp Hnd. unfold BuildBundleFromDiff. rewrite (Classify_perm l1 l2), (ordered_effects l1 l2) by done.
  reflexivity.
Qed.

Lemma bundle_rejected id l :
  Rejected (BuildBundleFromDiff c id l) = true <-> exists x, x ∈ l /\ place x = Some LedgerUnknown.
Proof.
  change (Rejected (BuildBundleFromDiff c id l)) with (HasUnknown (Classify c l)). unfold HasUnknown.
  destruct (classify_exact l) as (_ & -> & _). rewrite negb_true_iff, bool_decide_eq_false. split.
  - intros Hne. destruct (placed (Some LedgerUnknown) l) as [|x l'] eqn:E; [done|]. exists x.
    assert (In x (placed (Some LedgerUnknown) l)) as Hin by (rewrite E; by left).
    apply List.filter_In in Hin as [Hin Hx]. apply list_elem_of_In in Hin. by apply bool_decide_eq_true in Hx.
  - intros (x & Hin & Hx) Hnil. apply list_elem_of_In in Hin.
    assert (x ∈ placed (Some LedgerUnknown) l) as Hx'.
    { apply list_elem_of_In, List.filter_In. split; [done|]. by apply bool_decide_eq_true. }
    rewrite <-(elem_of_sort_slice path_less), Hnil in Hx'. by apply not_elem_of_nil in Hx'.
Qed.

(** The bundle of a diff does not depend on the order in which the changes are
    listed, when no path is listed twice; and it is rejected exactly when a change
    belongs to no ledger, in which case it never validates, whatever is filled in. *)
Theorem bundle_deterministic id l1 l2 :
  l1 ≡ₚ l2 -> NoDup (Change_Path <$> l1) ->
  BuildBundleFromDiff c id l1 = BuildBundleFromDiff c id l2 /\
  (Rejected (BuildBundleFromDiff c id l1) = true <-> exists x, x ∈ l1 /\ place x = Some LedgerUnknown) /\
  (forall r final, Rejected r = Rejected (BuildBundleFromDiff c id l1) -> Validate r final = true ->
     forall x, x ∈ l1 -> place x <> Some LedgerUnknown).
Proof.
  intros Hp Hnd. split; [by apply bundle_perm|]. split; [apply bundle_rejected|].
  intros r final Hr Hv%Validate_not_rejected x Hin Hx.
  assert (Rejected r = true) as Ht; [|congruence]. rewrite Hr. apply bundle_rejected. by exists x.
Qed.
End Classification.

(** ** What the content digest binds *)

(** The member of a name. *)
Fixpoint assoc (k : string) (fs : list (string * json)) : option json :=
  match fs with
  | [] => None
  | (k', v) :: fs => if String.eqb k k' then Some v else assoc k fs
  end.

Lemma assoc_Some k fs v : NoDup fs.*1 -> assoc k fs = Some v <-> (k, v) ∈ fs.
Proof.
  induction fs as [|[k' v'] fs IH]; intros Hnd; [split; [done|by intros ?%not_elem_of_nil]|].
  apply NoDup_cons in Hnd as [Hk Hnd]. cbn [assoc]. rewrite elem_of_cons. destruct (String.eqb_spec k k') as [->|Hne].
  - split; [intros [= ->]; by left|]. intros [[= ->]|Hin]; [done|]. destruct Hk. cbn.
    apply list_elem_of_fmap. by exists (k', v).
  - rewrite IH by done. split; [by right|]. intros [[= ? ?]|?]; done.
Qed.

(** Objects with one sorted form have, for every name, members with one sorted form. *)
Lemma sort_members_assoc fs1 fs2 k :
  NoDup fs1.*1 -> NoDup fs2.*1 -> sort_members (JObj fs1) = sort_members (JObj fs2) ->
  sort_members <$> assoc k fs1 = sort_members <$> assoc k fs2.
Proof.
  intros N1 N2 Heq. cbn [sort_members] in Heq. injection Heq as Heq.
  assert (map (fun kv => (kv.1, sort_members kv.2)) fs1 ≡ₚ map (fun kv => (kv.1, sort_members kv.2)) fs2) as Hp.
  { rewrite <-(sort_slice_Permutation name_less (map _ fs1)), Heq. apply sort_slice_Permutation. }
  assert (forall fs fs' v, NoDup fs.*1 -> NoDup fs'.*1 ->
    map (fun kv => (kv.1, sort_members kv.2)) fs ≡ₚ map (fun kv => (kv.1, sort_members kv.2)) fs' ->
    assoc k fs = Some v -> exists v', assoc k fs' = Some v' /\ sort_members v' = sort_members v) as Hone.
  { intros fs fs' v N N' P Hv%assoc_Some; [|done].
    assert ((k, sort_members v) ∈ map (fun kv => (kv.1, sort_members kv.2)) fs') as Hin.
    { rewrite <-P. apply list_elem_of_fmap. by exists (k, v). }
    apply list_elem_of_fmap in Hin as ([k' v'] & [= -> Hs] & Hin). exists v'. split; [|done]. by apply assoc_Some. }
  destruct (assoc k fs1) as [v1|] eqn:E1.
  - destruct (Hone fs1 fs2 v1 N1 N2 Hp E1) as (v2 & -> & Hs). cbn. by rewrite Hs.
  - destruct (assoc k fs2) as [v2|] eqn:E2; [|done]. symmetry in Hp.
    destruct (Hone fs2 fs1 v2 N2 N1 Hp E2) as (v1 & ? & _). congruence.
Qed.

Lemma enc_strs_inj s1 s2 : sort_members (enc_strs s1) = sort_members (enc_strs s2) -> s1 = s2.
Proof.
  destruct s1 as [l1|], s2 as [l2|]; try done. cbn [enc_strs enc_slice].
  change (JArr (map JStr l1)) with (JStrs l1). change (JArr (map JStr l2)) with (JStrs l2).
  rewrite !sort_members_JStrs. by intros ->%JStrs_inj.
Qed.

(** A slice of structs whose sorted form is injective. *)
Lemma enc_slice_inj {A} (enc : A -> json) (s1 s2 : slice A) :
  (forall a b, sort_members (enc a) = sort_members (enc b) -> a = b) ->
  sort_members (enc_slice enc s1) = sort_members (enc_slice enc s2) -> s1 = s2.
Proof.
  intros Hinj. destruct s1 as [l1|], s2 as [l2|]; try done. cbn [enc_slice sort_members]. intros [= H]. f_equal.
  revert l2 H. induction l1 as [|a l1 IH]; intros [|b l2]; try done. cbn [map]. intros [= Hab H].
  f_equal; [by apply Hinj|by apply IH].
Qed.

Lemma change_record_inj a b : sort_members (change_record_json a) = sort_members (change_record_json b) -> a = b.
Proof.
  intros H. assert (forall k, sort_members <$> assoc k [("path", JStr (Rec_Path a)); ("kind", JStr (Rec_Kind a)); ("mode", JInt (Rec_Mode a))] =
    sort_members <$> assoc k [("path", JStr (Rec_Path b)); ("kind", JStr (Rec_Kind b)); ("mode", JInt (Rec_Mode b))]) as Hk.
  { intros k. apply sort_members_assoc; [cbn; by_deciding..|exact H]. }
  pose proof (Hk "path") as H1. pose proof (Hk "kind") as H2. pose proof (Hk "mode") as H3.
  cbn in H1, H2, H3. injection H1 as H1. injection H2 as H2. injection H3 as H3. apply itoa_inj in H3.
  destruct a, b. cbn in *. congruence.
Qed.

Lemma frozen_inj a b : sort_members (frozen_json a) = sort_members (frozen_json b) -> a = b.
Proof.
  intros H. assert (forall k, sort_members <$> assoc k [("path", JStr (Frozen_Path a)); ("sha256", JStr (SHA256 a)); ("mode", JInt (Frozen_Mode a))] =
    sort_members <$> assoc k [("path", JStr (Frozen_Path b)); ("sha256", JStr (SHA256 b)); ("mode", JInt (Frozen_Mode b))]) as Hk.
  { intros k. apply sort_members_assoc; [cbn; by_deciding..|exact H]. }
  pose proof (Hk "path") as H1. pose proof (Hk "sha256") as H2. pose proof (Hk "mode") as H3.
  cbn in H1, H2, H3. injection H1 as H1. injection H2 as H2. injection H3 as H3. apply itoa_inj in H3.
  destruct a, b. cbn in *. congruence.
Qed.

Lemma groups_assoc (m : gmap string (slice ChangeRecord)) k :
  assoc k (map (fun kv => (kv.1, enc_changes kv.2)) (map_to_list m)) = enc_changes <$> m !! k.
Proof.
  assert (NoDup (map (fun kv : string * slice ChangeRecord => (kv.1, enc_changes kv.2)) (map_to_list m)).*1) as Hnd.
  { change (map ?f ?l) with (f <$> l). rewrite <-list_fmap_compose. apply NoDup_fst_map_to_list. }
  apply option_eq. intros v. rewrite assoc_Some by done. change (map ?f ?l) with (f <$> l). rewrite list_elem_of_fmap. split.
  - intros ([k' s'] & [= -> ->] & Hin%elem_of_map_to_list). cbn in Hin. by rewrite Hin.
  - intros (s' & Hs & Hv)%fmap_Some. exists (k, s'). split; [by rewrite Hv|]. by apply elem_of_map_to_list.
Qed.

Lemma groups_inj g1 g2 : sort_members (enc_map enc_changes g1) = sort_members (enc_map enc_changes g2) -> g1 = g2.
Proof.
  destruct g1 as [m1|], g2 as [m2|]; try done. cbn [enc_map]. intros H. f_equal. apply map_eq. intros k.
  assert (forall m : gmap string (slice ChangeRecord),
    NoDup (map (fun kv : string * slice ChangeRecord => (kv.1, enc_changes kv.2)) (map_to_list m)).*1) as Hnd.
  { intros m. change (map ?f ?l) with (f <$> l). rewrite <-list_fmap_compose. apply NoDup_fst_map_to_list. }
  pose proof (sort_members_assoc _ _ k (Hnd m1) (Hnd m2) H) as Hk. rewrite !groups_assoc in Hk.
  destruct (m1 !! k) as [s1|], (m2 !! k) as [s2|]; try done. cbn in Hk. injection Hk as Hk. f_equal.
  by apply (enc_slice_inj change_record_json), Hk; apply change_record_inj.
Qed.

Definition fields (r : CapsuleEffectBundle) : list (string * json) :=
  match bundle_json r with JObj fs => fs | _ => [] end.

Lemma bundle_fields r : bundle_json r = JObj (fields r).
Proof. done. Qed.

(** The optional members, by cases. *)
Lemma fields_cases r (P : list (string * json) -> Prop) :
  (forall unknown reason,
    unknown = [] /\ items (Bundle_Unknown r) = [] \/
      (items (Bundle_Unknown r) <> [] /\ unknown = [("unknown", JArr (map change_record_json (items (Bundle_Unknown r))))]) ->
    reason = [] /\ RejectReason r = "" \/
      (RejectReason r <> "" /\ reason = [("reject_reason", JStr (RejectReason r))]) ->
    P (take 20 (fields r) ++ unknown ++ [("rejected", JBool (Rejected r))] ++ reason
       ++ [("runtime_files", enc_slice frozen_json (RuntimeFiles r))])) ->
  P (fields r).
Proof.
  intros H. unfold fields, bundle_json in *. cbn [app take] in H |- *. unfold omit_str in *.
  destruct (items (Bundle_Unknown r)) as [|x l] eqn:E1; destruct (decide (RejectReason r = "")) as [E2|E2].
  - specialize (H [] []). rewrite E2. rewrite E2 in H. apply H; by left.
  - specialize (H [] [("reject_reason", JStr (RejectReason r))]).
    rewrite bool_decide_eq_false_2 by done. apply H; [by left|by right].
  - specialize (H [("unknown", JArr (map change_record_json (x :: l)))] []). rewrite E2. rewrite E2 in H.
    apply H; [by right|by left].
  - specialize (H [("unknown", JArr (map change_record_json (x :: l)))] [("reject_reason", JStr (RejectReason r))]).
    rewrite bool_decide_eq_false_2 by done. apply H; by right.
Qed.

Lemma fields_nodup r : NoDup (fields r).*1.
Proof.
  apply fields_cases. intros unknown reason [[-> _]|[_ ->]] [[-> _]|[_ ->]]; cbn; by_deciding.
Qed.

Lemma assoc_unknown r : assoc "unknown" (fields r) =
  match items (Bundle_Unknown r) with [] => None | l => Some (JArr (map change_record_json l)) end.
Proof.
  apply (fields_cases r (fun fs => assoc "unknown" fs = _)).
  intros unknown reason [[-> ->]|[Hu ->]] [[-> _]|[_ ->]]; cbn; try done; by destruct (items (Bundle_Unknown r)).
Qed.

Lemma assoc_rejected r : assoc "rejected" (fields r) = Some (JBool (Rejected r)).
Proof.
  apply (fields_cases r (fun fs => assoc "rejected" fs = _)).
  by intros unknown reason [[-> _]|[_ ->]] [[-> _]|[_ ->]].
Qed.

Lemma assoc_reason r : assoc "reject_reason" (fields r) =
  if RejectReason r == "" then None else Some (JStr (RejectReason r)).
Proof.
  apply (fields_cases r (fun fs => assoc "reject_reason" fs = _)).
  intros unknown reason [[-> _]|[_ ->]] [[-> ->]|[Hne ->]]; cbn; try done; by rewrite bool_decide_eq_false_2.
Qed.

Lemma assoc_runtime r : assoc "runtime_files" (fields r) = Some (enc_slice frozen_json (RuntimeFiles r)).
Proof.
  apply (fields_cases r (fun fs => assoc "runtime_files" fs = _)).
  by intros unknown reason [[-> _]|[_ ->]] [[-> _]|[_ ->]].
Qed.

(** Valid strings leave no name repeated once invalid bytes are replaced. *)
Lemma distinct_slice {A} (enc : A -> json) (s : slice A) :
  (forall a, distinct_names (enc a) = true) -> distinct_names (enc_slice enc s) = true.
Proof.
  intros H. destruct s as [l|]; [|done]. cbn. rewrite forallb_map. apply forallb_forall. intros a _. apply H.
Qed.

Lemma distinct_change a : distinct_names (change_record_json a) = true.
Proof. vm_compute. done. Qed.

Lemma distinct_frozen a : distinct_names (frozen_json a) = true.
Proof. vm_compute. done. Qed.

Lemma distinct_groups g : utf8 (enc_map enc_changes g) = true -> distinct_names (enc_map enc_changes g) = true.
Proof.
  destruct g as [m|]; [|done]. cbn. rewrite !forallb_map. intros Hu. apply andb_true_iff. split.
  - apply bool_decide_eq_true. rewrite map_map. cbn.
    rewrite (map_ext_in _ fst); [apply NoDup_fst_map_to_list|]. intros kv Hin.
    rewrite forallb_forall in Hu. specialize (Hu kv Hin). apply andb_true_iff in Hu as [Hu _]. by apply sanitize_valid.
  - apply forallb_forall. intros kv _. apply distinct_slice, distinct_change.
Qed.

Lemma distinct_bundle r : utf8 (bundle_json r) = true -> distinct_names (bundle_json r) = true.
Proof.
  intros Hu. assert (utf8 (enc_map enc_changes (Bundle_Groups r)) = true) as Hg.
  { rewrite bundle_fields in Hu. cbn [utf8] in Hu. rewrite forallb_forall in Hu.
    assert (In ("groups", enc_map enc_changes (Bundle_Groups r)) (fields r)) as Hin.
    { unfold fields, bundle_json. do 18 right. by left. }
    specialize (Hu _ Hin). by apply andb_true_iff in Hu as [_ Hu]. }
  rewrite bundle_fields. cbn [distinct_names]. apply andb_true_iff. split.
  - apply fields_cases. by intros unknown reason [[-> _]|[_ ->]] [[-> _]|[_ ->]].
  - apply (fields_cases r (fun fs => forallb (fun kv => distinct_names kv.2) fs = true)).
    assert (distinct_names (JArr (map change_record_json (items (Bundle_Unknown r)))) = true) as Hun
      by (apply (distinct_slice change_record_json (Some _)), distinct_change).
    intros unknown reason Hunk Hrea. rewrite !forallb_app, !andb_true_iff. split_and!.
    + unfold fields, bundle_json. cbn [take app forallb snd].
      unfold enc_changes, enc_strs. rewrite !(distinct_slice change_record_json) by apply distinct_change.
      rewrite !(distinct_slice JStr) by done. fold enc_changes. change (enc_slice change_record_json) with enc_changes.
      rewrite (distinct_groups _ Hg). done.
    + destruct Hunk as [[-> _]|[_ ->]]; [done|]. cbn [forallb snd]. by rewrite Hun.
    + done.
    + by destruct Hrea as [[-> _]|[_ ->]].
    + cbn [forallb snd]. by rewrite (distinct_slice frozen_json) by apply distinct_frozen.
Qed.

Section Binding.
Context {sh : Sha256}.

(** What is left of a bundle once the detached fields and the difference between a
    missing and an empty list of unknown changes, which is not written, are dropped. *)
Definition bound (r : CapsuleEffectBundle) := (
  (BundleVersion r, ComputerID r, BaseEventHead r, TrajectoryRef r, CapsuleIdentity r, CapabilityPolicyDigest r),
  (SourceTreeRef r, OrderedFileEffects r, GeneratedArtifactRefs r, BuildRecipeRef r, RuntimeArtifactRef r),
  (TestReceipts r, DependencyToolchainRefs r, ResourceReceipts r, ClassifierV r, ClassifierDigest r),
  (Bundle_Groups r, Bundle_Ignored r, items (Bundle_Unknown r), Rejected r, RejectReason r, RuntimeFiles r)).

Lemma bundle_json_inj r1 r2 :
  sort_members (bundle_json (payload r1)) = sort_members (bundle_json (payload r2)) -> bound r1 = bound r2.
Proof.
  intros H. rewrite !bundle_fields in H.
  assert (forall k, sort_members <$> assoc k (fields (payload r1)) = sort_members <$> assoc k (fields (payload r2))) as Hk.
  { intros k. apply sort_members_assoc; [apply fields_nodup..|exact H]. }
  clear H. pose proof (Hk "unknown") as F1. pose proof (Hk "rejected") as F2. pose proof (Hk "reject_reason") as F3.
  pose proof (Hk "runtime_files") as F4.
  rewrite !assoc_unknown in F1. rewrite !assoc_rejected in F2. rewrite !assoc_reason in F3. rewrite !assoc_runtime in F4.
  cbn [payload Bundle_Unknown Rejected RejectReason RuntimeFiles] in F1, F2, F3, F4.
  assert (items (Bundle_Unknown r1) = items (Bundle_Unknown r2)) as E1.
  { assert (Some (items (Bundle_Unknown r1)) = Some (items (Bundle_Unknown r2))) as E; [|congruence].
    destruct (items (Bundle_Unknown r1)) as [|x l1], (items (Bundle_Unknown r2)) as [|y l2]; try done.
    apply (enc_slice_inj change_record_json (Some _) (Some _) change_record_inj). cbn in F1 |- *. congruence. }
  assert (Rejected r1 = Rejected r2) as E2 by (cbn in F2; congruence).
  assert (RejectReason r1 = RejectReason r2) as E3.
  { destruct (bool_decide (RejectReason r1 = "")) eqn:B1, (bool_decide (RejectReason r2 = "")) eqn:B2; cbn in F3.
    - apply bool_decide_eq_true in B1, B2. congruence.
    - discriminate F3.
    - discriminate F3.
    - by injection F3. }
  assert (RuntimeFiles r1 = RuntimeFiles r2) as E4.
  { apply (enc_slice_inj frozen_json _ _ frozen_inj). cbn in F4. congruence. }
  clear F1 F2 F3 F4. unfold bound. rewrite E1, E2, E3, E4. clear E1 E2 E3 E4.
  assert (forall k v1 v2, assoc k (fields (payload r1)) = Some v1 -> assoc k (fields (payload r2)) = Some v2 ->
    sort_members v1 = sort_members v2) as Hf.
  { intros k v1 v2 H1 H2. specialize (Hk k). rewrite H1, H2 in Hk. cbn in Hk. congruence. }
  assert (forall k s1 s2, assoc k (fields (payload r1)) = Some (JStr s1) ->
    assoc k (fields (payload r2)) = Some (JStr s2) -> s1 = s2) as Hs.
  { intros k s1 s2 H1 H2. pose proof (Hf _ _ _ H1 H2) as E. by injection E. }
  assert (forall k s1 s2, assoc k (fields (payload r1)) = Some (enc_strs s1) ->
    assoc k (fields (payload r2)) = Some (enc_strs s2) -> s1 = s2) as Hl.
  { intros k s1 s2 H1 H2. apply enc_strs_inj. eapply Hf; eassumption. }
  assert (forall k s1 s2, assoc k (fields (payload r1)) = Some (enc_changes s1) ->
    assoc k (fields (payload r2)) = Some (enc_changes s2) -> s1 = s2) as Hc.
  { intros k s1 s2 H1 H2. apply (enc_slice_inj change_record_json _ _ change_record_inj). eapply Hf; eassumption. }
  assert (BundleVersion r1 = BundleVersion r2) as -> by (apply JInt_inj, (Hf "bundle_version" (JInt (BundleVersion r1)) (JInt (BundleVersion r2))); reflexivity).
  assert (Bundle_Groups r1 = Bundle_Groups r2) as -> by (apply groups_inj, (Hf "groups"); reflexivity).
  rewrite (Hs "computer_id" (ComputerID r1) (ComputerID r2)), (Hs "base_event_head" (BaseEventHead r1) (BaseEventHead r2)),
    (Hs "trajectory_ref" (TrajectoryRef r1) (TrajectoryRef r2)), (Hs "capsule_identity" (CapsuleIdentity r1) (CapsuleIdentity r2)),
    (Hs "capability_policy_digest" (CapabilityPolicyDigest r1) (CapabilityPolicyDigest r2)),
    (Hs "source_tree_ref" (SourceTreeRef r1) (SourceTreeRef r2)), (Hs "build_recipe_ref" (BuildRecipeRef r1) (BuildRecipeRef r2)),
    (Hs "runtime_artifact_ref" (RuntimeArtifactRef r1) (RuntimeArtifactRef r2)),
    (Hs "classifier_version" (ClassifierV r1) (ClassifierV r2)), (Hs "classifier_digest" (ClassifierDigest r1) (ClassifierDigest r2)),
    (Hl "generated_artifact_refs" (GeneratedArtifactRefs r1) (GeneratedArtifactRefs r2)),
    (Hl "test_receipts" (TestReceipts r1) (TestReceipts r2)),
    (Hl "dependency_toolchain_refs" (DependencyToolchainRefs r1) (DependencyToolchainRefs r2)),
    (Hl "resource_receipts" (ResourceReceipts r1) (ResourceReceipts r2)),
    (Hc "ordered_file_effects" (OrderedFileEffects r1) (OrderedFileEffects r2)),
    (Hc "ignored" (Bundle_Ignored r1) (Bundle_Ignored r2)) by reflexivity.
  reflexivity.
Qed.

Lemma ComputeContentDigest_inv r d : ComputeContentDigest r = Ok d ->
  exists b, CanonicalJSON (bundle_json (payload r)) = Ok b /\ d = sha256_hex b.
Proof.
  unfold ComputeContentDigest. generalize (CanonicalJSON (bundle_json (payload r))). intros [b|e] H; [|discriminate H].
  apply Ok_inj in H. by exists b.
Qed.

(** The text that is hashed. *)
Definition content_text (r : CapsuleEffectBundle) : string := ok_or "" (CanonicalJSON (bundle_json (payload r))).

(** The bundle with verifier receipts and a content digest attached. *)
Definition attach (receipts : slice string) (digest : string) (r : CapsuleEffectBundle) : CapsuleEffectBundle := {|
  BundleVersion := BundleVersion r; ComputerID := ComputerID r; BaseEventHead := BaseEventHead r;
  TrajectoryRef := TrajectoryRef r; CapsuleIdentity := CapsuleIdentity r;
  CapabilityPolicyDigest := CapabilityPolicyDigest r; SourceTreeRef := SourceTreeRef r;
  OrderedFileEffects := OrderedFileEffects r; GeneratedArtifactRefs := GeneratedArtifactRefs r;
  BuildRecipeRef := BuildRecipeRef r; RuntimeArtifactRef := RuntimeArtifactRef r;
  TestReceipts := TestReceipts r; VerifierReceipts := receipts;
  DependencyToolchainRefs := DependencyToolchainRefs r; ResourceReceipts := ResourceReceipts r;
  ContentDigest := digest; ClassifierV := ClassifierV r; ClassifierDigest := ClassifierDigest r;
  Bundle_Groups := Bundle_Groups r; Bundle_Ignored := Bundle_Ignored r; Bundle_Unknown := Bundle_Unknown r;
  Rejected := Rejected r; RejectReason := RejectReason r; RuntimeFiles := RuntimeFiles r |}.

Lemma attach_digest receipts digest r : ComputeContentDigest (attach receipts digest r) = ComputeContentDigest r.
Proof. unfold ComputeContentDigest. reflexivity. Qed.

(** [C31] The content digest that detached verifier receipts sign binds the whole bundle:
    two bundles of valid UTF-8 strings with one digest agree on every field but the
    receipts, the digest itself and a missing list of unknown changes against an empty
    one, or the two texts that were hashed are a SHA-256 collision. And whatever receipts
    and digest are attached to a bundle afterwards, its content digest stays the same. *)
Theorem content_digest_binds r1 r2 d receipts digest :
  utf8 (bundle_json (payload r1)) = true -> utf8 (bundle_json (payload r2)) = true ->
  ComputeContentDigest r1 = Ok d -> ComputeContentDigest r2 = Ok d ->
  (bound r1 = bound r2 \/ collision_in [content_text r1; content_text r2]) /\
  ComputeContentDigest (attach receipts digest r1) = Ok d.
Proof.
  intros U1 U2 D1 D2. split; [|by rewrite attach_digest].
  apply ComputeContentDigest_inv in D1 as (b1 & C1 & E1). apply ComputeContentDigest_inv in D2 as (b2 & C2 & E2).
  unfold content_text. rewrite C1, C2. cbn [ok_or].
  destruct (sha256_hex_eq b2 b1 [b1; b2]) as [E|Hcol]; [congruence|in_list|in_list|left|by right]. rewrite E in C2.
  pose proof (CanonicalJSON_inj _ _ _ C1 C2) as H.
  rewrite (redecode_id _ U1 (distinct_bundle _ U1)), (redecode_id _ U2 (distinct_bundle _ U2)) in H.
  exact (bundle_json_inj r1 r2 H).
Qed.
End Binding.

(** ** Witnesses and boundary cases *)
Module Demo.
Definition added (p : string) : FileChange := Build_FileChange p ChangeAdded 420.

Example mode_text : map FileMode_String [420; 493; 2147484141; 0] = ["-rw-r--r--"; "-rwxr-xr-x"; "drwxr-xr-x"; "----------"].
Proof. vm_compute. reflexivity. Qed.

(** Prefixes do not end at a component of the path. *)
Lemma prefixes_cross_components :
  isIgnored NewClassifier "/system/unit" = true /\ isIgnored NewClassifier "/devices" = true /\
  place NewClassifier (added "/workspace-old/x") = Some LedgerSource /\
  place NewClassifier (added "/bootstrap/x") = Some LedgerVM.
Proof. vm_compute. done. Qed.

Section Hash.
Context {sh : Sha256}.

Lemma same_text (c : Classifier) l1 l2 :
  digest_text (Version c) (Groups (Classify c l1)) = digest_text (Version c) (Groups (Classify c l2)) ->
  Res_Digest (Classify c l1) = Res_Digest (Classify c l2).
Proof. intros H. rewrite (Classify_eta c l1), (Classify_eta c l2). cbn [Res_Digest]. by rewrite H. Qed.

(** Two different diffs with one classification digest: nothing separates the
    changes in the text that is hashed. *)
Lemma classification_digest_collides :
  let l1 := [added "/workspace/a"; added "/workspace/b"] in
  let l2 := [added "/workspace/a:added:-rw-r--r--/workspace/b"] in
  Groups (Classify NewClassifier l1) <> Groups (Classify NewClassifier l2) /\
  Res_Digest (Classify NewClassifier l1) = Res_Digest (Classify NewClassifier l2).
Proof.
  cbv zeta. split.
  - intros H. apply (f_equal (fun g => length (default [] (g !! LedgerSource)))) in H. by vm_compute in H.
  - apply same_text. vm_compute. reflexivity.
Qed.

(** Nor do the ignored and the unknown changes enter it. *)
Lemma classification_digest_ignores_unknown :
  Res_Digest (Classify NewClassifier [added "/etc/passwd"]) = Res_Digest (Classify NewClassifier []).
Proof. apply same_text. vm_compute. reflexivity. Qed.

End Hash.

#[local] Existing Instance checksum.

Lemma bundle_deterministic_witness :
  Rejected (BuildBundleFromDiff NewClassifier "cap" [added "/etc/passwd"; added "/workspace/a"]) = true.
Proof.
  destruct (bundle_deterministic NewClassifier "cap" [added "/etc/passwd"; added "/workspace/a"]
    [added "/workspace/a"; added "/etc/passwd"]) as (_ & H & _).
  - apply Permutation_swap.
  - by_deciding.
  - apply H. exists (added "/etc/passwd"). split; [by left|]. vm_compute. reflexivity.
Defined.

(** A bundle, and the same with a verifier receipt. *)
Definition diff : CapsuleEffectBundle := BuildBundleFromDiff NewClassifier "cap" [added "/workspace/a"].
Definition signed : CapsuleEffectBundle := attach (Some ["receipt"]) "d" diff.

Lemma content_digest_binds_witness :
  (bound diff = bound signed \/ collision_in [content_text diff; content_text signed]) /\
  ComputeContentDigest signed = Ok (ok_or "" (ComputeContentDigest diff)).
Proof.
  apply (content_digest_binds diff signed (ok_or "" (ComputeContentDigest diff)) (Some ["receipt"]) "d"); vm_compute; reflexivity.
Defined.
End Demo.
End CapsuleBundle.
