(* ===== verification/ActorLog.v ===== *)
(** * ActorLog: the durable update log of the actors

    Models [internal/actor/log_sqlite.go] and the interface [Log] of
    [internal/actor/actor.go]. [Log] is a class of operations, [LogLaws] what
    the interface promises its users; the actor runtime is verified against the
    two. [SQLiteLog] is the pair of tables of the implementation, a [gmap] by
    primary key each, and a statement of SQL is its meaning on them; the
    driver writes the UTC times of the tables so that they sort as instants. A
    transaction that fails leaves the tables as they were, so only the checks of
    the code and the successful run of its statements are modelled. *)
From S2P Require Import Prelude GoStrings GoTime.
From Stdlib Require Import String.
From stdpp Require Import gmap strings.

Module ActorLog.
Local Open Scope Z_scope.

Record Update := {
  UpdateID : string; ToAgentID : string; FromAgentID : string; Kind : string;
  Content : string; TrajectoryID : string; CreatedAt : Time }.

#[export] Instance Update_eq_dec : EqDecision Update.
Proof. solve_decision. Defined.

(** An actor's compacted memory: a slice of bytes, [nil] without a snapshot. *)
Definition memory := option string.

(** ** The interface *)
Class Log (L : Type) := {
  Append : Update -> L -> L * bool;
  Unprocessed : string -> L -> list Update;
  MarkProcessed : Time -> string -> string -> L -> L;
  AgentsWithBacklog : L -> list string;
  SaveSnapshot : Time -> string -> memory -> L -> L;
  LoadSnapshot : string -> L -> memory;
  (** What is logged under an identifier, and whether it was incorporated. *)
  entry : L -> string -> option (Update * bool);
}.

Class LogLaws (L : Type) `{Log L} := {
  entry_id l id u p : entry l id = Some (u, p) -> UpdateID u = id;
  append_new l u : (Append u l).2 = true <-> entry l (UpdateID u) = None;
  append_entry l u id :
    entry (Append u l).1 id =
      if bool_decide (id = UpdateID u) then Some (default (u, false) (entry l id)) else entry l id;
  unprocessed_entry l a u :
    u ∈ Unprocessed a l <-> entry l (UpdateID u) = Some (u, false) /\ ToAgentID u = a;
  unprocessed_nodup l a : NoDup (Unprocessed a l);
  mark_entry now l a id id' :
    entry (MarkProcessed now a id l) id' =
      if bool_decide (id' = id)
      then (fun up => (up.1, up.2 || bool_decide (ToAgentID up.1 = a))) <$> entry l id'
      else entry l id';
  backlog_agents l a : a ∈ AgentsWithBacklog l <-> Unprocessed a l <> [];
  snapshot_entry now l a m id : entry (SaveSnapshot now a m l) id = entry l id;
  load_snapshot now l a b m :
    LoadSnapshot b (SaveSnapshot now a m l) = if bool_decide (b = a) then m else LoadSnapshot b l;
  load_append l u a : LoadSnapshot a (Append u l).1 = LoadSnapshot a l;
  load_mark now l a id b : LoadSnapshot b (MarkProcessed now a id l) = LoadSnapshot b l;
}.

(** ** The tables *)
Record update_row := {
  to_agent_id : string; from_agent_id : string; kind : string; content : string;
  trajectory_id : string; created_at : Time; processed_at : option Time }.

Record snapshot_row := { row_memory : memory; updated_at : Time }.

(** [actor_updates] by [update_id] and [actor_snapshots] by [agent_id]. *)
Record SQLiteLog := {
  actor_updates : gmap string update_row; actor_snapshots : gmap string snapshot_row }.

Definition NewSQLiteLog : SQLiteLog := {| actor_updates := ∅; actor_snapshots := ∅ |}.

Definition set_updates (l : SQLiteLog) (m : gmap string update_row) : SQLiteLog :=
  Build_SQLiteLog m (actor_snapshots l).
Definition set_snapshots (l : SQLiteLog) (m : gmap string snapshot_row) : SQLiteLog :=
  Build_SQLiteLog (actor_updates l) m.

Definition row_of (u : Update) : update_row :=
  Build_update_row (ToAgentID u) (FromAgentID u) (Kind u) (Content u) (TrajectoryID u) (CreatedAt u) None.

(** The columns that are scanned into an [Update]. *)
Definition update_of (kv : string * update_row) : Update :=
  let '(id, r) := kv in
  Build_Update id (to_agent_id r) (from_agent_id r) (kind r) (content r) (trajectory_id r) (created_at r).

Definition is_processed (r : update_row) : bool := bool_decide (is_Some (processed_at r)).

Definition sql_Append (u : Update) (l : SQLiteLog) : SQLiteLog * bool :=
  match actor_updates l !! UpdateID u with
  | Some _ => (l, false)
  | None => (set_updates l (<[UpdateID u := row_of u]> (actor_updates l)), true)
  end.

(** [ORDER BY created_at, update_id] *)
Definition backlog_key (u : Update) : Time * string := (CreatedAt u, UpdateID u).
Definition backlog_order : Time * string -> Time * string -> bool := pair_ltb Z.ltb String.ltb.

Definition pending_for (agentID : string) (kv : string * update_row) : bool :=
  (to_agent_id kv.2 == agentID) && negb (is_processed kv.2).

Definition sql_Unprocessed (agentID : string) (l : SQLiteLog) : list Update :=
  sort_slice (key_less backlog_key backlog_order)
    (map update_of (List.filter (pending_for agentID) (map_to_list (actor_updates l)))).

Definition mark_row (now : Time) (agentID : string) (r : update_row) : update_row :=
  if (to_agent_id r == agentID) && negb (is_processed r)
  then Build_update_row (to_agent_id r) (from_agent_id r) (kind r) (content r) (trajectory_id r) (created_at r)
         (Some now)
  else r.

Definition sql_MarkProcessed (now : Time) (agentID updateID : string) (l : SQLiteLog) : SQLiteLog :=
  set_updates l (alter (mark_row now agentID) updateID (actor_updates l)).

(** Whether an occurrence exists, and whether it was processed. *)
Definition UpdateStatus (agentID updateID : string) (l : SQLiteLog) : bool * bool :=
  match actor_updates l !! updateID with
  | Some r => if to_agent_id r == agentID then (true, is_processed r) else (false, false)
  | None => (false, false)
  end.

Definition sql_AgentsWithBacklog (l : SQLiteLog) : list string :=
  remove_dups (map (fun kv => to_agent_id kv.2)
    (List.filter (fun kv => negb (is_processed kv.2)) (map_to_list (actor_updates l)))).

(** Recipients and owners of snapshots, in order. *)
Definition MailboxIdentities (l : SQLiteLog) : list string :=
  sort_slice String.ltb (elements
    (list_to_set (map (fun kv => to_agent_id kv.2) (map_to_list (actor_updates l)))
     ∪ dom (actor_snapshots l) : gset string)).

Definition sql_SaveSnapshot (now : Time) (agentID : string) (m : memory) (l : SQLiteLog) : SQLiteLog :=
  set_snapshots l (<[agentID := Build_snapshot_row m now]> (actor_snapshots l)).

Definition sql_LoadSnapshot (agentID : string) (l : SQLiteLog) : memory :=
  match actor_snapshots l !! agentID with Some r => row_memory r | None => None end.

#[export] Instance SQLiteLog_Log : Log SQLiteLog := {
  Append := sql_Append; Unprocessed := sql_Unprocessed; MarkProcessed := sql_MarkProcessed;
  AgentsWithBacklog := sql_AgentsWithBacklog; SaveSnapshot := sql_SaveSnapshot;
  LoadSnapshot := sql_LoadSnapshot;
  entry l id := (fun r => (update_of (id, r), is_processed r)) <$> actor_updates l !! id;
}.

(** ** Moving and removing mailboxes *)
Record MailboxRebind := { LegacyID : string; ScopedID : string }.

Inductive log_error := ErrRebindIdentities | ErrDuplicateLegacy | ErrDuplicateScoped
  | ErrPruneIdentity | ErrPruneDuplicate.

Fixpoint check_plan (plan : list MailboxRebind) (legacyIDs scopedIDs : gset string) : option log_error :=
  match plan with
  | [] => None
  | r :: plan =>
    if (LegacyID r == "") || (ScopedID r == "") || (LegacyID r == ScopedID r) then Some ErrRebindIdentities
    else if bool_decide (LegacyID r ∈ legacyIDs) then Some ErrDuplicateLegacy
    else if bool_decide (ScopedID r ∈ scopedIDs) then Some ErrDuplicateScoped
    else check_plan plan ({[LegacyID r]} ∪ legacyIDs) ({[ScopedID r]} ∪ scopedIDs)
  end.

Definition has_updates (l : SQLiteLog) (id : string) : bool :=
  existsb (fun kv => to_agent_id kv.2 == id) (map_to_list (actor_updates l)).
Definition has_snapshot (l : SQLiteLog) (id : string) : bool := bool_decide (is_Some (actor_snapshots l !! id)).

Definition move_row (legacy scoped : string) (r : update_row) : update_row :=
  if to_agent_id r == legacy
  then Build_update_row scoped (from_agent_id r) (kind r) (content r) (trajectory_id r) (created_at r)
         (processed_at r)
  else r.

(** The newer of the two snapshots, the one in place if they are as old. *)
Definition merge_snapshot (legacy scoped : string) (m : gmap string snapshot_row) : gmap string snapshot_row :=
  match m !! legacy with
  | None => m
  | Some r =>
    match m !! scoped with
    | Some r' => if updated_at r' <? updated_at r then <[scoped := r]> m else m
    | None => <[scoped := r]> m
    end
  end.

Definition rebind_one (st : SQLiteLog * bool) (r : MailboxRebind) : SQLiteLog * bool :=
  let '(l, changed) := st in
  (Build_SQLiteLog (move_row (LegacyID r) (ScopedID r) <$> actor_updates l)
     (delete (LegacyID r) (merge_snapshot (LegacyID r) (ScopedID r) (actor_snapshots l))),
   changed || has_updates l (LegacyID r) || has_snapshot l (LegacyID r)).

Definition active (l : SQLiteLog) (plan : list MailboxRebind) : list MailboxRebind :=
  List.filter (fun r => has_updates l (LegacyID r) || has_snapshot l (LegacyID r)) plan.

Definition RebindMailboxes (plan : list MailboxRebind) (l : SQLiteLog) : res log_error (SQLiteLog * bool) :=
  match check_plan plan ∅ ∅ with
  | Some e => Err e
  | None => Ok (foldl rebind_one (l, false) (active l plan))
  end.

Definition RebindMailbox (legacyID scopedID : string) (l : SQLiteLog) : res log_error (SQLiteLog * bool) :=
  RebindMailboxes [Build_MailboxRebind legacyID scopedID] l.

Fixpoint check_prune (ids : list string) (seen : gset string) : option log_error :=
  match ids with
  | [] => None
  | id :: ids =>
    if id == "" then Some ErrPruneIdentity
    else if bool_decide (id ∈ seen) then Some ErrPruneDuplicate
    else check_prune ids ({[id]} ∪ seen)
  end.

Definition prune_one (st : SQLiteLog * bool) (id : string) : SQLiteLog * bool :=
  let '(l, changed) := st in
  (Build_SQLiteLog (filter (fun kv => to_agent_id kv.2 <> id) (actor_updates l)) (delete id (actor_snapshots l)),
   changed || has_updates l id || has_snapshot l id).

Definition PruneMailboxes (mailboxIDs : list string) (l : SQLiteLog) : res log_error (SQLiteLog * bool) :=
  match mailboxIDs with
  | [] => Ok (l, false)
  | _ => match check_prune mailboxIDs ∅ with
         | Some e => Err e
         | None => Ok (foldl prune_one (l, false) mailboxIDs)
         end
  end.

(** ** The implementation keeps the promises of the interface *)
Lemma elem_of_pending a l u :
  u ∈ map update_of (List.filter (pending_for a) (map_to_list (actor_updates l))) <->
  entry l (UpdateID u) = Some (u, false) /\ ToAgentID u = a.
Proof.
  rewrite list_elem_of_In, in_map_iff. cbn. split.
  - intros ([id r] & <- & [Hin Hp]%filter_In). apply list_elem_of_In, elem_of_map_to_list in Hin. cbn in *.
    unfold pending_for in Hp. cbn in Hp. to_prop. rewrite Hin. cbn. by rewrite H0.
  - intros [He Ha]. destruct (actor_updates l !! UpdateID u) as [r|] eqn:Hl; [|done]. cbn in He. injection He as Hu Hp.
    exists (UpdateID u, r). split; [done|]. apply filter_In. split.
    + by apply list_elem_of_In, elem_of_map_to_list.
    + unfold pending_for. cbn. rewrite Hp, <-Ha, <-Hu. cbn. by rewrite bool_decide_eq_true_2.
Qed.

Lemma pending_ids_nodup a l :
  NoDup (UpdateID <$> map update_of (List.filter (pending_for a) (map_to_list (actor_updates l)))).
Proof.
  assert (forall k : list (string * update_row), UpdateID <$> map update_of k = k.*1) as ->.
  { intros k. induction k as [|[] k IH]; [done|]. cbn. by f_equal. }
  eapply sublist_NoDup; [apply (NoDup_fst_map_to_list (actor_updates l))|]. apply fmap_sublist.
  generalize (map_to_list (actor_updates l)). intros k.
  induction k as [|x k IH]; cbn; [constructor|]. destruct (pending_for a x); by constructor.
Qed.

#[export] Instance backlog_order_strict : StrictOrderB backlog_order.
Proof. unfold backlog_order. apply _. Qed.

Lemma mark_row_update now a id r : update_of (id, mark_row now a r) = update_of (id, r).
Proof. unfold mark_row. by destruct (_ && _). Qed.

Lemma mark_row_processed now a r :
  is_processed (mark_row now a r) = is_processed r || bool_decide (to_agent_id r = a).
Proof.
  unfold mark_row, is_processed. destruct (decide (to_agent_id r = a)).
  - rewrite (bool_decide_eq_true_2 (_ = a)) by done. cbn.
    destruct (processed_at r) as [t|] eqn:E; cbn; by rewrite ?E.
  - rewrite (bool_decide_eq_false_2 (_ = a)) by done. cbn. by rewrite orb_false_r.
Qed.

#[export] Instance SQLiteLog_laws : LogLaws SQLiteLog.
Proof.
  split; cbn.
  - intros l id u p. destruct (actor_updates l !! id); cbn; [|done]. by intros [= <- _].
  - intros l u. unfold sql_Append. by destruct (actor_updates l !! UpdateID u).
  - intros l u id. unfold sql_Append. case_bool_decide as Hid.
    + subst. destruct (actor_updates l !! UpdateID u) eqn:E; cbn; [by rewrite E|].
      rewrite lookup_insert_eq. cbn. by destruct u.
    + destruct (actor_updates l !! UpdateID u); cbn; [done|]. by rewrite lookup_insert_ne.
  - intros l a u. unfold sql_Unprocessed. rewrite elem_of_sort_slice. apply elem_of_pending.
  - intros l a. unfold sql_Unprocessed. rewrite sort_slice_Permutation.
    eapply NoDup_fmap_1, pending_ids_nodup.
  - intros now l a id id'. case_bool_decide as Hid; [subst|by rewrite lookup_alter_ne].
    rewrite lookup_alter_eq. destruct (actor_updates l !! id) as [r|]; cbn; [|done].
    f_equal. f_equal; [apply mark_row_update|apply mark_row_processed].
  - intros l a. unfold sql_AgentsWithBacklog. rewrite elem_of_remove_dups. split.
    + intros Hin Hnil. apply list_elem_of_In, in_map_iff in Hin as ([id r] & <- & [Hin Hp]%filter_In). cbn in *.
      apply list_elem_of_In in Hin as Hin'. apply elem_of_map_to_list in Hin'. to_prop.
      assert (update_of (id, r) ∈ sql_Unprocessed (to_agent_id r) l) as Hu.
      { unfold sql_Unprocessed. rewrite elem_of_sort_slice, elem_of_pending. cbn. rewrite Hin'. cbn. by rewrite Hp. }
      rewrite Hnil in Hu. by apply not_elem_of_nil in Hu.
    + intros Hne. destruct (sql_Unprocessed a l) as [|u k] eqn:E; [done|].
      assert (u ∈ sql_Unprocessed a l) as Hu by (rewrite E; left).
      unfold sql_Unprocessed in Hu. rewrite elem_of_sort_slice, list_elem_of_In, in_map_iff in Hu.
      destruct Hu as ([id r] & <- & [Hin Hp]%filter_In). unfold pending_for in Hp. cbn in Hp. to_prop.
      apply list_elem_of_In, in_map_iff. exists (id, r). split; [done|]. apply filter_In.
      split; [done|]. cbn. by apply negb_true_iff.
  - done.
  - intros now l a b m. unfold sql_LoadSnapshot, sql_SaveSnapshot. cbn. case_bool_decide; subst.
    + by rewrite lookup_insert_eq.
    + by rewrite lookup_insert_ne.
  - intros l u a. unfold sql_Append, sql_LoadSnapshot. by destruct (actor_updates l !! UpdateID u).
  - done.
Qed.

(** ** Moving mailboxes *)
Definition find_legacy (plan : list MailboxRebind) (id : string) : option MailboxRebind :=
  List.find (fun r => LegacyID r == id) plan.
Definition find_scoped (plan : list MailboxRebind) (id : string) : option MailboxRebind :=
  List.find (fun r => ScopedID r == id) plan.

(** Where the plan takes a mailbox. *)
Definition rename (plan : list MailboxRebind) (id : string) : string :=
  match find_legacy plan id with Some r => ScopedID r | None => id end.

Definition renamed_row (plan : list MailboxRebind) (r : update_row) : update_row :=
  Build_update_row (rename plan (to_agent_id r)) (from_agent_id r) (kind r) (content r) (trajectory_id r)
    (created_at r) (processed_at r).

Definition newer (legacy scoped : option snapshot_row) : option snapshot_row :=
  match legacy, scoped with
  | Some r, Some r' => if updated_at r' <? updated_at r then Some r else Some r'
  | Some r, None => Some r
  | None, _ => scoped
  end.

(** The snapshot of an identity after the plan. *)
Definition moved_snapshot (plan : list MailboxRebind) (m : gmap string snapshot_row) (id : string)
    : option snapshot_row :=
  match find_legacy plan id, find_scoped plan id with
  | Some _, _ => None
  | None, Some r => newer (m !! LegacyID r) (m !! id)
  | None, None => m !! id
  end.

(** No identity is both left and entered. *)
Definition one_way (plan : list MailboxRebind) : Prop :=
  forall r r', r ∈ plan -> r' ∈ plan -> LegacyID r <> ScopedID r'.

Record plan_ok (plan : list MailboxRebind) : Prop := {
  ok_legacy : NoDup (LegacyID <$> plan); ok_scoped : NoDup (ScopedID <$> plan); ok_one_way : one_way plan }.

Lemma check_plan_nodup plan ls ss :
  check_plan plan ls ss = None ->
  (NoDup (LegacyID <$> plan) /\ forall id, id ∈ LegacyID <$> plan -> id ∉ ls)
  /\ NoDup (ScopedID <$> plan) /\ forall id, id ∈ ScopedID <$> plan -> id ∉ ss.
Proof.
  revert ls ss. induction plan as [|r plan IH]; intros ls ss; cbn.
  - intros _. repeat split; try constructor; intros ? []%not_elem_of_nil.
  - intros H. split_conds H; try done. to_prop. apply IH in H as [[? HL] [? HS]].
    repeat split.
    + constructor; [|done]. intros Hin%HL. set_solver.
    + intros id [->|Hin]%elem_of_cons; [done|]. apply HL in Hin. set_solver.
    + constructor; [|done]. intros Hin%HS. set_solver.
    + intros id [->|Hin]%elem_of_cons; [done|]. apply HS in Hin. set_solver.
Qed.

Lemma find_legacy_Some plan id r : find_legacy plan id = Some r -> r ∈ plan /\ LegacyID r = id.
Proof. intros [Hin H]%List.find_some. to_prop. split; [by apply list_elem_of_In|done]. Qed.

Lemma find_scoped_Some plan id r : find_scoped plan id = Some r -> r ∈ plan /\ ScopedID r = id.
Proof. intros [Hin H]%List.find_some. to_prop. split; [by apply list_elem_of_In|done]. Qed.

Lemma find_legacy_None plan id : find_legacy plan id = None <-> id ∉ LegacyID <$> plan.
Proof.
  split.
  - intros H Hin. apply list_elem_of_fmap in Hin as (r & -> & Hr). apply list_elem_of_In in Hr.
    pose proof (List.find_none _ _ H r Hr) as Hn. cbn in Hn. by case_bool_decide.
  - intros Hn. destruct (find_legacy plan id) as [r|] eqn:E; [|done].
    apply find_legacy_Some in E as [Hr <-]. destruct Hn. apply list_elem_of_fmap. by exists r.
Qed.

Lemma find_scoped_None plan id : find_scoped plan id = None <-> id ∉ ScopedID <$> plan.
Proof.
  split.
  - intros H Hin. apply list_elem_of_fmap in Hin as (r & -> & Hr). apply list_elem_of_In in Hr.
    pose proof (List.find_none _ _ H r Hr) as Hn. cbn in Hn. by case_bool_decide.
  - intros Hn. destruct (find_scoped plan id) as [r|] eqn:E; [|done].
    apply find_scoped_Some in E as [Hr <-]. destruct Hn. apply list_elem_of_fmap. by exists r.
Qed.

Lemma plan_ok_cons r plan :
  plan_ok (r :: plan) -> plan_ok plan /\ find_legacy plan (LegacyID r) = None
    /\ find_scoped plan (ScopedID r) = None /\ find_legacy plan (ScopedID r) = None
    /\ find_scoped plan (LegacyID r) = None /\ LegacyID r <> ScopedID r.
Proof.
  intros [HL HS HW]. apply NoDup_cons in HL as [HL1 HL2], HS as [HS1 HS2].
  rewrite find_legacy_None, find_scoped_None, find_legacy_None, find_scoped_None. repeat split; try done.
  - intros a b Ha Hb. apply HW; by right.
  - intros (b & Hb & Hin)%list_elem_of_fmap. symmetry in Hb. revert Hb. apply HW; [by right|by left].
  - intros (b & Hb & Hin)%list_elem_of_fmap. revert Hb. apply HW; [by left|by right].
  - apply HW; by left.
Qed.

Lemma find_cons {A} (f : A -> bool) x l : List.find f (x :: l) = if f x then Some x else List.find f l.
Proof. done. Qed.

Lemma renamed_row_cons r plan row :
  plan_ok (r :: plan) ->
  renamed_row plan (move_row (LegacyID r) (ScopedID r) row) = renamed_row (r :: plan) row.
Proof.
  intros (_ & HL & HS & HSL & HLS & Hne)%plan_ok_cons.
  unfold renamed_row, move_row, rename, find_legacy in *. rewrite find_cons.
  destruct (decide (to_agent_id row = LegacyID r)) as [E|E].
  - rewrite (bool_decide_eq_true_2 (to_agent_id row = _)) by done. cbn.
    rewrite HSL. by rewrite (bool_decide_eq_true_2 (LegacyID r = _)).
  - rewrite (bool_decide_eq_false_2 (to_agent_id row = _)) by done.
    by rewrite (bool_decide_eq_false_2 (LegacyID r = _)).
Qed.

Lemma merged_lookup L S m id :
  L <> S ->
  delete L (merge_snapshot L S m) !! id =
    if bool_decide (id = L) then None else if bool_decide (id = S) then newer (m !! L) (m !! S) else m !! id.
Proof.
  intros Hne. case_bool_decide as H1; [subst; by rewrite lookup_delete_eq|]. rewrite lookup_delete_ne by done.
  unfold merge_snapshot, newer. destruct (m !! L) as [r|]; [|case_bool_decide; by subst].
  case_bool_decide as H2.
  - subst. destruct (m !! S) as [r'|] eqn:E; [destruct (_ <? _)|]; by rewrite ?lookup_insert_eq.
  - destruct (m !! S); [destruct (_ <? _)|]; by rewrite ?lookup_insert_ne.
Qed.

Lemma moved_snapshot_cons r plan m id :
  plan_ok (r :: plan) ->
  moved_snapshot plan (delete (LegacyID r) (merge_snapshot (LegacyID r) (ScopedID r) m)) id
    = moved_snapshot (r :: plan) m id.
Proof.
  intros Hok. pose proof Hok as (Hok' & HL & HS & HSL & HLS & Hne)%plan_ok_cons.
  unfold moved_snapshot. unfold find_legacy at 2, find_scoped at 2. rewrite !find_cons.
  fold (find_legacy plan id) (find_scoped plan id).
  case_bool_decide as H1.
  { subst. rewrite HL, HLS, merged_lookup by done. by rewrite bool_decide_eq_true_2. }
  destruct (find_legacy plan id) as [r'|] eqn:E1; [done|].
  case_bool_decide as H2.
  { subst. rewrite HS, merged_lookup by done.
    rewrite bool_decide_eq_false_2 by done. by rewrite bool_decide_eq_true_2. }
  destruct (find_scoped plan id) as [r'|] eqn:E2.
  - apply find_scoped_Some in E2 as [Hr' E2].
    rewrite !merged_lookup by done.
    rewrite (bool_decide_eq_false_2 (LegacyID r' = LegacyID r)), (bool_decide_eq_false_2 (LegacyID r' = ScopedID r)),
      (bool_decide_eq_false_2 (id = LegacyID r)), (bool_decide_eq_false_2 (id = ScopedID r)); [done|..]; try congruence.
    + apply (ok_one_way _ Hok); [by right|by left].
    + intros Heq. apply find_legacy_None in HL. destruct HL. apply list_elem_of_fmap. eauto.
  - rewrite merged_lookup by done. by rewrite !bool_decide_eq_false_2.
Qed.

Definition occupied (l : SQLiteLog) (id : string) : bool := has_updates l id || has_snapshot l id.

Lemma has_updates_spec l id : has_updates l id = true <-> exists k r, actor_updates l !! k = Some r /\ to_agent_id r = id.
Proof.
  unfold has_updates. rewrite existsb_exists. split.
  - intros ([k r] & Hin & H). to_prop. exists k, r. split; [|done]. by apply elem_of_map_to_list, list_elem_of_In.
  - intros (k & r & Hk & <-). exists (k, r). split; [by apply list_elem_of_In, elem_of_map_to_list|].
    by apply bool_decide_eq_true.
Qed.

Lemma occupied_after r l id :
  LegacyID r <> ScopedID r -> id <> LegacyID r -> id <> ScopedID r ->
  occupied (rebind_one (l, false) r).1 id = occupied l id.
Proof.
  intros Hne H1 H2. unfold occupied. f_equal.
  - apply eq_true_iff_eq. rewrite !has_updates_spec. cbn. split.
    + intros (k & row & Hk & Hto). apply lookup_fmap_Some in Hk as (row0 & <- & Hk). exists k, row0. split; [done|].
      unfold move_row in Hto. case_bool_decide; [|done]. cbn in Hto. congruence.
    + intros (k & row & Hk & Hto). exists k, row. split; [|done]. rewrite lookup_fmap, Hk. cbn.
      unfold move_row. by rewrite bool_decide_eq_false_2 by congruence.
  - unfold has_snapshot. cbn. apply bool_decide_ext. rewrite merged_lookup by done. by rewrite !bool_decide_eq_false_2.
Qed.

Lemma existsb_agree {A} (f g : A -> bool) l : (forall x, x ∈ l -> f x = g x) -> existsb f l = existsb g l.
Proof.
  induction l as [|x l IH]; intros H; [done|]. cbn. f_equal; [apply H; by left|].
  apply IH. intros y Hy. apply H. by right.
Qed.

Lemma rebind_fold plan l c :
  plan_ok plan ->
  actor_updates (foldl rebind_one (l, c) plan).1 = renamed_row plan <$> actor_updates l
  /\ (forall id, actor_snapshots (foldl rebind_one (l, c) plan).1 !! id = moved_snapshot plan (actor_snapshots l) id)
  /\ (foldl rebind_one (l, c) plan).2 = c || existsb (fun r => occupied l (LegacyID r)) plan.
Proof.
  revert l c. induction plan as [|r plan IH]; intros l c Hok.
  - cbn. rewrite orb_false_r. repeat split. rewrite <-(map_fmap_id (actor_updates l)) at 1.
    apply map_fmap_ext. intros ? [] _. done.
  - pose proof Hok as (Hok' & HL & HS & HSL & HLS & Hne)%plan_ok_cons. cbn [foldl].
    destruct (rebind_one (l, c) r) as [l1 c1] eqn:E1.
    assert (l1 = (rebind_one (l, false) r).1 /\ c1 = c || occupied l (LegacyID r)) as [-> ->].
    { unfold rebind_one in E1. injection E1 as <- <-. unfold occupied. by rewrite orb_assoc. }
    destruct (IH (rebind_one (l, false) r).1 (c || occupied l (LegacyID r)) Hok') as (-> & Hs & ->).
    repeat split.
    + cbn. rewrite <-map_fmap_compose. apply map_fmap_ext. intros k row _. by apply renamed_row_cons.
    + intros id. rewrite Hs. by apply moved_snapshot_cons.
    + cbn [existsb]. rewrite orb_assoc. f_equal. apply existsb_agree. intros r' Hr'.
      apply occupied_after; [done|..].
      * intros Heq. apply find_legacy_None in HL. destruct HL. apply list_elem_of_fmap. eauto.
      * apply (ok_one_way _ Hok); [by right|by left].
Qed.

Lemma find_legacy_active l plan id :
  find_legacy (active l plan) id = if occupied l id then find_legacy plan id else None.
Proof.
  unfold find_legacy, active. fold (occupied l). induction plan as [|r plan IH]; [by destruct (occupied l id)|].
  cbn [List.filter]. fold (occupied l (LegacyID r)). rewrite find_cons.
  destruct (decide (LegacyID r = id)) as [<-|Hne].
  - rewrite bool_decide_eq_true_2 by done. destruct (occupied l (LegacyID r)); [|done].
    rewrite find_cons. by rewrite bool_decide_eq_true_2.
  - rewrite (bool_decide_eq_false_2 (_ = id)) by done. destruct (occupied l (LegacyID r)); [|done].
    rewrite find_cons. by rewrite (bool_decide_eq_false_2 (_ = id)).
Qed.

Lemma find_scoped_active l plan id :
  NoDup (ScopedID <$> plan) ->
  find_scoped (active l plan) id =
    match find_scoped plan id with
    | Some r => if occupied l (LegacyID r) then Some r else None
    | None => None
    end.
Proof.
  unfold active. induction plan as [|r plan IH]; [done|]. intros [Hr Hnd]%NoDup_cons. specialize (IH Hnd).
  cbn [List.filter]. fold (occupied l (LegacyID r)). unfold find_scoped in *. rewrite find_cons.
  destruct (decide (ScopedID r = id)) as [<-|Hne].
  - rewrite bool_decide_eq_true_2 by done. apply find_scoped_None in Hr. unfold find_scoped in Hr. rewrite Hr in IH.
    destruct (occupied l (LegacyID r)); [|done]. rewrite find_cons. by rewrite bool_decide_eq_true_2.
  - rewrite (bool_decide_eq_false_2 (_ = id)) by done. destruct (occupied l (LegacyID r)); [|done].
    rewrite find_cons. by rewrite (bool_decide_eq_false_2 (_ = id)).
Qed.

Lemma active_ok l plan : plan_ok plan -> plan_ok (active l plan).
Proof.
  intros [HL HS HW]. assert (sublist (active l plan) plan) as Hsub.
  { unfold active. clear. induction plan as [|r plan IH]; cbn; [constructor|]. destruct (_ || _); by constructor. }
  split.
  - eapply sublist_NoDup; [exact HL|]. by apply fmap_sublist.
  - eapply sublist_NoDup; [exact HS|]. by apply fmap_sublist.
  - intros r r' Hr Hr'. apply list_elem_of_In, filter_In in Hr as [Hr _], Hr' as [Hr' _].
    apply HW; by apply list_elem_of_In.
Qed.

Lemma unoccupied_snapshot l id : occupied l id = false -> actor_snapshots l !! id = None.
Proof.
  intros [_ H]%orb_false_iff. unfold has_snapshot in H. to_prop.
  destruct (actor_snapshots l !! id); [|done]. destruct H. by eexists.
Qed.

Lemma renamed_row_active l plan k row :
  actor_updates l !! k = Some row -> renamed_row (active l plan) row = renamed_row plan row.
Proof.
  intros Hk. unfold renamed_row, rename. rewrite find_legacy_active.
  assert (occupied l (to_agent_id row) = true) as ->; [|done].
  unfold occupied. apply orb_true_iff. left. apply has_updates_spec. eauto.
Qed.

Lemma moved_snapshot_active l plan id :
  plan_ok plan ->
  moved_snapshot (active l plan) (actor_snapshots l) id = moved_snapshot plan (actor_snapshots l) id.
Proof.
  intros [_ HS HW]. unfold moved_snapshot. rewrite find_legacy_active, find_scoped_active by done.
  destruct (find_legacy plan id) as [r|] eqn:E1.
  - destruct (occupied l id) eqn:Ho; [done|]. rewrite (unoccupied_snapshot l id Ho).
    destruct (find_scoped plan id) as [r'|] eqn:E2; [|done].
    apply find_legacy_Some in E1 as [Hr <-]. apply find_scoped_Some in E2 as [Hr' E2].
    destruct (HW r r' Hr Hr'). by symmetry.
  - assert ((if occupied l id then None else None) = @None MailboxRebind) as -> by by destruct (occupied l id).
    destruct (find_scoped plan id) as [r|]; [|done].
    destruct (occupied l (LegacyID r)) eqn:Ho; [done|]. by rewrite (unoccupied_snapshot l _ Ho).
Qed.

Lemma rename_leaves plan r id : plan_ok plan -> r ∈ plan -> rename plan id <> LegacyID r.
Proof.
  intros [_ _ HW] Hr. unfold rename. destruct (find_legacy plan id) as [r'|] eqn:E.
  - apply find_legacy_Some in E as [Hr' _]. intros Heq. by apply (HW r r').
  - intros ->. apply find_legacy_None in E. destruct E. apply list_elem_of_fmap. eauto.
Qed.

(** [C40] A migration by a plan none of whose old identities is also a new one ([one_way],
    which the code does not check) moves every mailbox of the plan and nothing else: each update is
    kept, under the identity the plan takes its recipient to, the newer of two
    snapshots survives, none is left under an old identity; and running it again, as
    a restart after an interruption does, changes nothing. *)
Theorem rebind_converges plan l l' changed :
  RebindMailboxes plan l = Ok (l', changed) -> one_way plan ->
  actor_updates l' = renamed_row plan <$> actor_updates l
  /\ (forall id, actor_snapshots l' !! id = moved_snapshot plan (actor_snapshots l) id)
  /\ changed = existsb (fun r => occupied l (LegacyID r)) plan
  /\ RebindMailboxes plan l' = Ok (l', false).
Proof.
  unfold RebindMailboxes. intros H HW. destruct (check_plan plan ∅ ∅) eqn:Hc; [done|].
  apply check_plan_nodup in Hc as [[HL _] [HS _]].
  assert (plan_ok plan) as Hok by done.
  destruct (rebind_fold (active l plan) l false (active_ok l plan Hok)) as (Hu & Hs & Hch).
  injection H as H. rewrite H in Hu, Hs, Hch. cbn in Hu, Hs, Hch.
  assert (actor_updates l' = renamed_row plan <$> actor_updates l) as Hu'.
  { rewrite Hu. apply map_fmap_ext. intros k row Hk. by eapply renamed_row_active. }
  assert (forall id, actor_snapshots l' !! id = moved_snapshot plan (actor_snapshots l) id) as Hs'.
  { intros id. rewrite Hs. by apply moved_snapshot_active. }
  repeat split; [done|done|..].
  - rewrite Hch. unfold active. fold (occupied l). clear. induction plan as [|r plan IH]; [done|]. cbn.
    fold (occupied l (LegacyID r)). destruct (occupied l (LegacyID r)) eqn:E; cbn; rewrite ?E, ?IH; done.
  - assert (active l' plan = []) as ->; [|done].
    assert (forall r, r ∈ plan -> occupied l' (LegacyID r) = false) as Hno.
    { intros r Hr. apply orb_false_iff. split.
      - apply not_true_iff_false. rewrite has_updates_spec, Hu'. intros (k & row & Hk & Hto).
        apply lookup_fmap_Some in Hk as (row0 & <- & _). cbn in Hto. by apply (rename_leaves plan r) in Hto.
      - unfold has_snapshot. apply bool_decide_eq_false. rewrite Hs'. unfold moved_snapshot.
        destruct (find_legacy plan (LegacyID r)) eqn:E; [by intros []|].
        apply find_legacy_None in E. destruct E. apply list_elem_of_fmap. eauto. }
    unfold active. fold (occupied l'). clear -Hno. induction plan as [|r plan IH]; [done|]. cbn.
    fold (occupied l' (LegacyID r)). rewrite Hno by by left. apply IH. intros r' Hr'. apply Hno. by right.
Qed.

(** ** The order of a backlog *)

(** Oldest first: by the time the sender gave, and by identifier. *)
Lemma unprocessed_sorted a l : key_sorted backlog_key backlog_order (sql_Unprocessed a l).
Proof.
  apply sort_slice_key_sorted; [apply _|].
  eapply (NoDup_fmap_1 snd). rewrite <-list_fmap_compose. apply pending_ids_nodup.
Qed.

Module Demo.
Definition update (id to : string) (t : Time) : Update := Build_Update id to "" "" "" "" t.

Definition two : SQLiteLog := (Append (update "first" "a" 2) (Append (update "second" "b" 1) NewSQLiteLog).1).1.

(** The backlog is not in the order of [Append] when the times of the senders are
    not. *)
Lemma backlog_not_append_order :
  map UpdateID (Unprocessed "a" (Append (update "later" "a" 1) (Append (update "earlier" "a" 2) NewSQLiteLog).1).1)
    = ["later"; "earlier"].
Proof. vm_compute. reflexivity. Qed.

Definition plan : list MailboxRebind := [Build_MailboxRebind "a" "owner/a"; Build_MailboxRebind "c" "owner/c"].
Definition old : SQLiteLog := SaveSnapshot 5 "a" (Some "m") two.
Definition moved : SQLiteLog := (ok_or (NewSQLiteLog, false) (RebindMailboxes plan old)).1.

(** A plan that takes an identity on from where it takes another to is accepted, and
    moves a mailbox a step each time it is run: it is not [one_way]. *)
Definition chained : list MailboxRebind := [Build_MailboxRebind "a" "b"; Build_MailboxRebind "b" "c"].
Definition alone : SQLiteLog := (Append (update "first" "a" 2) NewSQLiteLog).1.
Definition once : SQLiteLog := (ok_or (NewSQLiteLog, false) (RebindMailboxes chained alone)).1.
Definition twice : SQLiteLog := (ok_or (NewSQLiteLog, false) (RebindMailboxes chained once)).1.

Lemma chained_plan_moves_again :
  map UpdateID (Unprocessed "b" once) = ["first"] /\
  RebindMailboxes chained once = Ok (twice, true) /\ map UpdateID (Unprocessed "c" twice) = ["first"].
Proof. split_and!; vm_compute; reflexivity. Qed.

Lemma rebind_converges_witness :
  map UpdateID (Unprocessed "owner/a" moved) = ["first"] /\ RebindMailboxes plan moved = Ok (moved, false).
Proof.
  split; [vm_compute; reflexivity|].
  apply (rebind_converges plan old moved true); [vm_compute; reflexivity|].
  intros r r' Hr Hr'. apply list_elem_of_In in Hr, Hr'. cbn in Hr, Hr'.
  destruct Hr as [<-|[<-|[]]], Hr' as [<-|[<-|[]]]; discriminate.
Defined.
End Demo.
End ActorLog.
