(* ===== verification/ActorRuntime.v ===== *)
(** * ActorRuntime: the durable actor runtime

    Models [internal/actor/actor.go]: sends, the boot sweep, activations with
    their cold replay, mailbox and passivation, eviction and shutdown. A step
    of [step] is what one goroutine does between two points where others can
    run: a critical section of the runtime's mutex, one call of the log or of
    the handler, one operation on a channel. Schedules are lists of events; an
    event also says how a call of the log or the handler went. The log is any
    instance of the interface of [ActorLog]; what is known of the handler is its
    outcomes. A handler sends through [Send] like everybody else. *)
From S2P Require Import Prelude GoStrings GoTime ActorLog.
From Stdlib Require Import String.
From stdpp Require Import gmap strings.
Import ActorLog.

Module ActorRuntime.
Local Open Scope Z_scope.

Inductive SendMode := SendModeNonBlocking | SendModeBlocking.

#[export] Instance SendMode_eq_dec : EqDecision SendMode.
Proof. solve_decision. Defined.

(** The durations are only handed to timers, which may fire at any point. *)
Record Options := {
  MaxResident : Z; HandlerRetryBackoff : Z; MailboxCapacity : Z; IdleTimeout : Z; Backpressure : bool;
  Opt_SendMode : SendMode; SendTimeout : Z }.

(** The defaults of [NewRuntime]. *)
Definition with_defaults (o : Options) : Options := {|
  MaxResident := MaxResident o;
  HandlerRetryBackoff := if HandlerRetryBackoff o <=? 0 then 100 * 1000000 else HandlerRetryBackoff o;
  MailboxCapacity := if MailboxCapacity o <=? 0 then 256 else MailboxCapacity o;
  IdleTimeout := if IdleTimeout o <=? 0 then 5 * second else IdleTimeout o;
  Backpressure := Backpressure o; Opt_SendMode := Opt_SendMode o;
  SendTimeout := if SendTimeout o <=? 0 then 5 * second else SendTimeout o |}.

(** ** Activations: the goroutine of [loop] *)

(** Where [processBacklog] was called: in the cold start, on a wake of a deferred
    actor, or after the mailbox was drained. *)
Inductive caller := ToCold | ToWake | ToIdle.

(** Which of the two loops drains the mailbox. *)
Inductive drain := Cold | Warm.

Inductive point :=
  | Loading
  | BacklogQuery (k : caller)
  | BacklogNext (k : caller) (rest : list Update)
  | BacklogHandling (k : caller) (u : Update) (rest : list Update)
  | BacklogMarking (k : caller) (u : Update) (next : memory) (rest : list Update)
  | BacklogSleep (k : caller)
  | OneHandling (d : drain) (u : Update)
  | OneMarking (d : drain) (u : Update) (next : memory)
  | OneSleep (d : drain)
  | Draining (d : drain)
  | Idle
  | Exiting
  | Gone.

(** A [residentActor] and the variables of its loop. *)
Record activation := {
  agentID : string; mailbox : list Update; evicted : bool; cancelled : bool;
  mem : memory; skip : gset string; deferredBacklog : bool; at_ : point }.

Definition goto (p : point) (a : activation) : activation :=
  Build_activation (agentID a) (mailbox a) (evicted a) (cancelled a) (mem a) (skip a) (deferredBacklog a) p.
Definition set_mailbox (m : list Update) (a : activation) : activation :=
  Build_activation (agentID a) m (evicted a) (cancelled a) (mem a) (skip a) (deferredBacklog a) (at_ a).
Definition set_deferred (b : bool) (a : activation) : activation :=
  Build_activation (agentID a) (mailbox a) (evicted a) (cancelled a) (mem a) (skip a) b (at_ a).
Definition set_mem (m : memory) (a : activation) : activation :=
  Build_activation (agentID a) (mailbox a) (evicted a) (cancelled a) m (skip a) (deferredBacklog a) (at_ a).
Definition set_evicted (a : activation) : activation :=
  Build_activation (agentID a) (mailbox a) true (cancelled a) (mem a) (skip a) (deferredBacklog a) (at_ a).
Definition set_cancelled (a : activation) : activation :=
  Build_activation (agentID a) (mailbox a) (evicted a) true (mem a) (skip a) (deferredBacklog a) (at_ a).

(** An update is incorporated: its result is the memory, and it is skipped from now on. *)
Definition incorporate (u : Update) (next : memory) (a : activation) : activation :=
  Build_activation (agentID a) (mailbox a) (evicted a) (cancelled a) next ({[UpdateID u]} ∪ skip a)
    (deferredBacklog a) (at_ a).

Definition new_activation (agentID : string) : activation :=
  Build_activation agentID [] false false None ∅ false Loading.

(** ** The runtime *)
Inductive send_error := ErrRequired | ErrAppend | ErrClosed | ErrInboxFull | ErrResidentCap.

(** A call of [Send] or [Sweep] in progress, or what it returned. *)
Inductive thread :=
  | Sending (u : Update)
  | Blocked (u : Update) (ch : nat)
  | Sweeping (agents : list string)
  | Returned (r : option send_error).

#[export] Instance send_error_eq_dec : EqDecision send_error.
Proof. solve_decision. Defined.

#[export] Instance thread_eq_dec : EqDecision thread.
Proof. solve_decision. Defined.

(** How the call of an activation went: it succeeded, the handler gave a memory,
    deferred, failed or panicked, the log failed with its effect applied or not; or
    which case the [select] of the loop took. *)
Inductive outcome :=
  | Done
  | Handled (next : memory)
  | Deferred
  | HandlerError
  | Panicked
  | LogError (applied : bool)
  | CtxDone
  | Receive
  | Timeout
  | TimeoutSaveError (applied : bool).

Section Runtime.
Context {L : Type} `{Log L}.

(** Every activation there was is in [acts]; a mailbox outlives its actor. *)
Record Runtime := {
  opts : Options; log : L; resident : gmap string nat; acts : list activation; closed : bool;
  threads : list thread }.

Definition NewRuntime (o : Options) (l : L) : Runtime := {|
  opts := with_defaults o; log := l; resident := ∅; acts := []; closed := false; threads := [] |}.

Definition set_log (s : Runtime) (l : L) : Runtime :=
  Build_Runtime (opts s) l (resident s) (acts s) (closed s) (threads s).
Definition set_resident (s : Runtime) (m : gmap string nat) : Runtime :=
  Build_Runtime (opts s) (log s) m (acts s) (closed s) (threads s).
Definition set_acts (s : Runtime) (l : list activation) : Runtime :=
  Build_Runtime (opts s) (log s) (resident s) l (closed s) (threads s).
Definition set_act (s : Runtime) (id : nat) (a : activation) : Runtime := set_acts s (<[id := a]> (acts s)).
Definition set_threads (s : Runtime) (l : list thread) : Runtime :=
  Build_Runtime (opts s) (log s) (resident s) (acts s) (closed s) l.
Definition set_thread (s : Runtime) (i : nat) (t : thread) : Runtime := set_threads s (<[i := t]> (threads s)).
Definition add_thread (s : Runtime) (t : thread) : Runtime := set_threads s (threads s ++ [t]).

Definition activateLocked (agentID : string) (s : Runtime) : Runtime * option send_error :=
  if (0 <? MaxResident (opts s)) && (MaxResident (opts s) <=? Z.of_nat (size (resident s)))
  then (s, Some ErrResidentCap)
  else (set_resident (set_acts s (acts s ++ [new_activation agentID]))
          (<[agentID := length (acts s)]> (resident s)), None).

Definition full (s : Runtime) (a : activation) : bool :=
  MailboxCapacity (opts s) <=? Z.of_nat (length (mailbox a)).

Definition push (u : Update) (a : activation) : activation := set_mailbox (mailbox a ++ [u]) a.

(** *** Send *)
Definition trimmed (now : Time) (u : Update) : Update :=
  Build_Update (TrimSpace (UpdateID u)) (TrimSpace (ToAgentID u)) (FromAgentID u) (Kind u) (Content u)
    (TrajectoryID u) (if IsZero (CreatedAt u) then now else CreatedAt u).

Definition incomplete (u : Update) : bool := (TrimSpace (ToAgentID u) == "") || (TrimSpace (UpdateID u) == "").

(** Up to the mutex. *)
Definition send_begin (now : Time) (u : Update) (s : Runtime) : Runtime :=
  if incomplete u then add_thread s (Returned (Some ErrRequired)) else
  let u := trimmed now u in
  let '(l, appended) := Append u (log s) in
  let s := set_log s l in
  if appended then add_thread s (Sending u) else add_thread s (Returned None).

(** [Append] returns an error, before or after it had its effect. *)
Definition send_fails (applied : bool) (now : Time) (u : Update) (s : Runtime) : Runtime :=
  if incomplete u then add_thread s (Returned (Some ErrRequired)) else
  let s := if applied then set_log s (Append (trimmed now u) (log s)).1 else s in
  add_thread s (Returned (Some ErrAppend)).

(** Under the mutex. *)
Definition deliver (u : Update) (s : Runtime) : Runtime * thread :=
  let activate :=
    let '(s, err) := activateLocked (ToAgentID u) s in (s, Returned err) in
  if closed s then (s, Returned (Some ErrClosed)) else
  match resident s !! ToAgentID u with
  | None => activate
  | Some id =>
    match acts s !! id with
    | None => activate
    | Some r =>
      if evicted r then activate
      else if negb (Backpressure (opts s)) then
        (if full s r then s else set_act s id (push u r), Returned None)
      else if Opt_SendMode (opts s) == SendModeBlocking then (s, Blocked u id)
      else if full s r then (s, Returned (Some ErrInboxFull))
      else (set_act s id (push u r), Returned None)
    end
  end.

(** *** Sweep, Evict, Stop *)

(** The loop under the mutex. *)
Fixpoint sweep_agents (agents : list string) (s : Runtime) : Runtime * option send_error :=
  match agents with
  | [] => (s, None)
  | a :: agents =>
    match resident s !! a with
    | Some _ => sweep_agents agents s
    | None =>
      match activateLocked a s with
      | (s, Some e) => (s, Some e)
      | (s, None) => sweep_agents agents s
      end
    end
  end.

Definition sweep_run (agents : list string) (s : Runtime) : Runtime * option send_error :=
  if closed s then (s, Some ErrClosed) else sweep_agents agents s.

(** The cancellation of the context follows, see [Cancel]. *)
Definition Evict (agentID : string) (s : Runtime) : Runtime :=
  match resident s !! agentID with
  | Some id => set_acts s (alter set_evicted id (acts s))
  | None => s
  end.

Definition is_resident (s : Runtime) (id : nat) (a : activation) : bool := resident s !! agentID a == Some id.

(** The critical section of [Stop] and [Drain]. *)
Definition Stop (s : Runtime) : Runtime :=
  Build_Runtime (opts s) (log s) (resident s)
    (imap (fun id a => if is_resident s id a then set_evicted a else a) (acts s)) true (threads s).

(** *** The loop of an activation *)

(** [processBacklog] returns; [deferred] says whether it returned an identifier. *)
Definition return_backlog (k : caller) (deferred : bool) (a : activation) : activation :=
  goto (match k with ToCold => Draining Cold | ToWake => Draining Warm | ToIdle => Idle end)
    (set_deferred deferred a).

(** [deferredBacklog = rt.processOne(...)] up to the call of the handler. *)
Definition process_one (d : drain) (u : Update) (a : activation) : activation :=
  if cancelled a || bool_decide (UpdateID u ∈ skip a) then goto (Draining d) (set_deferred false a)
  else goto (OneHandling d u) a.

(** An update taken from the channel by one of the draining loops. *)
Definition drain_one (d : drain) (u : Update) (a : activation) : activation :=
  if negb (deferredBacklog a) && negb (bool_decide (UpdateID u ∈ skip a)) then process_one d u a
  else goto (Draining d) a.

Definition mark (now : Time) (a : activation) (u : Update) (l : L) : L :=
  MarkProcessed now (agentID a) (UpdateID u) l.

(** What the activation [a] does to the log and to itself; [None] if it cannot have
    that outcome. Leaving the map of residents is [leave]. *)
Definition advance (now : Time) (o : outcome) (l : L) (a : activation) : option (L * activation) :=
  match at_ a, o with
  | Loading, Done => Some (l, goto (BacklogQuery ToCold) (set_mem (LoadSnapshot (agentID a) l) a))
  | Loading, LogError _ => Some (l, goto (BacklogQuery ToCold) a)
  | BacklogQuery k, Done =>
    if cancelled a then Some (l, return_backlog k false a) else
    match Unprocessed (agentID a) l with
    | [] => Some (l, return_backlog k false a)
    | backlog => Some (l, goto (BacklogNext k backlog) a)
    end
  | BacklogQuery k, LogError _ =>
    if cancelled a then None else Some (l, goto (BacklogSleep k) a)
  | BacklogNext k [], Done => Some (l, goto (BacklogQuery k) a)
  | BacklogNext k (u :: rest), Done =>
    if cancelled a then Some (l, return_backlog k false a)
    else if bool_decide (UpdateID u ∈ skip a) then Some (l, goto (BacklogNext k rest) a)
    else Some (l, goto (BacklogHandling k u rest) a)
  | BacklogHandling k u rest, Handled next => Some (l, goto (BacklogMarking k u next rest) a)
  | BacklogHandling k u rest, Deferred => Some (l, return_backlog k true a)
  | BacklogHandling k u rest, HandlerError => Some (l, goto (BacklogSleep k) a)
  | BacklogHandling k u rest, Panicked => Some (l, goto Exiting a)
  | BacklogMarking k u next rest, Done => Some (mark now a u l, goto (BacklogNext k rest) (incorporate u next a))
  | BacklogMarking k u next rest, LogError applied =>
    Some (if applied then mark now a u l else l, goto (BacklogSleep k) a)
  | BacklogSleep k, Done => Some (l, goto (BacklogQuery k) a)
  | BacklogSleep k, CtxDone => if cancelled a then Some (l, return_backlog k false a) else None
  | OneHandling d u, Handled next => Some (l, goto (OneMarking d u next) a)
  | OneHandling d u, Deferred => Some (l, goto (Draining d) (set_deferred true a))
  | OneHandling d u, HandlerError => Some (l, goto (OneSleep d) a)
  | OneHandling d u, Panicked => Some (l, goto Exiting a)
  | OneMarking d u next, Done =>
    Some (mark now a u l, goto (Draining d) (set_deferred false (incorporate u next a)))
  | OneMarking d u next, LogError applied => Some (if applied then mark now a u l else l, goto (OneSleep d) a)
  | OneSleep d, Done => Some (l, goto (Draining d) (set_deferred false a))
  | Draining d, Done =>
    match mailbox a with
    | u :: m => Some (l, drain_one d u (set_mailbox m a))
    | [] => match d with
            | Cold => Some (l, goto Idle a)
            | Warm => Some (l, goto (if deferredBacklog a then Idle else BacklogQuery ToIdle) a)
            end
    end
  | Idle, CtxDone => if cancelled a then Some (l, goto Exiting a) else None
  | Idle, Receive =>
    match mailbox a with
    | [] => None
    | u :: m =>
      let a := set_mailbox m a in
      if deferredBacklog a then Some (l, goto (BacklogQuery ToWake) a)
      else Some (l, drain_one Warm u a)
    end
  | Idle, Timeout =>
    if bool_decide (mailbox a = []) && negb (evicted a)
    then Some (SaveSnapshot now (agentID a) (mem a) l, goto Exiting a)
    else Some (l, if evicted a then goto Exiting a else a)
  | Idle, TimeoutSaveError applied =>
    if bool_decide (mailbox a = []) && negb (evicted a)
    then Some (if applied then SaveSnapshot now (agentID a) (mem a) l else l, a)
    else None
  | Exiting, Done => Some (l, goto Gone a)
  | _, _ => None
  end.

(** Passivation removes the agent from the map; the deferred [deregister] removes it if
    it is still this activation's. *)
Definition leave (id : nat) (o : outcome) (a : activation) (s : Runtime) : Runtime :=
  match at_ a, o with
  | Idle, Timeout =>
    if bool_decide (mailbox a = []) && negb (evicted a)
    then set_resident s (delete (agentID a) (resident s)) else s
  | Exiting, _ =>
    if resident s !! agentID a == Some id then set_resident s (delete (agentID a) (resident s)) else s
  | _, _ => s
  end.

Definition act_step (id : nat) (now : Time) (o : outcome) (s : Runtime) : option Runtime :=
  match acts s !! id with
  | None => None
  | Some a =>
    match advance now o (log s) a with
    | None => None
    | Some (l, a') => Some (set_act (set_log (leave id o a s) l) id a')
    end
  end.

(** ** Schedules *)
Inductive event :=
  | Send (now : Time) (u : Update)
  | SendFails (applied : bool) (now : Time) (u : Update)
  | Deliver (i : nat)
  | Accepted (i : nat)
  | GiveUp (i : nat)
  | Sweep
  | SweepRun (i : nat)
  | EvictAgent (agentID : string)
  | StopAll
  | Cancel (id : nat)
  | Act (id : nat) (now : Time) (o : outcome).

Definition step (e : event) (s : Runtime) : option Runtime :=
  match e with
  | Send now u => Some (send_begin now u s)
  | SendFails applied now u => Some (send_fails applied now u s)
  | Deliver i =>
    match threads s !! i with
    | Some (Sending u) => let '(s', t) := deliver u s in Some (set_thread s' i t)
    | _ => None
    end
  | Accepted i =>
    match threads s !! i with
    | Some (Blocked u ch) =>
      match acts s !! ch with
      | Some r => if full s r then None else Some (set_thread (set_act s ch (push u r)) i (Returned None))
      | None => None
      end
    | _ => None
    end
  | GiveUp i =>
    match threads s !! i with
    | Some (Blocked _ _) => Some (set_thread s i (Returned (Some ErrInboxFull)))
    | _ => None
    end
  | Sweep => Some (add_thread s (Sweeping (AgentsWithBacklog (log s))))
  | SweepRun i =>
    match threads s !! i with
    | Some (Sweeping agents) => let '(s', r) := sweep_run agents s in Some (set_thread s' i (Returned r))
    | _ => None
    end
  | EvictAgent a => Some (Evict a s)
  | StopAll => Some (Stop s)
  | Cancel id =>
    match acts s !! id with
    | Some a => if evicted a then Some (set_act s id (set_cancelled a)) else None
    | None => None
    end
  | Act id now o => act_step id now o s
  end.

Fixpoint run (es : list event) (s : Runtime) : option Runtime :=
  match es with
  | [] => Some s
  | e :: es => match step e s with Some s => run es s | None => None end
  end.

(** What a new process does: a runtime over the log of the old one, swept. *)
Definition boot (o : Options) (l : L) : Runtime :=
  (sweep_run (AgentsWithBacklog l) (NewRuntime o l)).1.

Inductive reachable (o : Options) (l : L) : Runtime -> Prop :=
  | reach_new : reachable o l (NewRuntime o l)
  | reach_step s e s' : reachable o l s -> step e s = Some s' -> reachable o l s'.
End Runtime.

(** ** Invariant *)

(** What the point of an activation holds: the updates in hand, and the one it is at. *)
Definition hand (p : point) : list Update :=
  match p with
  | BacklogNext _ rest => rest
  | BacklogHandling _ u rest | BacklogMarking _ u _ rest => u :: rest
  | OneHandling _ u | OneMarking _ u _ => [u]
  | _ => []
  end.

Definition current (p : point) : option Update :=
  match p with
  | BacklogHandling _ u _ | BacklogMarking _ u _ _ | OneHandling _ u | OneMarking _ u _ => Some u
  | _ => None
  end.

Definition running (p : point) : bool := match p with Exiting | Gone => false | _ => true end.

(** An activation that can still take updates. *)
Definition live (a : activation) : Prop := evicted a = false /\ running (at_ a) = true.

Section Invariant.
Context {L : Type} `{LogLaws L}.
Implicit Types (l : L) (s : @Runtime L) (u : Update) (a : activation).

Definition logged_for l (agent : string) u : Prop :=
  ToAgentID u = agent /\ exists p, entry l (UpdateID u) = Some (u, p).

Definition processed_for l (agent id : string) : Prop :=
  exists u, entry l id = Some (u, true) /\ ToAgentID u = agent.

(** The log forgets nothing. *)
Definition grows l l' : Prop :=
  forall id u p, entry l id = Some (u, p) -> exists p', entry l' id = Some (u, p') /\ (p = true -> p' = true).

Record act_ok l a : Prop := {
  ok_cancelled : cancelled a = true -> evicted a = true;
  ok_mailbox : Forall (logged_for l (agentID a)) (mailbox a);
  ok_hand : Forall (logged_for l (agentID a)) (hand (at_ a));
  ok_skip : forall id, id ∈ skip a -> processed_for l (agentID a) id;
  ok_current : forall u, current (at_ a) = Some u -> UpdateID u ∉ skip a;
}.

Definition thread_ok s (t : thread) : Prop :=
  match t with
  | Sending u => logged_for (log s) (ToAgentID u) u
  | Blocked u ch => logged_for (log s) (ToAgentID u) u /\
      exists a, acts s !! ch = Some a /\ agentID a = ToAgentID u
  | _ => True
  end.

Record runtime_ok s : Prop := {
  ok_acts : forall id a, acts s !! id = Some a -> act_ok (log s) a;
  ok_resident : forall agent id, resident s !! agent = Some id ->
    exists a, acts s !! id = Some a /\ agentID a = agent;
  ok_live : forall id a, acts s !! id = Some a -> live a -> resident s !! agentID a = Some id;
  ok_closed : closed s = true -> forall id a, acts s !! id = Some a -> ~ live a;
  ok_threads : forall i t, threads s !! i = Some t -> thread_ok s t;
}.

Lemma grows_refl l : grows l l.
Proof. intros id u p Hid. by exists p. Qed.

Lemma grows_append l u : grows l (Append u l).1.
Proof.
  intros id v p Hid. rewrite append_entry, Hid. cbn. exists p. by case_bool_decide.
Qed.

Lemma grows_mark now l agent id : grows l (MarkProcessed now agent id l).
Proof.
  intros id' v p Hid. rewrite mark_entry, Hid. cbn. case_bool_decide; [|by exists p].
  eexists. split; [done|]. by intros ->.
Qed.

Lemma grows_snapshot now l agent m : grows l (SaveSnapshot now agent m l).
Proof. intros id u p Hid. rewrite snapshot_entry. by exists p. Qed.

Lemma grows_marked now a u l : grows l (mark now a u l).
Proof. apply grows_mark. Qed.

#[local] Hint Resolve grows_refl grows_append grows_mark grows_snapshot : actor.

Lemma logged_grows l l' agent u : grows l l' -> logged_for l agent u -> logged_for l' agent u.
Proof. intros Hg [? [p Hp]]. split; [done|]. apply Hg in Hp as (p' & Hp' & _). by exists p'. Qed.

Lemma processed_grows l l' agent id : grows l l' -> processed_for l agent id -> processed_for l' agent id.
Proof. intros Hg (u & Hu & Ha). apply Hg in Hu as (p' & Hu & Hp). rewrite Hp in Hu by done. by exists u. Qed.

Lemma act_ok_grows l l' a : grows l l' -> act_ok l a -> act_ok l' a.
Proof.
  intros Hg [H1 H2 H3 H4 H5]. split; [done|..|done].
  - eapply Forall_impl; [exact H2|]. intros u. by apply logged_grows.
  - eapply Forall_impl; [exact H3|]. intros u. by apply logged_grows.
  - intros id Hid. eapply processed_grows; eauto.
Qed.

Lemma goto_ok l a p :
  act_ok l a -> Forall (logged_for l (agentID a)) (hand p) -> (forall u, current p = Some u -> UpdateID u ∉ skip a) ->
  act_ok l (goto p a).
Proof. intros [H1 H2 H3 H4 H5] Hh Hc. by split. Qed.

Lemma goto_plain_ok l a p : act_ok l a -> hand p = [] -> act_ok l (goto p a).
Proof.
  intros Ha Hp. apply goto_ok; [done|by rewrite Hp|]. intros u. by destruct p.
Qed.

Lemma set_deferred_ok l a b : act_ok l a -> act_ok l (set_deferred b a).
Proof. by intros [H1 H2 H3 H4 H5]. Qed.

Lemma set_mem_ok l a m : act_ok l a -> act_ok l (set_mem m a).
Proof. by intros [H1 H2 H3 H4 H5]. Qed.

Lemma set_mailbox_ok l a m : act_ok l a -> Forall (logged_for l (agentID a)) m -> act_ok l (set_mailbox m a).
Proof. by intros [H1 H2 H3 H4 H5]. Qed.

Lemma push_ok l a u : act_ok l a -> logged_for l (agentID a) u -> act_ok l (push u a).
Proof. intros Ha Hu. apply set_mailbox_ok; [done|]. apply Forall_app. split; [by apply Ha|by constructor]. Qed.

Lemma return_backlog_ok l k b a : act_ok l a -> act_ok l (return_backlog k b a).
Proof. intros Ha. apply goto_plain_ok; [by apply set_deferred_ok|]. by destruct k as []. Qed.

Lemma process_one_ok l d u a : act_ok l a -> logged_for l (agentID a) u -> act_ok l (process_one d u a).
Proof.
  intros Ha Hu. unfold process_one. destruct (_ || _) eqn:E.
  - apply goto_plain_ok; [by apply set_deferred_ok|done].
  - to_prop. apply goto_ok; [done|by constructor|]. by intros v [= <-].
Qed.

Lemma drain_one_ok l d u a : act_ok l a -> logged_for l (agentID a) u -> act_ok l (drain_one d u a).
Proof.
  intros Ha Hu. unfold drain_one. destruct (_ && _); [by apply process_one_ok|by apply goto_plain_ok].
Qed.

(** Marking an update of its agent makes it processed. *)
Lemma mark_processed now l a u : logged_for l (agentID a) u -> processed_for (mark now a u l) (agentID a) (UpdateID u).
Proof.
  intros [Hu [p Hp]]. exists u. split; [|done]. unfold mark. rewrite mark_entry, Hp. cbn.
  by rewrite !bool_decide_eq_true_2, orb_true_r.
Qed.

Lemma incorporate_ok now l a u next p :
  act_ok l a -> current (at_ a) = Some u -> hand p ⊆ hand (at_ a) -> current p = None ->
  act_ok (mark now a u l) (goto p (incorporate u next a)).
Proof.
  intros Ha Hc Hsub Hcp.
  assert (logged_for l (agentID a) u) as Hu.
  { pose proof (ok_hand _ _ Ha) as Hh. rewrite Forall_forall in Hh. apply Hh.
    destruct (at_ a); try done; injection Hc as ->; left. }
  pose proof (act_ok_grows _ _ a (grows_mark now l (agentID a) (UpdateID u)) Ha) as [H1 H2 H3 H4 H5].
  split; cbn; [done|done|..].
  - rewrite Forall_forall in H3 |- *. intros v Hv. by apply H3, Hsub.
  - intros id [->%elem_of_singleton|Hid]%elem_of_union; [by apply mark_processed|by apply H4].
  - by rewrite Hcp.
Qed.

Lemma unprocessed_logged l agent : Forall (logged_for l agent) (Unprocessed agent l).
Proof.
  apply Forall_forall. intros u [Hu Ha]%unprocessed_entry. split; [done|by exists false].
Qed.
End Invariant.
#[export] Hint Resolve grows_refl grows_append grows_mark grows_marked grows_snapshot : actor.
#[export] Hint Resolve goto_plain_ok set_deferred_ok set_mem_ok return_backlog_ok : actor.

(** Cases of one step of an activation. *)
Ltac advance_cases Hadv :=
  unfold advance in Hadv; repeat case_match; try discriminate Hadv; injection Hadv as <- <-.

Ltac use_point := repeat match goal with E : at_ ?a = _ |- context [at_ ?a] => rewrite E end.

Section Preservation.
Context {L : Type} `{LogLaws L}.
Implicit Types (l : L) (s : @Runtime L) (u : Update) (a : activation).

Lemma process_one_frame d u a :
  agentID (process_one d u a) = agentID a /\ evicted (process_one d u a) = evicted a
  /\ cancelled (process_one d u a) = cancelled a /\ mailbox (process_one d u a) = mailbox a
  /\ running (at_ (process_one d u a)) = true.
Proof. unfold process_one. by destruct (_ || _). Qed.

Lemma drain_one_frame d u a :
  agentID (drain_one d u a) = agentID a /\ evicted (drain_one d u a) = evicted a
  /\ cancelled (drain_one d u a) = cancelled a /\ mailbox (drain_one d u a) = mailbox a
  /\ running (at_ (drain_one d u a)) = true.
Proof. unfold drain_one. destruct (_ && _); [apply process_one_frame|done]. Qed.

Lemma advance_frame now o l a l' a' :
  advance now o l a = Some (l', a') ->
  agentID a' = agentID a /\ evicted a' = evicted a /\ cancelled a' = cancelled a /\ grows l l'.
Proof.
  intros Hadv.
  advance_cases Hadv; try destruct (drain_one_frame d u (set_mailbox l0 a)) as (? & ? & ? & ? & ?);
    try destruct (drain_one_frame Warm u (set_mailbox l0 a)) as (? & ? & ? & ? & ?);
    repeat split; auto with actor.
Qed.

Lemma next_ok now o l a l' a' : act_ok l a -> advance now o l a = Some (l', a') -> act_ok l' a'.
Proof.
  intros Ha Hadv.
  assert (forall u m, mailbox a = u :: m -> logged_for l (agentID a) u /\ act_ok l (set_mailbox m a)) as Hmail.
  { intros u m Hm. pose proof (ok_mailbox _ _ Ha) as Hall. rewrite Hm in Hall. apply Forall_cons in Hall as [Hu Hall].
    split; [done|]. by apply set_mailbox_ok. }
  pose proof (ok_hand _ _ Ha) as Hh. pose proof (ok_current _ _ Ha) as Hc.
  advance_cases Hadv; auto with actor.
  - apply goto_ok; [done| |done]. cbn. match goal with E : Unprocessed _ _ = _ |- _ => rewrite <-E end.
    apply unprocessed_logged.
  - apply goto_ok; [done| |done]. by apply Forall_cons in Hh as [_ Hh].
  - apply goto_ok; [done..|]. to_prop. by intros v [= <-].
  - by apply goto_ok.
  - apply incorporate_ok; [done|..]; use_point; try done. cbn. set_solver.
  - apply (act_ok_grows l); [apply grows_marked|by apply goto_plain_ok].
  - by apply goto_ok.
  - apply (set_deferred_ok _ (goto (Draining d) (incorporate u next a))).
    apply incorporate_ok; [done|..]; use_point; try done. cbn. set_solver.
  - apply (act_ok_grows l); [apply grows_marked|by apply goto_plain_ok].
  - edestruct Hmail; [done|]. by apply drain_one_ok.
  - edestruct Hmail; [done|]. by apply goto_plain_ok.
  - edestruct Hmail; [done|]. by apply drain_one_ok.
  - apply (act_ok_grows l); [apply grows_snapshot|by apply goto_plain_ok].
  - apply (act_ok_grows l); [apply grows_snapshot|done].
Qed.

(** An activation that left does not come back. *)
Lemma advance_live now o l a l' a' : advance now o l a = Some (l', a') -> live a' -> live a.
Proof.
  intros Hadv [He Hr]. pose proof (advance_frame _ _ _ _ _ _ Hadv) as (_ & He' & _).
  split; [congruence|]. clear He He'. advance_cases Hadv; done.
Qed.

(** Nor does it leave the map while it stays. *)
Lemma leave_live now o l a l' a' id s : advance now o l a = Some (l', a') -> live a' -> leave id o a s = s.
Proof.
  intros Hadv [He Hr]. unfold leave. advance_cases Hadv; try done; try (by destruct (at_ a)); by use_conds.
Qed.

Lemma leave_frame id o a s :
  acts (leave id o a s) = acts s /\ threads (leave id o a s) = threads s /\ closed (leave id o a s) = closed s
  /\ log (leave id o a s) = log s /\ opts (leave id o a s) = opts s
  /\ (resident (leave id o a s) = resident s \/ resident (leave id o a s) = delete (agentID a) (resident s)
        /\ (live a \/ resident s !! agentID a = Some id)).
Proof.
  unfold leave, live. repeat case_match; repeat split; auto; right; split; try done; to_prop; auto.
Qed.

Lemma thread_ok_grows s s' t :
  grows (log s) (log s') ->
  (forall id a, acts s !! id = Some a -> exists a', acts s' !! id = Some a' /\ agentID a' = agentID a) ->
  thread_ok s t -> thread_ok s' t.
Proof.
  intros Hg Ha. destruct t as [u|u ch| |]; cbn; try done.
  - by apply logged_grows.
  - intros [Hu (a & Hch & Hag)]. split; [by eapply logged_grows|].
    apply Ha in Hch as (a' & Hch & Hag'). exists a'. by rewrite Hag'.
Qed.

Lemma set_log_ok s l : runtime_ok s -> grows (log s) l -> runtime_ok (set_log s l).
Proof.
  intros [H1 H2 H3 H4 H5] Hg. split; cbn; try done.
  - intros id a Ha. eapply act_ok_grows; eauto.
  - intros i t Ht. eapply (thread_ok_grows s); [done| |by eapply H5]. intros id a. by exists a.
Qed.

Lemma add_thread_ok s t : runtime_ok s -> thread_ok s t -> runtime_ok (add_thread s t).
Proof.
  intros [H1 H2 H3 H4 H5] Ht. split; cbn; try done.
  intros i t' [Hi|[_ Hi]]%lookup_app_Some; [by eapply H5|].
  apply list_lookup_singleton_Some in Hi as [_ <-]. done.
Qed.

Lemma set_thread_ok s i t : runtime_ok s -> thread_ok s t -> runtime_ok (set_thread s i t).
Proof.
  intros [H1 H2 H3 H4 H5] Ht. split; cbn; try done.
  intros j t' [(-> & <- & _)|[_ Hj]]%list_lookup_insert_Some; [done|by eapply H5].
Qed.

(** Changing activations without reviving any. *)
Lemma change_acts_ok s acts' :
  runtime_ok s ->
  (forall id a', acts' !! id = Some a' -> exists a, acts s !! id = Some a /\ agentID a' = agentID a
     /\ act_ok (log s) a' /\ (live a' -> live a)) ->
  length acts' = length (acts s) ->
  runtime_ok (set_acts s acts').
Proof.
  intros [H1 H2 H3 H4 H5] Hch Hlen.
  assert (forall id a, acts s !! id = Some a -> exists a', acts' !! id = Some a' /\ agentID a' = agentID a) as Hback.
  { intros id a Ha. destruct (lookup_lt_is_Some_2 acts' id) as [a' Ha'].
    - rewrite Hlen. by eapply lookup_lt_Some.
    - exists a'. split; [done|]. apply Hch in Ha' as (a2 & Ha2 & Hag & _). congruence. }
  split; cbn.
  - intros id a' Ha'. by apply Hch in Ha' as (a & _ & _ & ? & _).
  - intros agent id Hid. apply H2 in Hid as (a & Ha & <-). by apply Hback in Ha.
  - intros id a' Ha' Hl. apply Hch in Ha' as (a & Ha & -> & _ & Hlive). by apply H3; [|apply Hlive].
  - intros Hc id a' Ha' Hl. apply Hch in Ha' as (a & Ha & _ & _ & Hlive). by apply (H4 Hc id a Ha), Hlive.
  - intros i t Ht. eapply (thread_ok_grows s); [apply grows_refl|done|by eapply H5].
Qed.

Lemma set_act_ok s id a a' :
  runtime_ok s -> acts s !! id = Some a -> agentID a' = agentID a -> act_ok (log s) a' -> (live a' -> live a) ->
  runtime_ok (set_act s id a').
Proof.
  intros Hs Ha Hag Hok Hl. apply change_acts_ok; [done| |by rewrite length_insert].
  intros j b [(-> & <- & _)|[_ Hj]]%list_lookup_insert_Some; [by exists a|].
  exists b. split_and!; try done. by eapply ok_acts.
Qed.

Lemma set_evicted_ok l a : act_ok l a -> act_ok l (set_evicted a).
Proof. by intros [H1 H2 H3 H4 H5]. Qed.

Lemma set_cancelled_ok l a : evicted a = true -> act_ok l a -> act_ok l (set_cancelled a).
Proof. by intros He [H1 H2 H3 H4 H5]. Qed.

Lemma new_activation_ok l agent : act_ok l (new_activation agent).
Proof. split; cbn; try done; set_solver. Qed.

(** An agent without a live activation. *)
Definition idle_agent s (agent : string) : Prop :=
  forall id a, acts s !! id = Some a -> agentID a = agent -> ~ live a.

Lemma not_resident_idle s agent : runtime_ok s -> resident s !! agent = None -> idle_agent s agent.
Proof. intros Hs Hr id a Ha <- Hl. by rewrite (ok_live _ Hs id a Ha Hl) in Hr. Qed.

Lemma evicted_idle s agent id a :
  runtime_ok s -> resident s !! agent = Some id -> acts s !! id = Some a -> evicted a = true -> idle_agent s agent.
Proof.
  intros Hs Hr Ha He id' a' Ha' <- Hl. rewrite (ok_live _ Hs id' a' Ha' Hl) in Hr. injection Hr as ->.
  destruct Hl. congruence.
Qed.

Lemma activate_ok s agent :
  runtime_ok s -> closed s = false -> idle_agent s agent -> runtime_ok (activateLocked agent s).1.
Proof.
  intros Hs Hc Hidle. unfold activateLocked. destruct (_ && _); [done|]. destruct Hs as [H1 H2 H3 H4 H5]. split; cbn.
  - intros id a [Ha|[_ Ha]]%lookup_app_Some; [by eapply H1|].
    apply list_lookup_singleton_Some in Ha as [_ <-]. apply new_activation_ok.
  - intros ag id [[<- <-]|[_ Hid]]%lookup_insert_Some.
    + exists (new_activation agent). split; [|done]. by rewrite list_lookup_middle.
    + apply H2 in Hid as (a & Ha & Hag). exists a. split; [|done]. by apply lookup_app_l_Some.
  - intros id a [Ha|[Hge Ha]]%lookup_app_Some Hl.
    + rewrite lookup_insert_ne; [by apply H3|]. intros Heq. by apply (Hidle id a).
    + apply list_lookup_singleton_Some in Ha as [Hz <-]. cbn. rewrite lookup_insert_eq. f_equal. lia.
  - by rewrite Hc.
  - intros i t Ht. apply H5 in Ht. destruct t as [u|u ch| |]; cbn in *; try done.
    destruct Ht as [Hu (a & Ha & Hag)]. split; [done|]. exists a. split; [by apply lookup_app_l_Some|done].
Qed.

Lemma activate_frame s agent :
  closed (activateLocked agent s).1 = closed s /\ log (activateLocked agent s).1 = log s
  /\ threads (activateLocked agent s).1 = threads s /\ opts (activateLocked agent s).1 = opts s.
Proof. unfold activateLocked. by destruct (_ && _). Qed.

Lemma sweep_agents_ok agents s : runtime_ok s -> closed s = false -> runtime_ok (sweep_agents agents s).1.
Proof.
  revert s. induction agents as [|agent agents IH]; intros s Hs Hc; cbn; [done|].
  destruct (resident s !! agent) eqn:Hr; [by apply IH|].
  pose proof (activate_ok s agent Hs Hc (not_resident_idle s agent Hs Hr)) as Ha.
  pose proof (activate_frame s agent) as (Hc' & _).
  destruct (activateLocked agent s) as [s' [e|]]; cbn in *; [done|]. apply IH; [done|congruence].
Qed.

Lemma trimmed_logged now u l : logged_for (Append (trimmed now u) l).1 (ToAgentID (trimmed now u)) (trimmed now u)
  \/ (Append (trimmed now u) l).2 = false.
Proof.
  destruct (Append (trimmed now u) l).2 eqn:E; [left|by right]. apply append_new in E. split; [done|].
  exists false. rewrite append_entry, E. by rewrite bool_decide_eq_true_2.
Qed.

Lemma send_begin_ok now u s : runtime_ok s -> runtime_ok (send_begin now u s).
Proof.
  intros Hs. unfold send_begin. destruct (incomplete u); [by apply add_thread_ok|].
  pose proof (trimmed_logged now u (log s)) as Ht. pose proof (grows_append (log s) (trimmed now u)) as Hg.
  destruct (Append (trimmed now u) (log s)) as [l []]; cbn in *; apply add_thread_ok; try done.
  - by apply set_log_ok.
  - by destruct Ht.
  - by apply set_log_ok.
Qed.

Lemma send_fails_ok applied now u s : runtime_ok s -> runtime_ok (send_fails applied now u s).
Proof.
  intros Hs. unfold send_fails. destruct (incomplete u); [by apply add_thread_ok|].
  apply add_thread_ok; [|done]. destruct applied; [|done]. apply set_log_ok; [done|apply grows_append].
Qed.

Lemma deliver_ok u s :
  runtime_ok s -> thread_ok s (Sending u) -> runtime_ok (deliver u s).1 /\ thread_ok (deliver u s).1 (deliver u s).2.
Proof.
  intros Hs Hu. cbn in Hu. unfold deliver.
  assert (closed s = false -> idle_agent s (ToAgentID u) ->
    runtime_ok (let '(s, err) := activateLocked (ToAgentID u) s in (s, Returned err)).1 /\
    thread_ok (let '(s, err) := activateLocked (ToAgentID u) s in (s, Returned err)).1
      (let '(s, err) := activateLocked (ToAgentID u) s in (s, Returned err)).2) as Hact.
  { intros Hc Hi. pose proof (activate_ok s (ToAgentID u) Hs Hc Hi). by destruct (activateLocked _ s). }
  destruct (closed s) eqn:Hc; [done|]. destruct (resident s !! ToAgentID u) as [id|] eqn:Hr.
  - destruct (ok_resident _ Hs _ _ Hr) as (r & Ha & Hag). rewrite Ha.
    destruct (evicted r) eqn:He; [apply Hact; [done|by eapply evicted_idle]|].
    assert (runtime_ok (set_act s id (push u r))) as Hpush.
    { eapply set_act_ok; [done|exact Ha|done| |done]. apply push_ok; [by eapply ok_acts|by rewrite Hag]. }
    destruct (negb _); [by destruct (full s r)|]. case_bool_decide; [|by destruct (full s r)].
    split; [done|]. split; [done|]. by exists r.
  - apply Hact; [done|by apply not_resident_idle].
Qed.

Lemma act_step_ok id now o s s' : runtime_ok s -> act_step id now o s = Some s' -> runtime_ok s'.
Proof.
  intros Hs Hstep. unfold act_step in Hstep. destruct (acts s !! id) as [a|] eqn:Ha; [|done].
  destruct (advance now o (log s) a) as [[l a']|] eqn:Hadv; [|done]. injection Hstep as <-.
  pose proof (leave_frame id o a s) as (E1 & E2 & E3 & E4 & E5 & E6).
  pose proof (advance_frame _ _ _ _ _ _ Hadv) as (Hag & Hev & Hca & Hg).
  assert (runtime_ok (set_act (set_log s l) id a')) as Hok.
  { apply (set_act_ok _ _ a); [by apply set_log_ok|done|done| |by eapply advance_live].
    eapply next_ok; [by eapply ok_acts|done]. }
  destruct Hok as [H1 H2 H3 H4 H5]. cbn in *. split; cbn; rewrite ?E1, ?E2, ?E3; try done.
  - intros agent j Hj. apply H2. destruct E6 as [E6|[E6 _]]; rewrite E6 in Hj; [done|].
    by apply lookup_delete_Some in Hj as [_ Hj].
  - intros j b Hb Hl. destruct E6 as [E6|[E6 Hres]]; rewrite E6; [by apply H3|].
    rewrite lookup_delete_ne; [by apply H3|]. intros Heq.
    assert (resident s !! agentID a = Some id) as Hid by (destruct Hres; [by apply ok_live|done]).
    pose proof (H3 j b Hb Hl) as Hj. rewrite <-Heq, Hid in Hj. injection Hj as <-.
    apply list_lookup_insert_Some in Hb as [(_ & <- & _)|[? _]]; [|done].
    pose proof (leave_live _ _ _ _ _ _ id s Hadv Hl) as Hlv. rewrite Hlv in E6.
    assert (resident s !! agentID a = None) as Hn by (rewrite E6; apply lookup_delete_eq). congruence.
  - intros i t Ht. apply H5 in Ht. destruct t as [u|u ch| |]; cbn in *; try done. by rewrite E1.
Qed.

Lemma Stop_ok s : runtime_ok s -> runtime_ok (Stop s).
Proof.
  intros Hs. unfold Stop. set (f := fun id a => if is_resident s id a then set_evicted a else a).
  assert (runtime_ok (set_acts s (imap f (acts s)))) as [H1 H2 H3 H4 H5].
  { apply change_acts_ok; [done| |by rewrite length_imap]. intros id b Hb.
    rewrite list_lookup_imap in Hb. apply fmap_Some in Hb as (a & Ha & ->). exists a. unfold f.
    pose proof (ok_acts _ Hs id a Ha) as Hok. destruct (is_resident s id a); split_and!; try done.
    - by apply set_evicted_ok.
    - by intros []. }
  split; cbn in *; try done. intros _ id b Hb Hl. pose proof (H3 id b Hb Hl) as Hr.
  rewrite list_lookup_imap in Hb. apply fmap_Some in Hb as (a & Ha & ->). revert Hl Hr. unfold f, is_resident.
  case_bool_decide as E; [by intros []|]. done.
Qed.

Lemma step_ok e s s' : runtime_ok s -> step e s = Some s' -> runtime_ok s'.
Proof.
  intros Hs Hstep. destruct e; cbn in Hstep.
  - injection Hstep as <-. by apply send_begin_ok.
  - injection Hstep as <-. by apply send_fails_ok.
  - destruct (threads s !! i) as [[u| | |]|] eqn:Ht; try done.
    destruct (deliver_ok u s Hs (ok_threads _ Hs i _ Ht)) as [H1 H2].
    destruct (deliver u s) as [s1 t]. injection Hstep as <-. by apply set_thread_ok.
  - destruct (threads s !! i) as [[|u ch| |]|] eqn:Ht; try done. destruct (acts s !! ch) as [r|] eqn:Hr; [|done].
    destruct (full s r); [done|]. injection Hstep as <-.
    destruct (ok_threads _ Hs i _ Ht) as [Hu (a & Ha & Hag)]. rewrite Hr in Ha. injection Ha as <-.
    apply set_thread_ok; [|done]. eapply set_act_ok; [done|exact Hr|done| |done].
    apply push_ok; [by eapply ok_acts|by rewrite Hag].
  - destruct (threads s !! i) as [[|u ch| |]|] eqn:Ht; try done. injection Hstep as <-. by apply set_thread_ok.
  - injection Hstep as <-. by apply add_thread_ok.
  - destruct (threads s !! i) as [[| |agents|]|] eqn:Ht; try done. unfold sweep_run in Hstep.
    destruct (closed s) eqn:Hc; [injection Hstep as <-; by apply set_thread_ok|].
    pose proof (sweep_agents_ok agents s Hs Hc). destruct (sweep_agents agents s). injection Hstep as <-.
    by apply set_thread_ok.
  - injection Hstep as <-. unfold Evict. destruct (resident s !! agentID0) as [id|]; [|done].
    apply change_acts_ok; [done| |by rewrite length_alter].
    intros j b Hb. destruct (decide (j = id)) as [->|Hne].
    + rewrite list_lookup_alter_eq in Hb. apply fmap_Some in Hb as (a & Ha & ->). exists a.
      split_and!; try done; [by apply set_evicted_ok, (ok_acts _ Hs id)|by intros []].
    + rewrite list_lookup_alter_ne in Hb by done. exists b. split_and!; try done. by eapply ok_acts.
  - injection Hstep as <-. by apply Stop_ok.
  - destruct (acts s !! id) as [a|] eqn:Ha; [|done]. destruct (evicted a) eqn:He; [|done]. injection Hstep as <-.
    eapply set_act_ok; [done|exact Ha|done| |done]. apply set_cancelled_ok; [done|by eapply ok_acts].
  - by eapply act_step_ok.
Qed.

Lemma NewRuntime_ok o l : runtime_ok (NewRuntime o l).
Proof. split; cbn; done. Qed.

Lemma reachable_ok o l s : reachable o l s -> runtime_ok s.
Proof. induction 1; [apply NewRuntime_ok|by eapply step_ok]. Qed.

End Preservation.

(** ** An example *)
Module Demo.
Definition options (cap : Z) : Options := Build_Options 0 0 cap 0 false SendModeNonBlocking 0.
Definition update (id : string) : Update := Build_Update id "agent" "" "" "" "" 1.
Definition fresh (cap : Z) : @Runtime SQLiteLog := NewRuntime (options cap) NewSQLiteLog.

Lemma run_reachable o (l : SQLiteLog) es s s' : reachable o l s -> run es s = Some s' -> reachable o l s'.
Proof.
  revert s. induction es as [|e es IH]; intros s Hs; cbn; [by intros [= <-]|].
  destruct (step e s) as [s1|] eqn:E; [|done]. apply IH. by eapply reach_step.
Qed.

(** Two sends while the first is being replayed, and an eviction. *)
Definition trace : list event :=
  [Send 1 (update "u1"); Deliver 0; Act 0 1 Done; Act 0 1 Done; Act 0 1 Done; Send 1 (update "u2"); Deliver 1;
   Act 0 1 (Handled (Some "m")); EvictAgent "agent"; Send 1 (update "u3"); Deliver 2; Act 0 1 Done].

Definition after : @Runtime SQLiteLog := default (fresh 10) (run trace (fresh 10)).

End Demo.
End ActorRuntime.
