(* ===== verification/ActorProtocol.v ===== *)
(** * ActorProtocol: the actor runtime keeps the protocol it was specified by

    The repository specifies the actor runtime in [specs/actor_protocol.tla].
    [Protocol] is that specification, without the effects of handlers (memory
    and object graph): what is sent and processed, who is resident, what is in
    a mailbox. The theorems are about the model of [internal/actor/actor.go] in
    [ActorRuntime]: which of its runs implement the protocol, that no update is
    left behind in them, and what is left behind in the others. *)
From S2P Require Import Prelude GoStrings GoTime ActorLog ActorRuntime.
From Stdlib Require Import String.
From stdpp Require Import gmap strings.
Import ActorLog ActorRuntime.

(** ** The specification *)
Module Protocol.

(** The variables of the specification; an actor is an agent, an update its
    identifier. *)
Record state := {
  resident : string -> Prop;
  mailbox : string -> string -> Prop;
  sent : string -> Prop;
  updateTo : string -> string -> Prop;
  processed : string -> Prop }.

Record equiv (s s' : state) : Prop := {
  equiv_resident a : resident s a <-> resident s' a;
  equiv_mailbox a u : mailbox s a u <-> mailbox s' a u;
  equiv_sent u : sent s u <-> sent s' u;
  equiv_to u a : updateTo s u a <-> updateTo s' u a;
  equiv_processed u : processed s u <-> processed s' u }.

Definition Backlog (s : state) (a u : string) : Prop := sent s u /\ ~ processed s u /\ updateTo s u a.

(** The state after each action. *)
Definition send (u a : string) (s : state) : state := {|
  resident b := resident s b \/ b = a;
  mailbox b v := if bool_decide (b = a) then v = u \/ (resident s a /\ mailbox s a v) else mailbox s b v;
  sent v := sent s v \/ v = u;
  updateTo v b := if bool_decide (v = u) then b = a else updateTo s v b;
  processed := processed s |}.

Definition process (a u : string) (s : state) : state := {|
  resident := resident s;
  mailbox b v := mailbox s b v /\ ~ (b = a /\ v = u);
  sent := sent s; updateTo := updateTo s;
  processed v := processed s v \/ v = u |}.

Definition passivate (a : string) (s : state) : state := {|
  resident b := resident s b /\ b <> a;
  mailbox := mailbox s; sent := sent s; updateTo := updateTo s; processed := processed s |}.

(** Activating agents that have nothing to do, which is not an action of the
    specification: its [Sweep] needs a backlog. *)
Definition wake (agents : string -> Prop) (s : state) : state := {|
  resident b := resident s b \/ agents b;
  mailbox := mailbox s; sent := sent s; updateTo := updateTo s; processed := processed s |}.
Definition no_work (s : state) (a : string) : Prop := ~ resident s a /\ forall u, ~ Backlog s a u.

(** [Next], up to the equality of states, without [Evict] and [Sweep]. *)
Inductive next (s s' : state) : Prop :=
  | Send u a : ~ sent s u -> equiv s' (send u a s) -> next s s'
  | Process a u : resident s a -> mailbox s a u -> ~ processed s u -> equiv s' (process a u s) -> next s s'
  | Passivate a : resident s a -> (forall u, ~ mailbox s a u) -> (forall u, ~ Backlog s a u) ->
      equiv s' (passivate a s) -> next s s'.
End Protocol.

Module ActorProtocol.
Local Open Scope Z_scope.

(** ** Orderly runs *)

(** The first draining of the mailbox, after the cold replay. *)
Definition draining_cold (p : point) : bool :=
  match p with
  | Draining Cold | OneHandling Cold _ | OneMarking Cold _ _ | OneSleep Cold => true
  | _ => false
  end.

(** The update is still looked for, or at, by the activation. *)
Definition looks (a : activation) (u : Update) : Prop :=
  match at_ a with
  | OneHandling Cold v | OneMarking Cold v _ => u = v \/ u ∈ mailbox a
  | OneSleep Cold | Draining Cold => u ∈ mailbox a
  | Idle => mailbox a <> []
  | Exiting | Gone => False
  | _ => True
  end.

(** What the replay still has to handle. *)
Definition replay (p : point) : list Update :=
  match p with
  | BacklogNext _ rest => rest
  | BacklogHandling _ u rest | BacklogMarking _ u _ rest => u :: rest
  | _ => []
  end.

Section Orderly.
Context {L : Type} `{LogLaws L}.
Implicit Types (l : L) (s : @Runtime L) (u : Update) (a : activation).

(** The events that are neither an eviction or shutdown, nor a panic or a deferral of
    the handler, nor an [Append] that fails after its effect, nor, during the first
    draining of a mailbox, a failure or an overflow of it. *)
Definition orderly s (e : event) : bool :=
  match e with
  | SendFails applied _ _ => negb applied
  | EvictAgent _ | StopAll | Cancel _ => false
  | Deliver i =>
    match threads s !! i with
    | Some (Sending u) =>
      match resident s !! ToAgentID u with
      | Some id => match acts s !! id with
                   | Some a => negb (draining_cold (at_ a) && full s a)
                   | None => true
                   end
      | None => true
      end
    | _ => true
    end
  | Act id _ o =>
    match o with
    | Deferred | Panicked => false
    | HandlerError | LogError _ =>
      match acts s !! id with Some a => negb (draining_cold (at_ a)) | None => true end
    | _ => true
    end
  | _ => true
  end.

Inductive orderly_run (o : Options) l : @Runtime L -> Prop :=
  | orderly_boot : orderly_run o l (boot o l)
  | orderly_step s e s' :
      orderly_run o l s -> orderly s e = true -> step e s = Some s' -> orderly_run o l s'.

(** No cap on the residents, and [Send] does not block. *)
Definition plain (o : Options) : Prop :=
  MaxResident o <= 0 /\ (Backpressure o = false \/ Opt_SendMode o = SendModeNonBlocking).

(** ** Nothing is left behind *)
Definition unprocessed l u : Prop := entry l (UpdateID u) = Some (u, false).

(** A send in progress will deliver the update, or an activation looks for it. *)
Definition covered s u : Prop :=
  (exists i, threads s !! i = Some (Sending u)) \/
  (exists id a, acts s !! id = Some a /\ agentID a = ToAgentID u /\ looks a u).

Record calm s : Prop := {
  calm_ok : runtime_ok s;
  calm_plain : plain (opts s) /\ 0 < MailboxCapacity (opts s);
  calm_open : closed s = false;
  calm_acts : forall id a, acts s !! id = Some a -> evicted a = false /\ deferredBacklog a = false;
  calm_resident : forall agent id a,
    resident s !! agent = Some id -> acts s !! id = Some a -> running (at_ a) = true;
  calm_threads : forall i u ch, threads s !! i <> Some (Blocked u ch);
  calm_covered : forall u, unprocessed (log s) u -> covered s u;
}.

Lemma unprocessed_before l l' u :
  grows l l' -> (exists p, entry l (UpdateID u) = Some (u, p)) -> unprocessed l' u -> unprocessed l u.
Proof.
  intros Hg [p Hp] Hu. destruct (Hg _ _ _ Hp) as (p' & Hp' & Himp). unfold unprocessed in *.
  rewrite Hu in Hp'. injection Hp' as <-. destruct p; [by specialize (Himp eq_refl)|done].
Qed.

(** What the log of a step holds unprocessed was there before. *)
Lemma mark_unprocessed now a v l u : unprocessed (mark now a v l) u -> unprocessed l u.
Proof.
  unfold unprocessed, mark. rewrite mark_entry. case_bool_decide; [|done].
  destruct (entry l (UpdateID u)) as [[w p]|]; cbn; [|done]. intros [= -> Hp]. by destruct p.
Qed.

Lemma mark_unprocessed_ne now a v l u :
  unprocessed (mark now a v l) u -> ToAgentID u = agentID a -> u <> v.
Proof.
  unfold unprocessed, mark. rewrite mark_entry. intros Hu Ha ->. rewrite bool_decide_eq_true_2 in Hu by done.
  destruct (entry l (UpdateID v)) as [[w p]|]; cbn in Hu; [|done]. injection Hu as -> Hp.
  rewrite bool_decide_eq_true_2 in Hp by done. by rewrite orb_true_r in Hp.
Qed.

Lemma advance_unprocessed now o l a l' a' u :
  advance now o l a = Some (l', a') -> unprocessed l' u -> unprocessed l u.
Proof.
  intros Hadv. advance_cases Hadv; try done; try apply mark_unprocessed;
    unfold unprocessed; by rewrite snapshot_entry.
Qed.

Lemma append_unprocessed l v u : unprocessed (Append v l).1 u -> u = v \/ unprocessed l u.
Proof.
  unfold unprocessed. rewrite append_entry. case_bool_decide as E; [|by right].
  rewrite E. destruct (entry l (UpdateID v)) as [up|]; cbn; [by right|]. intros [= <-]. by left.
Qed.

(** One step of a calm activation keeps looking for what it looked for. *)
Definition fails_cold (o : outcome) a : bool :=
  match o with
  | Deferred | Panicked => true
  | HandlerError | LogError _ => draining_cold (at_ a)
  | _ => false
  end.

Lemma looks_skip l a u : act_ok l a -> unprocessed l u -> UpdateID u ∉ skip a.
Proof. intros Ha Hu Hin. destruct (ok_skip _ _ Ha _ Hin) as (v & Hv & _). unfold unprocessed in Hu. congruence. Qed.

Lemma drain_one_looks l d v m a u :
  act_ok l a -> evicted a = false -> deferredBacklog a = false -> unprocessed l u ->
  (d = Cold -> u ∈ v :: m) -> looks (drain_one d v (set_mailbox m a)) u.
Proof.
  intros Ha He Hd Hu Hin. unfold drain_one, process_one. cbn. rewrite Hd. cbn.
  assert (cancelled a = false) as ->.
  { destruct (cancelled a) eqn:E; [|done]. apply (ok_cancelled _ _ Ha) in E. congruence. }
  pose proof (looks_skip _ _ _ Ha Hu) as Hs.
  repeat case_bool_decide; cbn; destruct d; cbn; try done; specialize (Hin eq_refl);
    apply elem_of_cons in Hin as [->|Hin]; auto; done.
Qed.

Lemma advance_looks now o l a l' a' u :
  act_ok l a -> evicted a = false -> deferredBacklog a = false -> fails_cold o a = false ->
  advance now o l a = Some (l', a') -> unprocessed l' u -> ToAgentID u = agentID a -> looks a u -> looks a' u.
Proof.
  intros Ha He Hd Ho Hadv Hu Hag Hl. pose proof (advance_unprocessed _ _ _ _ _ _ _ Hadv Hu) as Hu0.
  assert (cancelled a = false) as Hc.
  { destruct (cancelled a) eqn:E; [|done]. apply (ok_cancelled _ _ Ha) in E. congruence. }
  assert (u ∈ Unprocessed (agentID a) l) as Hin by by apply unprocessed_entry.
  unfold looks in Hl. advance_cases Hadv; cbn in *; try congruence; try done;
    try (by match goal with k : caller |- _ => destruct k end);
    try (by match goal with d : drain |- _ => destruct d end).
  all: try (by apply not_elem_of_nil in Hin).
  all: try (eapply drain_one_looks; eauto; done).
  all: try (unfold looks; use_point; done).
  all: try (match goal with E : at_ _ = _ |- _ => rewrite E in Ho; discriminate Ho end).
  - destruct Hl as [->|Hl]; [|done]. by destruct (mark_unprocessed_ne _ _ _ _ _ Hu Hag).
  - by apply not_elem_of_nil in Hl.
  - to_prop.
Qed.

Lemma drain_one_deferred d v a : deferredBacklog a = false -> deferredBacklog (drain_one d v a) = false.
Proof. intros Hd. unfold drain_one, process_one. rewrite Hd. by repeat case_bool_decide; destruct (cancelled a). Qed.

Lemma advance_calm now o l a l' a' :
  fails_cold o a = false -> deferredBacklog a = false -> advance now o l a = Some (l', a') ->
  deferredBacklog a' = false.
Proof. intros Ho Hd Hadv. advance_cases Hadv; try done; by apply drain_one_deferred. Qed.

(** ** Coverage is kept *)
Lemma covered_mono s s' u :
  (forall i, threads s !! i = Some (Sending u) -> covered s' u) ->
  (forall id a, acts s !! id = Some a -> agentID a = ToAgentID u -> looks a u ->
     exists a', acts s' !! id = Some a' /\ agentID a' = agentID a /\ looks a' u) ->
  covered s u -> covered s' u.
Proof.
  intros Ht Ha [[i Hi]|(id & a & Hid & Hag & Hl)]; [by eapply Ht|].
  right. destruct (Ha id a Hid Hag Hl) as (a' & Ha' & Hag' & Hl'). exists id, a'. by rewrite Hag'.
Qed.

Lemma push_looks v a u : looks a u -> looks (push v a) u.
Proof.
  unfold looks. cbn. destruct (at_ a) as [| | | | | | [] | [] | [] | [] | | |]; cbn; try done; rewrite ?elem_of_app; try tauto.
  intros _. by destruct (mailbox a).
Qed.

(** Delivering puts the update where the activation looks. *)
Lemma pushed_looks u a : running (at_ a) = true -> looks (push u a) u.
Proof.
  unfold looks. cbn. destruct (at_ a) as [| | | | | | [] | [] | [] | [] | | |]; cbn; try done;
    intros _; rewrite ?elem_of_app, ?list_elem_of_singleton; auto. by destruct (mailbox a).
Qed.

(** A full mailbox is looked at, or the backlog will be. *)
Lemma full_looks s u a :
  0 < MailboxCapacity (opts s) -> full s a = true -> draining_cold (at_ a) = false -> running (at_ a) = true -> looks a u.
Proof.
  unfold full, looks. intros Hc Hf. to_prop.
  destruct (at_ a) as [| | | | | | [] | [] | [] | [] | | |]; cbn; try done. intros _ _ Hm. rewrite Hm in Hf. cbn in Hf. lia.
Qed.

(** Starting activations for agents without one. *)
Record extends s s' : Prop := {
  ext_log : log s' = log s; ext_threads : threads s' = threads s; ext_opts : opts s' = opts s;
  ext_closed : closed s' = closed s;
  ext_acts : exists new, acts s' = acts s ++ (new_activation <$> new);
  ext_resident : forall agent id, resident s' !! agent = Some id ->
    resident s !! agent = Some id \/ acts s' !! id = Some (new_activation agent);
  ext_kept : forall agent id, resident s !! agent = Some id -> resident s' !! agent = Some id;
}.

Lemma extends_refl s : extends s s.
Proof. split; try done; [|by left]. exists []. by rewrite app_nil_r. Qed.

Lemma extends_trans s1 s2 s3 : extends s1 s2 -> extends s2 s3 -> extends s1 s3.
Proof.
  intros [A1 A2 A3 A4 [n A5] A6 A7] [B1 B2 B3 B4 [m B5] B6 B7]. split; try congruence.
  - exists (n ++ m). by rewrite B5, A5, fmap_app, (assoc_L (++)).
  - intros agent id [Hid|Hid]%B6; [|by right]. apply A6 in Hid as [Hid|Hid]; [by left|right].
    rewrite B5. by apply lookup_app_l_Some.
  - auto.
Qed.

Lemma activate_plain s agent :
  plain (opts s) -> resident s !! agent = None ->
  extends s (activateLocked agent s).1 /\ (activateLocked agent s).2 = None
  /\ (activateLocked agent s).1.(resident) !! agent = Some (length (acts s)).
Proof.
  intros [Hcap _] Hr. unfold activateLocked.
  destruct (0 <? MaxResident (opts s)) eqn:E; [to_prop; lia|]. cbn. split; [|by rewrite lookup_insert_eq].
  split; cbn; try done.
  - by exists [agent].
  - intros ag id [[<- <-]|[_ Hid]]%lookup_insert_Some; [right|by left]. by rewrite list_lookup_middle.
  - intros ag id Hid. rewrite lookup_insert_ne; [done|]. congruence.
Qed.

Lemma sweep_extends agents s :
  plain (opts s) ->
  extends s (sweep_agents agents s).1 /\ (sweep_agents agents s).2 = None
  /\ forall agent, agent ∈ agents -> is_Some ((sweep_agents agents s).1.(resident) !! agent).
Proof.
  revert s. induction agents as [|agent agents IH]; intros s Hp; cbn.
  - split_and!; [apply extends_refl|done|]. by intros ? ?%not_elem_of_nil.
  - destruct (resident s !! agent) as [id|] eqn:Hr.
    + destruct (IH s Hp) as (He & Hn & Hall). split_and!; [done..|].
      intros a [->|Ha]%elem_of_cons; [|by apply Hall]. exists id. by apply (ext_kept _ _ He).
    + destruct (activate_plain s agent Hp Hr) as (He & Hn & Hres).
      destruct (activateLocked agent s) as [s1 e]. cbn in *. subst e.
      destruct (IH s1) as (He1 & Hn1 & Hall); [by rewrite (ext_opts _ _ He)|].
      split_and!; [by eapply extends_trans|done|].
      intros a [->|Ha]%elem_of_cons; [|by apply Hall]. eexists. by apply (ext_kept _ _ He1).
Qed.

Lemma extends_act s s' id a :
  extends s s' -> acts s' !! id = Some a -> acts s !! id = Some a \/ exists agent, a = new_activation agent.
Proof.
  intros [_ _ _ _ [new Hn] _ _] Ha. rewrite Hn in Ha. apply lookup_app_Some in Ha as [Ha|[_ Ha]]; [by left|right].
  apply list_lookup_fmap_Some in Ha as (agent & -> & _). by exists agent.
Qed.

Lemma extends_covered s s' u : extends s s' -> covered s u -> covered s' u.
Proof.
  intros [H1 H2 H3 H4 [new Hn] H6 H7]. apply covered_mono.
  - intros i Hi. left. exists i. by rewrite H2.
  - intros id a Ha _ Hl. exists a. split_and!; [|done..]. rewrite Hn. by apply lookup_app_l_Some.
Qed.

Lemma extends_calm s s' : calm s -> runtime_ok s' -> extends s s' -> calm s'.
Proof.
  intros [C1 C2 C3 C4 C5 C6 C7] Hok He. split; try done.
  - by rewrite (ext_opts _ _ He).
  - by rewrite (ext_closed _ _ He).
  - intros id a [Ha|[agent ->]]%(extends_act _ _ _ _ He); [by eapply C4|done].
  - intros agent id a [Hr|Hn]%(ext_resident _ _ He) Ha.
    + destruct (extends_act _ _ _ _ He Ha) as [Ha'|[ag ->]]; [by eapply C5|done].
    + rewrite Ha in Hn. by injection Hn as ->.
  - intros i u ch. rewrite (ext_threads _ _ He). apply C6.
  - intros u. rewrite (ext_log _ _ He). intros Hu. by apply (extends_covered s), C7.
Qed.

(** A thread that is not sending may become anything that is not. *)
Lemma set_thread_calm s i t :
  calm s -> runtime_ok (set_thread s i t) -> (forall u ch, t <> Blocked u ch) ->
  (forall u, threads s !! i = Some (Sending u) -> unprocessed (log s) u -> covered (set_thread s i t) u) ->
  calm (set_thread s i t).
Proof.
  intros [C1 C2 C3 C4 C5 C6 C7] Hok Hb Hs. split; cbn; try done.
  - intros j u ch [(_ & -> & _)|[_ Hj]]%list_lookup_insert_Some; [by eapply Hb|by eapply C6].
  - intros u Hu. destruct (decide (threads s !! i = Some (Sending u))) as [Hi|Hi]; [by apply Hs|].
    eapply covered_mono; [| |by apply C7].
    + intros j Hj. left. exists j. cbn. rewrite list_lookup_insert_ne; [done|]. by intros ->.
    + cbn. intros id a Ha _ Hl. by exists a.
Qed.

Lemma add_thread_calm s t :
  calm s -> runtime_ok (add_thread s t) -> (forall u ch, t <> Blocked u ch) -> calm (add_thread s t).
Proof.
  intros [C1 C2 C3 C4 C5 C6 C7] Hok Hb. split; cbn; try done.
  - intros j u ch [Hj|[_ Hj]]%lookup_app_Some; [by eapply C6|].
    apply list_lookup_singleton_Some in Hj as [_ ->]. by eapply Hb.
  - intros u Hu. eapply covered_mono; [| |by apply C7].
    + intros j Hj. left. exists j. cbn. by apply lookup_app_l_Some.
    + cbn. intros id a Ha _ Hl. by exists a.
Qed.

(** Replacing one activation by a later state of it. *)
Lemma set_act_calm s id a a' :
  calm s -> acts s !! id = Some a -> runtime_ok (set_act s id a') -> evicted a' = false ->
  deferredBacklog a' = false -> running (at_ a') = true -> agentID a' = agentID a ->
  (forall u, unprocessed (log s) u -> ToAgentID u = agentID a -> looks a u -> looks a' u) ->
  calm (set_act s id a').
Proof.
  intros [C1 C2 C3 C4 C5 C6 C7] Ha Hok He Hd Hr Hag Hl. split; cbn; try done.
  - intros j b [(_ & -> & _)|[_ Hj]]%list_lookup_insert_Some; [done|by eapply C4].
  - intros agent j b Hres [(_ & -> & _)|[_ Hj]]%list_lookup_insert_Some; [done|by eapply C5].
  - intros u Hu. eapply covered_mono; [| |by apply C7].
    + intros i Hi. left. by exists i.
    + intros j b Hj Hagb Hlb. cbn. destruct (decide (j = id)) as [->|Hne].
      * rewrite Ha in Hj. injection Hj as <-. exists a'. rewrite list_lookup_insert_eq by by eapply lookup_lt_Some.
        split_and!; [done..|]. apply Hl; done.
      * exists b. rewrite list_lookup_insert_ne by done. done.
Qed.

Lemma set_log_calm s l :
  calm s -> runtime_ok (set_log s l) -> (forall u, unprocessed l u -> unprocessed (log s) u) -> calm (set_log s l).
Proof.
  intros [C1 C2 C3 C4 C5 C6 C7] Hok Hu. split; cbn; try done. intros u Hun.
  destruct (C7 u (Hu u Hun)) as [Hc|Hc]; [by left|by right].
Qed.

Lemma send_begin_calm now u s : calm s -> calm (send_begin now u s).
Proof.
  intros Hs. pose proof (send_begin_ok now u s (calm_ok _ Hs)) as Hok. revert Hok. unfold send_begin.
  destruct (incomplete u); [intros Hok; by apply add_thread_calm|].
  pose proof (append_unprocessed (log s) (trimmed now u)) as Hun.
  pose proof (append_new (log s) (trimmed now u)) as Hnew.
  pose proof (append_entry (log s) (trimmed now u)) as Hent.
  destruct (Append (trimmed now u) (log s)) as [l appended]; cbn in *. destruct Hs as [C1 C2 C3 C4 C5 C6 C7].
  intros Hok. destruct appended; (split; cbn; try done).
  - intros i v ch [Hi|[_ Hi]]%lookup_app_Some; [by eapply C6|]. by apply list_lookup_singleton_Some in Hi as [_ Hi].
  - intros v [->|Hv]%Hun.
    + left. exists (length (threads s)). cbn. by rewrite list_lookup_middle.
    + eapply covered_mono; [| |by apply C7]; cbn.
      * intros i Hi. left. exists i. cbn. by apply lookup_app_l_Some.
      * intros id a Ha _ Hl. by exists a.
  - intros i v ch [Hi|[_ Hi]]%lookup_app_Some; [by eapply C6|]. by apply list_lookup_singleton_Some in Hi as [_ Hi].
  - intros v Hv0. assert (unprocessed (log s) v) as Hv.
    { unfold unprocessed in *. rewrite Hent in Hv0. case_bool_decide as E; [|done].
      destruct (entry (log s) (UpdateID v)) as [up|] eqn:Ev; cbn in *; [done|]. rewrite E in Ev. by apply Hnew in Ev. }
    eapply covered_mono; [| |by apply C7]; cbn.
    * intros i Hi. left. exists i. cbn. by apply lookup_app_l_Some.
    * intros id a Ha _ Hl. by exists a.
Qed.

Lemma deliver_calm i u s :
  calm s -> threads s !! i = Some (Sending u) -> orderly s (Deliver i) = true ->
  calm (set_thread (deliver u s).1 i (deliver u s).2).
Proof.
  intros Hs Hi Ho. pose proof (calm_plain _ Hs) as [[Hmax Hmode] Hcap].
  destruct (deliver_ok u s (calm_ok _ Hs) (ok_threads _ (calm_ok _ Hs) i _ Hi)) as [Hok1 Hok2].
  pose proof (set_thread_ok _ i _ Hok1 Hok2) as Hok. cbn in Ho. rewrite Hi in Ho. revert Ho Hok1 Hok. unfold deliver.
  rewrite (calm_open _ Hs). clear Hok2.
  destruct (resident s !! ToAgentID u) as [id|] eqn:Hr.
  - destruct (ok_resident _ (calm_ok _ Hs) _ _ Hr) as (a & Ha & Hag). rewrite Ha.
    destruct (calm_acts _ Hs id a Ha) as [He Hd]. rewrite He.
    pose proof (calm_resident _ Hs _ _ _ Hr Ha) as Hrun. intros Ho Hok1 Hok.
    assert (full s a = true -> covered s u) as Hfull.
    { intros Hf. right. exists id, a. split_and!; [done..|]. apply (full_looks s); try done. rewrite Hf in Ho.
      by rewrite andb_true_r, negb_true_iff in Ho. }
    assert (forall r, full s a = true -> runtime_ok (set_thread s i (Returned r)) -> calm (set_thread s i (Returned r))) as Hdrop.
    { intros r Hf Hok2. apply set_thread_calm; [done..|]. intros v Hv _. rewrite Hi in Hv. injection Hv as <-.
      right. exists id, a. split_and!; [done..|]. by destruct (Hfull Hf); apply (full_looks s);
        rewrite ?Hf, ?andb_true_r, ?negb_true_iff in Ho. }
    assert (forall r, runtime_ok (set_act s id (push u a)) ->
      runtime_ok (set_thread (set_act s id (push u a)) i (Returned r)) ->
      calm (set_thread (set_act s id (push u a)) i (Returned r))) as Hpush.
    { intros r Hok2 Hok3. apply set_thread_calm; [|done..|].
      - apply (set_act_calm s id a); try done. intros v _ _. apply push_looks.
      - intros v Hv _. cbn in Hv. rewrite Hi in Hv. injection Hv as <-. right. exists id, (push u a). cbn.
        rewrite list_lookup_insert_eq by by eapply lookup_lt_Some. split_and!; [done..|]. by apply pushed_looks. }
    destruct (Backpressure (opts s)); cbn in *.
    + assert (Opt_SendMode (opts s) == SendModeBlocking = false) as E.
      { apply bool_decide_eq_false. destruct Hmode; congruence. }
      rewrite E in Hok, Hok1 |- *. destruct (full s a); cbn in *; auto.
    + destruct (full s a); cbn in *; auto.
  - intros _ Hok1 Hok. destruct (activate_plain s (ToAgentID u) (conj Hmax Hmode) Hr) as (He & Hn & Hres).
    destruct (activateLocked (ToAgentID u) s) as [s1 e] eqn:Eact. cbn in *. subst e.
    apply set_thread_calm; [by apply (extends_calm s)|done|done|].
    intros v Hv _. rewrite (ext_threads _ _ He), Hi in Hv. injection Hv as <-. right.
    destruct (ok_resident _ Hok1 _ _ Hres) as (a & Ha & Hag). exists (length (acts s)), a. split_and!; [done..|].
    destruct (ext_resident _ _ He _ _ Hres) as [Hold|Hnew].
    + congruence.
    + rewrite Ha in Hnew. by injection Hnew as ->.
Qed.

Lemma orderly_act id now o s a :
  orderly s (Act id now o) = true -> acts s !! id = Some a -> fails_cold o a = false.
Proof. cbn. intros Ho Ha. rewrite Ha in Ho. destruct o; try done; by apply negb_true_iff in Ho. Qed.

(** A calm activation ends by passivating with an empty mailbox, and then leaves. *)
Lemma advance_ends now o l a l' a' :
  act_ok l a -> evicted a = false -> fails_cold o a = false -> advance now o l a = Some (l', a') ->
  running (at_ a') = false ->
  (at_ a = Idle /\ mailbox a = [] /\ o = Timeout) \/ at_ a = Exiting.
Proof.
  intros Ha He Ho Hadv Hr.
  assert (cancelled a = false) as Hc.
  { destruct (cancelled a) eqn:E; [|done]. apply (ok_cancelled _ _ Ha) in E. congruence. }
  advance_cases Hadv; try done; try (by right); try congruence; cbn in *.
  all: try (by match goal with k : caller |- _ => destruct k end).
  all: try (by match goal with b : bool |- _ => destruct b end).
  all: unfold drain_one, process_one in Hr; repeat case_match; try done.
  all: try (match goal with E : at_ _ = Idle |- _ => rewrite E in Hr end; done).
  left. by to_prop.
Qed.

Lemma act_calm id now o s s' :
  calm s -> orderly s (Act id now o) = true -> act_step id now o s = Some s' -> calm s'.
Proof.
  intros Hs Ho Hstep. pose proof (act_step_ok _ _ _ _ _ (calm_ok _ Hs) Hstep) as Hok. revert Hstep. unfold act_step.
  destruct (acts s !! id) as [a|] eqn:Ha; [|done]. pose proof (orderly_act _ _ _ _ _ Ho Ha) as Hf.
  destruct (advance now o (log s) a) as [[l a']|] eqn:Hadv; [|done]. intros [= <-].
  destruct (calm_acts _ Hs id a Ha) as [He Hd]. pose proof (ok_acts _ (calm_ok _ Hs) id a Ha) as Hak.
  destruct (advance_frame _ _ _ _ _ _ Hadv) as (Hag & He' & _ & Hg). rewrite He in He'.
  pose proof (advance_calm _ _ _ _ _ _ Hf Hd Hadv) as Hd'.
  assert (forall u, unprocessed l u -> unprocessed (log s) u) as Hu.
  { intros u. by eapply advance_unprocessed. }
  destruct (running (at_ a')) eqn:Hr.
  - rewrite (leave_live _ _ _ _ _ _ id s Hadv (conj He' Hr)) in Hok |- *.
    apply (set_act_calm (set_log s l) id a); try done.
    + apply set_log_calm; [done|by apply set_log_ok; [apply Hs|]|done].
    + intros u Hun Hagu Hl. by eapply advance_looks.
  - destruct (leave_frame id o a s) as (E1 & E2 & E3 & E4 & E5 & E6).
    assert (forall u, looks a u -> False) as Hno.
    { intros u. unfold looks. by destruct (advance_ends _ _ _ _ _ _ Hak He Hf Hadv Hr) as [(-> & -> & _)| ->]. }
    destruct Hs as [C1 C2 C3 C4 C5 C6 C7]. split; cbn; rewrite ?E1, ?E2, ?E3, ?E5; try done.
    + intros j b [(_ & -> & _)|[_ Hj]]%list_lookup_insert_Some; [done|by eapply C4].
    + intros agent j b Hres Hb.
      assert (resident s !! agent = Some j) as Hres'.
      { destruct E6 as [E6|[E6 _]]; rewrite E6 in Hres; [done|]. by apply lookup_delete_Some in Hres as [_ Hres]. }
      apply list_lookup_insert_Some in Hb as [(<- & _ & _)|[_ Hj]]; [|by eapply C5]. exfalso.
      pose proof (C5 _ _ _ Hres' Ha) as Hrun.
      destruct (advance_ends _ _ _ _ _ _ Hak He Hf Hadv Hr) as [(Hp & Hm & ->)|Hp]; [|by rewrite Hp in Hrun].
      destruct (ok_resident _ C1 _ _ Hres') as (a2 & Ha2 & Hag2). rewrite Ha in Ha2. injection Ha2 as <-.
      unfold leave in Hres. rewrite Hp, Hm, He in Hres. cbn in Hres. by rewrite <-Hag2, lookup_delete_eq in Hres.
    + intros u Hun. eapply (covered_mono s); [| |by apply C7, Hu]; cbn; rewrite ?E1.
      * intros i Hi. left. exists i. cbn. by rewrite E2.
      * intros j b Hj Hagb Hl. destruct (decide (j = id)) as [->|Hne].
        -- rewrite Ha in Hj. injection Hj as <-. by apply Hno in Hl.
        -- exists b. by rewrite list_lookup_insert_ne.
Qed.

Lemma step_calm e s s' : calm s -> orderly s e = true -> step e s = Some s' -> calm s'.
Proof.
  intros Hs Ho Hstep. pose proof (step_ok _ _ _ (calm_ok _ Hs) Hstep) as Hok. destruct e; try done; cbn [step] in Hstep.
  - injection Hstep as <-. by apply send_begin_calm.
  - injection Hstep as <-. cbn in Ho. apply negb_true_iff in Ho as ->. revert Hok. unfold send_fails.
    destruct (incomplete u); intros Hok; by apply add_thread_calm.
  - destruct (threads s !! i) as [[u| | |]|] eqn:Ht; try done.
    pose proof (deliver_calm i u s Hs Ht Ho) as Hc. destruct (deliver u s). by injection Hstep as <-.
  - destruct (threads s !! i) as [[|u ch| |]|] eqn:Ht; try done. by destruct (calm_threads _ Hs i u ch).
  - destruct (threads s !! i) as [[|u ch| |]|] eqn:Ht; try done. by destruct (calm_threads _ Hs i u ch).
  - injection Hstep as <-. by apply add_thread_calm.
  - destruct (threads s !! i) as [[| |agents|]|] eqn:Ht; try done. unfold sweep_run in Hstep.
    rewrite (calm_open _ Hs) in Hstep. destruct (calm_plain _ Hs) as [Hp _].
    destruct (sweep_extends agents s Hp) as (He & _ & _).
    pose proof (sweep_agents_ok agents s (calm_ok _ Hs) (calm_open _ Hs)) as Hok1.
    destruct (sweep_agents agents s) as [s1 r]. injection Hstep as <-. cbn in *.
    apply set_thread_calm; [by apply (extends_calm s)|done|done|].
    intros u Hu _. rewrite (ext_threads _ _ He), Ht in Hu. done.
  - by eapply act_calm.
Qed.

Lemma boot_calm o l : plain o -> calm (boot o l).
Proof.
  intros Hp. unfold boot, sweep_run. cbn [closed NewRuntime].
  assert (plain (with_defaults o)) as Hp' by done.
  destruct (sweep_extends (AgentsWithBacklog l) (NewRuntime o l) Hp') as (He & _ & Hall).
  pose proof (sweep_agents_ok (AgentsWithBacklog l) (NewRuntime o l) (NewRuntime_ok o l) eq_refl) as Hok.
  destruct (sweep_agents (AgentsWithBacklog l) (NewRuntime o l)) as [s r]. cbn in *.
  assert (forall id a, acts s !! id = Some a -> exists agent, a = new_activation agent) as Hnew.
  { intros id a Ha. destruct (extends_act _ _ _ _ He Ha) as [Hn|Hn]; [done|done]. }
  split; try done.
  - rewrite (ext_opts _ _ He). split; [done|]. cbn. by destruct (MailboxCapacity o <=? 0) eqn:E; to_prop.
  - by rewrite (ext_closed _ _ He).
  - intros id a Ha. by destruct (Hnew id a Ha) as [agent ->].
  - intros agent id a _ Ha. by destruct (Hnew id a Ha) as [ag ->].
  - intros i u ch. by rewrite (ext_threads _ _ He).
  - intros u. rewrite (ext_log _ _ He). cbn. intros Hu.
    destruct (Hall (ToAgentID u)) as [id Hid].
    + apply backlog_agents. intros Hnil. assert (u ∈ Unprocessed (ToAgentID u) l) as Hin by by apply unprocessed_entry.
      rewrite Hnil in Hin. by apply not_elem_of_nil in Hin.
    + right. destruct (ok_resident _ Hok _ _ Hid) as (a & Ha & Hag). exists id, a. split_and!; [done..|].
      by destruct (Hnew id a Ha) as [agent ->].
Qed.

Lemma run_calm o l s : plain o -> orderly_run o l s -> calm s.
Proof. intros Hp. induction 1; [by apply boot_calm|by eapply step_calm]. Qed.

(** [C15] In an orderly run (see [orderly]; no cap on the residents, and no [Send] that
    blocks) nothing is left behind: an update that is in the log and not
    processed is delivered by a send in progress or looked for by an activation; so an
    agent without an activation, and with no send to it in progress, has no backlog. *)
Theorem no_update_left_behind o l s :
  plain o -> orderly_run o l s ->
  (forall u, unprocessed (log s) u -> covered s u)
  /\ (forall agent, resident s !! agent = None ->
        (forall i u, threads s !! i = Some (Sending u) -> ToAgentID u <> agent) -> Unprocessed agent (log s) = []).
Proof.
  intros Hp Hs%run_calm; [|done]. split; [apply Hs|]. intros agent Hr Hsend.
  destruct (Unprocessed agent (log s)) as [|u k] eqn:E; [done|]. exfalso.
  assert (u ∈ Unprocessed agent (log s)) as Hu by (rewrite E; left). apply unprocessed_entry in Hu as [Hu Hag].
  destruct (calm_covered _ Hs u Hu) as [[i Hi]|(id & a & Ha & Haga & Hl)]; [by apply (Hsend i u)|].
  assert (live a) as Hlive.
  { split; [by eapply calm_acts|]. revert Hl. unfold looks. by destruct (at_ a). }
  pose proof (ok_live _ (calm_ok _ Hs) id a Ha Hlive). congruence.
Qed.

(** ** Every update is processed *)

(** The replay of an activation is unprocessed, each update once. *)
Definition fresh_replay l a : Prop :=
  Forall (unprocessed l) (replay (at_ a)) /\ NoDup (UpdateID <$> replay (at_ a)).

Lemma unprocessed_same_id l u v : unprocessed l u -> unprocessed l v -> UpdateID u = UpdateID v -> u = v.
Proof. unfold unprocessed. intros Hu Hv E. rewrite E, Hv in Hu. by injection Hu. Qed.

Lemma query_fresh l agent : Forall (unprocessed l) (Unprocessed agent l) /\ NoDup (UpdateID <$> Unprocessed agent l).
Proof.
  assert (Forall (unprocessed l) (Unprocessed agent l)) as Hall.
  { apply Forall_forall. by intros u [Hu _]%unprocessed_entry. }
  split; [done|]. rewrite Forall_forall in Hall. apply NoDup_fmap_2_strong; [|apply unprocessed_nodup].
  intros u v Hu Hv. apply unprocessed_same_id with l; auto.
Qed.

Lemma mark_other now a v l u : unprocessed l u -> UpdateID u <> UpdateID v \/ ToAgentID u <> agentID a ->
  unprocessed (mark now a v l) u.
Proof.
  unfold unprocessed, mark. intros Hu Hne. rewrite mark_entry. case_bool_decide; [|done]. rewrite Hu. cbn.
  rewrite bool_decide_eq_false_2; [done|]. by destruct Hne.
Qed.

Lemma advance_fresh now o l a l' a' :
  fresh_replay l a -> advance now o l a = Some (l', a') -> fresh_replay l' a'.
Proof.
  intros [Hf Hnd] Hadv. unfold fresh_replay in *.
  advance_cases Hadv; cbn in *; try done; try (by split; constructor);
    try (by match goal with k : caller |- _ => destruct k; split; constructor end).
  all: try (by use_point; split; constructor).
  - pose proof (query_fresh l (agentID a)) as Hq.
    match goal with E : Unprocessed _ _ = _ |- _ => by rewrite E in Hq end.
  - by apply Forall_cons in Hf as [_ Hf]; apply NoDup_cons in Hnd as [_ Hnd].
  - apply Forall_cons in Hf as [_ Hf]; apply NoDup_cons in Hnd as [Hn Hnd]. split; [|done].
    rewrite Forall_forall in Hf |- *. intros v Hv. apply mark_other; [by apply Hf|]. left. intros E. destruct Hn.
    apply list_elem_of_fmap. by exists v.
  - unfold drain_one, process_one. repeat case_match; split; constructor.
  - unfold drain_one, process_one. repeat case_match; split; constructor.
Qed.

Lemma replay_hand p u : u ∈ replay p -> u ∈ hand p.
Proof. destruct p; cbn; try done; by intros ?%not_elem_of_nil. Qed.

Lemma fresh_other l l' a :
  (forall u, unprocessed l u -> ToAgentID u = agentID a -> unprocessed l' u) -> act_ok l a ->
  fresh_replay l a -> fresh_replay l' a.
Proof.
  intros Hl Ha [Hf Hnd]. split; [|done]. pose proof (ok_hand _ _ Ha) as Hh. rewrite Forall_forall in Hf, Hh |- *.
  intros u Hu. apply Hl; [by apply Hf|]. by apply Hh, replay_hand.
Qed.

(** The other activations of a step keep theirs. *)
Lemma advance_other now o l a l' a' u :
  advance now o l a = Some (l', a') -> unprocessed l u -> ToAgentID u <> agentID a -> unprocessed l' u.
Proof.
  intros Hadv Hu Hne. advance_cases Hadv; try done; try (apply mark_other; by auto);
    unfold unprocessed; by rewrite snapshot_entry.
Qed.

Lemma append_keeps l v u : unprocessed l u -> unprocessed (Append v l).1 u.
Proof. unfold unprocessed. intros Hu. rewrite append_entry, Hu. by case_bool_decide. Qed.

Definition all_fresh s : Prop := forall id a, acts s !! id = Some a -> fresh_replay (log s) a.

Lemma fresh_replay_eq l a a' : at_ a' = at_ a -> fresh_replay l a -> fresh_replay l a'.
Proof. unfold fresh_replay. by intros ->. Qed.

Lemma extends_fresh s s' : extends s s' -> all_fresh s -> all_fresh s'.
Proof.
  intros He Hf id a [Ha|[ag ->]]%(extends_act _ _ _ _ He); rewrite (ext_log _ _ He); [by eapply Hf|].
  split; constructor.
Qed.

Lemma deliver_fresh u s : calm s -> all_fresh s -> all_fresh (deliver u s).1.
Proof.
  intros Hs Hf. pose proof (calm_plain _ Hs) as [Hp _]. unfold deliver. rewrite (calm_open _ Hs).
  destruct (resident s !! ToAgentID u) as [id|] eqn:Hr.
  - destruct (ok_resident _ (calm_ok _ Hs) _ _ Hr) as (a & Ha & _). rewrite Ha.
    destruct (calm_acts _ Hs id a Ha) as [-> _].
    assert (all_fresh (set_act s id (push u a))) as Hpush.
    { intros j b [(_ & <- & _)|[_ Hj]]%list_lookup_insert_Some; [|by eapply Hf].
      apply (fresh_replay_eq _ a); [done|by eapply Hf]. }
    repeat case_match; cbn; first [exact Hf|exact Hpush].
  - destruct (activate_plain s _ Hp Hr) as (He & _). destruct (activateLocked _ s). cbn in *.
    by eapply extends_fresh.
Qed.

Lemma step_fresh e s s' :
  calm s -> all_fresh s -> orderly s e = true -> step e s = Some s' -> all_fresh s'.
Proof.
  intros Hs Hf Ho Hstep. destruct e; try done; cbn [step] in Hstep.
  - injection Hstep as <-. unfold send_begin. destruct (incomplete u); [done|].
    pose proof (append_keeps (log s) (trimmed now u)) as Hk. destruct (Append (trimmed now u) (log s)) as [l []];
    intros id a Ha; (apply (fresh_other (log s)); [auto|exact (ok_acts _ (calm_ok _ Hs) id a Ha)|exact (Hf id a Ha)]).
  - injection Hstep as <-. cbn in Ho. apply negb_true_iff in Ho as ->. unfold send_fails. by destruct (incomplete u).
  - destruct (threads s !! i) as [[u| | |]|] eqn:Ht; try done. pose proof (deliver_fresh u s Hs Hf) as Hd.
    destruct (deliver u s). by injection Hstep as <-.
  - destruct (threads s !! i) as [[|u ch| |]|] eqn:Ht; try done. by destruct (calm_threads _ Hs i u ch).
  - destruct (threads s !! i) as [[|u ch| |]|] eqn:Ht; try done. by destruct (calm_threads _ Hs i u ch).
  - by injection Hstep as <-.
  - destruct (threads s !! i) as [[| |agents|]|] eqn:Ht; try done. unfold sweep_run in Hstep.
    rewrite (calm_open _ Hs) in Hstep. destruct (calm_plain _ Hs) as [Hp _].
    destruct (sweep_extends agents s Hp) as (He & _ & _).
    destruct (sweep_agents agents s) as [s1 r]. injection Hstep as <-. exact (extends_fresh s s1 He Hf).
  - unfold act_step in Hstep. destruct (acts s !! id) as [a|] eqn:Ha; [|done].
    destruct (advance now o (log s) a) as [[l a']|] eqn:Hadv; [|done]. injection Hstep as <-.
    destruct (leave_frame id o a s) as (E1 & _). intros j b. cbn. rewrite E1.
    intros [(_ & <- & _)|[Hne Hj]]%list_lookup_insert_Some; [by eapply advance_fresh; [by eapply Hf|]|].
    destruct (calm_acts _ Hs j b Hj) as [Heb _].
    assert (running (at_ b) = true -> agentID b <> agentID a \/ running (at_ a) = false) as Hag.
    { intros Hrb. destruct (running (at_ a)) eqn:Hra; [left|by right]. intros Heq. apply Hne.
      pose proof (ok_live _ (calm_ok _ Hs) j b Hj (conj Heb Hrb)) as R1.
      pose proof (ok_live _ (calm_ok _ Hs) id a Ha (conj (proj1 (calm_acts _ Hs id a Ha)) Hra)) as R2. congruence. }
    destruct (running (at_ b)) eqn:Hrb.
    + apply (fresh_other (log s)); [|exact (ok_acts _ (calm_ok _ Hs) j b Hj)|exact (Hf j b Hj)].
      intros u Hu Hub. destruct (Hag eq_refl) as [Hne2|Hra]; [eapply advance_other; [done..|congruence]|].
      assert (l = log s) as ->; [|done]. clear -Hadv Hra. by advance_cases Hadv.
    + unfold fresh_replay. by destruct (at_ b); try done; split; constructor.
Qed.

Lemma run_fresh o l s : plain o -> orderly_run o l s -> all_fresh s.
Proof.
  intros Hp Hrun. induction Hrun as [|s e s' Hrun IH Ho Hstep].
  - unfold boot, sweep_run. cbn [closed NewRuntime].
    destruct (sweep_extends (AgentsWithBacklog l) (NewRuntime o l) Hp) as (He & _). by apply (extends_fresh _ _ He).
  - eapply step_fresh; [by eapply run_calm|done..].
Qed.

(** The bound on the steps an activation has left: a constant for each update in its
    backlog or mailbox, and what is left of the point it is at. *)
Definition rank (p : point) : nat :=
  let before k := match k with ToIdle => 0%nat | ToWake | ToCold => 6%nat end in
  match p with
  | Loading => 12
  | BacklogNext k [] | BacklogSleep k => before k + 5
  | BacklogQuery k => before k + 4
  | BacklogNext k (_ :: _) => before k + 3
  | BacklogHandling k _ _ => before k + 2
  | BacklogMarking k _ _ _ => before k + 1
  | OneHandling _ _ => 9
  | OneMarking _ _ _ => 8
  | OneSleep _ => 7
  | Draining _ => 6
  | Idle | Exiting | Gone => 0
  end.

Definition steps_left l a : nat :=
  20 * (length (Unprocessed (agentID a) l) + length (mailbox a)) + rank (at_ a).

Lemma backlog_subset l l' agent :
  (forall u, unprocessed l' u -> unprocessed l u) ->
  (length (Unprocessed agent l') <= length (Unprocessed agent l))%nat.
Proof.
  intros Hu. apply submseteq_length, NoDup_submseteq; [apply unprocessed_nodup|].
  intros u. rewrite !unprocessed_entry. intros [? ?]. split; [|done]. by apply Hu.
Qed.

Lemma backlog_marked now a v l :
  unprocessed l v -> ToAgentID v = agentID a ->
  (length (Unprocessed (agentID a) (mark now a v l)) < length (Unprocessed (agentID a) l))%nat.
Proof.
  intros Hv Hag.
  assert (length (v :: Unprocessed (agentID a) (mark now a v l)) <= length (Unprocessed (agentID a) l))%nat; [|done].
  apply submseteq_length, NoDup_submseteq.
  - constructor; [|apply unprocessed_nodup]. intros [Hin _]%unprocessed_entry.
    by apply (mark_unprocessed_ne _ _ _ _ v Hin).
  - intros u [->|Hu]%elem_of_cons; [by apply unprocessed_entry|].
    apply unprocessed_entry in Hu as [Hu Ha]. apply unprocessed_entry. split; [|done]. by eapply mark_unprocessed.
Qed.

Section Work.
Context (handle : string -> Update -> memory -> memory).

(** The activation goes on, and every call of the handler and the log succeeds. *)
Definition next_outcome a : option outcome :=
  match at_ a with
  | BacklogHandling _ u _ | OneHandling _ u => Some (Handled (handle (agentID a) u (mem a)))
  | Idle => if bool_decide (mailbox a = []) then None else Some Receive
  | Exiting | Gone => None
  | _ => Some Done
  end.

Fixpoint work (now : Time) (id n : nat) s : Runtime :=
  match n, acts s !! id with
  | S n, Some a =>
    match next_outcome a with
    | Some o => match step (Act id now o) s with Some s => work now id n s | None => s end
    | None => s
    end
  | _, _ => s
  end.


Lemma drain_one_rank d u a :
  (rank (at_ (drain_one d u a)) <= 9)%nat /\ agentID (drain_one d u a) = agentID a
  /\ mailbox (drain_one d u a) = mailbox a /\ running (at_ (drain_one d u a)) = true.
Proof.
  destruct (drain_one_frame d u a) as (? & _ & _ & ? & ?). split_and!; [|done..].
  unfold drain_one, process_one. repeat case_match; cbn; lia.
Qed.

(** Every such step brings it closer to its end. *)
Ltac go_on := do 2 eexists; split; [reflexivity|]; cbn; split_and!; [|try done..].

Lemma next_progress now o l a :
  act_ok l a -> evicted a = false -> deferredBacklog a = false -> fresh_replay l a -> next_outcome a = Some o ->
  exists l' a', advance now o l a = Some (l', a') /\ (steps_left l' a' < steps_left l a)%nat
    /\ running (at_ a') = true /\ fails_cold o a = false.
Proof.
  intros Ha He Hd [Hf _] Hn.
  assert (cancelled a = false) as Hc.
  { destruct (cancelled a) eqn:E; [|done]. apply (ok_cancelled _ _ Ha) in E. congruence. }
  pose proof (ok_hand _ _ Ha) as Hh. unfold next_outcome in Hn. unfold advance, steps_left.
  destruct (at_ a) as [|k|k [|u rest]|k u rest|k u next rest|k|d u|d u next|d|d| | |] eqn:Hp; try done;
    try (injection Hn as <-); cbn in Hf, Hh.
  - go_on. lia.
  - rewrite Hc. destruct (Unprocessed (agentID a) l) as [|u k'] eqn:E; go_on; rewrite ?E; cbn; destruct k; cbn; (lia || done).
  - go_on. lia.
  - rewrite Hc. apply Forall_cons in Hf as [Hu _].
    rewrite bool_decide_eq_false_2 by by eapply looks_skip. go_on. lia.
  - go_on. lia.
  - apply Forall_cons in Hf as [Hu _]. apply Forall_cons in Hh as [[Hag _] _].
    pose proof (backlog_marked now a u l Hu Hag). go_on.
    assert (rank (BacklogNext k rest) <= 11)%nat by (destruct k, rest; cbn; lia). cbn in *. lia.
  - go_on. lia.
  - go_on. lia.
  - pose proof (backlog_subset l (mark now a u l) (agentID a) (mark_unprocessed now a u l)). go_on. lia.
  - go_on. lia.
  - destruct (mailbox a) as [|u m] eqn:E.
    + rewrite Hd. destruct d; go_on; rewrite ?E; cbn; lia.
    + destruct (drain_one_rank d u (set_mailbox m a)) as (Q1 & Q2 & Q3 & Q4). go_on. rewrite Q2, Q3. cbn. lia.
  - case_bool_decide; [done|]. injection Hn as <-. destruct (mailbox a) as [|u m] eqn:E; [done|]. cbn. rewrite Hd.
    destruct (drain_one_rank Warm u (set_mailbox m a)) as (Q1 & Q2 & Q3 & Q4). go_on. rewrite Q2, Q3. cbn. lia.
Qed.

Lemma next_none a : next_outcome a = None -> running (at_ a) = true -> at_ a = Idle /\ mailbox a = [].
Proof. unfold next_outcome. destruct (at_ a); try done. by case_bool_decide. Qed.

Lemma act_event now id o s a l' a' :
  acts s !! id = Some a -> evicted a = false -> advance now o (log s) a = Some (l', a') -> running (at_ a') = true ->
  step (Act id now o) s = Some (set_act (set_log s l') id a').
Proof.
  intros Ha He Hadv Hr. cbn. unfold act_step. rewrite Ha, Hadv. pose proof (advance_frame _ _ _ _ _ _ Hadv) as (_ & He' & _).
  by rewrite (leave_live _ _ _ _ _ _ id s Hadv (conj (eq_trans He' He) Hr)).
Qed.

Lemma work_done now o l id n s a :
  plain o -> orderly_run o l s -> acts s !! id = Some a -> running (at_ a) = true -> (steps_left (log s) a <= n)%nat ->
  let s' := work now id n s in
  orderly_run o l s' /\ threads s' = threads s /\ resident s' = resident s
  /\ exists a', acts s' !! id = Some a' /\ agentID a' = agentID a /\ at_ a' = Idle /\ mailbox a' = [].
Proof.
  intros Hp. revert s a. induction n as [|n IH]; intros s a Hrun Ha Hr Hn; cbn.
  - split_and!; [done..|]. exists a. split_and!; [done..| |].
    + unfold steps_left in Hn. destruct (at_ a) as [|[]|[] []|[]|[]|[]| | | | | | |]; cbn in *; try lia; done.
    + unfold steps_left in Hn. destruct (mailbox a); [done|cbn in Hn; lia].
  - rewrite Ha. pose proof (run_calm _ _ _ Hp Hrun) as Hs. destruct (calm_acts _ Hs id a Ha) as [He Hd].
    destruct (next_outcome a) as [oc|] eqn:Hnext.
    + destruct (next_progress now oc (log s) a (ok_acts _ (calm_ok _ Hs) id a Ha) He Hd (run_fresh _ _ _ Hp Hrun id a Ha) Hnext)
        as (l' & a' & Hadv & Hlt & Hr' & Hf).
      pose proof (act_event now id oc s a l' a' Ha He Hadv Hr') as Hstep. cbn in Hstep. rewrite Hstep.
      pose proof (advance_frame _ _ _ _ _ _ Hadv) as (Hag & _).
      destruct (IH (set_act (set_log s l') id a') a') as (R1 & R2 & R3 & a2 & R4 & R5 & R6 & R7).
      * eapply (orderly_step o l s (Act id now oc)); [done| |exact Hstep]. cbn. rewrite Ha. unfold fails_cold in Hf. by destruct oc; rewrite ?Hf.
      * cbn. by rewrite list_lookup_insert_eq by by eapply lookup_lt_Some.
      * done.
      * change (log (set_act (set_log s l') id a')) with l'. lia.
      * split_and!; [done..|]. exists a2. by rewrite R5.
    + split_and!; [done..|]. exists a. destruct (next_none a Hnext Hr). done.
Qed.

(** [C19] In an orderly run, with no cap on the residents and no [Send] that blocks, the
    resident activation of an agent ends its work in a bounded number of steps,
    a constant for each update in its backlog or mailbox, when the handler and the log
    succeed: it is then idle with an empty mailbox, and of the agent's updates only
    those a send in progress has yet to deliver are not processed. *)
Theorem work_terminates now o l s agent id a :
  plain o -> orderly_run o l s -> resident s !! agent = Some id -> acts s !! id = Some a ->
  let s' := work now id (steps_left (log s) a) s in
  orderly_run o l s' /\ (exists a', acts s' !! id = Some a' /\ at_ a' = Idle /\ mailbox a' = [])
  /\ forall u, u ∈ Unprocessed agent (log s') -> exists i, threads s !! i = Some (Sending u).
Proof.
  intros Hp Hrun Hr Ha s'. pose proof (run_calm _ _ _ Hp Hrun) as Hs.
  destruct (ok_resident _ (calm_ok _ Hs) _ _ Hr) as (b & Hb & Hag). rewrite Ha in Hb. injection Hb as <-.
  pose proof (calm_resident _ Hs _ _ _ Hr Ha) as Hrunning.
  destruct (work_done now o l id _ s a Hp Hrun Ha Hrunning (le_n _)) as (R1 & R2 & R3 & a' & R4 & R5 & R6 & R7).
  fold s' in R1, R2, R3, R4. split_and!; [done|by exists a'|].
  pose proof (run_calm _ _ _ Hp R1) as Hs'.
  intros u [Hu Hagu]%unprocessed_entry. rewrite <-R2.
  destruct (calm_covered _ Hs' u Hu) as [Hc|(j & b & Hj & Hagb & Hl)]; [done|]. exfalso.
  assert (live b) as Hlive.
  { split; [by eapply calm_acts|]. revert Hl. unfold looks. by destruct (at_ b). }
  pose proof (ok_live _ (calm_ok _ Hs') j b Hj Hlive) as Hjr. rewrite Hagb, Hagu, R3, Hr in Hjr. injection Hjr as <-.
  rewrite R4 in Hj. injection Hj as <-. unfold looks in Hl. by rewrite R6, R7 in Hl.
Qed.
End Work.

(** ** The protocol is implemented *)

(** An agent is resident from the moment an update to it is logged: a send in progress
    delivers to it, or it has an activation. Its mailbox is its backlog. *)
Definition active s (agent : string) : Prop :=
  (exists i u, threads s !! i = Some (Sending u) /\ ToAgentID u = agent) \/
  (exists id a, acts s !! id = Some a /\ agentID a = agent /\ live a).

Definition abs s : Protocol.state := {|
  Protocol.resident := active s;
  Protocol.mailbox agent id :=
    active s agent /\ exists u, UpdateID u = id /\ ToAgentID u = agent /\ unprocessed (log s) u;
  Protocol.sent id := entry (log s) id <> None;
  Protocol.updateTo id agent := exists u p, entry (log s) id = Some (u, p) /\ ToAgentID u = agent;
  Protocol.processed id := exists u, entry (log s) id = Some (u, true) |}.

Lemma abs_equiv s s' :
  (forall id, entry (log s') id = entry (log s) id) -> (forall agent, active s' agent <-> active s agent) ->
  Protocol.equiv (abs s') (abs s).
Proof.
  intros Hl Ha. unfold abs, unprocessed. split; cbn.
  - done.
  - intros agent id. rewrite Ha. by setoid_rewrite Hl.
  - intros id. by rewrite Hl.
  - intros id agent. by setoid_rewrite Hl.
  - intros id. by setoid_rewrite Hl.
Qed.

Lemma live_looks s id a u : calm s -> acts s !! id = Some a -> looks a u -> live a.
Proof.
  intros Hs Ha Hl. split; [by eapply calm_acts|]. revert Hl. unfold looks. by destruct (at_ a).
Qed.

Lemma covered_active s u : calm s -> covered s u -> active s (ToAgentID u).
Proof.
  intros Hs [[i Hi]|(id & a & Ha & Hag & Hl)]; [left; by exists i, u|].
  right. exists id, a. split_and!; [done..|]. by eapply live_looks.
Qed.

Lemma add_returned_active s r agent : active (add_thread s (Returned r)) agent <-> active s agent.
Proof.
  unfold active. cbn. split; (intros [(i & u & Hi & Hu)|Ha]; [left|by right]).
  - exists i, u. split; [|done]. apply lookup_app_Some in Hi as [Hi|[_ Hi]]; [done|].
    by apply list_lookup_singleton_Some in Hi as [_ Hi].
  - exists i, u. split; [|done]. by apply lookup_app_l_Some.
Qed.

Lemma add_sending_active s u agent :
  active (add_thread s (Sending u)) agent <-> active s agent \/ agent = ToAgentID u.
Proof.
  unfold active. cbn. split.
  - intros [(i & v & Hi & Hv)|Ha]; [|by left; right]. apply lookup_app_Some in Hi as [Hi|[_ Hi]].
    + left. left. by exists i, v.
    + apply list_lookup_singleton_Some in Hi as [_ [= <-]]. by right.
  - intros [[(i & v & Hi & Hv)|Ha]| ->]; [left|by right|left].
    + exists i, v. split; [|done]. by apply lookup_app_l_Some.
    + exists (length (threads s)), u. split; [|done]. by rewrite list_lookup_middle.
Qed.

Lemma send_refines now u s :
  calm s -> Protocol.equiv (abs (send_begin now u s)) (abs s) \/ Protocol.next (abs s) (abs (send_begin now u s)).
Proof.
  intros Hs. unfold send_begin. destruct (incomplete u).
  { left. apply abs_equiv; [done|]. intros. apply add_returned_active. }
  generalize (trimmed now u). intros v.
  pose proof (append_new (log s) v) as Hnew. pose proof (append_entry (log s) v) as Hent.
  destruct (Append v (log s)) as [l []]; cbn in Hnew, Hent.
  - right. assert (entry (log s) (UpdateID v) = None) as Hn by by apply Hnew.
    assert (forall id, entry l id = if bool_decide (id = UpdateID v) then Some (v, false) else entry (log s) id) as He.
    { intros id. rewrite Hent. case_bool_decide as E; [|done]. by rewrite E, Hn. }
    assert (forall w, unprocessed l w <-> w = v \/ unprocessed (log s) w) as Hun.
    { intros w. unfold unprocessed. rewrite He. case_bool_decide as E; split.
      - intros [= <-]. by left.
      - intros [->|Hw]; [done|]. by rewrite E, Hn in Hw.
      - by right.
      - by intros [->|Hw]. }
    apply Protocol.Send with (UpdateID v) (ToAgentID v); [intros Hsent; by apply Hsent|].
    split; cbn; unfold unprocessed in *.
    + intros a. apply (add_sending_active (set_log s l)).
    + intros a i. rewrite (add_sending_active (set_log s l)). case_bool_decide as E.
      * subst a. split.
        -- intros (_ & w & <- & Hw & Hwu). apply Hun in Hwu as [->|Hwu]; [by left|right].
           assert (active s (ToAgentID v)) by (rewrite <-Hw; by apply covered_active, (calm_covered _ Hs)).
           split; [done|]. split; [done|]. by exists w.
        -- intros [->|(Ha & _ & w & <- & Hw & Hwu)]; (split; [by right|]).
           ++ exists v. split_and!; [done..|]. apply Hun. by left.
           ++ exists w. split_and!; [done..|]. apply Hun. by right.
      * split.
        -- intros ([Ha| ->] & w & <- & Hw & Hwu); [|done]. split; [done|]. exists w. split_and!; [done..|].
           by apply Hun in Hwu as [->|Hwu].
        -- intros (Ha & w & <- & Hw & Hwu). split; [by left|]. exists w. split_and!; [done..|]. apply Hun. by right.
    + intros i. rewrite He. case_bool_decide; naive_solver.
    + intros i a. setoid_rewrite He. case_bool_decide; naive_solver.
    + intros i. setoid_rewrite He. case_bool_decide; naive_solver.
  - left. apply abs_equiv; [|intros; apply (add_returned_active (set_log s l))]. intros id. cbn. rewrite Hent.
    case_bool_decide as E; [|done]. subst. destruct (entry (log s) (UpdateID v)) as [w|] eqn:Ew; [done|].
    by destruct Hnew as [_ Hnew]; specialize (Hnew eq_refl).
Qed.

(** What leaves every agent as resident as it was. *)
Lemma set_thread_active s i t agent :
  (forall u, t <> Sending u) ->
  (forall u, threads s !! i = Some (Sending u) -> ToAgentID u = agent ->
     exists id a, acts s !! id = Some a /\ agentID a = agent /\ live a) ->
  active (set_thread s i t) agent <-> active s agent.
Proof.
  intros Ht Hi. unfold active. cbn. split.
  - intros [(j & u & Hj & Hu)|Ha]; [left|by right].
    apply list_lookup_insert_Some in Hj as [(_ & Hj & _)|[_ Hj]]; [by destruct (Ht u)|by exists j, u].
  - intros [(j & u & Hj & Hu)|Ha]; [|by right]. destruct (decide (i = j)) as [->|Hne].
    + right. by eapply Hi.
    + left. exists j, u. by rewrite list_lookup_insert_ne.
Qed.

Lemma set_act_active s l id a a' agent :
  acts s !! id = Some a -> agentID a' = agentID a -> (live a' <-> live a) ->
  active (set_act (set_log s l) id a') agent <-> active s agent.
Proof.
  intros Ha Hag Hl. unfold active. cbn. split; (intros [Ht|(j & b & Hj & Hb & Hlb)]; [by left|right]).
  - apply list_lookup_insert_Some in Hj as [(<- & <- & _)|[_ Hj]]; [|by exists j, b].
    exists id, a. rewrite <-Hag. by rewrite <-Hl.
  - destruct (decide (id = j)) as [->|Hne].
    + rewrite Ha in Hj. injection Hj as <-. exists j, a'. rewrite list_lookup_insert_eq by by eapply lookup_lt_Some.
      rewrite Hag. by rewrite Hl.
    + exists j, b. by rewrite list_lookup_insert_ne.
Qed.

Lemma activate_eq s agent :
  plain (opts s) ->
  activateLocked agent s = (set_resident (set_acts s (acts s ++ [new_activation agent]))
    (<[agent := length (acts s)]> (resident s)), None).
Proof. intros [Hcap _]. unfold activateLocked. by destruct (0 <? MaxResident (opts s)) eqn:E; [to_prop; lia|]. Qed.

Lemma deliver_active i u s agent :
  calm s -> threads s !! i = Some (Sending u) -> orderly s (Deliver i) = true ->
  active (set_thread (deliver u s).1 i (deliver u s).2) agent <-> active s agent.
Proof.
  intros Hs Hi Ho. pose proof (calm_plain _ Hs) as [Hp _]. destruct Hp as [Hmax Hmode]. unfold deliver. rewrite (calm_open _ Hs).
  assert (active s (ToAgentID u)) as Hact by (left; by exists i, u).
  destruct (resident s !! ToAgentID u) as [id|] eqn:Hr.
  - destruct (ok_resident _ (calm_ok _ Hs) _ _ Hr) as (a & Ha & Hag). rewrite Ha.
    destruct (calm_acts _ Hs id a Ha) as [He Hd]. rewrite He.
    pose proof (calm_resident _ Hs _ _ _ Hr Ha) as Hrun.
    assert (forall r, active (set_thread s i (Returned r)) agent <-> active s agent) as Hdrop.
    { intros r. apply set_thread_active; [done|]. intros v Hv Hva. rewrite Hi in Hv. injection Hv as <-.
      exists id, a. by rewrite Hag. }
    assert (forall r, active (set_thread (set_act s id (push u a)) i (Returned r)) agent <-> active s agent) as Hpush.
    { intros r. rewrite set_thread_active.
      - by apply (set_act_active s (log s) id a).
      - done.
      - intros v Hv Hva. cbn in Hv. rewrite Hi in Hv. injection Hv as <-. exists id, (push u a). cbn.
        rewrite list_lookup_insert_eq by by eapply lookup_lt_Some. split_and!; [done|congruence|done]. }
    destruct (Backpressure (opts s)); cbn.
    + rewrite bool_decide_eq_false_2 by (destruct Hmode; congruence). destruct (full s a); [apply Hdrop|apply Hpush].
    + destruct (full s a); [apply Hdrop|apply Hpush].
  - rewrite (activate_eq s _ (conj Hmax Hmode)). cbn. rewrite set_thread_active.
    + unfold active. cbn. split; (intros [Ht|(id & a & Ha & Hag & Hl)]; [by left|]).
      * apply lookup_app_Some in Ha as [Ha|[_ Ha]]; [right; by exists id, a|].
        apply list_lookup_singleton_Some in Ha as [_ <-]. cbn in Hag. by subst.
      * right. exists id, a. split; [|done]. by apply lookup_app_l_Some.
    + done.
    + intros v Hv <-. cbn in Hv. rewrite Hi in Hv. injection Hv as <-.
      exists (length (acts s)), (new_activation (ToAgentID u)). cbn. by rewrite list_lookup_middle.
Qed.

(** A step of an activation marks an update in hand, or leaves the entries alone. *)
Lemma advance_log now o l a l' a' :
  advance now o l a = Some (l', a') ->
  (forall id, entry l' id = entry l id) \/
  (exists v, l' = mark now a v l /\ v ∈ hand (at_ a) /\ running (at_ a) = true /\ running (at_ a') = true).
Proof.
  intros Hadv. advance_cases Hadv; try (by left); try (by left; intros; rewrite snapshot_entry);
    right; exists u; split_and!; try done; left.
Qed.

Lemma marked_entry now a v l p id :
  entry l (UpdateID v) = Some (v, p) -> ToAgentID v = agentID a ->
  entry (mark now a v l) id = if bool_decide (id = UpdateID v) then Some (v, true) else entry l id.
Proof.
  intros Hv Hag. unfold mark. rewrite mark_entry. case_bool_decide as E; [|done]. rewrite E, Hv. cbn.
  by rewrite bool_decide_eq_true_2, orb_true_r.
Qed.

Lemma process_refines now v s s' a id :
  calm s -> acts s !! id = Some a -> live a -> unprocessed (log s) v -> ToAgentID v = agentID a ->
  log s' = mark now a v (log s) -> (forall agent, active s' agent <-> active s agent) ->
  Protocol.next (abs s) (abs s').
Proof.
  intros Hs Ha Hl Hv Hag Hlog Hact.
  assert (active s (agentID a)) as Haa by (right; by exists id, a).
  apply Protocol.Process with (agentID a) (UpdateID v); cbn.
  - done.
  - split; [done|]. by exists v.
  - intros [w Hw]. unfold unprocessed in Hv. congruence.
  - unfold abs. split; cbn.
    + done.
    + intros agent i. rewrite Hact. unfold unprocessed. split.
      * intros (Hacta & w & <- & Hwa & Hw). rewrite Hlog, (marked_entry _ _ _ _ _ _ Hv Hag) in Hw.
        case_bool_decide; [congruence|]. split; [split; [done|]|].
        -- by exists w.
        -- by intros [_ ?].
      * intros [(Hacta & w & <- & Hwa & Hw) Hne]. split; [done|]. exists w. split_and!; [done..|].
        rewrite Hlog, (marked_entry _ _ _ _ _ _ Hv Hag). rewrite bool_decide_eq_false_2; [done|]. intros E.
        apply Hne. split; [|done]. rewrite E in Hw. unfold unprocessed in Hv. rewrite Hv in Hw. injection Hw as ->.
        congruence.
    + intros i. rewrite Hlog, (marked_entry _ _ _ _ _ _ Hv Hag). unfold unprocessed in Hv. case_bool_decide; naive_solver.
    + intros i agent. rewrite Hlog. setoid_rewrite (marked_entry now a v (log s) false _ Hv Hag).
      unfold unprocessed in Hv. case_bool_decide; naive_solver.
    + intros i. rewrite Hlog. setoid_rewrite (marked_entry now a v (log s) false _ Hv Hag).
      unfold unprocessed in Hv. case_bool_decide; naive_solver.
Qed.

Definition sends_to (agent : string) (t : thread) : bool :=
  match t with Sending u => bool_decide (ToAgentID u = agent) | _ => false end.

Lemma passivate_refines s s' id a :
  calm s -> acts s !! id = Some a -> at_ a = Idle -> mailbox a = [] ->
  (forall i, entry (log s') i = entry (log s) i) -> threads s' = threads s ->
  (forall agent, (exists j b, acts s' !! j = Some b /\ agentID b = agent /\ live b) <->
     (exists j b, acts s !! j = Some b /\ agentID b = agent /\ live b) /\ agent <> agentID a) ->
  Protocol.equiv (abs s') (abs s) \/ Protocol.next (abs s) (abs s').
Proof.
  intros Hs Ha Hp Hm Hlog Hthr Hacts.
  assert (live a) as Hlive by (split; [by eapply calm_acts|by rewrite Hp]).
  destruct (decide (Exists (fun t => sends_to (agentID a) t = true) (threads s)))
    as [Hsend|Hnone].
  - left. apply Exists_exists in Hsend as (t & Hin & Ht). destruct t as [u| | |]; try done. apply bool_decide_eq_true in Ht.
    apply list_elem_of_lookup in Hin as [i Hi]. apply abs_equiv; [done|]. intros agent.
    unfold active. rewrite Hthr, Hacts. split; [tauto|]. intros [Hx|Hx]; [by left|].
    destruct (decide (agent = agentID a)) as [->|Hne]; [left; by exists i, u|by right].
  - right.
    assert (forall u, unprocessed (log s) u -> ToAgentID u <> agentID a) as Hno.
    { intros u Hu Hag. destruct (calm_covered _ Hs u Hu) as [[i Hi]|(j & b & Hj & Hagb & Hl)].
      - apply Hnone, Exists_exists. exists (Sending u). split; [by eapply list_elem_of_lookup_2|by apply bool_decide_eq_true].
      - pose proof (ok_live _ (calm_ok _ Hs) j b Hj (live_looks _ _ _ _ Hs Hj Hl)) as Rj.
        pose proof (ok_live _ (calm_ok _ Hs) id a Ha Hlive) as Rid.
        assert (j = id) as -> by congruence. rewrite Ha in Hj. injection Hj as <-. unfold looks in Hl. by rewrite Hp, Hm in Hl. }
    assert (forall agent, active s' agent <-> active s agent /\ agent <> agentID a) as Hact.
    { intros agent. unfold active. rewrite Hthr, Hacts. split; [|tauto]. intros [(i & u & Hi & Hu)|Hx]; [|tauto].
      split; [left; by exists i, u|]. intros ->. apply Hnone, Exists_exists. exists (Sending u).
      split; [by eapply list_elem_of_lookup_2|by apply bool_decide_eq_true]. }
    apply Protocol.Passivate with (agentID a); cbn.
    + right. by exists id, a.
    + intros i (_ & u & _ & Hag & Hu). by apply (Hno u).
    + intros i (Hsent & Hnp & u & p & Hu & Hag). apply (Hno u); [|done]. unfold unprocessed. cbn in *.
      destruct p; [by destruct Hnp; exists u|]. by rewrite (entry_id _ _ _ _ Hu).
    + unfold abs, unprocessed. split; cbn.
      * done.
      * intros agent i. rewrite Hact. setoid_rewrite Hlog. split; [tauto|]. intros (Hx & u & <- & Hag & Hu).
        split; [split; [done|]|by exists u]. intros ->. by apply (Hno u).
      * intros i. by rewrite Hlog.
      * intros i agent. by setoid_rewrite Hlog.
      * intros i. by setoid_rewrite Hlog.
Qed.

Lemma act_refines id now o s s' :
  calm s -> orderly s (Act id now o) = true -> act_step id now o s = Some s' ->
  Protocol.equiv (abs s') (abs s) \/ Protocol.next (abs s) (abs s').
Proof.
  intros Hs Ho. unfold act_step. destruct (acts s !! id) as [a|] eqn:Ha; [|done].
  pose proof (orderly_act _ _ _ _ _ Ho Ha) as Hf.
  destruct (advance now o (log s) a) as [[l a']|] eqn:Hadv; [|done]. intros [= <-].
  destruct (calm_acts _ Hs id a Ha) as [He Hd]. pose proof (ok_acts _ (calm_ok _ Hs) id a Ha) as Hak.
  destruct (advance_frame _ _ _ _ _ _ Hadv) as (Hag & He' & _ & _). rewrite He in He'.
  pose proof (advance_log _ _ _ _ _ _ Hadv) as Hlog.
  destruct (running (at_ a')) eqn:Hr.
  - pose proof (advance_live _ _ _ _ _ _ Hadv (conj He' Hr)) as Hl.
    rewrite (leave_live _ _ _ _ _ _ id s Hadv (conj He' Hr)).
    assert (forall agent, active (set_act (set_log s l) id a') agent <-> active s agent) as Hact.
    { intros agent. by apply (set_act_active s l id a a'). }
    destruct Hlog as [Hlog|(v & -> & Hv & _)]; [left; by apply abs_equiv|].
    pose proof (ok_hand _ _ Hak) as Hh. rewrite Forall_forall in Hh. destruct (Hh v Hv) as [Hva [p Hp]].
    destruct p.
    + left. apply abs_equiv; [|done]. intros i. cbn. rewrite (marked_entry _ _ _ _ _ _ Hp Hva).
      case_bool_decide as E; [by rewrite E|done].
    + right. by eapply process_refines.
  - destruct Hlog as [Hlog|(v & _ & _ & _ & Hv)]; [|congruence].
    destruct (leave_frame id o a s) as (E1 & E2 & E3 & E4 & E5 & _).
    assert (forall agent, (exists j b, acts (set_act (set_log (leave id o a s) l) id a') !! j = Some b /\ agentID b = agent /\ live b)
      <-> exists j b, acts s !! j = Some b /\ agentID b = agent /\ live b /\ j <> id) as Hothers.
    { intros agent. cbn. rewrite E1. split; intros (j & b & Hj & Hb & Hlb).
      - apply list_lookup_insert_Some in Hj as [(_ & <- & _)|[Hne Hj]]; [by destruct Hlb; congruence|].
        exists j, b. split_and!; auto.
      - destruct Hlb as [Hlb Hne]. exists j, b. split_and!; [|done..]. by rewrite list_lookup_insert_ne. }
    destruct (advance_ends _ _ _ _ _ _ Hak He Hf Hadv Hr) as [(Hp & Hm & ->)|Hp].
    + apply (passivate_refines _ _ id a); try done. intros agent. rewrite Hothers. split.
      * intros (j & b & Hj & <- & Hlb & Hne). split; [by exists j, b|]. intros Heq. apply Hne.
        pose proof (ok_live _ (calm_ok _ Hs) j b Hj Hlb) as Rj.
        assert (live a) as Hla by (split; [done|by rewrite Hp]).
        pose proof (ok_live _ (calm_ok _ Hs) id a Ha Hla) as Rid. congruence.
      * intros [(j & b & Hj & <- & Hlb) Hne]. exists j, b. split_and!; [done..|]. congruence.
    + left. apply abs_equiv; [done|]. intros agent. unfold active at 1. rewrite Hothers. cbn. rewrite E2.
      unfold active. split; (intros [Hx|(j & b & Hj & Hb & Hlb)]; [by left|right]).
      * exists j, b. by destruct Hlb.
      * exists j, b. split_and!; [done..|]. intros ->. rewrite Ha in Hj. injection Hj as <-.
        destruct Hlb as [_ Hlb]. by rewrite Hp in Hlb.
Qed.

(** In an orderly run a sweep finds no work: only sends in progress and activations
    have any, so the agents it activates have no backlog. *)
Lemma inactive_no_backlog s agent (u : string) : calm s -> ~ active s agent -> ~ Protocol.Backlog (abs s) agent u.
Proof.
  intros Hs Hna (Hsent & Hnp & w & p & Hw & <-). apply Hna, covered_active, calm_covered; [done..|].
  unfold unprocessed. cbn in *. destruct p; [by destruct Hnp; exists w|]. by rewrite (entry_id _ _ _ _ Hw).
Qed.

Lemma active_dec s agent : active s agent \/ ~ active s agent.
Proof.
  destruct (decide (Exists (fun t => sends_to agent t = true) (threads s))) as [Hx|Ht].
  { left. left. apply Exists_exists in Hx as ([u| | |] & Hin & Hu); try done. apply bool_decide_eq_true in Hu.
    apply list_elem_of_lookup in Hin as [i Hi]. by exists i, u. }
  destruct (decide (Exists (fun a => agentID a = agent /\ evicted a = false /\ running (at_ a) = true) (acts s))) as [Hx|Ha].
  { left. right. apply Exists_exists in Hx as (a & Hin & Hag & Hl). apply list_elem_of_lookup in Hin as [id Hid]. by exists id, a. }
  right. intros [(i & u & Hi & Hu)|(id & a & Hid & Hag & Hl)].
  - apply Ht, Exists_exists. exists (Sending u). split; [by eapply list_elem_of_lookup_2|by apply bool_decide_eq_true].
  - apply Ha, Exists_exists. exists a. split; [by eapply list_elem_of_lookup_2|by split].
Qed.

Lemma extends_active s s' agent : extends s s' ->
  active s' agent <-> active s agent \/ exists id, acts s' !! id = Some (new_activation agent) /\ (length (acts s) <= id)%nat.
Proof.
  intros [_ Ht _ _ [new Hn] _ _]. unfold active. rewrite Ht, Hn. split.
  - intros [Hx|(id & a & Ha & Hag & Hl)]; [by left; left|]. apply lookup_app_Some in Ha as [Ha|[Hlen Ha]].
    + left. right. by exists id, a.
    + right. exists id. rewrite lookup_app_r by done. split; [|done]. rewrite Ha.
      apply list_lookup_fmap_Some in Ha as (ag & -> & _). cbn in Hag. by subst.
  - intros [[Hx|(id & a & Ha & Hag & Hl)]|(id & Ha & _)]; [by left|right|right].
    + exists id, a. split; [by apply lookup_app_l_Some|done].
    + by exists id, (new_activation agent).
Qed.

Lemma sweep_refines i agents s s' :
  calm s -> threads s !! i = Some (Sweeping agents) -> step (SweepRun i) s = Some s' ->
  exists W, (forall agent, W agent -> Protocol.no_work (abs s) agent) /\ Protocol.equiv (abs s') (Protocol.wake W (abs s)).
Proof.
  intros Hs Ht Hstep. cbn [step] in Hstep. rewrite Ht in Hstep. unfold sweep_run in Hstep. rewrite (calm_open _ Hs) in Hstep.
  destruct (calm_plain _ Hs) as [Hp _]. destruct (sweep_extends agents s Hp) as (He & _ & _).
  destruct (sweep_agents agents s) as [s1 r]. injection Hstep as <-. cbn [fst] in He.
  exists (fun agent => active s1 agent /\ ~ active s agent). split.
  { intros agent [_ Hna]. split; [done|]. intros u. by apply inactive_no_backlog. }
  assert (forall agent, active (set_thread s1 i (Returned r)) agent <-> active s1 agent) as Hset.
  { intros agent. apply set_thread_active; [done|]. intros u. rewrite (ext_threads _ _ He), Ht. done. }
  assert (forall agent, active s agent -> active s1 agent) as Hmono by (intros; apply (extends_active s s1); [done|by left]).
  assert (forall agent u, unprocessed (log s) u -> ToAgentID u = agent -> active s agent) as Hcov.
  { intros agent u Hu <-. by apply covered_active, calm_covered. }
  split; cbn; rewrite ?(ext_log _ _ He).
  - intros agent. rewrite Hset. split; [|by intros [?|[? _]]; auto].
    intros Ha. destruct (active_dec s agent); [by left|by right].
  - intros agent id. rewrite Hset. split; intros [Ha (u & Hid & Hag & Hu)]; (split; [|by exists u]); [by eapply Hcov|auto].
  - done.
  - done.
  - done.
Qed.

(** [C14] The runtime implements its specification: when the residents are not capped
    and [Send] does not block, each step of an orderly run (no eviction or shutdown, no
    panic or deferral, no [Append] that fails after its effect, no failure of a
    handler or overflow while the mailbox is first drained) is an action of the
    protocol - the [Append] of a send is [Send], marking an update is [Process], leaving
    the map of residents is [Passivate], with its condition that no update is waiting -
    or not seen by it, or the end of a sweep, which the protocol does not know in this
    form: it may wake agents, but only passive ones that have no backlog. *)
Theorem actor_refines_protocol o l s e s' :
  plain o -> orderly_run o l s -> orderly s e = true -> step e s = Some s' ->
  Protocol.equiv (abs s') (abs s) \/ Protocol.next (abs s) (abs s') \/
  exists i W, e = SweepRun i /\ (forall agent, W agent -> Protocol.no_work (abs s) agent) /\
    Protocol.equiv (abs s') (Protocol.wake W (abs s)).
Proof.
  intros Hp Hs%run_calm Ho Hstep; [|done].
  assert (forall P Q R : Prop, P \/ Q -> P \/ Q \/ R) as Hor by tauto.
  destruct e; try done; cbn [step] in Hstep;
    lazymatch goal with |- context [SweepRun _ = SweepRun _] => idtac | |- _ => apply Hor end.
  - injection Hstep as <-. by apply send_refines.
  - injection Hstep as <-. cbn in Ho. apply negb_true_iff in Ho as ->. left. unfold send_fails.
    destruct (incomplete u); (apply abs_equiv; [done|]; intros; apply add_returned_active).
  - destruct (threads s !! i) as [[u| | |]|] eqn:Ht; try done.
    pose proof (deliver_active i u s) as Hact. left. destruct (deliver u s) as [s1 t] eqn:Ed. injection Hstep as <-.
    apply abs_equiv; [|intros agent; by apply Hact]. intros id. cbn.
    assert (log s1 = log s) as ->; [|done]. unfold deliver in Ed. pose proof (activate_frame s (ToAgentID u)) as (_ & El & _).
    destruct (activateLocked (ToAgentID u) s). repeat case_match; by simplify_eq.
  - destruct (threads s !! i) as [[|u ch| |]|] eqn:Ht; try done. by destruct (calm_threads _ Hs i u ch).
  - destruct (threads s !! i) as [[|u ch| |]|] eqn:Ht; try done. by destruct (calm_threads _ Hs i u ch).
  - injection Hstep as <-. left. apply abs_equiv; [done|]. intros agent. unfold active. cbn.
    split; (intros [(i & u & Hi & Hu)|Hx]; [left|by right]); exists i, u; (split; [|done]).
    + apply lookup_app_Some in Hi as [Hi|[_ Hi]]; [done|]. by apply list_lookup_singleton_Some in Hi as [_ Hi].
    + by apply lookup_app_l_Some.
  - right. right. exists i. destruct (threads s !! i) as [[| |agents|]|] eqn:Ht; try done.
    destruct (sweep_refines i agents s s' Hs Ht) as (W & HW & He); [by cbn [step]; rewrite Ht|]. by exists W.
  - by eapply act_refines.
Qed.
End Orderly.

(** ** What is left behind in other runs *)
Module Demo.
Definition options (cap : Z) (backpressure : bool) (mode : SendMode) : Options := Build_Options 0 0 cap 0 backpressure mode 0.
Definition plain_options : Options := options 1 false SendModeNonBlocking.
Definition update (id : string) : Update := Build_Update id "agent" "" "" "" "" 1.
Definition booted (o : Options) : @Runtime SQLiteLog := boot o NewSQLiteLog.

(** Every actor has passivated, every call has returned without an error, and an update
    is not processed: only another send to the agent, or a restart, will find it. *)
Definition abandoned (u : Update) (s : option (@Runtime SQLiteLog)) : bool :=
  match s with
  | Some s =>
    bool_decide (entry (log s) (UpdateID u) = Some (u, false))
    && forallb (fun a => match at_ a with Gone => true | _ => false end) (acts s)
    && forallb (fun t => bool_decide (t = Returned None)) (threads s)
  | None => false
  end.

Definition go (o : outcome) : event := Act 0 1 o.
Definition again (n : nat) : list event := replicate n (go Done).
Definition ok : event := go (Handled None).

(** A first update wakes the agent and is replayed, up to the first draining of the
    mailbox. *)
Definition replayed : list event :=
  [Send 1 (update "u0"); Deliver 0] ++ again 3 ++ [ok] ++ again 3.

(** Then a second one is handled; the third finds room in the mailbox and the fourth
    does not. *)
Definition overflow : list event :=
  replayed ++ [Send 1 (update "u1"); Deliver 1; go Done; Send 1 (update "u2"); Deliver 2;
    Send 1 (update "u3"); Deliver 3; ok] ++ again 2 ++ [ok] ++ again 2 ++ [go Timeout; go Done].

(** Or the handler fails once on the second one. *)
Definition failure : list event :=
  replayed ++ [Send 1 (update "u1"); Deliver 1; go Done; go HandlerError] ++ again 2 ++ [go Timeout; go Done].

(** Or, when [Send] may block, the actor passivates between the look at the map and the
    operation on the channel. *)
Definition blocking : list event :=
  replayed ++ [go Done; Send 1 (update "u1"); Deliver 1; go Timeout; go Done; Accepted 1].

(** Or an eviction during the handler is swept before the activation has left. *)
Definition swept_too_soon : list event :=
  [Send 1 (update "u0"); Deliver 0] ++ again 3 ++ [EvictAgent "agent"; Sweep; SweepRun 1; Cancel 0; go HandlerError;
    go CtxDone; go Done; go CtxDone; go Done].

(** The cold start drains the mailbox without the query of the backlog that follows
    every other draining. So an update dropped because the mailbox was full, or one
    whose handler failed once, is not found again: neither an eviction nor a
    shutdown, a panic, a deferral or an error of the log is needed. *)
Lemma cold_failure_abandons : abandoned (update "u1") (run failure (booted plain_options)) = true.
Proof. vm_compute. reflexivity. Qed.

Lemma blocking_send_abandons :
  abandoned (update "u1") (run blocking (booted (options 1 true SendModeBlocking))) = true.
Proof. vm_compute. reflexivity. Qed.

Lemma early_sweep_abandons : abandoned (update "u0") (run swept_too_soon (booted plain_options)) = true.
Proof. vm_compute. reflexivity. Qed.
End Demo.

(** An overflow of the mailbox during the cold start leaves an update behind: there
    is a run without an eviction or shutdown, a panic, a deferral, a failure of the
    handler or an error of the log, after which every actor has passivated and every
    send has returned without an error, and the update is still not processed. *)
Theorem cold_overflow_abandons :
  Demo.abandoned (Demo.update "u3") (run Demo.overflow (Demo.booted Demo.plain_options)) = true
  /\ forallb (fun e => match e with
                       | Send _ _ | Deliver _ | Act _ _ Done | Act _ _ (Handled _) | Act _ _ Timeout => true
                       | _ => false
                       end) Demo.overflow = true.
Proof. split; vm_compute; reflexivity. Qed.

(** ** Witnesses *)
Module Witness.
Import Demo.

Fixpoint orderly_events (es : list event) (s : @Runtime SQLiteLog) : option (@Runtime SQLiteLog) :=
  match es with
  | [] => Some s
  | e :: es => if orderly s e then match step e s with Some s => orderly_events es s | None => None end else None
  end.

Lemma orderly_events_run o l es s s' :
  orderly_run o l s -> orderly_events es s = Some s' -> orderly_run o l s'.
Proof.
  revert s. induction es as [|e es IH]; intros s Hs; cbn; [by intros [= <-]|].
  destruct (orderly s e) eqn:Ho; [|done]. destruct (step e s) as [s1|] eqn:E; [|done].
  apply IH. by eapply orderly_step.
Qed.

Definition big : Options := options 10 false SendModeNonBlocking.

(** Two updates are logged; the first is handled and not yet marked, the second in the mailbox. *)
Definition busy_events : list event :=
  [Send 1 (update "u1"); Deliver 0; go Done; go Done; go Done; ok; Send 1 (update "u2"); Deliver 1].
Definition busy : @Runtime SQLiteLog := default (booted big) (orderly_events busy_events (booted big)).

Lemma busy_orderly : orderly_run big NewSQLiteLog busy.
Proof.
  apply (orderly_events_run _ _ busy_events (booted big)); [constructor|]. vm_compute. reflexivity.
Qed.

Lemma big_plain : plain big.
Proof. split; [done|by left]. Qed.

Lemma no_update_left_behind_witness : covered busy (update "u2").
Proof.
  apply (no_update_left_behind big NewSQLiteLog busy big_plain busy_orderly). vm_compute. reflexivity.
Defined.

Definition the_act : activation := default (new_activation "") (acts busy !! 0%nat).
Definition rested : @Runtime SQLiteLog := work (fun _ _ m => m) 1 0 (steps_left (log busy) the_act) busy.

Lemma work_terminates_witness :
  orderly_run big NewSQLiteLog rested /\ Unprocessed "agent" (log rested) = [].
Proof.
  split; [|vm_compute; reflexivity].
  apply (work_terminates (fun _ _ m => m) 1 big NewSQLiteLog busy "agent" 0 the_act big_plain busy_orderly);
    vm_compute; reflexivity.
Defined.

(** A step of the activation, and a sweep that was begun before. *)
Definition sweeping : @Runtime SQLiteLog := default busy (orderly_events [Sweep] busy).

Lemma sweeping_orderly : orderly_run big NewSQLiteLog sweeping.
Proof. apply (orderly_events_run _ _ [Sweep] busy); [apply busy_orderly|]. vm_compute. reflexivity. Qed.

Lemma actor_refines_protocol_witness :
  (let s' := default busy (step (go Done) busy) in
   Protocol.equiv (abs s') (abs busy) \/ Protocol.next (abs busy) (abs s') \/
   exists i W, go Done = SweepRun i /\ (forall agent, W agent -> Protocol.no_work (abs busy) agent) /\
     Protocol.equiv (abs s') (Protocol.wake W (abs busy))) /\
  (let s' := default sweeping (step (SweepRun 2) sweeping) in
   Protocol.equiv (abs s') (abs sweeping) \/ Protocol.next (abs sweeping) (abs s') \/
   exists i W, SweepRun 2 = SweepRun i /\ (forall agent, W agent -> Protocol.no_work (abs sweeping) agent) /\
     Protocol.equiv (abs s') (Protocol.wake W (abs sweeping))).
Proof.
  split.
  - apply (actor_refines_protocol big NewSQLiteLog busy (go Done) _ big_plain busy_orderly); vm_compute; reflexivity.
  - apply (actor_refines_protocol big NewSQLiteLog sweeping (SweepRun 2) _ big_plain sweeping_orderly); vm_compute; reflexivity.
Defined.
End Witness.
End ActorProtocol.
